(* ===== verification/_CoqProject ===== *)
-Q . S2P
Prelude.v
CString.v
Posix.v
Path.v
PathSpec.v
PathRelative.v
PathProps.v
Prog.v
Foreign.v
State.v
Logging.v
Kernel.v
Backing.v
Inode.v
Seek.v
Image.v
FdOps.v
StatOps.v
DirOps.v
StateFacts.v
Invariant.v
ImageFacts.v
MountFacts.v
FdFacts.v
Demo.v
LogProps.v
InodeProps.v
SeekProps.v
ReadProps.v
BackingProps.v
FdProps.v
StatProps.v
LoadProps.v
DirFacts.v
DirProps.v
OpendirFacts.v
EnumFacts.v
OpendirSteps.v
OpendirProps.v
HookTable.v
HookFacts.v
HookProps.v
Listing.v
ListingProps.v
System.v
SystemFacts.v
SystemProps.v
Lock.v
LockFacts.v
LockProps.v
