(* ===== verification/Prelude.v ===== *)
(** * hooksqfs: a verification development

    hooksqfs is a shared library that a process preloads.  Its constructor
    patches thirteen functions of the C library ([open], [read], [pread],
    [lseek], [close], [opendir], [readdir], [closedir], [access], [__xstat] and
    their variants) with hooks that lay a read-only squashfs image under the
    real file system below a prefix directory: the real file system answers
    first, and what it does not have comes from the image.  This development
    models every function of the library (the C files [utils.c], [logging.c],
    [sqfs_mgr.c], [hooksqfs.c] with their headers) and proves what the hooks do.

    ** The program and its parts

    The hooks are atomic-action trees ([Prog]: [prog W A], executed by [run])
    over one state ([State.world]): the world outside, [errno] of each thread,
    the recursive mutex, the manager [g_xSqfsMgr], the heap of the objects the
    library allocates, the table [g_xLibcFuncs] and the static counters.  A null
    or dangling pointer, a double free and an access outside an array are
    [Fault], waiting for the mutex is [Blocked], a loop that exhausts its fuel
    is [Spin]; a hook that ends is [Done].

    - Basis.  [Prelude]: integers of a width, tactics.  [CString]: the string
      functions of C over explicit arrays.  [Posix]: the two targets of the
      Makefile and the constants.  [Prog], [State], [StateFacts]: programs,
      states, and the rules to execute a program on an explicit state.
    - Outside code.  [Foreign]: the functions the sources call and do not
      contain (libc, libsquashfs, uthash), as parameters; [HookTable.Funchook]
      for funchook, dlsym and pthread attributes.  [Kernel], [HookFacts],
      [ListingProps]: the laws assumed of them.  [Demo]: concrete functions for
      which all the laws hold, on which every property is evaluated.
    - [Path] with [PathSpec], [PathRelative], [PathProps]: the path functions of
      [utils.c].  [Backing], [BackingProps]: the backing descriptors and
      streams of [utils.c].
    - [Logging], [LogProps]: [logging.c].
    - [Inode], [InodeProps]: error numbers and attributes in [sqfs_mgr.c].
      [Seek], [SeekProps]: file positions.
    - [Image], [ImageFacts], [MountFacts], [LoadProps]: the image, which paths
      are in it, finding an inode, loading and unloading.
    - [FdOps], [FdFacts], [FdProps], [ReadProps]: [sqfs_open], [sqfs_read],
      [sqfs_pread], [sqfs_lseek], [sqfs_close] and their variants.
    - [StatOps], [StatProps]: [sqfs_xstat] and [sqfs_access].
    - [DirOps], [DirFacts], [DirProps], [OpendirFacts], [EnumFacts],
      [OpendirSteps], [OpendirProps]: the directory streams.
    - [Listing], [ListingProps]: [test_sqfs_listing].
    - [HookTable], [HookFacts], [HookProps]: [hooksqfs.c].
    - [System], [SystemFacts], [SystemProps]: the hooks together.  [Lock],
      [LockFacts], [LockProps]: the hooks of several threads at once.

    Definitions carry the names of the C functions.  The branch after a [goto]
    label, the body of a loop and the part of a function that runs under the
    mutex are definitions of their own, called where the code reaches them.

    ** What the theorems show

    - The whole.  [Invariant.wf] is the invariant of the manager: every heap
      object has one owner, the tables and the heap agree, every key is open.
      [system_refines]: every run of the library, any calls of any threads with
      the world outside moving in between, is a run of an abstract machine whose
      state is two maps (descriptor to inode and offset, stream to the entries
      still to come) and whose steps give the result of each call from that
      state, the image and the answer of the real function.
      [hooks_always_end]: after the constructor installed the hooks no call
      faults, blocks or spins.  [descriptor_stable]: the state of a descriptor
      changes only through calls on it.  [hooks_race_free]: in every
      interleaving of the single actions of several threads, only the holder of
      the mutex touches the manager and the heap, and there is no deadlock.
    - Each hook.  One theorem per hook gives result, error number, the change of
      the abstract state, the objects allocated and released and the calls made,
      on every branch ([sqfs_open_correct], [sqfs_read_correct], ...,
      [sqfs_opendir_correct]); [reads_stream_content], [readdir_listing],
      [open_close_roundtrip] and [opendir_readdir_image] put them together.
    - Paths.  The pointer code of [path_normalize_lexical] never leaves its
      arrays, ends, and computes a fold over the components; normal forms are
      canonical; [path_relative_to_root] decides containment of components and
      its result joins back to the path.
    - Positions and attributes.  [sqfs_lseek_correct] and
      [sqfs_fill_stat_correct] compare the machine arithmetic of the code, for
      both targets, with unbounded integers; the first names the two cases in
      which the code departs from POSIX ([hole_at_end], [negative_data]).
    - The hook table.  [install_hooks] patches everything or restores the table;
      the constructor establishes the invariant; removing undoes installing.
    - Defects the model shows are theorems too, or cases of one: the merged
      component of a relative path, the entries [enumerate_dir] leaks, the file
      object released without its destructor, the aliases that are patched
      twice, the terminator in a cut log line, the read of a multiple of 4 GiB
      that delivers nothing, the temporary name that stays when its removal
      fails, the [d_type] of the kinds that are neither file nor directory, the
      null pointer [test_sqfs_listing] destroys.

    ** Laws, bounds and fuel

    Nothing is assumed globally.  A theorem names the laws it uses as type
    classes: [UtHashSpec] (a table built by adding a key at most once is a map),
    [KernelSpec] (which calls open and close descriptors and streams),
    [WriteSpec] ([write] transfers a prefix, and is interrupted boundedly often
    in a row), [NameSpec] (exclusive creation, and removal, which may
    fail), [EnvSpec], [ReaddirSpec] (a real
    stream returns its entries one by one), [ContentSpec] (the data reader
    returns bytes of the file), [DirSpec] (a directory reader returns the
    entries of its directory, whose names have the 255 bytes Linux allows),
    [ImageSpec] (sizes are 64-bit), [ListingSpec], [FunchookSpec].  [Demo] has
    an instance of each.

    Loops with a bound in the code (128 temporary names) or in their input (a
    path shorter than [PATH_MAX], a buffer, a table) carry it and are proved to
    need no more.  Two loops depend on the outside: the write loop of the log
    and the reading of a directory.  They take the fuel [Logging.Fuel], which
    [WriteSpec] and [DirSpec] require to exceed the interruptions and the
    bytes of a line, and the length of every directory; under these laws the
    theorems prove that the result is never [Spin].

    ** What is not modelled

    - The code of libsquashfs, uthash, funchook and the C library: parameters,
      as above.  That libsquashfs may itself call a hooked function of the same
      thread is inside such a parameter; the mutex is recursive in the model and
      the hooks are proved for every depth at which the thread holds it.
    - A default mutex (when the attribute cannot be set) differs only in that
      reentry; the constructor records the kind it created.
    - [readdir] returns the value of the entry its result points to.  The text
      that [vsnprintf] makes of the arguments of a log line is an argument.
    - Whether [sqfs_destroy] accepts a null pointer ([test_sqfs_listing] without
      an image) is a parameter, and the theorem covers both answers.
    - [system_refines] runs calls one after another; interleaving inside calls
      is the subject of [hooks_race_free], which concerns the discipline of the
      mutex and not results.
    - [test_concurrent.c] (a test program), the build files and the documents;
      [path_is_under_prefix] of [utils.c], which is commented out. *)

From Stdlib Require Export ZArith Lia Ascii String.
From stdpp Require Export base list option gmap strings.

#[global] Open Scope Z_scope.
#[global] Open Scope list_scope.

(** ** Machine integers *)

(** The value an unsigned [w]-bit object holds after storing [z]. *)
Definition wrap_u (w z : Z) : Z := z mod 2 ^ w.

(** The value a signed (two's complement) [w]-bit object holds. *)
Definition wrap_s (w z : Z) : Z := (z + 2 ^ (w - 1)) mod 2 ^ w - 2 ^ (w - 1).

Definition UINT64_MAX : Z := 2 ^ 64 - 1.
Definition INT64_MAX : Z := 2 ^ 63 - 1.
Definition INT64_MIN : Z := - 2 ^ 63.

(** [flag_set flags m]: the C test [(flags & m) != 0]. *)
Definition flag_set (flags m : Z) : bool := negb (Z.land flags m =? 0).

(** ** Automation *)

(** Split the innermost [match] or [if] of a hypothesis or the goal. *)
Ltac case_step :=
  match goal with
  | |- context [match ?x with _ => _ end] =>
      lazymatch x with context [match _ with _ => _ end] => fail | _ => destruct x eqn:? end
  | H : context [match ?x with _ => _ end] |- _ =>
      lazymatch x with context [match _ with _ => _ end] => fail | _ => destruct x eqn:? end
  end.

(** Boolean comparisons of [Z] turned into propositions everywhere. *)
Ltac zbool :=
  repeat match goal with
  | H : (_ =? _) = true |- _ => apply Z.eqb_eq in H
  | H : (_ =? _) = false |- _ => apply Z.eqb_neq in H
  | H : (_ <? _) = true |- _ => apply Z.ltb_lt in H
  | H : (_ <? _) = false |- _ => apply Z.ltb_ge in H
  | H : (_ <=? _) = true |- _ => apply Z.leb_le in H
  | H : (_ <=? _) = false |- _ => apply Z.leb_gt in H
  end.

Create HintDb sqfs discriminated.

(** ** Lemmas on machine integers *)

Lemma wrap_u_id w z : 0 <= z < 2 ^ w -> wrap_u w z = z.
Proof. intros; apply Z.mod_small; lia. Qed.

Lemma wrap_u_range w z : 0 <= w -> 0 <= wrap_u w z < 2 ^ w.
Proof. intros; apply Z.mod_pos_bound; lia. Qed.

Lemma wrap_s_id w z :
  0 < w -> - 2 ^ (w - 1) <= z < 2 ^ (w - 1) -> wrap_s w z = z.
Proof.
  intros Hw Hz. unfold wrap_s.
  assert (2 ^ w = 2 * 2 ^ (w - 1)) by (rewrite <- Z.pow_succ_r by lia; f_equal; lia).
  rewrite Z.mod_small; lia.
Qed.

Lemma wrap_s_range w z :
  0 < w -> - 2 ^ (w - 1) <= wrap_s w z < 2 ^ (w - 1).
Proof.
  intros Hw. unfold wrap_s.
  assert (2 ^ w = 2 * 2 ^ (w - 1)) by (rewrite <- Z.pow_succ_r by lia; f_equal; lia).
  pose proof (Z.mod_pos_bound (z + 2 ^ (w - 1)) (2 ^ w)). lia.
Qed.

#[export] Hint Resolve wrap_u_id wrap_u_range wrap_s_id wrap_s_range : sqfs.
