(* ===== verification/CString.v ===== *)
(** * C strings and byte buffers

    The part of the C string library the sources use, over explicit memory:
    a buffer is the list of the bytes of an array, a C string is the list of
    its characters without the terminating NUL.  An operation that would read
    or write outside its array has no result ([None]). *)

From S2P Require Import Prelude.

(** ** Data *)

(** The bytes of a [char] array. *)
Abbreviation buf := (list ascii).

(** The characters of a C string, without the terminating NUL. *)
Abbreviation cstr := (list ascii).

Definition NUL : ascii := "000"%char.
Definition SLASH : ascii := "/"%char.

(** A string literal. *)
Definition lit (s : string) : cstr := String.list_ascii_of_string s.

(** A C string never contains NUL. *)
Definition nul_free (s : cstr) : Prop := NUL ∉ s.

#[export] Instance nul_free_dec s : Decision (nul_free s) := _.

(** ** [string.h] on buffers *)

(** The C string stored at the start of a buffer: the bytes before the first
    NUL, and nothing when the array holds no NUL. *)
Fixpoint c_string (b : buf) : option cstr :=
  match b with
  | [] => None
  | c :: b' => if decide (c = NUL) then Some [] else cons c <$> c_string b'
  end.

Definition c_string_at (b : buf) (i : nat) : option cstr := c_string (drop i b).

Definition strlen (b : buf) : option Z := (λ s, Z.of_nat (length s)) <$> c_string b.

(** [memcpy(b + i, bytes, length bytes)]. *)
Definition buf_write (b : buf) (i : nat) (bytes : list ascii) : option buf :=
  if decide (i + length bytes <= length b)%nat
  then Some (take i b ++ bytes ++ drop (i + length bytes) b)
  else None.

Definition strcpy (b : buf) (s : cstr) : option buf := buf_write b 0 (s ++ [NUL]).

Definition strcmp_eq (a b : cstr) : bool := bool_decide (a = b).

(** [strncmp(a, b, n) == 0]. *)
Fixpoint strncmp_eq (a b : cstr) (n : nat) {struct n} : bool :=
  match n, a, b with
  | O, _, _ => true
  | S _, [], [] => true
  | S n, x :: a, y :: b => bool_decide (x = y) && strncmp_eq a b n
  | S _, _, _ => false
  end.

(** The position of the first delimiter or NUL of a byte sequence, and
    whether it is a delimiter. *)
Fixpoint scan_delim (d : ascii) (b : buf) : option (nat * bool) :=
  match b with
  | [] => None
  | c :: b' =>
      if decide (c = NUL) then Some (O, false)
      else if decide (c = d) then Some (O, true)
      else (λ r, (S r.1, r.2)) <$> scan_delim d b'
  end.

(** [strsep(&p, "d")] over the array [b]: the token (an offset into the
    array), the array with the delimiter overwritten by NUL, and the new
    value of [p].  [None] for [p] is the null pointer. *)
Definition strsep (d : ascii) (b : buf) (p : option nat)
    : option (option nat * buf * option nat) :=
  match p with
  | None => Some (None, b, None)
  | Some i =>
      '(n, found) ← scan_delim d (drop i b);
      if (found : bool)
      then b' ← buf_write b (i + n) [NUL]; Some (Some i, b', Some (i + n + 1)%nat)
      else Some (Some i, b, None)
  end.

(** Splitting a string at every occurrence of a delimiter: what a loop of
    [strsep] calls enumerates.  The result is never empty. *)
Fixpoint split_at (d : ascii) (s : cstr) : list cstr :=
  match s with
  | [] => [[]]
  | c :: s' =>
      if decide (c = d) then [] :: split_at d s'
      else match split_at d s' with
           | t :: ts => (c :: t) :: ts
           | [] => [[c]]
           end
  end.

(** Goals [nul_free] (or any decidable fact) on closed strings. *)
Ltac by_compute := apply (bool_decide_unpack _); vm_compute; exact I.

(** ** Buffers and the strings they hold *)

Lemma c_string_app s b : nul_free s -> c_string (s ++ NUL :: b) = Some s.
Proof.
  unfold nul_free. induction s as [|c s IH]; simpl; intros H; [done|].
  apply not_elem_of_cons in H as [Hc Hs].
  rewrite decide_False by congruence. by rewrite IH.
Qed.

Lemma c_string_inv b s :
  c_string b = Some s -> nul_free s ∧ ∃ b', b = s ++ NUL :: b'.
Proof.
  unfold nul_free. revert s; induction b as [|c b IH]; intros s; simpl; [done|].
  case_decide; [intros [= <-]; subst; split; [apply not_elem_of_nil|by exists b]|].
  destruct (c_string b) as [s'|] eqn:E; simpl; [|done]. intros [= <-].
  destruct (IH _ eq_refl) as (Hn & b' & ->). split; [|by exists b'].
  apply not_elem_of_cons; split; congruence.
Qed.

Lemma c_string_length b s : c_string b = Some s -> (length s < length b)%nat.
Proof. intros Hb. apply c_string_inv in Hb as (_ & b' & ->). rewrite length_app; simpl; lia. Qed.

Lemma strlen_spec b s : c_string b = Some s -> strlen b = Some (Z.of_nat (length s)).
Proof. unfold strlen. by intros ->. Qed.

Lemma buf_write_length b i l b' : buf_write b i l = Some b' -> length b' = length b.
Proof.
  unfold buf_write. case_decide; [|done]. intros [= <-].
  rewrite !length_app, length_take, length_drop. lia.
Qed.

Lemma buf_write_Some b i l :
  (i + length l <= length b)%nat ->
  buf_write b i l = Some (take i b ++ l ++ drop (i + length l) b).
Proof. intros. unfold buf_write. by rewrite decide_True. Qed.

(** Appending at the end of the stored string. *)
Lemma buf_write_append b s l :
  c_string b = Some s -> nul_free l ->
  (length s + length l < length b)%nat ->
  ∃ b', buf_write b (length s) (l ++ [NUL]) = Some b' ∧
        c_string b' = Some (s ++ l) ∧ length b' = length b.
Proof.
  intros Hb Hl Hlen. apply c_string_inv in Hb as (Hs & b0 & ->).
  rewrite buf_write_Some by (rewrite length_app; simpl; lia).
  eexists; split; [done|split].
  - rewrite take_app_length, <- app_assoc, app_assoc. simpl.
    apply c_string_app. unfold nul_free in *. set_solver.
  - rewrite !length_app, length_take, length_drop, !length_app in *. simpl in *. lia.
Qed.

Lemma strcpy_spec b s :
  nul_free s -> (length s < length b)%nat ->
  ∃ b', strcpy b s = Some b' ∧ c_string b' = Some s ∧ length b' = length b.
Proof.
  intros Hs Hlen. unfold strcpy. rewrite buf_write_Some by (rewrite length_app; simpl; lia).
  eexists; split; [done|]. simpl. split.
  - rewrite <- app_assoc. by apply c_string_app.
  - rewrite !length_app, length_drop. simpl. lia.
Qed.

Lemma buf_write_prefix b b' j l k :
  buf_write b j l = Some b' -> (k <= j)%nat -> take k b' = take k b.
Proof.
  unfold buf_write. case_decide; [|done]. intros [= <-] Hk.
  rewrite take_app_le by (rewrite length_take; lia). rewrite take_take. f_equal; lia.
Qed.

(** A string only depends on the bytes up to its NUL. *)
Lemma c_string_at_take b b' o s k :
  c_string_at b o = Some s -> take k b' = take k b ->
  (o + length s < k)%nat -> c_string_at b' o = Some s.
Proof.
  unfold c_string_at. intros Hs Hk Hlt.
  apply c_string_inv in Hs as (Hn & b0 & Hd).
  assert (Hp : take (S (length s)) (drop o b') = s ++ [NUL]).
  { rewrite take_drop_commute.
    replace (o + S (length s))%nat with ((o + S (length s)) `min` k)%nat by lia.
    rewrite <- take_take, Hk, take_take, Nat.min_l by lia.
    rewrite <- take_drop_commute, Hd.
    change (NUL :: b0) with ([NUL] ++ b0). rewrite app_assoc.
    apply take_app_length'. rewrite length_app; simpl; lia. }
  rewrite <- (take_drop (S (length s)) (drop o b')), Hp, <- app_assoc.
  by apply c_string_app.
Qed.

(** ** [strsep] enumerates [split_at] *)

Lemma split_at_cons d s : ∃ t ts, split_at d s = t :: ts.
Proof.
  induction s as [|c s (t & ts & IH)]; simpl; [by eauto|].
  rewrite IH. case_decide; eauto.
Qed.

(** The first delimiter found in a buffer is the one that splits the string
    the buffer holds. *)
Lemma scan_delim_spec d b s :
  d ≠ NUL -> c_string b = Some s ->
  ∃ t, nul_free t ∧ d ∉ t ∧
    ((∃ s', s = t ++ d :: s' ∧ split_at d s = t :: split_at d s' ∧
            scan_delim d b = Some (length t, true)) ∨
     (s = t ∧ split_at d s = [t] ∧ scan_delim d b = Some (length t, false))).
Proof.
  intros Hd. unfold nul_free. revert s.
  induction b as [|c b IH]; intros s; simpl; [done|].
  case_decide as Hc.
  { intros [= <-]. exists []. repeat split; try apply not_elem_of_nil. by right. }
  destruct (c_string b) as [s1|] eqn:E; simpl; [|done]. intros [= <-]; simpl.
  case_decide as Hcd.
  { subst c. exists []. repeat split; try apply not_elem_of_nil. left. by exists s1. }
  destruct (IH _ eq_refl) as (t & Hn & Ht & Hcase).
  exists (c :: t). rewrite !not_elem_of_cons. split; [done|]. split; [done|].
  destruct Hcase as [(s' & -> & -> & ->)|(-> & -> & ->)]; simpl; [left|right]; eauto.
Qed.

Lemma buf_write_drop b b' i l k :
  buf_write b i l = Some b' -> (i + length l <= k)%nat -> drop k b' = drop k b.
Proof.
  unfold buf_write. case_decide; [|done]. intros [= <-] Hk.
  rewrite drop_app_ge by (rewrite length_take; lia).
  rewrite drop_app_ge by (rewrite length_take; lia).
  rewrite drop_drop, length_take. f_equal. lia.
Qed.

(** One [strsep] call at a position that holds the string [s]: the token is
    the first piece of [s], it is now NUL terminated in place, and the rest
    of the array still holds the rest of [s]. *)
Lemma strsep_spec d b i s :
  d ≠ NUL -> c_string_at b i = Some s ->
  ∃ t b' p', strsep d b (Some i) = Some (Some i, b', p') ∧
    c_string_at b' i = Some t ∧ length b' = length b ∧ take i b' = take i b ∧
    d ∉ t ∧ (length t <= length s)%nat ∧
    match p' with
    | None => split_at d s = [t] ∧ s = t
    | Some j => ∃ s', s = t ++ d :: s' ∧ split_at d s = t :: split_at d s' ∧
                  j = (i + length t + 1)%nat ∧ c_string_at b' j = Some s'
    end.
Proof.
  unfold c_string_at. intros Hd Hs.
  destruct (scan_delim_spec d _ s Hd Hs) as (t & Hn & Ht & Hcase).
  unfold strsep.
  destruct Hcase as [(s' & Es & Hsp & Hsc)|(-> & Hsp & Hsc)]; rewrite Hsc; simpl.
  2: { exists t, b, None. repeat split; auto. }
  pose proof (c_string_inv _ _ Hs) as (_ & b0 & Hb).
  assert (Hlen : (i + length t + 1 <= length b)%nat).
  { apply (f_equal length) in Hb. rewrite length_drop, Es, !length_app in Hb.
    simpl in Hb. lia. }
  destruct (buf_write b (i + length t) [NUL]) as [b'|] eqn:Hw.
  2: { unfold buf_write in Hw. rewrite decide_True in Hw; [done|simpl; lia]. }
  simpl. exists t, b', (Some (i + length t + 1)%nat).
  assert (Hdrop : drop (i + length t) b' = NUL :: drop (i + length t + 1) b).
  { unfold buf_write in Hw. case_decide; [|done]. injection Hw as <-.
    rewrite drop_app_ge by (rewrite length_take; lia).
    rewrite length_take, Nat.min_l, Nat.sub_diag by lia. done. }
  split; [done|split].
  { rewrite <- (take_drop (length t) (drop i b')), drop_drop, Hdrop.
    rewrite take_drop_commute, (buf_write_prefix _ _ _ _ _ Hw) by lia.
    rewrite <- take_drop_commute, Hb, Es, <- app_assoc, take_app_length.
    by apply c_string_app. }
  split; [by eapply buf_write_length|].
  split; [by apply (buf_write_prefix _ _ _ _ _ Hw); lia|].
  split; [done|]. split; [rewrite Es, length_app; lia|].
  exists s'. repeat split; [done|done|].
  rewrite (buf_write_drop _ _ _ _ _ Hw) by (simpl; lia).
  rewrite <- Nat.add_assoc, <- drop_drop, Hb, Es, <- app_assoc, <- drop_drop, drop_app_length.
  simpl. apply c_string_app.
  apply (c_string_inv _ _) in Hs as [Hnf _]. unfold nul_free in *. set_solver.
Qed.


(** ** Reading a buffer through the string it holds *)

Lemma c_string_lookup b s i c : c_string b = Some s -> s !! i = Some c -> b !! i = Some c.
Proof. intros (_ & b' & ->)%c_string_inv Hi. by apply lookup_app_l_Some. Qed.

Lemma c_string_at_drop b s i :
  c_string b = Some s -> (i <= length s)%nat -> c_string_at b i = Some (drop i s).
Proof.
  intros (Hn & b' & ->)%c_string_inv Hi. unfold c_string_at.
  rewrite drop_app_le by done. apply c_string_app.
  intros Hin. apply Hn. rewrite <- (take_drop i s). apply elem_of_app. by right.
Qed.

Lemma strncmp_eq_prefix a b :
  (length b <= length a)%nat -> strncmp_eq a b (length b) = bool_decide (b `prefix_of` a).
Proof.
  revert a; induction b as [|y b IH]; intros a Hle; simpl.
  { done. }
  destruct a as [|x a]; simpl in *; [lia|]. rewrite IH by lia.
  case_bool_decide as Hxy; simpl.
  - subst. apply bool_decide_ext. split; [apply prefix_cons|apply prefix_cons_inv_2].
  - rewrite bool_decide_false; [done|]. intros ?%prefix_cons_inv_1. congruence.
Qed.
