(* ===== verification/Posix.v ===== *)
(** * Platform, POSIX and libsquashfs constants

    The two build targets of the Makefile ([BITS = 32] and [BITS = 64]), the
    values of the constants the sources take from the system headers (glibc on
    x86 Linux) and from libsquashfs ([sqfs/error.h], [sqfs/inode.h]). *)

From S2P Require Import Prelude CString.

(** ** Platform *)

Inductive target := BITS32 | BITS64.

(** The build target, and the unspecified bytes an uninitialised automatic
    array holds. *)
Class Platform := { BITS : target; stack_garbage : list ascii }.

(** Width of [size_t], [ssize_t], [long] and [off_t] (the build sets no
    [_FILE_OFFSET_BITS]). *)
Definition word_bits `{Platform} : Z := match BITS with BITS32 => 32 | BITS64 => 64 end.

Definition sizeof_off_t `{Platform} : Z := word_bits / 8.

Definition size_wrap `{Platform} (z : Z) : Z := wrap_u word_bits z.
Definition ssize_wrap `{Platform} (z : Z) : Z := wrap_s word_bits z.
Definition off_wrap `{Platform} (z : Z) : Z := wrap_s word_bits z.

(** An automatic [char] array of [n] bytes before its first write. *)
Definition uninit `{Platform} (n : Z) : buf :=
  take (Z.to_nat n) (stack_garbage ++ replicate (Z.to_nat n) NUL).

Definition PATH_MAX : Z := 4096.
#[global] Arguments PATH_MAX : simpl never.

(** ** errno *)

Definition ENOENT : Z := 2.
Definition EINTR : Z := 4.
Definition EIO : Z := 5.
Definition ENXIO : Z := 6.
Definition EBADF : Z := 9.
Definition ENOMEM : Z := 12.
Definition EACCES : Z := 13.
Definition EFAULT : Z := 14.
Definition EEXIST : Z := 17.
Definition ENOTDIR : Z := 20.
Definition EISDIR : Z := 21.
Definition EINVAL : Z := 22.
Definition EROFS : Z := 30.
Definition ENOSYS : Z := 38.
Definition EOVERFLOW : Z := 75.
Definition ENOTSUP : Z := 95.

(** ** open, access, lseek and stat *)

Definition O_RDONLY : Z := 0.
Definition O_WRONLY : Z := 1.
Definition O_RDWR : Z := 2.
Definition O_CREAT : Z := 0x40.
Definition O_EXCL : Z := 0x80.
Definition O_TRUNC : Z := 0x200.
Definition O_CLOEXEC : Z := 0x80000.
Definition O_TMPFILE : Z := 0x410000.
Definition MFD_CLOEXEC : Z := 1.

Definition R_OK : Z := 4.
Definition W_OK : Z := 2.
Definition X_OK : Z := 1.

Definition SEEK_SET : Z := 0.
Definition SEEK_CUR : Z := 1.
Definition SEEK_END : Z := 2.
Definition SEEK_DATA : Z := 3.
Definition SEEK_HOLE : Z := 4.

Definition S_IFIFO : Z := 0x1000.
Definition S_IFCHR : Z := 0x2000.
Definition S_IFDIR : Z := 0x4000.
Definition S_IFBLK : Z := 0x6000.
Definition S_IFREG : Z := 0x8000.
Definition S_IFLNK : Z := 0xa000.
Definition S_IFSOCK : Z := 0xc000.
Definition S_IFMT : Z := 0xf000.

Definition DT_DIR : Z := 4.
Definition DT_REG : Z := 8.

(** ** libsquashfs *)

Definition SQFS_ERROR_ALLOC : Z := -1.
Definition SQFS_ERROR_IO : Z := -2.
Definition SQFS_ERROR_COMPRESSOR : Z := -3.
Definition SQFS_ERROR_INTERNAL : Z := -4.
Definition SQFS_ERROR_CORRUPTED : Z := -5.
Definition SQFS_ERROR_UNSUPPORTED : Z := -6.
Definition SQFS_ERROR_OVERFLOW : Z := -7.
Definition SQFS_ERROR_OUT_OF_BOUNDS : Z := -8.
Definition SFQS_ERROR_SUPER_MAGIC : Z := -9.
Definition SFQS_ERROR_SUPER_VERSION : Z := -10.
Definition SFQS_ERROR_SUPER_BLOCK_SIZE : Z := -11.
Definition SQFS_ERROR_NOT_DIR : Z := -12.
Definition SQFS_ERROR_NO_ENTRY : Z := -13.
Definition SQFS_ERROR_LINK_LOOP : Z := -14.
Definition SQFS_ERROR_NOT_FILE : Z := -15.
Definition SQFS_ERROR_ARG_INVALID : Z := -16.
Definition SQFS_ERROR_SEQUENCE : Z := -17.

Definition SQFS_INODE_DIR : Z := 1.
Definition SQFS_INODE_FILE : Z := 2.
Definition SQFS_INODE_SLINK : Z := 3.
Definition SQFS_INODE_BDEV : Z := 4.
Definition SQFS_INODE_CDEV : Z := 5.
Definition SQFS_INODE_FIFO : Z := 6.
Definition SQFS_INODE_SOCKET : Z := 7.
Definition SQFS_INODE_EXT_DIR : Z := 8.
Definition SQFS_INODE_EXT_FILE : Z := 9.
Definition SQFS_INODE_EXT_SLINK : Z := 10.
Definition SQFS_INODE_EXT_BDEV : Z := 11.
Definition SQFS_INODE_EXT_CDEV : Z := 12.
Definition SQFS_INODE_EXT_FIFO : Z := 13.
Definition SQFS_INODE_EXT_SOCKET : Z := 14.

Definition SQFS_FLAG_COMPRESSOR_OPTIONS : Z := 0x0400.
Definition SQFS_COMP_FLAG_UNCOMPRESS : Z := 0x8000.
Definition SQFS_FILE_OPEN_READ_ONLY : Z := 1.

(** ** Lemmas *)

Lemma word_bits_cases `{Platform} : word_bits = 32 ∨ word_bits = 64.
Proof. unfold word_bits; destruct BITS; auto. Qed.

Lemma uninit_length `{Platform} n : length (uninit n) = Z.to_nat n.
Proof. unfold uninit. rewrite length_take, length_app, length_replicate. lia. Qed.

#[export] Hint Resolve word_bits_cases uninit_length : sqfs.
