(* ===== verification/Path.v ===== *)
(** * Lexical path handling

    [utils.c]: [append_str], [path_normalize_lexical], [path_equals_normalized]
    and [path_relative_to_root], over the arrays and pointers of the code: the
    copy of the path that [strsep] cuts in place, the array of pointers to the
    tokens, and the output buffer.  A result of [None] is undefined behaviour
    (an access outside an array, or an uninitialised pointer) or, for the loop
    with fuel, no result within the fuel. *)

From S2P Require Import Prelude CString Posix.

Section path.
Context `{Platform}.

(** ** Output buffer *)

(** [append_str(out, out_size, s)]; a pointer argument is [None] when null. *)
Definition append_str (out : option buf) (out_size : Z) (s : option cstr)
    : option (bool * option buf) :=
  match out, s with
  | Some o, Some s' =>
      if out_size =? 0 then Some (false, out)
      else
        out_len ← strlen o;
        let s_len := Z.of_nat (length s') in
        if size_wrap (out_size - out_len) <=? s_len then Some (false, out)
        else
          o' ← buf_write o (Z.to_nat out_len) (s' ++ [NUL]);
          Some (true, Some o')
  | _, _ => Some (false, out)
  end.

(** ** Normalization *)

(** The locals of the tokenizing loop: the array [tmp], the pointer [p] into
    it, the array [parts] of token pointers (as offsets into [tmp], [None]
    while uninitialised) and [count]. *)
Record norm_state := NormState {
  ns_tmp : buf;
  ns_p : option nat;
  ns_parts : list (option nat);
  ns_count : nat;
}.

(** [parts[count++] = token]. *)
Definition push_part (tok : nat) (st : norm_state) : option norm_state :=
  if decide (ns_count st < length (ns_parts st))%nat
  then Some (NormState (ns_tmp st) (ns_p st)
               (<[ns_count st := Some tok]> (ns_parts st)) (S (ns_count st)))
  else None.

(** The string [parts[i]] points to. *)
Definition part_string (tmp : buf) (parts : list (option nat)) (i : nat) : option cstr :=
  o ← mjoin (parts !! i);
  c_string_at tmp o.

(** The body of the [while] loop, after [strsep] returned [tok]. *)
Definition norm_body (absolute : bool) (tok : nat) (st : norm_state) : option norm_state :=
  token ← c_string_at (ns_tmp st) tok;
  if strcmp_eq token [] || strcmp_eq token (lit ".") then Some st
  else if strcmp_eq token (lit "..") then
    pop ← (if decide (0 < ns_count st)%nat
           then top ← part_string (ns_tmp st) (ns_parts st) (ns_count st - 1);
                Some (negb (strcmp_eq top (lit "..")))
           else Some false);
    if (pop : bool)
    then Some (NormState (ns_tmp st) (ns_p st) (ns_parts st) (ns_count st - 1))
    else if negb absolute then push_part tok st
    else Some st
  else push_part tok st.

(** [while ((token = strsep(&p, "/")) != NULL)]. *)
Fixpoint norm_loop (fuel : nat) (absolute : bool) (st : norm_state) : option norm_state :=
  match fuel with
  | O => None
  | S fuel =>
      '(tok, tmp, p) ← strsep SLASH (ns_tmp st) (ns_p st);
      let st := NormState tmp p (ns_parts st) (ns_count st) in
      match tok with
      | None => Some st
      | Some tok => st ← norm_body absolute tok st; norm_loop fuel absolute st
      end
  end.

(** [append_str] on a non-null buffer. *)
Definition append_buf (out : buf) (out_size : Z) (s : cstr) : option (bool * buf) :=
  '(ok, o) ← append_str (Some out) out_size (Some s);
  o ← o;
  Some (ok, o).

(** The [for] loop that rebuilds the path, from index [i], [todo] iterations. *)
Fixpoint rebuild (absolute : bool) (tmp : buf) (parts : list (option nat))
    (out_size : Z) (todo i : nat) (out : buf) : option (bool * buf) :=
  match todo with
  | O => Some (true, out)
  | S todo =>
      '(ok, out) ←
        (if bool_decide (0 < i)%nat || absolute then
           len ← strlen out;
           if 1 <? len then append_buf out out_size (lit "/") else Some (true, out)
         else Some (true, out));
      if (ok : bool) then
        part ← part_string tmp parts i;
        '(ok, out) ← append_buf out out_size part;
        if (ok : bool) then rebuild absolute tmp parts out_size todo (S i) out
        else Some (false, out)
      else Some (false, out)
  end.

(** Enough iterations for every path that fits in [tmp]. *)
Definition norm_fuel : nat := S (S (Z.to_nat PATH_MAX)).

Definition path_normalize_lexical (input : option cstr) (out : option buf) (out_size : Z)
    : option (bool * option buf) :=
  match input, out with
  | Some s, Some o =>
      if out_size =? 0 then Some (false, out)
      else if PATH_MAX <=? Z.of_nat (length s) then Some (false, out)
      else
        tmp ← strcpy (uninit PATH_MAX) s;
        let absolute := bool_decide (head s = Some SLASH) in
        let parts := replicate (Z.to_nat (PATH_MAX / 2)) None in
        st ← norm_loop norm_fuel absolute (NormState tmp (Some O) parts O);
        o ← buf_write o 0 [NUL];
        '(ok, o) ← (if absolute then append_buf o out_size (lit "/") else Some (true, o));
        if (ok : bool) then
          '(ok, o) ← rebuild absolute (ns_tmp st) (ns_parts st) out_size (ns_count st) 0 o;
          if (ok : bool) then
            len ← strlen o;
            if len =? 0 then
              '(ok, o) ← append_buf o out_size (if absolute then lit "/" else lit ".");
              Some (ok, Some o)
            else Some (true, Some o)
          else Some (false, Some o)
        else Some (false, Some o)
  | _, _ => Some (false, out)
  end.

(** The string a call leaves in a local array of [PATH_MAX] bytes, or [None]
    inside when the call returned false. *)
Definition normalize_local (s : cstr) : option (option buf) :=
  '(ok, o) ← path_normalize_lexical (Some s) (Some (uninit PATH_MAX)) PATH_MAX;
  Some (if (ok : bool) then o else None).

Definition path_equals_normalized (a b : option cstr) : option bool :=
  match a, b with
  | Some a, Some b =>
      na ← normalize_local a;
      match na with
      | None => Some false
      | Some na =>
          nb ← normalize_local b;
          match nb with
          | None => Some false
          | Some nb => sa ← c_string na; sb ← c_string nb; Some (strcmp_eq sa sb)
          end
      end
  | _, _ => Some false
  end.

(** [while (root_len > 1 && norm_root[root_len - 1] == '/') root_len--]. *)
Fixpoint strip_trailing (norm_root : buf) (root_len : nat) : option nat :=
  match root_len with
  | S n =>
      if decide (1 < root_len)%nat then
        c ← norm_root !! n;
        if decide (c = SLASH) then strip_trailing norm_root n else Some root_len
      else Some root_len
  | O => Some root_len
  end.

(** [strcpy(relative_out, relative)] behind its length check. *)
Definition copy_relative (relative : cstr) (relative_out : buf) (relative_out_size : Z)
    : option (bool * option buf) :=
  if relative_out_size <=? Z.of_nat (length relative) then Some (false, Some relative_out)
  else o ← strcpy relative_out relative; Some (true, Some o).

Definition path_relative_to_root (root path : option cstr)
    (relative_out : option buf) (relative_out_size : Z) : option (bool * option buf) :=
  match root, path with
  | Some root, Some path =>
      let write_relative :=
        match relative_out with
        | Some o => if relative_out_size =? 0 then None else Some o
        | None => None
        end in
      nr ← normalize_local root;
      match nr with
      | None => Some (false, relative_out)
      | Some norm_root =>
      np ← normalize_local path;
      match np with
      | None => Some (false, relative_out)
      | Some norm_path =>
          nroot ← c_string norm_root;
          npath ← c_string norm_path;
          root_len ← strip_trailing norm_root (length nroot);
          let path_len := length npath in
          r0 ← norm_root !! O;
          if bool_decide (root_len = 1%nat) && bool_decide (r0 = SLASH) then
            p0 ← norm_path !! O;
            if negb (bool_decide (p0 = SLASH)) then Some (false, relative_out)
            else
              relative ← c_string_at norm_path 1;
              match write_relative with
              | None => Some (true, relative_out)
              | Some o => copy_relative relative o relative_out_size
              end
          else if bool_decide (path_len < root_len)%nat
                  || negb (strncmp_eq npath nroot root_len)
          then Some (false, relative_out)
          else if bool_decide (path_len = root_len) then
            match write_relative with
            | None => Some (true, relative_out)
            | Some o => o ← buf_write o 0 [NUL]; Some (true, Some o)
            end
          else
            c ← norm_path !! root_len;
            if negb (bool_decide (c = SLASH)) then Some (false, relative_out)
            else
              relative ← c_string_at norm_path (root_len + 1);
              match write_relative with
              | None => Some (true, relative_out)
              | Some o => copy_relative relative o relative_out_size
              end
      end end
  | _, _ => Some (false, relative_out)
  end.

End path.
