(* ===== verification/PathSpec.v ===== *)
(** * What path normalization computes

    The reference semantics of [Path]: a path is a list of components, and
    normalization folds them over a stack.  [normalize_run] is the functional
    refinement the other files use: the pointer-level code of [Path] never
    leaves its arrays, always terminates, and computes [norm_str]. *)

From S2P Require Import Prelude CString Posix Path.

(** ** Reference definitions *)

Definition is_absolute (s : cstr) : bool := bool_decide (head s = Some SLASH).

(** One component on the stack of kept components (top at the end). *)
Definition norm_step (absolute : bool) (st : list cstr) (tok : cstr) : list cstr :=
  if strcmp_eq tok [] || strcmp_eq tok (lit ".") then st
  else if strcmp_eq tok (lit "..") then
    match last st with
    | Some top =>
        if strcmp_eq top (lit "..")
        then (if absolute then st else st ++ [tok])
        else take (length st - 1) st
    | None => if absolute then st else st ++ [tok]
    end
  else st ++ [tok].

Definition norm_comps (absolute : bool) (s : cstr) : list cstr :=
  foldl (norm_step absolute) [] (split_at SLASH s).

(** What the rebuilding loop puts before component [i] when it has produced [s]. *)
Definition separator (absolute : bool) (i : nat) (s : cstr) : cstr :=
  if (bool_decide (0 < i)%nat || absolute) && bool_decide (1 < length s)%nat
  then lit "/" else [].

(** The text the rebuilding loop produces from component [i] on. *)
Fixpoint render_from (absolute : bool) (i : nat) (out : cstr) (cs : list cstr) : cstr :=
  match cs with
  | [] => out
  | c :: cs =>
      render_from absolute (S i) (out ++ separator absolute i out ++ c) cs
  end.

Definition render (absolute : bool) (cs : list cstr) : cstr :=
  let out := render_from absolute 0 (if absolute then lit "/" else []) cs in
  if decide (out = []) then (if absolute then lit "/" else lit ".") else out.

Definition norm_str (s : cstr) : cstr :=
  render (is_absolute s) (norm_comps (is_absolute s) s).

(** ** Invariants of the code *)

(** The first [length comps] entries of [parts] point to the strings
    [comps], all of them (with their NUL) before offset [bound]. *)
Definition parts_ok (tmp : buf) (parts : list (option nat)) (comps : list cstr)
    (bound : nat) : Prop :=
  ∀ k c, comps !! k = Some c ->
    ∃ o, parts !! k = Some (Some o) ∧ c_string_at tmp o = Some c ∧ (o + length c < bound)%nat.

(** The state between two iterations, for an input of [n] characters: [comps]
    is the reference stack and [toks] the tokens still to come. *)
Record loop_inv (n : nat) (st : norm_state) (comps toks : list cstr) : Prop := LoopInv {
  li_parts_len : length (ns_parts st) = Z.to_nat (PATH_MAX / 2);
  li_count : ns_count st = length comps;
  li_pos : match ns_p st with
           | None => toks = [] ∧ ∃ b, parts_ok (ns_tmp st) (ns_parts st) comps b
           | Some i => ∃ rest, c_string_at (ns_tmp st) i = Some rest ∧
               toks = split_at SLASH rest ∧ (i + length rest <= n)%nat ∧
               (2 * length comps <= i)%nat ∧
               parts_ok (ns_tmp st) (ns_parts st) comps i
           end;
}.

(** The result of a step that should make the buffer hold [s]: it succeeds
    exactly when [s] fits in [size] bytes. *)
Definition holds_if_fits (size : Z) (s : cstr) (o : buf) (r : option (bool * buf)) : Prop :=
  ∃ ok o', r = Some (ok, o') ∧ length o' = length o ∧
    ok = (Z.of_nat (length s) <? size) ∧ (ok = true -> c_string o' = Some s).

(** ** The reference step *)

Lemma norm_step_length a st t :
  (length (norm_step a st t) <= length st + if decide (t = []) then 0 else 1)%nat.
Proof.
  unfold norm_step, strcmp_eq.
  repeat case_bool_decide; simpl; repeat case_decide; subst; try done; try lia;
    repeat case_match; rewrite ?length_app, ?length_take; simpl; lia.
Qed.

Lemma norm_step_nil a st : norm_step a st [] = st.
Proof. done. Qed.

Lemma norm_step_elem a st t c : c ∈ norm_step a st t -> c ∈ st ∨ c = t ∧ t ≠ [].
Proof.
  unfold norm_step, strcmp_eq.
  repeat case_bool_decide; simpl; try tauto;
    repeat case_match; rewrite ?elem_of_app, ?list_elem_of_singleton; try tauto.
  intros Hc. left. eapply elem_of_subseteq; [|done]. apply subseteq_take.
Qed.

Lemma split_at_length d s : (length (split_at d s) <= S (length s))%nat.
Proof.
  induction s as [|c s IH]; simpl; [lia|].
  case_decide; simpl; [lia|]. destruct (split_at d s); simpl in *; lia.
Qed.

Section run.
Context `{Platform}.

(** ** Token pointers *)

Lemma parts_ok_string tmp parts comps bound k c :
  parts_ok tmp parts comps bound -> comps !! k = Some c ->
  part_string tmp parts k = Some c.
Proof.
  intros Hp Hk. destruct (Hp _ _ Hk) as (o & Ho & Hs & _).
  unfold part_string. rewrite Ho. done.
Qed.

Lemma parts_ok_take tmp parts comps bound n :
  parts_ok tmp parts comps bound -> parts_ok tmp parts (take n comps) bound.
Proof. intros Hp k c [Hk _]%lookup_take_Some. by apply Hp. Qed.

Lemma parts_ok_mono tmp parts comps b1 b2 :
  parts_ok tmp parts comps b1 -> (b1 <= b2)%nat -> parts_ok tmp parts comps b2.
Proof.
  intros Hp Hle k c Hk. destruct (Hp _ _ Hk) as (o & ? & ? & ?).
  exists o. repeat split; [done|done|lia].
Qed.

Lemma parts_ok_push tmp parts comps bound o t :
  parts_ok tmp parts comps bound -> (length comps < length parts)%nat ->
  c_string_at tmp o = Some t -> (o + length t < bound)%nat ->
  parts_ok tmp (<[length comps := Some o]> parts) (comps ++ [t]) bound.
Proof.
  intros Hp Hlen Hs Hb k c Hk.
  destruct (decide (k = length comps)) as [->|Hne].
  - rewrite lookup_app_r, Nat.sub_diag in Hk by lia. injection Hk as <-.
    exists o. rewrite list_lookup_insert_eq by lia. done.
  - assert (k < length comps)%nat.
    { apply lookup_lt_Some in Hk. rewrite length_app in Hk; simpl in Hk; lia. }
    rewrite lookup_app_l in Hk by lia.
    rewrite list_lookup_insert_ne by lia. by apply Hp.
Qed.

Lemma parts_ok_tmp tmp tmp' parts comps bound :
  parts_ok tmp parts comps bound -> take bound tmp' = take bound tmp ->
  parts_ok tmp' parts comps bound.
Proof.
  intros Hp Htk k c Hk. destruct (Hp _ _ Hk) as (o & Ho & Hs & Hlt).
  exists o. repeat split; [done| |done].
  by apply (c_string_at_take tmp _ _ _ bound).
Qed.

(** ** The loop body *)

Lemma push_part_ok tmp p parts comps bound tok t :
  parts_ok tmp parts comps bound -> (length comps < length parts)%nat ->
  c_string_at tmp tok = Some t -> (tok + length t < bound)%nat ->
  ∃ parts', push_part tok (NormState tmp p parts (length comps)) =
              Some (NormState tmp p parts' (length (comps ++ [t]))) ∧
    length parts' = length parts ∧ parts_ok tmp parts' (comps ++ [t]) bound.
Proof.
  intros Hp Hlen Hs Hb. unfold push_part; simpl. rewrite decide_True by done.
  rewrite length_app, Nat.add_comm. simpl. eexists; split; [done|].
  split; [apply length_insert|]. by apply parts_ok_push.
Qed.

Lemma norm_body_ok absolute tmp p parts comps bound tok t :
  parts_ok tmp parts comps bound ->
  c_string_at tmp tok = Some t -> (tok + length t < bound)%nat ->
  (t ≠ [] -> length comps < length parts)%nat ->
  ∃ parts', norm_body absolute tok (NormState tmp p parts (length comps)) =
              Some (NormState tmp p parts' (length (norm_step absolute comps t))) ∧
    length parts' = length parts ∧ parts_ok tmp parts' (norm_step absolute comps t) bound.
Proof.
  intros Hp Hs Hb Hroom. unfold norm_body, norm_step. cbn [ns_tmp ns_p ns_parts ns_count].
  rewrite Hs. cbn [mbind option_bind].
  destruct (strcmp_eq t []) eqn:E0; cbn [orb]; [by eauto|].
  assert (t ≠ []) as Hne by (intros ->; done).
  destruct (strcmp_eq t (lit ".")); [by eauto|].
  destruct (strcmp_eq t (lit "..")); [|by apply push_part_ok; auto].
  destruct (last comps) as [top|] eqn:Hlast.
  - assert (0 < length comps)%nat by (destruct comps; simpl; [done|lia]).
    rewrite last_lookup in Hlast.
    rewrite decide_True by done.
    replace (length comps - 1)%nat with (pred (length comps)) by lia.
    rewrite (parts_ok_string _ _ _ _ _ _ Hp Hlast). cbn [mbind option_bind].
    destruct (strcmp_eq top (lit "..")); cbn [negb].
    + destruct absolute; cbn [negb]; [by eauto|]. by apply push_part_ok; auto.
    + exists parts. rewrite length_take, Nat.min_l by lia.
      split; [done|]. split; [done|]. by apply parts_ok_take.
  - apply last_None in Hlast as ->. rewrite decide_False by (simpl; lia).
    destruct absolute; cbn [mbind option_bind negb]; [by eauto|].
    by apply (push_part_ok _ _ _ []); auto.
Qed.

(** ** The tokenizing loop *)

Lemma slash_not_nul : SLASH ≠ NUL.
Proof. done. Qed.

Lemma norm_loop_ok n absolute fuel : ∀ st comps toks,
  (Z.of_nat n < PATH_MAX) -> loop_inv n st comps toks -> (length toks < fuel)%nat ->
  ∃ st', norm_loop fuel absolute st = Some st' ∧
    loop_inv n st' (foldl (norm_step absolute) comps toks) [] ∧ ns_p st' = None.
Proof.
  induction fuel as [|fuel IH]; intros [tmp p parts count] comps toks Hn [Hlen Hc Hpos] Hfuel;
    [lia|].
  cbn [ns_tmp ns_p ns_parts ns_count] in *. subst count.
  destruct p as [i|]; cbn [norm_loop ns_tmp ns_p ns_parts ns_count].
  2: { destruct Hpos as [-> Hp]. cbn. eexists; split; [done|]. by split. }
  destruct Hpos as (rest & Hrest & -> & Hi & Hcount & Hparts).
  destruct (strsep_spec SLASH tmp i rest slash_not_nul Hrest)
    as (t & tmp' & p' & Hss & Ht & _ & Htk & _ & Htl & Hp').
  rewrite Hss. cbn [mbind option_bind].
  assert (Hparts' : parts_ok tmp' parts comps (i + length t + 1)).
  { apply (parts_ok_mono _ _ _ i); [by apply (parts_ok_tmp tmp)|lia]. }
  destruct (norm_body_ok absolute tmp' p' parts comps (i + length t + 1) i t)
    as (parts2 & Hb & Hlen2 & Hp2); [done|done|lia| |].
  { intros Hne. rewrite Hlen. change (PATH_MAX / 2) with 2048.
    assert (length t ≠ 0%nat) by (by destruct t).
    unfold PATH_MAX in Hn. lia. }
  rewrite Hb. cbn [mbind option_bind].
  pose proof (norm_step_length absolute comps t) as Hstep.
  destruct p' as [j|].
  - destruct Hp' as (s' & -> & Hsplit & -> & Hs'). rewrite Hsplit in *. simpl in Hfuel |- *.
    apply IH; [done| |lia]. split; cbn [ns_tmp ns_p ns_parts ns_count]; [congruence|done|].
    exists s'. split; [done|]. split; [done|].
    rewrite length_app in Hi. simpl in Hi. split; [lia|]. split; [|done].
    case_decide; [lia|]. destruct t; simpl in *; [done|lia].
  - destruct Hp' as [Hsplit ->]. rewrite Hsplit in *. simpl in Hfuel |- *.
    apply (IH _ _ []); [done| |simpl; lia].
    split; cbn [ns_tmp ns_p ns_parts ns_count]; [congruence|done|]. eauto.
Qed.

(** ** The output buffer *)

Lemma append_buf_ok o size s t :
  c_string o = Some s -> nul_free t -> Z.of_nat (length o) = size -> size < 2 ^ word_bits ->
  holds_if_fits size (s ++ t) o (append_buf o size t).
Proof.
  intros Hs Ht Hsize Hw. pose proof (c_string_length _ _ Hs) as Hlt.
  unfold append_buf, append_str, holds_if_fits. rewrite (strlen_spec _ _ Hs). cbn [mbind option_bind].
  destruct (Z.eqb_spec size 0); [lia|].
  unfold size_wrap. rewrite wrap_u_id by lia. rewrite length_app, Nat2Z.inj_add.
  destruct (Z.leb_spec (size - Z.of_nat (length s)) (Z.of_nat (length t))) as [Hle|Hgt].
  - cbn. exists false, o. repeat split; [|done]. symmetry. apply Z.ltb_ge. lia.
  - rewrite Nat2Z.id.
    destruct (buf_write_append o s t) as (o' & -> & Hs' & Hl'); [done|done|lia|].
    cbn. exists true, o'. repeat split; auto. symmetry. apply Z.ltb_lt. lia.
Qed.

Lemma holds_if_fits_refl size s o :
  c_string o = Some s -> Z.of_nat (length o) = size ->
  holds_if_fits size s o (Some (true, o)).
Proof.
  intros Hs Hl. pose proof (c_string_length _ _ Hs).
  exists true, o. repeat split; auto. symmetry. apply Z.ltb_lt. lia.
Qed.

(** Sequencing two such steps, the second of which extends the string. *)
Lemma holds_if_fits_bind size s1 s2 o r (k : buf -> option (bool * buf)) :
  holds_if_fits size s1 o r -> (length s1 <= length s2)%nat ->
  (∀ o', c_string o' = Some s1 -> length o' = length o -> holds_if_fits size s2 o' (k o')) ->
  holds_if_fits size s2 o ('(ok, o') ← r; if (ok : bool) then k o' else Some (false, o')).
Proof.
  intros (ok & o' & -> & Hl & Hok & Hs) Hle Hk. cbn. destruct ok.
  - destruct (Hk o' (Hs eq_refl) Hl) as (ok2 & o2 & -> & ? & ? & ?).
    exists ok2, o2. repeat split; [congruence|done|done].
  - exists false, o'. repeat split; [done| |done]. symmetry in Hok |- *.
    apply Z.ltb_ge in Hok. apply Z.ltb_ge. lia.
Qed.

Lemma render_from_length absolute i out cs :
  (length out <= length (render_from absolute i out cs))%nat.
Proof.
  revert i out; induction cs as [|c cs IH]; intros i out; simpl; [lia|].
  etransitivity; [|apply IH]. rewrite length_app. lia.
Qed.

Lemma separator_ok absolute i out size s :
  c_string out = Some s -> Z.of_nat (length out) = size -> size < 2 ^ word_bits ->
  holds_if_fits size (s ++ separator absolute i s) out
    (if bool_decide (0 < i)%nat || absolute then
       len ← strlen out;
       if 1 <? len then append_buf out size (lit "/") else Some (true, out)
     else Some (true, out)).
Proof.
  intros Hs Hl Hw. unfold separator.
  destruct (bool_decide (0 < i)%nat || absolute); cbn [andb];
    [|rewrite app_nil_r; by apply holds_if_fits_refl].
  rewrite (strlen_spec _ _ Hs). cbn [mbind option_bind].
  destruct (Z.ltb_spec 1 (Z.of_nat (length s))).
  - rewrite bool_decide_true by lia. apply append_buf_ok; [done|by_compute|done|done].
  - rewrite bool_decide_false, app_nil_r by lia. by apply holds_if_fits_refl.
Qed.

Lemma rebuild_ok absolute tmp parts size comps b : ∀ cs i out s,
  parts_ok tmp parts comps b -> drop i comps = cs -> (∀ c, c ∈ cs -> nul_free c) ->
  c_string out = Some s -> Z.of_nat (length out) = size -> size < 2 ^ word_bits ->
  holds_if_fits size (render_from absolute i s cs) out
    (rebuild absolute tmp parts size (length cs) i out).
Proof.
  induction cs as [|c cs IH]; intros i out s Hp Hdrop Hnf Hs Hsize Hw; cbn [rebuild length].
  { by apply holds_if_fits_refl. }
  assert (comps !! i = Some c) as Hi.
  { rewrite <- (Nat.add_0_r i), <- lookup_drop, Hdrop. done. }
  rewrite (parts_ok_string _ _ _ _ _ _ Hp Hi).
  assert (Hdrop' : drop (S i) comps = cs).
  { rewrite <- Nat.add_1_r, <- drop_drop, Hdrop. done. }
  assert (Hle := render_from_length absolute (S i) (s ++ separator absolute i s ++ c) cs).
  assert (Heq : render_from absolute i s (c :: cs) =
                render_from absolute (S i) (s ++ separator absolute i s ++ c) cs) by done.
  rewrite !length_app in Hle.
  eapply holds_if_fits_bind; [by apply separator_ok| |].
  { rewrite Heq, length_app. lia. }
  intros o1 Hs1 Hl1. cbn [mbind option_bind].
  eapply holds_if_fits_bind; [apply append_buf_ok; [done|apply Hnf; set_solver|congruence|done]| |].
  { rewrite Heq, !length_app. lia. }
  intros o2 Hs2 Hl2. rewrite Heq, app_assoc. apply IH; try done; [|congruence].
  intros c' Hc'. apply Hnf. set_solver.
Qed.

(** ** The whole function *)

Lemma split_at_elem d s t c : t ∈ split_at d s -> c ∈ t -> c ∈ s.
Proof.
  revert t; induction s as [|x s IH]; intros t; simpl.
  { intros ->%list_elem_of_singleton Hc. done. }
  case_decide.
  { intros [->|Ht]%elem_of_cons Hc; [by apply not_elem_of_nil in Hc|].
    right. by apply (IH t). }
  destruct (split_at_cons d s) as (u & us & Hs). rewrite Hs in IH |- *.
  intros [->|Ht]%elem_of_cons Hc.
  - apply elem_of_cons in Hc as [->|Hc]; [left|right; apply (IH u); [left|done]].
  - right. apply (IH t); [by right|done].
Qed.

Lemma norm_comps_elem a toks : ∀ st c,
  c ∈ foldl (norm_step a) st toks -> c ∈ st ∨ c ∈ toks.
Proof.
  induction toks as [|t toks IH]; intros st c; simpl; [auto|].
  intros [Hc|Hc]%IH; [|by right; right].
  apply norm_step_elem in Hc as [Hc|[-> _]]; [by left|right; left].
Qed.

Lemma norm_comps_nul_free a s c : nul_free s -> c ∈ norm_comps a s -> nul_free c.
Proof.
  intros Hs Hc Hn. apply norm_comps_elem in Hc as [Hc|Hc]; [by apply not_elem_of_nil in Hc|].
  eapply Hs, split_at_elem; eauto.
Qed.

Lemma buf_init_empty (o : buf) :
  o ≠ [] -> ∃ o', buf_write o 0 [NUL] = Some o' ∧ c_string o' = Some [] ∧ length o' = length o.
Proof.
  intros Ho. destruct o as [|x o]; [done|].
  rewrite buf_write_Some by (simpl; lia). eexists; split; [done|]. done.
Qed.

(** The tokenizing phase: no access outside [tmp] or [parts], no read of an
    uninitialised pointer, and it stops within the fuel. *)
Lemma tokenize_ok s :
  nul_free s -> Z.of_nat (length s) < PATH_MAX ->
  ∃ tmp st b, strcpy (uninit PATH_MAX) s = Some tmp ∧
    norm_loop norm_fuel (is_absolute s)
      (NormState tmp (Some O) (replicate (Z.to_nat (PATH_MAX / 2)) None) O) = Some st ∧
    ns_count st = length (norm_comps (is_absolute s) s) ∧
    parts_ok (ns_tmp st) (ns_parts st) (norm_comps (is_absolute s) s) b.
Proof.
  intros Hs Hlen.
  destruct (strcpy_spec (uninit PATH_MAX) s) as (tmp & Htmp & Hc & _);
    [done|rewrite uninit_length; lia|].
  destruct (norm_loop_ok (length s) (is_absolute s) norm_fuel
     (NormState tmp (Some O) (replicate (Z.to_nat (PATH_MAX / 2)) None) O) []
     (split_at SLASH s)) as (st & Hst & [_ Hcount Hpos] & Hp); [done| | |].
  - split; cbn [ns_tmp ns_p ns_parts ns_count]; [apply length_replicate|done|].
    exists s. unfold c_string_at. rewrite drop_0.
    split; [done|]. split; [done|]. split; [simpl; lia|]. split; [simpl; lia|].
    intros k c Hk. by rewrite lookup_nil in Hk.
  - pose proof (split_at_length SLASH s). unfold norm_fuel. lia.
  - rewrite Hp in Hpos. destruct Hpos as (_ & b & Hparts). by exists tmp, st, b.
Qed.

Lemma normalize_run s o size :
  nul_free s -> Z.of_nat (length s) < PATH_MAX ->
  Z.of_nat (length o) = size -> 0 < size < 2 ^ word_bits ->
  ∃ ok o', path_normalize_lexical (Some s) (Some o) size = Some (ok, Some o') ∧
    length o' = length o ∧ ok = (Z.of_nat (length (norm_str s)) <? size) ∧
    (ok = true -> c_string o' = Some (norm_str s)).
Proof.
  intros Hs Hlen Hsize Hw. unfold path_normalize_lexical.
  destruct (Z.eqb_spec size 0); [lia|]. destruct (Z.leb_spec PATH_MAX (Z.of_nat (length s))); [lia|].
  destruct (tokenize_ok s Hs Hlen) as (tmp & st & b & Htmp & Hloop & Hcount & Hparts).
  fold (is_absolute s). set (a := is_absolute s) in *. rewrite Htmp. cbn [mbind option_bind].
  rewrite Hloop. cbn [mbind option_bind].
  destruct (buf_init_empty o) as (o0 & Ho0 & Hc0 & Hl0); [by destruct o; simpl in *; [lia|]|].
  rewrite Ho0. cbn [mbind option_bind]. rewrite Hcount.
  assert (H1 : holds_if_fits size (if a then lit "/" else []) o0
     (if a then append_buf o0 size (lit "/") else Some (true, o0))).
  { destruct a; [|apply holds_if_fits_refl; [done|congruence]].
    apply (append_buf_ok _ _ []); [done|by_compute|congruence|lia]. }
  assert (H2 : holds_if_fits size (render_from a 0 (if a then lit "/" else []) (norm_comps a s)) o0
     ('(ok, o) ← (if a then append_buf o0 size (lit "/") else Some (true, o0));
      if (ok : bool) then rebuild a (ns_tmp st) (ns_parts st) size (length (norm_comps a s)) 0 o
      else Some (false, o))).
  { eapply holds_if_fits_bind; [exact H1|apply render_from_length|].
    intros o' Hc Hl. eapply rebuild_ok; eauto; [|congruence|lia].
    intros c. by apply norm_comps_nul_free. }
  clear H1. destruct H2 as (ok & o2 & Hrun & Hl2 & Hok & Hc2).
  set (R := render_from a 0 _ _) in *.
  destruct (if a then append_buf o0 size (lit "/") else Some (true, o0)) as [[ok1 o1]|];
    cbn [mbind option_bind] in Hrun |- *; [|done].
  assert (Hle : (length R <= length (norm_str s))%nat).
  { unfold norm_str, render. fold a. fold R. by case_decide as HR; [rewrite HR; simpl; lia|]. }
  destruct ok1; [|injection Hrun as <- <-; exists false, o1; repeat split; try done; [congruence|];
    symmetry; apply Z.ltb_ge; symmetry in Hok; apply Z.ltb_ge in Hok; lia].
  rewrite Hrun. cbn [mbind option_bind].
  destruct ok; [|exists false, o2; repeat split; try done; [congruence|];
    symmetry; apply Z.ltb_ge; symmetry in Hok; apply Z.ltb_ge in Hok; lia].
  specialize (Hc2 eq_refl). rewrite (strlen_spec _ _ Hc2). cbn [mbind option_bind].
  unfold norm_str, render. fold a. fold R.
  destruct (Z.eqb_spec (Z.of_nat (length R)) 0) as [HR|HR].
  - assert (R = []) as HR' by (destruct R; simpl in *; [done|lia]).
    rewrite decide_True by done. rewrite HR' in Hc2.
    destruct (append_buf_ok o2 size [] (if a then lit "/" else lit ".")) as (ok3 & o3 & -> & Hl3 & -> & Hc3);
      [done|destruct a; by_compute|congruence|lia|].
    eexists _, o3. split; [done|]. repeat split; [congruence|done].
  - rewrite decide_False by (intros ->; done). exists true, o2. repeat split; try done; congruence.
Qed.

End run.
