(* ===== verification/PathRelative.v ===== *)
(** * Paths below the overlay prefix

    The text normalization produces, as the canonical spelling of a location,
    and what [path_equals_normalized] and [path_relative_to_root] decide. *)

From S2P Require Import Prelude CString Posix Path PathSpec.

(** ** Reference definitions *)

(** Components joined by single slashes. *)
Definition join_slash (cs : list cstr) : cstr :=
  match cs with
  | [] => []
  | c :: cs => c ++ mjoin (cons SLASH <$> cs)
  end.

(** A component that names a directory entry. *)
Definition good_comp (c : cstr) : Prop :=
  c ≠ [] ∧ c ≠ lit "." ∧ c ≠ lit ".." ∧ SLASH ∉ c.

(** Walking a directory tree without symbolic links: a location is the list
    of names on the way from the root, [..] at the root stays there. *)
Definition walk_step (loc : list cstr) (tok : cstr) : list cstr :=
  if strcmp_eq tok [] || strcmp_eq tok (lit ".") then loc
  else if strcmp_eq tok (lit "..") then take (length loc - 1) loc
  else loc ++ [tok].

(** The location a path names for a process in directory [cwd]. *)
Definition resolve (cwd : list cstr) (s : cstr) : list cstr :=
  foldl walk_step (if is_absolute s then [] else cwd) (split_at SLASH s).

(** The part of a normalized path below a normalized root, on strings. *)
Definition relative_part (nroot npath : cstr) : option cstr :=
  if decide (nroot = [SLASH]) then
    match npath with
    | c :: r => if decide (c = SLASH) then Some r else None
    | [] => None
    end
  else if decide (nroot `prefix_of` npath) then
    match drop (length nroot) npath with
    | [] => Some []
    | c :: r => if decide (c = SLASH) then Some r else None
    end
  else None.

(** The size of the path text a list of components needs. *)
Definition weight (cs : list cstr) : nat := sum_list_with (λ c, S (length c)) cs.

(** What a call that found the relative part [r] (or found that there is
    none) returns and leaves in the output buffer. *)
Definition relative_result (out : option buf) (size : Z) (r : option cstr)
    (res : option (bool * option buf)) : Prop :=
  match r with
  | None => res = Some (false, out)
  | Some r =>
      match out with
      | None => res = Some (true, None)
      | Some o =>
          if size =? 0 then res = Some (true, out)
          else if size <=? Z.of_nat (length r) then res = Some (false, out)
          else ∃ o', res = Some (true, Some o') ∧ c_string o' = Some r ∧ length o' = length o
      end
  end.

Definition relative_spec (root path : cstr) : option cstr :=
  if decide (Z.of_nat (length root) < PATH_MAX ∧ Z.of_nat (length path) < PATH_MAX)
  then relative_part (norm_str root) (norm_str path) else None.

(** ** Splitting and joining *)

Lemma split_at_app d a b : split_at d (a ++ d :: b) = split_at d a ++ split_at d b.
Proof.
  induction a as [|c a IH]; simpl; [by rewrite decide_True|].
  case_decide; [by rewrite IH|]. rewrite IH.
  destruct (split_at_cons d a) as (t & ts & ->). done.
Qed.

Lemma split_at_none d s : d ∉ s -> split_at d s = [s].
Proof.
  induction s as [|c s IH]; simpl; [done|].
  intros [Hc Hs]%not_elem_of_cons. rewrite decide_False by congruence. by rewrite IH.
Qed.

Lemma split_at_no_delim d s t : t ∈ split_at d s -> d ∉ t.
Proof.
  revert t; induction s as [|c s IH]; intros t; simpl.
  { intros ->%list_elem_of_singleton. apply not_elem_of_nil. }
  case_decide; [intros [->|?]%elem_of_cons; [apply not_elem_of_nil|auto]|].
  destruct (split_at_cons d s) as (u & us & Hs). rewrite Hs in IH |- *.
  intros [->|Ht]%elem_of_cons.
  - apply not_elem_of_cons; split; [congruence|]. apply IH. left.
  - apply IH. by right.
Qed.

Lemma join_slash_cons c cs :
  cs ≠ [] -> join_slash (c :: cs) = c ++ SLASH :: join_slash cs.
Proof. by destruct cs. Qed.

Lemma split_join cs :
  cs ≠ [] -> Forall (λ c, SLASH ∉ c) cs -> split_at SLASH (join_slash cs) = cs.
Proof.
  induction cs as [|c cs IH]; intros Hne Hall; [done|].
  apply Forall_cons in Hall as [Hc Hcs].
  destruct (decide (cs = [])) as [->|Hcs'].
  - simpl. rewrite app_nil_r. by apply split_at_none.
  - rewrite join_slash_cons, split_at_app, split_at_none, IH by done. done.
Qed.

Lemma join_slash_app a b :
  a ≠ [] -> b ≠ [] -> join_slash (a ++ b) = join_slash a ++ SLASH :: join_slash b.
Proof.
  intros Ha Hb. induction a as [|c a IH]; [done|].
  destruct (decide (a = [])) as [->|Ha'].
  - simpl. rewrite app_nil_r. by rewrite <- join_slash_cons.
  - assert (a ++ b ≠ []) by (by intros [? _]%app_nil). rewrite <- app_comm_cons.
    by rewrite (join_slash_cons c a), (join_slash_cons c (a ++ b)), IH, <- app_assoc by done.
Qed.

(** ** The shape of the kept components *)

Lemma good_comp_no_slash cs : Forall good_comp cs -> Forall (λ c, SLASH ∉ c) cs.
Proof. intros H. eapply Forall_impl; [exact H|]. by intros c (_ & _ & _ & ?). Qed.

Lemma norm_step_good st t :
  Forall good_comp st -> SLASH ∉ t -> Forall good_comp (norm_step true st t).
Proof.
  intros Hst Ht. unfold norm_step, strcmp_eq.
  repeat case_bool_decide; simpl; try done.
  - destruct (last st); [|done]. case_match; [done|]. by apply Forall_take.
  - apply Forall_app; split; [done|]. constructor; [|done]. done.
Qed.

Lemma norm_comps_good s : Forall good_comp (norm_comps true s).
Proof.
  unfold norm_comps.
  assert (Htoks : Forall (λ t, SLASH ∉ t) (split_at SLASH s)).
  { apply Forall_forall. intros t. apply split_at_no_delim. }
  assert (H : Forall good_comp []) by constructor. revert H Htoks.
  generalize (@nil cstr). induction (split_at SLASH s) as [|t toks IH]; intros st Hst Htoks; [done|].
  apply Forall_cons in Htoks as [? ?]. simpl. apply IH; [|done]. by apply norm_step_good.
Qed.

(** On a stack without [..] the absolute step is a walk. *)
Lemma norm_step_walk st t : Forall good_comp st -> norm_step true st t = walk_step st t.
Proof.
  intros Hst. unfold norm_step, walk_step, strcmp_eq.
  repeat case_bool_decide; simpl; try done.
  destruct (last st) as [top|] eqn:Hl.
  - rewrite bool_decide_false; [done|]. intros ->.
    apply last_Some_elem_of in Hl. rewrite Forall_forall in Hst.
    destruct (Hst _ Hl) as (_ & _ & Hn & _). done.
  - apply last_None in Hl as ->. done.
Qed.

Lemma norm_comps_resolve cwd s : is_absolute s = true -> norm_comps true s = resolve cwd s.
Proof.
  intros Ha. unfold resolve, norm_comps. rewrite Ha.
  assert (Htoks : Forall (λ t, SLASH ∉ t) (split_at SLASH s)).
  { apply Forall_forall. intros t. apply split_at_no_delim. }
  assert (H : Forall good_comp []) by constructor. revert H Htoks.
  generalize (@nil cstr). induction (split_at SLASH s) as [|t toks IH]; intros st Hst Htoks; [done|].
  apply Forall_cons in Htoks as [? ?]. simpl. rewrite <- norm_step_walk by done.
  apply IH; [|done]. by apply norm_step_good.
Qed.

(** ** The rebuilt text *)

Lemma render_from_long a i out cs :
  (1 < length out)%nat -> (0 < i)%nat ->
  render_from a i out cs = out ++ mjoin (cons SLASH <$> cs).
Proof.
  revert i out; induction cs as [|c cs IH]; intros i out Hout Hi; simpl; [by rewrite app_nil_r|].
  unfold separator. rewrite (bool_decide_true (0 < i)%nat), (bool_decide_true (1 < length out)%nat) by lia.
  simpl. rewrite IH by (rewrite ?length_app; simpl; lia). by rewrite <- app_assoc.
Qed.

Lemma render_absolute cs :
  Forall good_comp cs -> render true cs = SLASH :: join_slash cs.
Proof.
  intros Hcs. unfold render. destruct cs as [|c cs]; [done|].
  apply Forall_cons in Hcs as [(Hne & _) _].
  cbn [render_from]. change (separator true 0 (lit "/")) with (@nil ascii).
  rewrite render_from_long; [done| |lia].
  rewrite length_app. destruct c; simpl; [done|lia].
Qed.

Lemma norm_str_absolute cwd s :
  is_absolute s = true -> norm_str s = SLASH :: join_slash (resolve cwd s).
Proof.
  intros Ha. unfold norm_str. rewrite Ha, render_absolute by apply norm_comps_good.
  by rewrite (norm_comps_resolve cwd).
Qed.

Lemma resolve_good cwd s : is_absolute s = true -> Forall good_comp (resolve cwd s).
Proof. intros Ha. rewrite <- norm_comps_resolve by done. apply norm_comps_good. Qed.

Lemma join_slash_nonempty cs : Forall good_comp cs -> cs ≠ [] -> join_slash cs ≠ [].
Proof.
  destruct cs as [|c cs]; [done|]. intros [(Hc & _) _]%Forall_cons _.
  simpl. by intros [? _]%app_nil.
Qed.

(** On absolute normalized paths the string comparison decides whether the
    root's components are a prefix of the path's components. *)
Lemma relative_part_absolute r p :
  Forall good_comp r -> Forall good_comp p ->
  relative_part (SLASH :: join_slash r) (SLASH :: join_slash p) =
    if decide (r `prefix_of` p) then Some (join_slash (drop (length r) p)) else None.
Proof.
  intros Hr Hp. unfold relative_part.
  destruct (decide (r = [])) as [->|Hne].
  { by destruct p. }
  pose proof (join_slash_nonempty r Hr Hne) as Hjr.
  rewrite decide_False by congruence.
  destruct (decide (r `prefix_of` p)) as [[k ->]|Hpre].
  - rewrite drop_app_length. destruct (decide (k = [])) as [->|Hk].
    + rewrite app_nil_r, decide_True by done. by rewrite drop_ge.
    + rewrite join_slash_app by done. rewrite app_comm_cons, decide_True by apply prefix_app_r, reflexivity.
      by rewrite drop_app_length, decide_True.
  - destruct (decide _) as [[x Hx]|]; [|done]. rewrite Hx, drop_app_length.
    rewrite <- app_comm_cons in Hx. injection Hx as Hx.
    apply good_comp_no_slash in Hr, Hp.
    assert (Hp0 : p ≠ []).
    { intros ->. simpl in Hx. symmetry in Hx. by apply app_nil in Hx as [? _]. }
    destruct x as [|c x].
    { destruct Hpre. rewrite app_nil_r in Hx.
      by rewrite <- (split_join p), <- (split_join r), Hx. }
    case_decide; [|done]. subst c. destruct Hpre.
    rewrite <- (split_join p), Hx, split_at_app, split_join by done. by apply prefix_app_r.
Qed.

(** ** Canonical paths resolve to themselves *)

Lemma walk_good loc cs : Forall good_comp cs -> foldl walk_step loc cs = loc ++ cs.
Proof.
  revert loc; induction cs as [|c cs IH]; intros loc Hcs; simpl; [by rewrite app_nil_r|].
  apply Forall_cons in Hcs as [(? & ? & ? & _) Hcs].
  rewrite IH by done. unfold walk_step, strcmp_eq.
  rewrite !bool_decide_false by done. simpl. by rewrite <- app_assoc.
Qed.

Lemma resolve_canonical cwd cs :
  Forall good_comp cs -> resolve cwd (SLASH :: join_slash cs) = cs.
Proof.
  intros Hcs. unfold resolve. unfold is_absolute. rewrite bool_decide_true by done.
  cbn [split_at]. rewrite decide_True by done. cbn [foldl].
  change (walk_step [] []) with (@nil cstr).
  destruct (decide (cs = [])) as [->|Hne]; [done|].
  rewrite split_join by (try done; by apply good_comp_no_slash). by apply walk_good.
Qed.

Lemma resolve_app cwd a b :
  resolve cwd (a ++ SLASH :: b) =
    foldl walk_step (if is_absolute (a ++ SLASH :: b) then foldl walk_step [] (split_at SLASH a)
                     else resolve cwd a) (split_at SLASH b).
Proof.
  unfold resolve. rewrite split_at_app, foldl_app. destruct a as [|x a]; [done|].
  unfold is_absolute. simpl. by case_bool_decide.
Qed.

(** ** Lengths *)

Lemma weight_app a b : weight (a ++ b) = (weight a + weight b)%nat.
Proof. unfold weight. apply sum_list_with_app. Qed.

Lemma weight_take n cs : (weight (take n cs) <= weight cs)%nat.
Proof. rewrite <- (take_drop n cs) at 2. rewrite weight_app. lia. Qed.

Lemma weight_split d s : weight (split_at d s) = S (length s).
Proof.
  induction s as [|c s IH]; simpl; [done|].
  case_decide; [by simpl; rewrite IH|].
  destruct (split_at_cons d s) as (t & ts & Hs). rewrite Hs in *. simpl in *. lia.
Qed.

Lemma norm_step_weight a st t :
  (weight (norm_step a st t) <= weight st + if decide (t = []) then 0 else S (length t))%nat.
Proof.
  unfold norm_step, strcmp_eq.
  repeat case_bool_decide; simpl; subst; try (case_decide; lia);
    repeat case_match; rewrite ?weight_app; simpl; try case_decide; subst; try done; try lia;
    pose proof (weight_take (length st - 1) st); lia.
Qed.

Lemma norm_foldl_weight a toks : ∀ st,
  (weight (foldl (norm_step a) st toks) <= weight st + weight toks)%nat.
Proof.
  induction toks as [|t toks IH]; intros st; simpl; [lia|].
  etransitivity; [apply IH|]. pose proof (norm_step_weight a st t).
  case_decide; subst; simpl in *; lia.
Qed.

Lemma render_from_weight a i out cs :
  (length (render_from a i out cs) <= length out + weight cs)%nat.
Proof.
  revert i out; induction cs as [|c cs IH]; intros i out; simpl; [lia|].
  etransitivity; [apply IH|]. rewrite !length_app.
  unfold separator. case_match; simpl; lia.
Qed.

Lemma render_weight (a : bool) cs :
  (length (render a cs) <= Nat.max 1 (weight cs - (if a then 0 else 1)))%nat.
Proof.
  unfold render. destruct cs as [|c cs]; [by destruct a|].
  case_decide as HR; [by destruct a; simpl; lia|].
  cbn [render_from]. clear HR.
  assert (Hsep : separator a 0 (if a then lit "/" else []) = []) by (by destruct a).
  rewrite Hsep. etransitivity; [apply render_from_weight|].
  rewrite !length_app. destruct a; simpl; lia.
Qed.

(** Normalizing never needs more room than the path itself (or one byte for
    the text of the empty path). *)
Lemma norm_str_length s : (length (norm_str s) <= Nat.max 1 (length s))%nat.
Proof.
  unfold norm_str. etransitivity; [apply render_weight|].
  unfold norm_comps. destruct s as [|c s]; [by vm_compute|].
  unfold is_absolute. simpl head. case_bool_decide as Ha.
  - injection Ha as ->. cbn [split_at]. rewrite decide_True by done. cbn [foldl].
    pose proof (norm_foldl_weight true (split_at SLASH s) (norm_step true [] [])) as Hw.
    rewrite weight_split in Hw. simpl in *. lia.
  - pose proof (norm_foldl_weight false (split_at SLASH (c :: s)) []) as Hw.
    rewrite weight_split in Hw. simpl in *. lia.
Qed.

Lemma norm_str_fits s :
  Z.of_nat (length s) < PATH_MAX -> Z.of_nat (length (norm_str s)) < PATH_MAX.
Proof. pose proof (norm_str_length s). unfold PATH_MAX. lia. Qed.

(** ** The last character of a normalized path *)

Lemma norm_comps_clean a s : Forall (λ c, c ≠ [] ∧ SLASH ∉ c) (norm_comps a s).
Proof.
  unfold norm_comps.
  assert (Htoks : Forall (λ t, SLASH ∉ t) (split_at SLASH s)).
  { apply Forall_forall. intros t. apply split_at_no_delim. }
  assert (H : Forall (λ c, c ≠ [] ∧ SLASH ∉ c) []) by constructor. revert H Htoks.
  generalize (@nil cstr). induction (split_at SLASH s) as [|t toks IH]; intros st Hst Htoks; [done|].
  apply Forall_cons in Htoks as [? ?]. simpl. apply IH; [|done].
  apply Forall_forall. intros c [Hc|[-> ?]]%norm_step_elem; [|done].
  by eapply Forall_forall in Hst.
Qed.

Lemma render_from_last a i out cs :
  Forall (λ c, c ≠ [] ∧ SLASH ∉ c) cs -> cs ≠ [] ->
  ∃ x, last (render_from a i out cs) = Some x ∧ x ≠ SLASH.
Proof.
  revert i out; induction cs as [|c cs IH]; intros i out Hcs Hne; [done|].
  apply Forall_cons in Hcs as [[Hc Hs] Hcs]. simpl.
  destruct (decide (cs = [])) as [->|Hcs']; [|by apply IH].
  simpl. rewrite !last_app.
  destruct (last c) as [x|] eqn:Hl; [|by apply last_None in Hl].
  exists x. split; [done|]. intros ->. apply Hs. by apply last_Some_elem_of.
Qed.

Lemma norm_str_last s : norm_str s = [SLASH] ∨ last (norm_str s) ≠ Some SLASH.
Proof.
  unfold norm_str, render.
  destruct (decide (norm_comps (is_absolute s) s = [])) as [->|Hne].
  - destruct (is_absolute s); [by left|right; vm_compute; discriminate].
  - right. destruct (render_from_last (is_absolute s) 0 (if is_absolute s then lit "/" else [])
      (norm_comps (is_absolute s) s) (norm_comps_clean _ _) Hne) as (x & Hx & ?).
    case_decide as HR; [by rewrite HR in Hx|]. rewrite Hx. congruence.
Qed.

Lemma norm_str_nonempty s : norm_str s ≠ [].
Proof. unfold norm_str, render. case_decide; [by destruct (is_absolute s)|done]. Qed.

(** ** Functional correctness of the two decisions *)

Section run.
Context `{Platform}.

Lemma PATH_MAX_size : PATH_MAX < 2 ^ word_bits.
Proof. destruct word_bits_cases as [-> | ->]; by vm_compute. Qed.

Lemma normalize_local_run s :
  nul_free s ->
  ∃ r, normalize_local s = Some r ∧
    match r with
    | None => PATH_MAX <= Z.of_nat (length s)
    | Some b => Z.of_nat (length s) < PATH_MAX ∧ c_string b = Some (norm_str s)
    end.
Proof.
  intros Hs. unfold normalize_local.
  destruct (Z.lt_ge_cases (Z.of_nat (length s)) PATH_MAX) as [Hlt|Hge].
  - destruct (normalize_run s (uninit PATH_MAX) PATH_MAX) as (ok & o & -> & _ & Hok & Hc); try done.
    { by rewrite uninit_length. }
    { split; [done|apply PATH_MAX_size]. }
    cbn. pose proof (proj2 (Z.ltb_lt _ _) (norm_str_fits _ Hlt)) as Hfit. rewrite Hfit in Hok. subst ok.
    eexists; split; [done|]. simpl. split; [done|by apply Hc].
  - unfold path_normalize_lexical. rewrite (proj2 (Z.eqb_neq PATH_MAX 0)) by done.
    rewrite (proj2 (Z.leb_le _ _) Hge). cbn. eauto.
Qed.

Lemma path_equals_normalized_run a b :
  nul_free a -> nul_free b ->
  path_equals_normalized (Some a) (Some b) =
    Some (bool_decide (Z.of_nat (length a) < PATH_MAX ∧ Z.of_nat (length b) < PATH_MAX ∧
                       norm_str a = norm_str b)).
Proof.
  intros Ha Hb. unfold path_equals_normalized.
  destruct (normalize_local_run a Ha) as (ra & -> & Hra). cbn [mbind option_bind].
  destruct ra as [na|]; [|rewrite bool_decide_false; [done|lia]].
  destruct (normalize_local_run b Hb) as (rb & -> & Hrb). cbn [mbind option_bind].
  destruct rb as [nb|]; [|rewrite bool_decide_false; [done|lia]].
  destruct Hra as [? ->], Hrb as [? ->]. cbn [mbind option_bind]. unfold strcmp_eq.
  f_equal. apply bool_decide_ext. tauto.
Qed.

Lemma strip_trailing_ok b s :
  c_string b = Some s -> s = [SLASH] ∨ last s ≠ Some SLASH ->
  strip_trailing b (length s) = Some (length s).
Proof.
  intros Hb [->|Hl]; [done|].
  destruct s as [|x s] using rev_ind; [done|]. clear IHs.
  rewrite last_snoc in Hl. rewrite length_app, Nat.add_comm. change (length [x] + length s)%nat with (S (length s)).
  cbn [strip_trailing].
  case_decide; [|done].
  rewrite (c_string_lookup _ _ (length s) x Hb) by (rewrite lookup_app_r, Nat.sub_diag by done; done).
  cbn. rewrite decide_False by congruence. done.
Qed.

Lemma copy_relative_ok r o size :
  nul_free r -> Z.of_nat (length o) = size ->
  relative_result (Some o) size (Some r)
    (if size =? 0 then Some (true, Some o) else copy_relative r o size).
Proof.
  intros Hr Ho. unfold relative_result, copy_relative.
  destruct (size =? 0); [done|]. destruct (Z.leb_spec size (Z.of_nat (length r))); [done|].
  destruct (strcpy_spec o r) as (o' & -> & ? & ?); [done|lia|]. cbn. eauto.
Qed.

Section output.
Context (out : option buf) (size : Z) (Hout : ∀ o, out = Some o -> Z.of_nat (length o) = size).

(** [write_relative]. *)
Abbreviation target :=
  (match out with Some o => if size =? 0 then None else Some o | None => None end).

Lemma write_part_ok r :
  nul_free r ->
  relative_result out size (Some r)
    (match target with None => Some (true, out) | Some o => copy_relative r o size end).
Proof.
  intros Hr. destruct out as [o|]; [|done]. pose proof (copy_relative_ok r o size Hr (Hout _ eq_refl)) as Hc.
  destruct (size =? 0); done.
Qed.

(** [relative_out[0] = '\0'] writes the empty part. *)
Lemma write_empty_ok :
  relative_result out size (Some [])
    (match target with
     | None => Some (true, out)
     | Some o => o ← buf_write o 0 [NUL]; Some (true, Some o)
     end).
Proof.
  assert (Hnil : nul_free []) by by_compute. pose proof (write_part_ok [] Hnil) as Hwr.
  destruct out as [o|]; [|done]. specialize (Hout _ eq_refl).
  unfold relative_result in Hwr |- *. destruct (Z.eqb_spec size 0); [done|].
  destruct (Z.leb_spec size (Z.of_nat (length (@nil ascii)))); [simpl in *; lia|].
  destruct (buf_init_empty o) as (o' & -> & ? & ?); [by destruct o; simpl in *; [lia|]|].
  cbn. eauto.
Qed.

End output.

Lemma nul_free_drop n s : nul_free s -> nul_free (drop n s).
Proof. intros Hs Hin. apply Hs. rewrite <- (take_drop n s). apply elem_of_app. by right. Qed.

(** The test for the root directory. *)
Lemma is_root_text c s :
  bool_decide (length (c :: s) = 1%nat) && bool_decide (c = SLASH) = bool_decide (c :: s = [SLASH]).
Proof.
  rewrite <- bool_decide_and. apply bool_decide_ext. simpl. split.
  - intros [Hl ->]. destruct s; [done|simpl in Hl; lia].
  - by intros [= -> ->].
Qed.

Lemma path_relative_run root path out size :
  nul_free root -> nul_free path ->
  (∀ o, out = Some o -> Z.of_nat (length o) = size) ->
  relative_result out size (relative_spec root path)
    (path_relative_to_root (Some root) (Some path) out size).
Proof.
  intros Hroot Hpath Hout. unfold path_relative_to_root, relative_spec.
  destruct (normalize_local_run root Hroot) as (rr & -> & Hrr). cbn [mbind option_bind].
  destruct rr as [nr|]; [|by rewrite decide_False by lia].
  destruct (normalize_local_run path Hpath) as (rp & -> & Hrp). cbn [mbind option_bind].
  destruct rp as [np|]; [|by rewrite decide_False by lia].
  destruct Hrr as [? Hnr], Hrp as [? Hnp]. rewrite decide_True by done. rewrite Hnr, Hnp.
  cbn [mbind option_bind]. rewrite (strip_trailing_ok _ _ Hnr) by apply norm_str_last.
  cbn [mbind option_bind]. pose proof (norm_str_nonempty root) as Hrne.
  pose proof (norm_str_nonempty path) as Hpne.
  pose proof (c_string_inv _ _ Hnp) as [Hpnf _].
  set (nroot := norm_str root) in *. set (npath := norm_str path) in *.
  destruct nroot as [|r0 nroot'] eqn:Er; [done|]. destruct npath as [|p0 npath'] eqn:Ep; [done|].
  rewrite (c_string_lookup _ _ 0 r0 Hnr) by done.
  rewrite (c_string_lookup _ _ 0 p0 Hnp) by done.
  rewrite (c_string_at_drop _ _ 1 Hnp) by (simpl; lia). cbn [mbind option_bind].
  rewrite <- Er, <- Ep in *. fold nroot npath.
  assert (Hcopy : ∀ n, nul_free (drop n npath)) by (intros; by apply nul_free_drop).
  assert (Hcond := is_root_text r0 nroot'). rewrite <- Er in Hcond.
  rewrite Hcond. unfold relative_part. clear Hcond.
  case_bool_decide as Hroot1.
  { rewrite decide_True by done. rewrite Ep. case_bool_decide; simpl negb; cbn [drop].
    - rewrite decide_True by done. specialize (Hcopy 1%nat). rewrite Ep in Hcopy.
      by apply write_part_ok.
    - by rewrite decide_False. }
  rewrite decide_False by done.
  destruct (decide (nroot `prefix_of` npath)) as [Hpre|Hpre].
  2: { case_bool_decide; [done|]. rewrite strncmp_eq_prefix by lia.
       by rewrite bool_decide_false. }
  pose proof (prefix_length _ _ Hpre) as Hlen. rewrite bool_decide_false by lia.
  rewrite strncmp_eq_prefix, bool_decide_true by done. cbn [orb negb].
  case_bool_decide as Heq.
  { rewrite drop_ge by lia. by apply write_empty_ok. }
  destruct (drop (length nroot) npath) as [|c r] eqn:Hd.
  { apply (f_equal length) in Hd. rewrite length_drop in Hd. simpl in Hd. lia. }
  assert (Hc : npath !! length nroot = Some c).
  { rewrite <- (Nat.add_0_r (length nroot)), <- lookup_drop, Hd. done. }
  rewrite (c_string_lookup _ _ _ _ Hnp Hc). cbn [mbind option_bind].
  case_bool_decide; cbn [negb]; [|by rewrite decide_False].
  rewrite decide_True by done. apply lookup_lt_Some in Hc.
  rewrite (c_string_at_drop _ _ _ Hnp) by lia. cbn [mbind option_bind].
  specialize (Hcopy (length nroot + 1)%nat). rewrite <- drop_drop, Hd in *. by apply write_part_ok.
Qed.

(** An absolute path that fits is always normalized, to the canonical text of
    the location it names. *)
Lemma normalize_absolute_run s o cwd :
  nul_free s -> is_absolute s = true -> Z.of_nat (length s) < PATH_MAX ->
  Z.of_nat (length o) = PATH_MAX ->
  ∃ o', path_normalize_lexical (Some s) (Some o) PATH_MAX = Some (true, Some o') ∧
    c_string o' = Some (SLASH :: join_slash (resolve cwd s)).
Proof.
  intros Hs Ha Hlen Ho.
  destruct (normalize_run s o PATH_MAX) as (ok & o' & -> & _ & Hok & Hc); try done.
  { split; [done|apply PATH_MAX_size]. }
  rewrite (proj2 (Z.ltb_lt _ _) (norm_str_fits _ Hlen)) in Hok. subst ok.
  exists o'. split; [done|]. rewrite <- (norm_str_absolute cwd) by done. by apply Hc.
Qed.

Lemma relative_spec_absolute root path :
  is_absolute root = true -> is_absolute path = true ->
  Z.of_nat (length root) < PATH_MAX -> Z.of_nat (length path) < PATH_MAX ->
  relative_spec root path =
    if decide (resolve [] root `prefix_of` resolve [] path)
    then Some (join_slash (drop (length (resolve [] root)) (resolve [] path))) else None.
Proof.
  intros. unfold relative_spec. rewrite decide_True by done.
  rewrite !(norm_str_absolute []) by done. apply relative_part_absolute; by apply resolve_good.
Qed.

End run.
