(* ===== verification/PathProps.v ===== *)
(** * Properties of the path functions

    The claims about [utils.c]'s path handling, each with a witness on a
    concrete path. *)

From S2P Require Import Prelude CString Posix Path PathSpec PathRelative.

(** The platform of the witnesses. *)
Definition demo_platform : Platform :=
  {| BITS := BITS32; stack_garbage := lit "uninitialised" |}.

Definition demo_buf : buf := replicate 64 NUL.

Section properties.
Context `{Platform}.

(** C8: [path_normalize_lexical] is memory safe, terminates and is
    functionally correct.  For every NUL-free path and every output array of
    [size > 0] bytes the call has a defined result: no access outside [tmp],
    [parts] or [out], no read of an uninitialised pointer, no exhausted loop
    fuel.  A path of [PATH_MAX] bytes or more is refused and leaves the output
    alone; otherwise the call succeeds exactly when the normalized text and its
    NUL fit, and then the output array holds that text. *)
Theorem path_normalize_correct s o size :
  nul_free s -> Z.of_nat (length o) = size -> 0 < size < 2 ^ word_bits ->
  if PATH_MAX <=? Z.of_nat (length s)
  then path_normalize_lexical (Some s) (Some o) size = Some (false, Some o)
  else ∃ o', path_normalize_lexical (Some s) (Some o) size =
               Some (Z.of_nat (length (norm_str s)) <? size, Some o') ∧
             length o' = length o ∧
             (Z.of_nat (length (norm_str s)) < size -> c_string o' = Some (norm_str s)).
Proof.
  intros Hs Ho Hsize. destruct (Z.leb_spec PATH_MAX (Z.of_nat (length s))) as [Hge|Hlt].
  - unfold path_normalize_lexical. rewrite (proj2 (Z.eqb_neq _ _)), (proj2 (Z.leb_le _ _)) by lia.
    done.
  - destruct (normalize_run s o size) as (ok & o' & -> & ? & -> & Hc); try done.
    exists o'. split; [done|]. split; [done|]. intros Hfit. by apply Hc, Z.ltb_lt.
Qed.

(** C17: an absolute path shorter than [PATH_MAX] is always normalized, to the
    canonical spelling of the location it names (a slash followed by the names
    on the way from the root, none of them empty, [.] or [..]); normalizing the
    result again gives the same text. *)
Theorem path_normalize_canonical s o o2 cwd :
  nul_free s -> is_absolute s = true -> Z.of_nat (length s) < PATH_MAX ->
  Z.of_nat (length o) = PATH_MAX -> Z.of_nat (length o2) = PATH_MAX ->
  ∃ o' o2' n,
    path_normalize_lexical (Some s) (Some o) PATH_MAX = Some (true, Some o') ∧
    c_string o' = Some n ∧ n = SLASH :: join_slash (resolve cwd s) ∧
    Forall good_comp (resolve cwd s) ∧
    path_normalize_lexical (Some n) (Some o2) PATH_MAX = Some (true, Some o2') ∧
    c_string o2' = Some n.
Proof.
  intros Hs Ha Hlen Ho Ho2. pose proof (resolve_good cwd s Ha) as Hgood.
  destruct (normalize_absolute_run s o cwd) as (o' & Hrun & Hc); try done.
  destruct (normalize_absolute_run (SLASH :: join_slash (resolve cwd s)) o2 cwd)
    as (o2' & Hrun2 & Hc2); try done.
  { by apply c_string_inv in Hc as [? _]. }
  { rewrite <- norm_str_absolute by done. by apply norm_str_fits. }
  rewrite resolve_canonical in Hc2 by done.
  by exists o', o2', (SLASH :: join_slash (resolve cwd s)).
Qed.

(** C31: on absolute paths shorter than [PATH_MAX], [path_equals_normalized]
    decides whether the two paths name the same location of a tree without
    symbolic links; the spelling does not matter. *)
Theorem path_equals_same_location a b :
  nul_free a -> nul_free b -> is_absolute a = true -> is_absolute b = true ->
  Z.of_nat (length a) < PATH_MAX -> Z.of_nat (length b) < PATH_MAX ->
  path_equals_normalized (Some a) (Some b) = Some (bool_decide (resolve [] a = resolve [] b)).
Proof.
  intros Ha Hb Haa Hab Hla Hlb. rewrite path_equals_normalized_run by done.
  f_equal. apply bool_decide_ext. rewrite !(norm_str_absolute []) by done. split.
  - intros (_ & _ & [= Heq]).
    rewrite <- (resolve_canonical [] (resolve [] a)), <- (resolve_canonical [] (resolve [] b))
      by (by apply resolve_good). by rewrite Heq.
  - by intros ->.
Qed.

(** C4: for absolute root and path shorter than [PATH_MAX],
    [path_relative_to_root] is true exactly when the location of the path is
    the location of the root or lies below it, component by component (so
    [/hook/somefolder2] is not below [/hook/somefolder]) and, when an output
    array is given, the relative part with its NUL fits in it; then the array
    holds the relative part.  In the other cases the array is unchanged. *)
Theorem path_relative_to_root_correct root path out size :
  nul_free root -> nul_free path -> is_absolute root = true -> is_absolute path = true ->
  Z.of_nat (length root) < PATH_MAX -> Z.of_nat (length path) < PATH_MAX ->
  (∀ o, out = Some o -> Z.of_nat (length o) = size) ->
  relative_result out size
    (if decide (resolve [] root `prefix_of` resolve [] path)
     then Some (join_slash (drop (length (resolve [] root)) (resolve [] path))) else None)
    (path_relative_to_root (Some root) (Some path) out size).
Proof.
  intros. rewrite <- relative_spec_absolute by done. by apply path_relative_run.
Qed.

(** C18: the relative part stays inside the root and loses nothing: it has no
    empty, [.] or [..] component, and appending it to the root names the
    location of the original path again. *)
Theorem path_relative_roundtrip root path o size o' :
  nul_free root -> nul_free path -> is_absolute root = true -> is_absolute path = true ->
  Z.of_nat (length root) < PATH_MAX -> Z.of_nat (length path) < PATH_MAX ->
  0 < size -> Z.of_nat (length o) = size ->
  path_relative_to_root (Some root) (Some path) (Some o) size = Some (true, Some o') ->
  ∃ rel, c_string o' = Some rel ∧
    (rel = [] ∨ Forall good_comp (split_at SLASH rel)) ∧
    resolve [] (root ++ SLASH :: rel) = resolve [] path.
Proof.
  intros Hr Hp Har Hap Hlr Hlp Hsize Ho Hrun.
  pose proof (path_relative_run root path (Some o) size Hr Hp) as Hspec.
  rewrite Hrun, relative_spec_absolute in Hspec by done.
  specialize (Hspec ltac:(by intros ? [= <-])). unfold relative_result in Hspec.
  pose proof (resolve_good [] root Har) as Hgr. pose proof (resolve_good [] path Hap) as Hgp.
  destruct (decide _) as [[k Hk]|]; [|done]. rewrite Hk, drop_app_length in Hspec.
  rewrite Hk, Forall_app in Hgp. destruct Hgp as [_ Hgk].
  destruct (Z.eqb_spec size 0); [lia|]. destruct (_ <=? _); [done|].
  destruct Hspec as (o'' & [= <-] & Hc & _). exists (join_slash k). split; [done|].
  assert (Habs : is_absolute (root ++ SLASH :: join_slash k) = true).
  { destruct root; [done|]. unfold is_absolute in *. done. }
  rewrite resolve_app, Habs, Hk.
  replace (foldl walk_step [] (split_at SLASH root)) with (resolve [] root)
    by (unfold resolve; by rewrite Har).
  destruct (decide (k = [])) as [->|Hne]; [split; [by left|]; by rewrite app_nil_r|].
  rewrite split_join by (try done; by apply good_comp_no_slash).
  split; [by right|]. by rewrite walk_good.
Qed.

(** C40: the rebuilding loop drops the separator after a first component of one
    character in a relative path: [x/d] is normalized to [xd], so the two
    different paths compare as equal. *)
Theorem path_normalize_merges_short_component x d o :
  nul_free [x] -> good_comp [x] -> nul_free d -> good_comp d ->
  Z.of_nat (length d) < PATH_MAX - 2 -> Z.of_nat (length o) = PATH_MAX ->
  (∃ o', path_normalize_lexical (Some (x :: SLASH :: d)) (Some o) PATH_MAX =
           Some (true, Some o') ∧ c_string o' = Some (x :: d)) ∧
  path_equals_normalized (Some (x :: SLASH :: d)) (Some (x :: d)) = Some true.
Proof.
  intros Hnx Hx Hnd Hd Hlen Ho.
  assert (Hxs : x ≠ SLASH) by (destruct Hx as (_ & _ & _ & Hx); set_solver).
  assert (Hrel1 : is_absolute (x :: SLASH :: d) = false) by (unfold is_absolute; rewrite bool_decide_false; [done|]; intros [= ?]; done).
  assert (Hrel2 : is_absolute (x :: d) = false) by (unfold is_absolute; rewrite bool_decide_false; [done|]; intros [= ?]; done).
  assert (Hstep : ∀ st c, good_comp c -> norm_step false st c = st ++ [c]).
  { intros st c (? & ? & ? & _). unfold norm_step, strcmp_eq. by rewrite !bool_decide_false. }
  assert (Hn1 : norm_str (x :: SLASH :: d) = x :: d).
  { unfold norm_str, norm_comps. rewrite Hrel1.
    change (x :: SLASH :: d) with ([x] ++ SLASH :: d).
    rewrite split_at_app, !split_at_none by (apply Hx || apply Hd). simpl.
    by rewrite !Hstep by done. }
  assert (Hn2 : norm_str (x :: d) = x :: d).
  { unfold norm_str, norm_comps. rewrite Hrel2.
    assert (good_comp (x :: d)).
    { destruct Hx as (_ & ? & _ & ?), Hd as (Hd0 & _ & _ & ?). repeat split; try done.
      - intros [= -> ?]. done.
      - intros [= -> ?]. done.
      - set_solver. }
    rewrite split_at_none by apply H0. simpl. by rewrite Hstep. }
  assert (Hnul : nul_free (x :: SLASH :: d) ∧ nul_free (x :: d)).
  { unfold nul_free in *. rewrite !not_elem_of_cons in *. by destruct Hnx. }
  destruct Hnul as [Hnul1 Hnul2]. split.
  - destruct (normalize_run (x :: SLASH :: d) o PATH_MAX) as (ok & o' & -> & _ & Hok & Hc);
      [done|simpl; lia|done|split; [done|apply PATH_MAX_size]|].
    rewrite Hn1 in *. rewrite (proj2 (Z.ltb_lt _ _)) in Hok by (simpl; lia). subst ok. eauto.
  - rewrite path_equals_normalized_run by done. rewrite Hn1, Hn2, bool_decide_true; [done|].
    simpl length. split; [lia|]. split; [lia|done].
Qed.

End properties.

(** ** Witnesses *)

#[local] Existing Instance demo_platform.

Lemma path_normalize_correct_witness :
  ∃ o', path_normalize_lexical (Some (lit "/a//../b/.")) (Some demo_buf) 64 =
          Some (Z.of_nat (length (norm_str (lit "/a//../b/."))) <? 64, Some o') ∧
        length o' = length demo_buf ∧
        (Z.of_nat (length (norm_str (lit "/a//../b/."))) < 64 ->
         c_string o' = Some (norm_str (lit "/a//../b/."))).
Proof.
  apply (path_normalize_correct (lit "/a//../b/.") demo_buf 64);
    [by_compute|reflexivity|split; reflexivity].
Defined.

Lemma path_normalize_canonical_witness :
  ∃ o' o2' n,
    path_normalize_lexical (Some (lit "/a//../b/.")) (Some (replicate (Z.to_nat PATH_MAX) NUL)) PATH_MAX
      = Some (true, Some o') ∧
    c_string o' = Some n ∧ n = SLASH :: join_slash (resolve [] (lit "/a//../b/.")) ∧
    Forall good_comp (resolve [] (lit "/a//../b/.")) ∧
    path_normalize_lexical (Some n) (Some (replicate (Z.to_nat PATH_MAX) NUL)) PATH_MAX
      = Some (true, Some o2') ∧
    c_string o2' = Some n.
Proof.
  apply path_normalize_canonical;
    [by_compute|reflexivity|reflexivity|by rewrite length_replicate|by rewrite length_replicate].
Defined.

Lemma path_equals_same_location_witness :
  path_equals_normalized (Some (lit "/hook/./img.sqfs")) (Some (lit "//hook/x/../img.sqfs")) = Some true ∧
  path_equals_normalized (Some (lit "/hook/img.sqfs")) (Some (lit "/hook/img")) = Some false.
Proof.
  split.
  - rewrite path_equals_same_location; [reflexivity|by_compute|by_compute|reflexivity..].
  - rewrite path_equals_same_location; [reflexivity|by_compute|by_compute|reflexivity..].
Defined.

Lemma path_relative_to_root_correct_witness :
  path_relative_to_root (Some (lit "/hook/somefolder")) (Some (lit "/hook/somefolder2/file"))
    (Some demo_buf) 64 = Some (false, Some demo_buf) ∧
  ∃ o', path_relative_to_root (Some (lit "/hook/")) (Some (lit "/hook/a/./b")) (Some demo_buf) 64
          = Some (true, Some o') ∧ c_string o' = Some (lit "a/b") ∧ length o' = length demo_buf.
Proof.
  split.
  - apply (path_relative_to_root_correct (lit "/hook/somefolder") (lit "/hook/somefolder2/file")
             (Some demo_buf) 64); [by_compute|by_compute|reflexivity..|by intros ? [= <-]].
  - apply (path_relative_to_root_correct (lit "/hook/") (lit "/hook/a/./b") (Some demo_buf) 64);
      [by_compute|by_compute|reflexivity..|by intros ? [= <-]].
Defined.

Lemma path_relative_roundtrip_witness :
  ∃ rel, c_string (lit "a/b" ++ replicate 61 NUL) = Some rel ∧
    (rel = [] ∨ Forall good_comp (split_at SLASH rel)) ∧
    resolve [] (lit "/hook/" ++ SLASH :: rel) = resolve [] (lit "/hook/a/./b").
Proof.
  apply (path_relative_roundtrip (lit "/hook/") (lit "/hook/a/./b") demo_buf 64);
    [by_compute|by_compute|reflexivity..].
Defined.

Lemma path_normalize_merges_witness :
  (∃ o', path_normalize_lexical (Some (lit "a/b")) (Some (replicate (Z.to_nat PATH_MAX) NUL)) PATH_MAX
           = Some (true, Some o') ∧ c_string o' = Some (lit "ab")) ∧
  path_equals_normalized (Some (lit "a/b")) (Some (lit "ab")) = Some true.
Proof.
  apply (path_normalize_merges_short_component "a"%char (lit "b"));
    [by_compute| |by_compute| |reflexivity|by rewrite length_replicate].
  - unfold good_comp. by_compute.
  - unfold good_comp. by_compute.
Defined.
