(* ===== verification/Prog.v ===== *)
(** * Programs as sequences of atomic actions

    A hook is a finite tree of atomic actions on a state: [Act f k] performs
    [f] and continues with [k] on its result.  [run] executes a program
    without interference; keeping the actions apart is what lets another
    thread's actions come in between. *)

From S2P Require Import Prelude.

(** ** Outcomes *)

(** [Blocked]: a mutex held by another thread; [Fault]: undefined behaviour
    (null or dangling pointer, unprotected access to shared state); [Spin]: a
    loop that did not end within its fuel. *)
Inductive outcome (A : Type) : Type :=
| Done (a : A)
| Blocked
| Fault
| Spin.
Arguments Done {A} _.
Arguments Blocked {A}.
Arguments Fault {A}.
Arguments Spin {A}.

Inductive prog (W A : Type) : Type :=
| Ret (a : A)
| Act {B : Type} (f : W -> outcome (B * W)) (k : B -> prog W A).
Arguments Ret {W A} _.
Arguments Act {W A B} _ _.

Section prog.
Context {W : Type}.

Fixpoint prog_bind {A B} (p : prog W A) (q : A -> prog W B) : prog W B :=
  match p with
  | Ret a => q a
  | Act f k => Act f (λ b, prog_bind (k b) q)
  end.

Definition outcome_bind {A B} (o : outcome A) (q : A -> outcome B) : outcome B :=
  match o with
  | Done a => q a
  | Blocked => Blocked
  | Fault => Fault
  | Spin => Spin
  end.

Fixpoint run {A} (p : prog W A) (w : W) : outcome (A * W) :=
  match p with
  | Ret a => Done (a, w)
  | Act f k => outcome_bind (f w) (λ r, run (k r.1) r.2)
  end.

(** A single action. *)
Definition act {B} (f : W -> outcome (B * W)) : prog W B := Act f Ret.

(** Reading and writing the state. *)
Definition gets {B} (f : W -> B) : prog W B := act (λ w, Done (f w, w)).
Definition modify (f : W -> W) : prog W unit := act (λ w, Done (tt, f w)).
Definition fault {B} : prog W B := act (λ _, Fault).
Definition spin {B} : prog W B := act (λ _, Spin).

(** Total correctness: the program ends normally from [w], and [Q] holds of
    its result and its final state. *)
Definition wp {A} (p : prog W A) (w : W) (Q : A -> W -> Prop) : Prop :=
  ∃ a w', run p w = Done (a, w') ∧ Q a w'.

End prog.

#[export] Instance prog_mret {W} : MRet (prog W) := λ A a, Ret a.
#[export] Instance prog_mbind {W} : MBind (prog W) := λ A B q p, prog_bind p q.

Notation "'do' x <- p ; q" := (prog_bind p (λ x, q))
  (at level 100, x name, p at level 99, q at level 200, right associativity).
Notation "'do' ' x <- p ; q" := (prog_bind p (λ x, q))
  (at level 100, x strict pattern, p at level 99, q at level 200, right associativity).
Notation "p ;; q" := (prog_bind p (λ _, q)) (at level 100, q at level 200, right associativity).

(** ** Running *)

Section lemmas.
Context {W : Type}.
Implicit Type w : W.

Lemma run_bind {A B} (p : prog W A) (q : A -> prog W B) w :
  run (prog_bind p q) w = outcome_bind (run p w) (λ r, run (q r.1) r.2).
Proof.
  revert w; induction p as [a|C f k IH]; intros w; simpl; [done|].
  destruct (f w) as [[c w']| | |]; simpl; [apply IH|done..].
Qed.

Lemma run_ret {A} (a : A) w : run (Ret a) w = Done (a, w).
Proof. done. Qed.

Lemma run_act {A} (f : W -> outcome (A * W)) w : run (act f) w = f w.
Proof. simpl. by destruct (f w) as [[? ?]| | |]. Qed.

Lemma wp_ret {A} (a : A) w (Q : A -> W -> Prop) : Q a w -> wp (Ret a) w Q.
Proof. intros. by exists a, w. Qed.

Lemma wp_bind {A B} (p : prog W A) (q : A -> prog W B) w Q :
  wp p w (λ a w', wp (q a) w' Q) -> wp (prog_bind p q) w Q.
Proof.
  intros (a & w' & Hp & b & w'' & Hq & HQ). exists b, w''. split; [|done].
  rewrite run_bind, Hp. done.
Qed.

Lemma wp_act {A} (f : W -> outcome (A * W)) w a w' (Q : A -> W -> Prop) :
  f w = Done (a, w') -> Q a w' -> wp (act f) w Q.
Proof. intros Hf HQ. exists a, w'. by rewrite run_act. Qed.

Lemma wp_gets {A} (f : W -> A) w (Q : A -> W -> Prop) : Q (f w) w -> wp (gets f) w Q.
Proof. by apply wp_act. Qed.

Lemma wp_modify (f : W -> W) w (Q : unit -> W -> Prop) : Q tt (f w) -> wp (modify f) w Q.
Proof. by apply wp_act. Qed.

Lemma wp_mono {A} (p : prog W A) w (Q Q' : A -> W -> Prop) :
  wp p w Q -> (∀ a w', Q a w' -> Q' a w') -> wp p w Q'.
Proof. intros (a & w' & ? & ?) Himp. exists a, w'. auto. Qed.

(** A program has one outcome, so facts about it combine. *)
Lemma wp_and {A} (p : prog W A) w (Q Q' : A -> W -> Prop) :
  wp p w Q -> wp p w Q' -> wp p w (λ a w', Q a w' ∧ Q' a w').
Proof.
  intros (a & w' & Hr & ?) (b & w'' & Hr' & ?). rewrite Hr in Hr'. injection Hr' as <- <-.
  by exists a, w'.
Qed.

Lemma run_ex {A} (p : prog W A) w (Q : A -> W -> Prop) :
  wp p w Q -> ∃ a w', run p w = Done (a, w') ∧ Q a w'.
Proof. done. Qed.

Lemma run_wp {A} (p : prog W A) w b (R : W -> Prop) :
  wp p w (λ a w', a = b ∧ R w') -> ∃ w', run p w = Done (b, w') ∧ R w'.
Proof. intros (a & w' & Hr & -> & ?). by exists w'. Qed.

Lemma run_eq_wp {A} (p : prog W A) w b w2 :
  wp p w (λ a w', a = b ∧ w' = w2) -> run p w = Done (b, w2).
Proof. by intros (a & w' & Hr & -> & ->). Qed.

Lemma wp_run {A} (p : prog W A) w Q a w' : run p w = Done (a, w') -> wp p w Q -> Q a w'.
Proof. intros Hr (b & w'' & Hr' & ?). rewrite Hr in Hr'. by injection Hr' as <- <-. Qed.

End lemmas.
