(* ===== verification/Foreign.v ===== *)
(** * Code outside the repository

    The interfaces of the code the sources call and do not contain: the C
    library behind the function pointers of [real.h] and the few calls made
    directly, libsquashfs, and uthash.  Each is a type class; the development
    is parametric in it, and the laws a property relies on are classes of
    their own, stated where they are documented by that code. *)

From S2P Require Import Prelude CString Posix.

(** ** Data of the interfaces *)

Abbreviation loc := positive.

(** The fields of [sqfs_inode_generic_t] the sources read: [base] and the
    members of the union [data]. *)
Record sqfs_inode := SqfsInode {
  ino_type : Z;
  ino_mode : Z;
  ino_mod_time : Z;
  ino_number : Z;
  dir_nlink : Z; dir_size : Z;
  dir_ext_nlink : Z; dir_ext_size : Z;
  file_ext_nlink : Z;
  slink_nlink : Z; slink_target_size : Z;
  slink_ext_nlink : Z; slink_ext_target_size : Z;
  dev_nlink : Z; dev_ext_nlink : Z;
  ipc_nlink : Z; ipc_ext_nlink : Z;
}.

(** The fields of [sqfs_super_t] the sources read. *)
Record sqfs_super := SqfsSuper {
  inode_count : Z;
  block_size : Z;
  bytes_used : Z;
  compression_id : Z;
  super_flags : Z;
}.

(** [sqfs_dir_entry_t]: [size] is the length of the name minus one. *)
Record sqfs_dir_entry := SqfsDirEntry {
  de_type : Z;
  de_size : Z;
  de_name : list ascii;
}.

(** [struct stat]; the fields the sources do not set are zero. *)
Record stat := Stat {
  st_ino : Z; st_mode : Z; st_nlink : Z; st_uid : Z; st_gid : Z;
  st_size : Z; st_blksize : Z; st_blocks : Z;
  st_atime : Z; st_mtime : Z; st_ctime : Z;
}.

(** [struct dirent]; [d_name] is the bytes of the array. *)
Record dirent := Dirent {
  d_ino : Z; d_off : Z; d_reclen : Z; d_type : Z; d_name : buf;
}.

(** ** uthash

    A table of elements found by an integer key (a file descriptor, or the
    value of a pointer).  The library requires the application to add a key
    at most once; [ht_rep] relates a table built that way to the map it
    stands for. *)

Class UtHash := {
  ht : Type;
  ht_empty : ht;
  hash_find : Z -> ht -> option loc;
  hash_add : Z -> loc -> ht -> ht;
  hash_del : Z -> loc -> ht -> ht;
}.

Class UtHashSpec `{UtHash} := {
  ht_rep : ht -> gmap Z loc -> Prop;
  ht_rep_empty : ht_rep ht_empty ∅;
  hash_find_spec h m k : ht_rep h m -> hash_find k h = m !! k;
  hash_add_spec h m k p : ht_rep h m -> m !! k = None -> ht_rep (hash_add k p h) (<[k := p]> m);
  hash_del_spec h m k p : ht_rep h m -> m !! k = Some p -> ht_rep (hash_del k p h) (delete k m);
}.

(** ** The C library, the kernel and libsquashfs *)

(** A call: from the thread's [errno] and the state outside the program to a
    result, the new [errno] and the new outside state. *)
Definition foreign (X A : Type) : Type := Z -> X -> A * Z * X.

(** Pointers to functions are addresses, 0 is null.  A pointer argument that
    may be null is an option. *)
Class Ext := {
  ext : Type;
  (** libsquashfs objects *)
  handle : Type;
  comp_config : Type;

  (** the environment of the process *)
  getenv : cstr -> option cstr;
  (** whether a [malloc] succeeds *)
  malloc_ok : foreign ext bool;

  (** functions behind [g_xLibcFuncs], called at an address *)
  call_open : Z -> option cstr -> Z -> option Z -> foreign ext Z;
  call_read : Z -> Z -> Z -> foreign ext (Z * list ascii);
  call_pread : Z -> Z -> Z -> Z -> foreign ext (Z * list ascii);
  call_lseek : Z -> Z -> Z -> Z -> foreign ext Z;
  call_close : Z -> Z -> foreign ext Z;
  call_opendir : Z -> option cstr -> foreign ext Z;
  call_readdir : Z -> Z -> foreign ext (option dirent);
  call_closedir : Z -> Z -> foreign ext Z;
  call_access : Z -> option cstr -> Z -> foreign ext Z;
  call_xstat : Z -> Z -> option cstr -> bool -> foreign ext (Z * option stat);

  (** direct calls *)
  sys_memfd_create : cstr -> Z -> foreign ext Z;
  sys_openat : cstr -> Z -> Z -> foreign ext Z;
  sys_unlinkat : cstr -> foreign ext Z;
  sys_write : Z -> list ascii -> foreign ext Z;
  libc_mkdir : cstr -> Z -> foreign ext Z;
  libc_rmdir : cstr -> foreign ext Z;
  libc_getpid : foreign ext Z;

  (** libsquashfs *)
  sqfs_compressor_name_from_id : Z -> option cstr;
  sqfs_inode_get_file_size : sqfs_inode -> Z * Z;
  sqfs_open_file : cstr -> Z -> foreign ext (option handle);
  sqfs_super_read : handle -> foreign ext (Z * sqfs_super);
  sqfs_compressor_config_init : Z -> Z -> Z -> foreign ext (Z * comp_config);
  sqfs_compressor_create : comp_config -> foreign ext (Z * handle);
  compressor_read_options : handle -> handle -> foreign ext Z;
  sqfs_data_reader_create : handle -> Z -> handle -> Z -> foreign ext (option handle);
  sqfs_data_reader_load_fragment_table : handle -> sqfs_super -> foreign ext Z;
  sqfs_data_reader_read : handle -> sqfs_inode -> Z -> Z -> foreign ext (Z * list ascii);
  sqfs_dir_reader_create : sqfs_super -> handle -> handle -> Z -> foreign ext (option handle);
  sqfs_dir_reader_get_root_inode : handle -> foreign ext (Z * sqfs_inode);
  sqfs_dir_reader_find_by_path : handle -> cstr -> foreign ext (Z * sqfs_inode);
  sqfs_dir_reader_open_dir : handle -> sqfs_inode -> Z -> foreign ext Z;
  sqfs_dir_reader_read : handle -> foreign ext (Z * sqfs_dir_entry);
  sqfs_dir_reader_get_inode : handle -> foreign ext (Z * sqfs_inode);
  (** the destructor [sqfs_destroy] runs on an object *)
  handle_destroy : handle -> foreign ext unit;
}.
