(* ===== verification/State.v ===== *)
(** * The state of the library

    The data structures of [sqfs_mgr.c] and [real.h], the process state the
    hooks work on, and the primitive actions: [errno], the recursive mutex,
    the heap, the fields of [g_xSqfsMgr] and calls of foreign code. *)

From S2P Require Import Prelude CString Posix Prog Foreign.

(** ** Data *)

(** [struct LibcFunctions]: the addresses, 0 is null. *)
Record LibcFunctions := MkLibcFunctions {
  lf_open : Z; lf_read : Z; lf_pread : Z; lf_pread64 : Z; lf_lseek : Z; lf_lseek64 : Z;
  lf_close : Z; lf_close_nocancel : Z; lf_opendir : Z; lf_readdir : Z; lf_closedir : Z;
  lf_access : Z; lf_xstat : Z;
}.

(** [struct FDMapEntry] (the hash handle is the table's). *)
Record FDMapEntry := MkFDMapEntry {
  fe_key : Z;
  fe_inode : loc;
  fe_offset : Z;
}.

(** [struct SqfsDirEntryNode]; the link to the next node is the position in
    the list that holds the node. *)
Record SqfsDirEntryNode := MkDirNode {
  dn_inode : option loc;
  dn_dirent : dirent;
}.

(** [struct DirMapEntry].  A list of nodes is the list of their addresses; the
    cursor is the rest of the list from the current node, empty for null. *)
Record DirMapEntry := MkDirMapEntry {
  dm_key : Z;
  dm_dir_reader : loc;
  dm_is_real_dir : bool;
  dm_entry_list : list loc;
  dm_entry_current : list loc;
  dm_reached_end : bool;
}.

Section state.
Context `{UtHash} `{Ext}.

(** [struct sqfs_mgr] without its mutex. *)
Record sqfs_mgr := MkMgr {
  m_file : option loc;
  m_compressor : option loc;
  m_data_reader : option loc;
  m_super : sqfs_super;
  m_cfg : option comp_config;
  m_dir_map : ht;
  m_fd_map : ht;
}.

(** Heap objects. *)
Inductive obj :=
| OHandle (h : handle)
| OInode (i : sqfs_inode)
| OSqfsDirEntry (e : sqfs_dir_entry)
| OFDEntry (e : FDMapEntry)
| ODirEntry (e : DirMapEntry)
| ODirNode (n : SqfsDirEntryNode).

(** The process: the state of the code outside, each thread's [errno], the
    owner and depth of the recursive mutex, [g_xSqfsMgr], the heap (addresses
    are never reused), [g_xLibcFuncs], the two [counter]s of [utils.c] and
    [g_iLogOutputFd] (unset before the first output). *)
Record world := World {
  w_ext : ext;
  w_errno : gmap Z Z;
  w_mutex : option (Z * nat);
  w_mgr : sqfs_mgr;
  w_heap : gmap loc obj;
  w_next : loc;
  w_libc : LibcFunctions;
  w_dir_counter : Z;
  w_fd_counter : Z;
  w_log_fd : option Z;
}.

(** ** Field updates *)

Definition set_ext (x : ext) (w : world) : world :=
  World x (w_errno w) (w_mutex w) (w_mgr w) (w_heap w) (w_next w) (w_libc w)
    (w_dir_counter w) (w_fd_counter w) (w_log_fd w).
Definition set_errnos (e : gmap Z Z) (w : world) : world :=
  World (w_ext w) e (w_mutex w) (w_mgr w) (w_heap w) (w_next w) (w_libc w)
    (w_dir_counter w) (w_fd_counter w) (w_log_fd w).
Definition set_mutex (m : option (Z * nat)) (w : world) : world :=
  World (w_ext w) (w_errno w) m (w_mgr w) (w_heap w) (w_next w) (w_libc w)
    (w_dir_counter w) (w_fd_counter w) (w_log_fd w).
Definition set_mgr (m : sqfs_mgr) (w : world) : world :=
  World (w_ext w) (w_errno w) (w_mutex w) m (w_heap w) (w_next w) (w_libc w)
    (w_dir_counter w) (w_fd_counter w) (w_log_fd w).
Definition set_heap (h : gmap loc obj) (n : loc) (w : world) : world :=
  World (w_ext w) (w_errno w) (w_mutex w) (w_mgr w) h n (w_libc w)
    (w_dir_counter w) (w_fd_counter w) (w_log_fd w).
Definition set_counters (d f : Z) (w : world) : world :=
  World (w_ext w) (w_errno w) (w_mutex w) (w_mgr w) (w_heap w) (w_next w) (w_libc w)
    d f (w_log_fd w).
Definition set_log_fd (l : option Z) (w : world) : world :=
  World (w_ext w) (w_errno w) (w_mutex w) (w_mgr w) (w_heap w) (w_next w) (w_libc w)
    (w_dir_counter w) (w_fd_counter w) l.

Definition set_dir_map (h : ht) (m : sqfs_mgr) : sqfs_mgr :=
  MkMgr (m_file m) (m_compressor m) (m_data_reader m) (m_super m) (m_cfg m) h (m_fd_map m).
Definition set_fd_map (h : ht) (m : sqfs_mgr) : sqfs_mgr :=
  MkMgr (m_file m) (m_compressor m) (m_data_reader m) (m_super m) (m_cfg m) (m_dir_map m) h.

Definition errno_of (t : Z) (w : world) : Z := default 0 (w_errno w !! t).

(** Thread [t] holds the mutex. *)
Definition holds_lock (t : Z) (w : world) : bool :=
  match w_mutex w with
  | Some (o, _) => o =? t
  | None => false
  end.

(** ** Primitive actions of thread [t] *)

Section prims.
Context (t : Z).

Definition get_errno : prog world Z := gets (errno_of t).
Definition set_errno (e : Z) : prog world unit :=
  modify (λ w, set_errnos (<[t := e]> (w_errno w)) w).

(** [pthread_mutex_lock] and [pthread_mutex_unlock] on a recursive mutex. *)
Definition mutex_lock : prog world unit :=
  act (λ w, match w_mutex w with
            | None => Done (tt, set_mutex (Some (t, 1%nat)) w)
            | Some (o, n) => if o =? t then Done (tt, set_mutex (Some (t, S n)) w) else Blocked
            end).
Definition mutex_unlock : prog world unit :=
  act (λ w, match w_mutex w with
            | Some (o, S n) =>
                if o =? t
                then Done (tt, set_mutex (match n with O => None | _ => Some (t, n) end) w)
                else Fault
            | _ => Fault
            end).

(** The manager's fields and the heap are shared: access without the mutex is
    a data race. *)
Definition locked {B} (f : world -> outcome (B * world)) : prog world B :=
  act (λ w, if holds_lock t w then f w else Fault).

Definition mgr_get {B} (f : sqfs_mgr -> B) : prog world B := locked (λ w, Done (f (w_mgr w), w)).
Definition mgr_set (f : sqfs_mgr -> sqfs_mgr) : prog world unit :=
  locked (λ w, Done (tt, set_mgr (f (w_mgr w)) w)).

Definition heap_alloc (o : obj) : prog world loc :=
  locked (λ w, Done (w_next w, set_heap (<[w_next w := o]> (w_heap w)) (Pos.succ (w_next w)) w)).

(** Freeing a dangling pointer is undefined. *)
Definition heap_free (p : loc) : prog world unit :=
  locked (λ w, match w_heap w !! p with
               | Some _ => Done (tt, set_heap (delete p (w_heap w)) (w_next w) w)
               | None => Fault
               end).

Definition load {B} (f : obj -> option B) (p : loc) : prog world B :=
  locked (λ w, match w_heap w !! p ≫= f with Some b => Done (b, w) | None => Fault end).

Definition as_handle (o : obj) : option handle := match o with OHandle h => Some h | _ => None end.
Definition as_inode (o : obj) : option sqfs_inode := match o with OInode i => Some i | _ => None end.
Definition as_fd_entry (o : obj) : option FDMapEntry :=
  match o with OFDEntry e => Some e | _ => None end.
Definition as_dir_entry (o : obj) : option DirMapEntry :=
  match o with ODirEntry e => Some e | _ => None end.
Definition as_dir_node (o : obj) : option SqfsDirEntryNode :=
  match o with ODirNode n => Some n | _ => None end.

(** Overwriting a live object. *)
Definition store (p : loc) (o : obj) : prog world unit :=
  locked (λ w, match w_heap w !! p with
               | Some _ => Done (tt, set_heap (<[p := o]> (w_heap w)) (w_next w) w)
               | None => Fault
               end).

(** A foreign call, outside and inside a function pointer of [g_xLibcFuncs]. *)
Definition call {B} (c : foreign ext B) : prog world B :=
  act (λ w, let '(b, e, x) := c (errno_of t w) (w_ext w) in
            Done (b, set_errnos (<[t := e]> (w_errno w)) (set_ext x w))).

Definition call_at {B} (p : Z) (c : Z -> foreign ext B) : prog world B :=
  if p =? 0 then fault else call (c p).

Definition libc_call {B} (sel : LibcFunctions -> Z) (c : Z -> foreign ext B) : prog world B :=
  do p <- gets (λ w, sel (w_libc w)); call_at p c.

(** [malloc] of the structure [o], null on failure. *)
Definition malloc (o : obj) : prog world (option loc) :=
  do ok <- call malloc_ok;
  if (ok : bool) then (do p <- heap_alloc o; Ret (Some p)) else Ret None.

End prims.
End state.

Arguments obj {_} : assert.
