(* ===== verification/Logging.v ===== *)
(** * Logging

    [logging.c]: which hooks log ([log_enabled]), the line buffer of
    [log_hook] and [log_msg], and the write loop.  The [...] arguments are
    the text [vsnprintf] makes of them. *)

From S2P Require Import Prelude CString Posix Prog Foreign State.

(** The iterations an otherwise unbounded loop may take in the model. *)
Class Fuel := fuel : nat.

(** ** Selection of the hooks that log *)

Definition is_blank (c : ascii) : bool := bool_decide (c = " "%char ∨ c = "009"%char).

(** Skipping blanks at [p]; a pointer into the string is the rest of the
    string. *)
Fixpoint skip_blanks (p : cstr) : cstr :=
  match p with
  | c :: p' => if is_blank c then skip_blanks p' else p
  | [] => []
  end.

(** The steps [p] makes to the next comma or the end of the string. *)
Fixpoint comma_distance (p : cstr) : nat :=
  match p with
  | c :: p' => if decide (c = ","%char) then O else S (comma_distance p')
  | [] => O
  end.

(** Dropping trailing blanks from a token of [token_len] characters. *)
Fixpoint trim_len (start : cstr) (token_len : nat) : nat :=
  match token_len with
  | O => O
  | S n => match start !! n with
           | Some c => if is_blank c then trim_len start n else token_len
           | None => token_len
           end
  end.

(** The three comparisons of one token. *)
Definition token_selects (func_name : option cstr) (start : cstr) (token_len : nat) : bool :=
  (bool_decide (token_len = 3%nat) && strncmp_eq start (lit "ALL") 3)
  || match func_name with
     | Some f =>
         (negb (bool_decide (f = [])) && bool_decide (token_len = length f)
            && strncmp_eq start f (length f))
         || (strncmp_eq f (lit "sqfs_") 5 &&
             let short_name := drop 5 f in
             bool_decide (token_len = length short_name)
               && strncmp_eq start short_name (length short_name))
     | None => false
     end.

(** The loop over the tokens, until the end of the string. *)
Fixpoint log_enabled_loop (n : nat) (func_name : option cstr) (p : cstr) : option bool :=
  match n with
  | O => None
  | S n =>
      match p with
      | [] => Some false
      | _ =>
          let start := skip_blanks p in
          let dist := comma_distance start in
          let p := drop dist start in
          let token_len := trim_len start dist in
          if token_selects func_name start token_len then Some true
          else log_enabled_loop n func_name
                 (match p with c :: p' => if decide (c = ","%char) then p' else p | [] => [] end)
      end
  end.

Section logging.
Context `{Platform} `{UtHash} `{Ext} `{Fuel}.

Definition log_enabled (func_name : option cstr) : bool :=
  match getenv (lit "HOOKSQFS_LOG_INCLUDE") with
  | None | Some [] => false
  | Some include =>
      default false (log_enabled_loop (S (length include)) func_name include)
  end.

(** ** Output *)

Definition STDOUT_FILENO : Z := 1.

Definition log_output_init_once (t : Z) : prog world unit :=
  do fd <- match getenv (lit "HOOKSQFS_LOG_FILE") with
           | Some ((_ :: _) as path) =>
               call t (sys_openat path
                 (Z.lor (Z.lor (Z.lor O_WRONLY O_CREAT) O_TRUNC) O_CLOEXEC) 0x1a4)
           | _ => Ret STDOUT_FILENO
           end;
  modify (set_log_fd (Some fd)).

(** The write loop on the [len] bytes [p] still points to. *)
Fixpoint log_write_loop (n : nat) (t fd : Z) (p : list ascii) : prog world unit :=
  match p with
  | [] => Ret tt
  | _ =>
      match n with
      | O => spin
      | S n =>
          do written <- call t (sys_write fd p);
          if written <? 0 then
            do e <- get_errno t;
            if e =? EINTR then log_write_loop n t fd p else Ret tt
          else if written =? 0 then Ret tt
          else if Z.of_nat (length p) <? written then fault
          else log_write_loop n t fd (drop (Z.to_nat written) p)
      end
  end.

Definition log_write (t : Z) (bytes : list ascii) : prog world unit :=
  do once <- gets w_log_fd;
  (match once with None => log_output_init_once t | Some _ => Ret tt end) ;;
  do fd <- gets w_log_fd;
  if default (-1) fd <? 0 then Ret tt else log_write_loop fuel t (default (-1) fd) bytes.

(** ** Lines *)

Definition LOG_BUF : nat := 1024.

(** [snprintf(buf + i, size, ...)] producing [text]. *)
Definition snprintf_at (b : buf) (i size : nat) (text : cstr) : option buf :=
  match size with
  | O => Some b
  | S n => buf_write b i (take n text ++ [NUL])
  end.

(** The bytes [log_hook] passes to [log_write], if it gets that far. *)
Definition log_hook_bytes (func_name : option cstr) (text : cstr) : option (option (list ascii)) :=
  let b := uninit (Z.of_nat LOG_BUF) in
  let prefix := match func_name with
                | Some ((_ :: _) as f) => Some (lit "[hooklog] " ++ f ++ lit ": ")
                | _ => None
                end in
  '(b, prefix_len) ← match prefix with
                     | Some pre => b ← snprintf_at b 0 LOG_BUF pre; Some (b, length pre)
                     | None => Some (b, O)
                     end;
  if decide (LOG_BUF <= prefix_len)%nat then Some None
  else
    b ← snprintf_at b prefix_len (LOG_BUF - prefix_len) text;
    if decide (length text = O) then Some None
    else
      let total := (prefix_len + length text)%nat in
      let total := if decide (LOG_BUF < total)%nat then LOG_BUF else total in
      Some (Some (take total b)).

Definition log_hook (t : Z) (func_name : option cstr) (text : cstr) : prog world unit :=
  if negb (log_enabled func_name) then Ret tt
  else match log_hook_bytes func_name text with
       | None => fault
       | Some None => Ret tt
       | Some (Some bytes) => log_write t bytes
       end.

(** The bytes [log_msg] passes to [log_write]. *)
Definition log_msg_bytes (text : cstr) : option (option (list ascii)) :=
  b ← snprintf_at (uninit (Z.of_nat LOG_BUF)) 0 LOG_BUF text;
  if decide (length text = O) then Some None
  else
    let n := if decide (LOG_BUF < length text)%nat then LOG_BUF else length text in
    Some (Some (take n b)).

Definition log_msg (t : Z) (text : cstr) : prog world unit :=
  match log_msg_bytes text with
  | None => fault
  | Some None => Ret tt
  | Some (Some bytes) => log_write t bytes
  end.

End logging.
