(* ===== verification/Kernel.v ===== *)
(** * Laws of the code outside

    What the properties rely on about the kernel: which descriptors and
    directory streams are open, and how [write] behaves.  Every law is the
    documented behaviour of the call it names. *)

From S2P Require Import Prelude CString Posix Foreign Logging.

(** A call that neither opens nor closes a descriptor or a stream. *)
Definition keeps `{Ext} {B} (fds dirs : ext -> gset Z) (c : foreign ext B) : Prop :=
  ∀ e x, fds (c e x).2 = fds x ∧ dirs (c e x).2 = dirs x.

(** A call that returns a new descriptor, or a negative number. *)
Definition opens_fd `{Ext} (fds dirs : ext -> gset Z) (c : foreign ext Z) : Prop :=
  ∀ e x, let '(r, _, x') := c e x in
    dirs x' = dirs x ∧
    if r <? 0 then fds x' = fds x else r ∉ fds x ∧ fds x' = {[r]} ∪ fds x.

(** The descriptors and streams the process has open.  The descriptor inside
    a [DIR] or inside a libsquashfs file belongs to that object and is not
    counted. *)
Class KernelSpec `{Ext} := {
  open_fds : ext -> gset Z;
  open_dirs : ext -> gset Z;
  opens_open p path flags mode : opens_fd open_fds open_dirs (call_open p path flags mode);
  opens_openat path flags mode : opens_fd open_fds open_dirs (sys_openat path flags mode);
  opens_memfd name flags : opens_fd open_fds open_dirs (sys_memfd_create name flags);
  closes_fd p fd e x :
    open_fds (call_close p fd e x).2 = open_fds x ∖ {[fd]} ∧
    open_dirs (call_close p fd e x).2 = open_dirs x;
  opens_dir p name e x :
    let '(d, _, x') := call_opendir p name e x in
    open_fds x' = open_fds x ∧
    if d =? 0 then open_dirs x' = open_dirs x
    else d ∉ open_dirs x ∧ open_dirs x' = {[d]} ∪ open_dirs x;
  closes_dir p d e x :
    open_fds (call_closedir p d e x).2 = open_fds x ∧
    open_dirs (call_closedir p d e x).2 = open_dirs x ∖ {[d]};
  keeps_malloc : keeps open_fds open_dirs malloc_ok;
  keeps_read p fd n : keeps open_fds open_dirs (call_read p fd n);
  keeps_pread p fd n o : keeps open_fds open_dirs (call_pread p fd n o);
  keeps_lseek p fd o wh : keeps open_fds open_dirs (call_lseek p fd o wh);
  keeps_readdir p d : keeps open_fds open_dirs (call_readdir p d);
  keeps_access p path m : keeps open_fds open_dirs (call_access p path m);
  keeps_xstat p v path b : keeps open_fds open_dirs (call_xstat p v path b);
  keeps_unlinkat path : keeps open_fds open_dirs (sys_unlinkat path);
  keeps_write fd b : keeps open_fds open_dirs (sys_write fd b);
  keeps_mkdir path m : keeps open_fds open_dirs (libc_mkdir path m);
  keeps_rmdir path : keeps open_fds open_dirs (libc_rmdir path);
  keeps_getpid : keeps open_fds open_dirs libc_getpid;
  keeps_open_file path f : keeps open_fds open_dirs (sqfs_open_file path f);
  keeps_super_read h : keeps open_fds open_dirs (sqfs_super_read h);
  keeps_config_init a b c : keeps open_fds open_dirs (sqfs_compressor_config_init a b c);
  keeps_compressor_create c : keeps open_fds open_dirs (sqfs_compressor_create c);
  keeps_read_options a b : keeps open_fds open_dirs (compressor_read_options a b);
  keeps_data_reader_create a b c d : keeps open_fds open_dirs (sqfs_data_reader_create a b c d);
  keeps_load_fragment a b : keeps open_fds open_dirs (sqfs_data_reader_load_fragment_table a b);
  keeps_data_read a b c d : keeps open_fds open_dirs (sqfs_data_reader_read a b c d);
  keeps_dir_reader_create a b c d : keeps open_fds open_dirs (sqfs_dir_reader_create a b c d);
  keeps_get_root h : keeps open_fds open_dirs (sqfs_dir_reader_get_root_inode h);
  keeps_find_by_path h p : keeps open_fds open_dirs (sqfs_dir_reader_find_by_path h p);
  keeps_open_dir h i f : keeps open_fds open_dirs (sqfs_dir_reader_open_dir h i f);
  keeps_dir_read h : keeps open_fds open_dirs (sqfs_dir_reader_read h);
  keeps_get_inode h : keeps open_fds open_dirs (sqfs_dir_reader_get_inode h);
  keeps_destroy h : keeps open_fds open_dirs (handle_destroy h);
}.

Create HintDb keeps discriminated.

#[export] Hint Resolve keeps_malloc keeps_read keeps_pread keeps_lseek keeps_readdir
  keeps_access keeps_xstat keeps_unlinkat keeps_write keeps_mkdir keeps_rmdir keeps_getpid
  keeps_open_file keeps_super_read keeps_config_init keeps_compressor_create keeps_read_options
  keeps_data_reader_create keeps_load_fragment keeps_data_read keeps_dir_reader_create
  keeps_get_root keeps_find_by_path keeps_open_dir keeps_dir_read keeps_get_inode
  keeps_destroy : keeps.

(** [write(2)] transfers a prefix of the bytes or reports an error, and is
    interrupted a bounded number of times in a row; the fuel covers a log line
    of 1024 bytes. *)
Class WriteSpec `{Ext} `{Fuel} := {
  sink : ext -> Z -> list ascii;
  eintr_left : ext -> nat;
  eintr_fuel x : (eintr_left x + 1024 < fuel)%nat;
  sys_write_spec fd bytes e x : bytes ≠ [] ->
    let '(r, e', x') := sys_write fd bytes e x in
    (r < 0 ∧ sink x' fd = sink x fd ∧ (e' = EINTR -> eintr_left x' < eintr_left x)%nat) ∨
    (r = 0 ∧ sink x' fd = sink x fd) ∨
    (0 < r <= Z.of_nat (length bytes) ∧
     sink x' fd = sink x fd ++ take (Z.to_nat r) bytes ∧
     (eintr_left x' <= eintr_left x)%nat);
}.

(** [sqfs_data_reader_read] reads from the content of the file: it reports an
    error, or transfers the bytes at the position, at least one while there
    are any. *)
Class ContentSpec `{Ext} := {
  content : sqfs_inode -> list ascii;
  content_size i : Z.of_nat (length (content i)) <= UINT64_MAX;
  data_read_spec hd i pos n e x : 0 <= pos -> 0 <= n ->
    let '(r, bytes, _, _) := sqfs_data_reader_read hd i pos n e x in
    r < 0 ∨
    (0 <= r <= n ∧ bytes = take (Z.to_nat r) (drop (Z.to_nat pos) (content i)) ∧
     Z.of_nat (length bytes) = r ∧
     (0 < n -> pos < Z.of_nat (length (content i)) -> 0 < r));
}.

(** The names of the file system that the temporary files and directories
    take: exclusive creation adds a name that was free; removal takes a name
    away when it returns 0, and leaves all names otherwise. *)
Class NameSpec `{Ext} := {
  names : ext -> gset cstr;
  names_openat path flags mode e x :
    flag_set flags O_CREAT = true -> flag_set flags O_EXCL = true ->
    let '(r, _, x') := sys_openat path flags mode e x in
    if 0 <=? r then path ∉ names x ∧ names x' = {[path]} ∪ names x else names x' = names x;
  names_unlinkat path e x :
    let '(r, _, x') := sys_unlinkat path e x in
    names x' = if r =? 0 then names x ∖ {[path]} else names x;
  names_mkdir path mode e x :
    let '(r, _, x') := libc_mkdir path mode e x in
    if r =? 0 then path ∉ names x ∧ names x' = {[path]} ∪ names x else names x' = names x;
  names_rmdir path e x :
    let '(r, _, x') := libc_rmdir path e x in
    names x' = if r =? 0 then names x ∖ {[path]} else names x;
  names_memfd name flags e x : names (sys_memfd_create name flags e x).2 = names x;
  names_getpid e x : names (libc_getpid e x).2 = names x;
  names_opendir p name e x : names (call_opendir p name e x).2 = names x;
}.

(** The values of environment variables are C strings. *)
Class EnvSpec `{Ext} := {
  getenv_nul_free v s : getenv v = Some s -> nul_free s;
}.

(** [readdir(3)] returns the entries of a stream one by one, then null. *)
Class ReaddirSpec `{Ext} := {
  real_entries : ext -> Z -> list dirent;
  readdir_spec p d e x :
    let '(o, _, x') := call_readdir p d e x in
    o = head (real_entries x d) ∧ real_entries x' d = tail (real_entries x d);
}.

(** A call that leaves the positions of the directory readers alone. *)
Definition dir_keeps `{Ext} {A B C} (left : ext -> handle -> A) (current : ext -> handle -> B)
    (c : foreign ext C) : Prop :=
  ∀ e x h, left (c e x).2 h = left x h ∧ current (c e x).2 h = current x h.

(** The directories of the image.  A directory reader opened on one returns
    its entries one by one, then a positive number; any call of the reader may
    fail.  Names have the length Linux allows (at most 255 bytes), and
    directories are shorter than the fuel. *)
Class DirSpec `{Ext} `{Fuel} := {
  dir_entries : sqfs_inode -> list (sqfs_dir_entry * sqfs_inode);
  dir_left : ext -> handle -> list (sqfs_dir_entry * sqfs_inode);
  dir_current : ext -> handle -> option sqfs_inode;
  dir_fuel i : (length (dir_entries i) < fuel)%nat;
  dir_names i : Forall (λ ei, 0 <= de_size ei.1 < 255 ∧
                              Z.of_nat (length (de_name ei.1)) = de_size ei.1 + 1) (dir_entries i);
  open_dir_spec h i f e x :
    let '(ret, _, x') := sqfs_dir_reader_open_dir h i f e x in
    ret = 0 -> dir_left x' h = dir_entries i;
  dir_read_spec h e x :
    let '(ret, de, _, x') := sqfs_dir_reader_read h e x in
    ret < 0 ∨ (0 < ret ∧ dir_left x h = []) ∨
    (ret = 0 ∧ ∃ i rest, dir_left x h = (de, i) :: rest ∧ dir_left x' h = rest ∧
                         dir_current x' h = Some i);
  get_inode_spec h e x :
    let '(ret, i, _, x') := sqfs_dir_reader_get_inode h e x in
    (ret = 0 -> dir_current x h = Some i) ∧ dir_left x' h = dir_left x h;
  dir_keeps_malloc : dir_keeps dir_left dir_current malloc_ok;
  dir_keeps_getpid : dir_keeps dir_left dir_current libc_getpid;
  dir_keeps_mkdir path m : dir_keeps dir_left dir_current (libc_mkdir path m);
  dir_keeps_rmdir path : dir_keeps dir_left dir_current (libc_rmdir path);
  dir_keeps_opendir p name : dir_keeps dir_left dir_current (call_opendir p name);
}.

Section reading.
Context `{HE : Ext} `{HF : Fuel} `{HD : !DirSpec}.

(** A call fails by which the entries [left] are read: reading an entry, or the
    inode of the current one, with a reader that stands in these entries, or
    the memory for a node. *)
Inductive read_fails (left : list (sqfs_dir_entry * sqfs_inode)) : Prop :=
| rf_read h e x ret de e' x' :
    dir_left x h `suffix_of` left -> sqfs_dir_reader_read h e x = (ret, de, e', x') -> ret < 0 -> read_fails left
| rf_inode h e x ret i e' x' :
    dir_left x h `suffix_of` left -> is_Some (dir_current x h) ->
    sqfs_dir_reader_get_inode h e x = (ret, i, e', x') -> ret ≠ 0 -> read_fails left
| rf_memory e x e' x' : malloc_ok e x = (false, e', x') -> read_fails left.

Lemma read_fails_cons ei left : read_fails left -> read_fails (ei :: left).
Proof.
  destruct 1; [eapply rf_read; [|done..]|eapply rf_inode; [|done..]|by eapply rf_memory]; by apply suffix_cons_r.
Qed.

End reading.
