(* ===== verification/Backing.v ===== *)
(** * Backing descriptors and directories

    [utils.c]: the kernel objects behind a file or a directory of the image.
    [create_backing_fd] makes an anonymous file ([memfd_create], or an
    unlinked temporary file where the kernel has none) so that the descriptor
    number is reserved; [create_backing_dir] makes a stream on a removed
    temporary directory. *)

From Stdlib Require Import DecimalString.
From S2P Require Import Prelude CString Posix Prog Foreign State.

(** ** Text *)

(** [%ld], [%lu] and [%d]. *)
Definition dec (z : Z) : cstr := lit (NilZero.string_of_int (Z.to_int z)).

(** The string [snprintf] leaves in an array of [size] bytes. *)
Definition snprintf_str (size : nat) (text : cstr) : cstr := take (size - 1) text.

Section backing.
Context `{Platform} `{UtHash} `{Ext}.
Context (t : Z).

(** [atomic_fetch_add_explicit(&counter, 1, ...)] on [unsigned long]. *)
Definition next_dir_id : prog world Z :=
  act (λ w, Done (w_dir_counter w,
    set_counters (wrap_u word_bits (w_dir_counter w + 1)) (w_fd_counter w) w)).
Definition next_fd_id : prog world Z :=
  act (λ w, Done (w_fd_counter w,
    set_counters (w_dir_counter w) (wrap_u word_bits (w_fd_counter w + 1)) w)).

Definition backing_dir_path (pid id : Z) : cstr :=
  snprintf_str 128 (lit "/tmp/hooksqfs-dir-" ++ dec pid ++ lit "-" ++ dec id).

Definition backing_fd_path (pid id : Z) : cstr :=
  snprintf_str 128 (lit "/tmp/hooksqfs-" ++ dec pid ++ lit "-" ++ dec id).

(** The [for] loop of [create_backing_dir] with [n] iterations left. *)
Fixpoint backing_dir_loop (n : nat) : prog world Z :=
  match n with
  | O => set_errno t EEXIST ;; Ret 0
  | S n =>
      do id <- next_dir_id;
      do pid <- call t libc_getpid;
      let path := backing_dir_path pid id in
      do r <- call t (libc_mkdir path 0x1c0);
      if negb (r =? 0) then
        do e <- get_errno t;
        if e =? EEXIST then backing_dir_loop n else Ret 0
      else
        do dir <- libc_call t lf_opendir (λ p, call_opendir p (Some path));
        do saved_errno <- get_errno t;
        do _r <- call t (libc_rmdir path);
        if dir =? 0 then (set_errno t saved_errno ;; Ret 0) else Ret dir
  end.

Definition create_backing_dir : prog world Z := backing_dir_loop 128.

Definition create_memfd (flags : Z) : prog world Z :=
  call t (sys_memfd_create (lit "hooksqfs")
            (if flag_set flags O_CLOEXEC then MFD_CLOEXEC else 0)).

(** The [for] loop of [create_unlinked_tmp_fd]. *)
Fixpoint unlinked_tmp_loop (n : nat) (open_flags : Z) : prog world Z :=
  match n with
  | O => set_errno t EEXIST ;; Ret (-1)
  | S n =>
      do id <- next_fd_id;
      do pid <- call t libc_getpid;
      let path := backing_fd_path pid id in
      do fd <- call t (sys_openat path open_flags 0x180);
      if 0 <=? fd then (do _r <- call t (sys_unlinkat path); Ret fd)
      else
        do e <- get_errno t;
        if negb (e =? EEXIST) then Ret (-1) else unlinked_tmp_loop n open_flags
  end.

Definition create_unlinked_tmp_fd (flags : Z) : prog world Z :=
  let open_flags := Z.lor (Z.lor O_RDWR O_CREAT) O_EXCL in
  unlinked_tmp_loop 128
    (if flag_set flags O_CLOEXEC then Z.lor open_flags O_CLOEXEC else open_flags).

Definition create_backing_fd (flags : Z) : prog world Z :=
  do fd <- create_memfd flags;
  if 0 <=? fd then Ret fd
  else
    do e <- get_errno t;
    if negb (e =? ENOSYS) && negb (e =? EINVAL) then Ret (-1)
    else create_unlinked_tmp_fd flags.

End backing.
