(* ===== verification/Inode.v ===== *)
(** * Inode attributes and error codes

    The pure functions of [sqfs_mgr.c] on inodes, flags and error numbers:
    [open_flags_need_mode], [errno_from_sqfs], [sqfs_error_string],
    [sqfs_inode_mode], [sqfs_inode_nlink], [sqfs_inode_size] and
    [sqfs_fill_stat]. *)

From S2P Require Import Prelude CString Posix Foreign.

Definition open_flags_need_mode (flags : Z) : bool :=
  if Z.land flags O_TMPFILE =? O_TMPFILE then true else flag_set flags O_CREAT.

Definition errno_from_sqfs (ret : Z) : Z :=
  if ret =? SQFS_ERROR_ALLOC then ENOMEM
  else if ret =? SQFS_ERROR_NO_ENTRY then ENOENT
  else if ret =? SQFS_ERROR_NOT_DIR then ENOTDIR
  else if ret =? SQFS_ERROR_NOT_FILE then EISDIR
  else if ret =? SQFS_ERROR_UNSUPPORTED then ENOTSUP
  else if ret =? SQFS_ERROR_ARG_INVALID then EINVAL
  else EIO.

Definition sqfs_error_string (err : Z) : cstr :=
  if err =? 0 then lit "success"
  else if err =? SQFS_ERROR_ALLOC then lit "allocation failed"
  else if err =? SQFS_ERROR_IO then lit "I/O error"
  else if err =? SQFS_ERROR_COMPRESSOR then lit "compressor error"
  else if err =? SQFS_ERROR_INTERNAL then lit "internal error"
  else if err =? SQFS_ERROR_CORRUPTED then lit "corrupted filesystem"
  else if err =? SQFS_ERROR_UNSUPPORTED then lit "unsupported feature"
  else if err =? SQFS_ERROR_OVERFLOW then lit "numeric overflow"
  else if err =? SQFS_ERROR_OUT_OF_BOUNDS then lit "out-of-bounds read"
  else if err =? SFQS_ERROR_SUPER_MAGIC then lit "bad superblock magic"
  else if err =? SFQS_ERROR_SUPER_VERSION then lit "unsupported superblock version"
  else if err =? SFQS_ERROR_SUPER_BLOCK_SIZE then lit "invalid superblock block size"
  else if err =? SQFS_ERROR_NOT_DIR then lit "not a directory"
  else if err =? SQFS_ERROR_NO_ENTRY then lit "no such entry"
  else if err =? SQFS_ERROR_LINK_LOOP then lit "hard link loop"
  else if err =? SQFS_ERROR_NOT_FILE then lit "not a regular file"
  else if err =? SQFS_ERROR_ARG_INVALID then lit "invalid argument"
  else if err =? SQFS_ERROR_SEQUENCE then lit "invalid operation sequence"
  else lit "unknown libsquashfs error".

(** Tests of the inode type used by several functions. *)
Definition is_dir_type (ty : Z) : bool := (ty =? SQFS_INODE_DIR) || (ty =? SQFS_INODE_EXT_DIR).
Definition is_file_type (ty : Z) : bool := (ty =? SQFS_INODE_FILE) || (ty =? SQFS_INODE_EXT_FILE).

Definition sqfs_inode_mode (inode : sqfs_inode) : Z :=
  let mode := Z.land (ino_mode inode) 0xfff in
  let ty := ino_type inode in
  if (ty =? SQFS_INODE_DIR) || (ty =? SQFS_INODE_EXT_DIR) then Z.lor mode S_IFDIR
  else if (ty =? SQFS_INODE_FILE) || (ty =? SQFS_INODE_EXT_FILE) then Z.lor mode S_IFREG
  else if (ty =? SQFS_INODE_SLINK) || (ty =? SQFS_INODE_EXT_SLINK) then Z.lor mode S_IFLNK
  else if (ty =? SQFS_INODE_BDEV) || (ty =? SQFS_INODE_EXT_BDEV) then Z.lor mode S_IFBLK
  else if (ty =? SQFS_INODE_CDEV) || (ty =? SQFS_INODE_EXT_CDEV) then Z.lor mode S_IFCHR
  else if (ty =? SQFS_INODE_FIFO) || (ty =? SQFS_INODE_EXT_FIFO) then Z.lor mode S_IFIFO
  else if (ty =? SQFS_INODE_SOCKET) || (ty =? SQFS_INODE_EXT_SOCKET) then Z.lor mode S_IFSOCK
  else mode.

Definition sqfs_inode_nlink (inode : sqfs_inode) : Z :=
  let ty := ino_type inode in
  if ty =? SQFS_INODE_DIR then dir_nlink inode
  else if ty =? SQFS_INODE_EXT_DIR then dir_ext_nlink inode
  else if ty =? SQFS_INODE_EXT_FILE then file_ext_nlink inode
  else if ty =? SQFS_INODE_SLINK then slink_nlink inode
  else if ty =? SQFS_INODE_EXT_SLINK then slink_ext_nlink inode
  else if (ty =? SQFS_INODE_BDEV) || (ty =? SQFS_INODE_CDEV) then dev_nlink inode
  else if (ty =? SQFS_INODE_EXT_BDEV) || (ty =? SQFS_INODE_EXT_CDEV) then dev_ext_nlink inode
  else if (ty =? SQFS_INODE_FIFO) || (ty =? SQFS_INODE_SOCKET) then ipc_nlink inode
  else if (ty =? SQFS_INODE_EXT_FIFO) || (ty =? SQFS_INODE_EXT_SOCKET) then ipc_ext_nlink inode
  else 1.

Section inode.
Context `{Platform} `{Ext}.

Definition sqfs_inode_size (inode : sqfs_inode) : Z :=
  let ty := ino_type inode in
  if (ty =? SQFS_INODE_FILE) || (ty =? SQFS_INODE_EXT_FILE) then
    let '(ret, size) := sqfs_inode_get_file_size inode in
    if negb (ret =? 0) then 0 else size
  else if ty =? SQFS_INODE_DIR then dir_size inode
  else if ty =? SQFS_INODE_EXT_DIR then dir_ext_size inode
  else if ty =? SQFS_INODE_SLINK then slink_target_size inode
  else if ty =? SQFS_INODE_EXT_SLINK then slink_ext_target_size inode
  else 0.

(** [block_size] is [g_xSqfsMgr.super.block_size]; [time_t], [off_t] and
    [blkcnt_t] are as wide as [long]; the sum in [st_blocks] is computed on
    [uint64_t]. *)
Definition sqfs_fill_stat (inode : sqfs_inode) (blksize : Z) : stat :=
  let size := sqfs_inode_size inode in
  let mtime := wrap_s word_bits (ino_mod_time inode) in
  {| st_ino := ino_number inode;
     st_mode := sqfs_inode_mode inode;
     st_nlink := sqfs_inode_nlink inode;
     st_uid := 0; st_gid := 0;
     st_size := off_wrap size;
     st_blksize := wrap_s word_bits blksize;
     st_blocks := wrap_s word_bits (wrap_u 64 (size + 511) / 512);
     st_atime := mtime; st_mtime := mtime; st_ctime := mtime |}.

End inode.
