(* ===== verification/Seek.v ===== *)
(** * Seek arithmetic

    The computation of file positions in [sqfs_mgr.c]:
    [max_signed_value_for_size], [sqfs_seek_add] and [sqfs_seek_calculate], on
    64-bit integers with the wrap-around and the signed overflow of C. *)

From S2P Require Import Prelude CString Posix Foreign Inode.

Definition max_signed_value_for_size (size : Z) : Z :=
  if 8 <=? size then wrap_u 64 INT64_MAX
  else wrap_u 64 (wrap_u 64 (Z.shiftl 1 (size * 8 - 1)) - 1).

(** Signed 64-bit arithmetic: an overflow is undefined. *)
Definition int64 (z : Z) : option Z :=
  if decide (INT64_MIN <= z <= INT64_MAX) then Some z else None.

(** The error number and, on success, the new position; [None] is undefined
    behaviour. *)
Definition sqfs_seek_add (base offset : Z) : option (Z * option Z) :=
  if offset <? 0 then
    s ← int64 (offset + 1);
    m ← int64 (- s);
    let distance := wrap_u 64 (wrap_u 64 m + 1) in
    if base <? distance then Some (EINVAL, None)
    else Some (0, Some (wrap_u 64 (base - distance)))
  else if wrap_u 64 (UINT64_MAX - base) <? wrap_u 64 offset then Some (EOVERFLOW, None)
  else Some (0, Some (wrap_u 64 (base + wrap_u 64 offset))).

(** [size] is [sqfs_inode_size] of the inode, [cur] the offset of the record. *)
Definition sqfs_seek_calculate (size cur offset whence : Z) : option (Z * option Z) :=
  if whence =? SEEK_SET then sqfs_seek_add 0 offset
  else if whence =? SEEK_CUR then sqfs_seek_add cur offset
  else if whence =? SEEK_END then sqfs_seek_add size offset
  else if whence =? SEEK_DATA then
    if offset <? 0 then Some (EINVAL, None)
    else if size <=? wrap_u 64 offset then Some (ENXIO, None)
    else Some (0, Some (wrap_u 64 offset))
  else if whence =? SEEK_HOLE then
    if offset <? 0 then Some (EINVAL, None)
    else if size <? wrap_u 64 offset then Some (ENXIO, None)
    else Some (0, Some size)
  else Some (EINVAL, None).

(** ** Reference semantics *)

(** The position a seek asks for, as an exact integer. *)
Definition seek_target (size cur offset whence : Z) : option Z :=
  if whence =? SEEK_SET then Some offset
  else if whence =? SEEK_CUR then Some (cur + offset)
  else if whence =? SEEK_END then Some (size + offset)
  else None.

(** What the code computes, on exact integers. *)
Definition seek_spec (size cur offset whence : Z) : Z * option Z :=
  match seek_target size cur offset whence with
  | Some p =>
      if p <? 0 then (EINVAL, None)
      else if UINT64_MAX <? p then (EOVERFLOW, None)
      else (0, Some p)
  | None =>
      if negb ((whence =? SEEK_DATA) || (whence =? SEEK_HOLE)) then (EINVAL, None)
      else if offset <? 0 then (EINVAL, None)
      else if whence =? SEEK_DATA
           then if offset <? size then (0, Some offset) else (ENXIO, None)
           else if offset <=? size then (0, Some size) else (ENXIO, None)
  end.

(** The positions of a file without holes that POSIX asks for: [SEEK_DATA] and
    [SEEK_HOLE] need an offset inside the file, and fail with [ENXIO] otherwise
    (a negative offset is treated as Linux does). *)
Definition posix_seek (size cur offset whence : Z) : Z * option Z :=
  match seek_target size cur offset whence with
  | Some p =>
      if p <? 0 then (EINVAL, None)
      else if UINT64_MAX <? p then (EOVERFLOW, None)
      else (0, Some p)
  | None =>
      if bool_decide (whence = SEEK_DATA ∨ whence = SEEK_HOLE)
      then if bool_decide (0 <= offset < size)
           then (0, Some (if whence =? SEEK_DATA then offset else size))
           else (ENXIO, None)
      else (EINVAL, None)
  end.

(** Where the code departs from it: a hole is found at the end of the file, and
    the error number of a negative offset is [EINVAL]. *)
Definition hole_at_end (size offset whence : Z) : Prop := whence = SEEK_HOLE ∧ offset = size.
Definition negative_data (offset whence : Z) : Prop :=
  (whence = SEEK_DATA ∨ whence = SEEK_HOLE) ∧ offset < 0.

#[export] Instance hole_at_end_dec size offset whence : Decision (hole_at_end size offset whence) := _.
#[export] Instance negative_data_dec offset whence : Decision (negative_data offset whence) := _.

Definition is_uint64 (z : Z) : Prop := 0 <= z <= UINT64_MAX.
Definition is_int64 (z : Z) : Prop := INT64_MIN <= z <= INT64_MAX.

(** ** Lemmas *)

Lemma seek_add_spec base offset :
  is_uint64 base -> is_int64 offset ->
  sqfs_seek_add base offset =
    Some (if base + offset <? 0 then (EINVAL, None)
          else if UINT64_MAX <? base + offset then (EOVERFLOW, None)
          else (0, Some (base + offset))).
Proof.
  unfold is_uint64, is_int64, INT64_MIN, INT64_MAX, UINT64_MAX, sqfs_seek_add, int64.
  intros Hb Ho. destruct (Z.ltb_spec offset 0).
  - rewrite decide_True by (unfold INT64_MIN, INT64_MAX; lia). cbn [mbind option_bind].
    rewrite decide_True by (unfold INT64_MIN, INT64_MAX; lia). cbn [mbind option_bind].
    rewrite (wrap_u_id 64 (- (offset + 1))) by lia. rewrite (wrap_u_id 64 (- (offset + 1) + 1)) by lia.
    destruct (Z.ltb_spec base (- (offset + 1) + 1)), (Z.ltb_spec (base + offset) 0); try lia; [done|].
    destruct (Z.ltb_spec (2 ^ 64 - 1) (base + offset)); [lia|].
    rewrite wrap_u_id by lia. do 3 f_equal. lia.
  - unfold UINT64_MAX. rewrite (wrap_u_id 64 offset) by lia. rewrite (wrap_u_id 64 (2 ^ 64 - 1 - base)) by lia.
    destruct (Z.ltb_spec (base + offset) 0); [lia|].
    destruct (Z.ltb_spec (2 ^ 64 - 1 - base) offset), (Z.ltb_spec (2 ^ 64 - 1) (base + offset)); try lia; [done|].
    rewrite wrap_u_id by lia. done.
Qed.

Lemma seek_calculate_spec size cur offset whence :
  is_uint64 size -> is_uint64 cur -> is_int64 offset ->
  sqfs_seek_calculate size cur offset whence = Some (seek_spec size cur offset whence).
Proof.
  intros Hs Hc Ho. unfold sqfs_seek_calculate, seek_spec, seek_target.
  destruct (Z.eqb_spec whence SEEK_SET); [rewrite seek_add_spec by (done || (by unfold is_uint64, UINT64_MAX)); done|].
  destruct (Z.eqb_spec whence SEEK_CUR); [by apply seek_add_spec|].
  destruct (Z.eqb_spec whence SEEK_END); [by apply seek_add_spec|].
  unfold is_int64, INT64_MAX in Ho.
  destruct (Z.eqb_spec whence SEEK_DATA) as [->|]; cbn [orb negb].
  - destruct (Z.ltb_spec offset 0); [done|]. rewrite wrap_u_id by lia.
    destruct (Z.leb_spec size offset), (Z.ltb_spec offset size); try lia; done.
  - destruct (Z.eqb_spec whence SEEK_HOLE) as [->|]; cbn [negb]; [|done].
    destruct (Z.ltb_spec offset 0); [done|]. rewrite wrap_u_id by lia.
    destruct (Z.ltb_spec size offset), (Z.leb_spec offset size); try lia; done.
Qed.

Lemma seek_spec_posix size cur offset whence :
  is_uint64 size ->
  seek_spec size cur offset whence =
    if decide (hole_at_end size offset whence) then (0, Some size)
    else if decide (negative_data offset whence) then (EINVAL, None)
    else posix_seek size cur offset whence.
Proof.
  intros [Hs _]. unfold seek_spec, posix_seek.
  destruct (seek_target size cur offset whence) as [p|] eqn:E.
  - rewrite !decide_False; [done|intros [[-> | ->] _]; discriminate|intros [-> _]; discriminate].
  - destruct (Z.eqb_spec whence SEEK_DATA) as [->|Hd]; cbn [orb negb].
    + rewrite decide_False by (intros [? _]; discriminate). rewrite bool_decide_true by by left.
      destruct (Z.ltb_spec offset 0); [rewrite decide_True by (split; [by left|done]); done|].
      rewrite decide_False by (intros [_ ?]; lia).
      destruct (Z.ltb_spec offset size); [rewrite bool_decide_true by lia|rewrite bool_decide_false by lia]; done.
    + destruct (Z.eqb_spec whence SEEK_HOLE) as [->|Hh]; cbn [orb negb].
      2:{ rewrite !decide_False by (intros [? _]; naive_solver). by rewrite bool_decide_false by naive_solver. }
      rewrite (bool_decide_true (_ ∨ _)) by by right. destruct (Z.ltb_spec offset 0).
      { rewrite decide_False by (intros [_ ?]; lia). by rewrite decide_True by (split; [by right|done]). }
      destruct (Z.leb_spec offset size); (case_decide as He;
        [|rewrite decide_False by (intros [_ ?]; lia)]); unfold hole_at_end in He.
      * done.
      * by rewrite bool_decide_true by (split; [|assert (offset ≠ size) by naive_solver]; lia).
      * destruct He; lia.
      * by rewrite bool_decide_false by lia.
Qed.

Lemma seek_spec_range size cur offset whence err p :
  is_uint64 size -> is_uint64 cur -> is_int64 offset ->
  seek_spec size cur offset whence = (err, p) ->
  match p with Some q => err = 0 ∧ is_uint64 q | None => err ≠ 0 end.
Proof.
  intros Hs Hc Ho. unfold seek_spec, is_uint64, is_int64, INT64_MAX, INT64_MIN, UINT64_MAX in *.
  intros Hspec; repeat case_match; simplify_eq; zbool; try done; split; try done; lia.
Qed.

Lemma max_signed_value_spec `{Platform} :
  max_signed_value_for_size sizeof_off_t = 2 ^ (word_bits - 1) - 1.
Proof. unfold sizeof_off_t. by destruct word_bits_cases as [-> | ->]. Qed.
