(* ===== verification/Image.v ===== *)
(** * The image: loading, unloading and finding inodes

    [sqfs_mgr.c]: [sqfs_mgr_loaded_locked], [sqfs_mgr_unload_image],
    [sqfs_mgr_load_image], [sqfs_check_path_then_convert] and
    [sqfs_find_inode]. *)

From S2P Require Import Prelude CString Posix Path Prog Foreign State Logging Backing Inode.

Section image.
Context `{Platform} `{UtHash} `{Ext} `{Fuel}.

Definition HOOKSQFS_FILE : cstr := lit "HOOKSQFS_FILE".

Definition sqfs_mgr_get_prefix : cstr := default (lit "/hook") (getenv (lit "HOOKSQFS_PREFIX")).

(** [sqfs_check_path_then_convert(pathname, relative_out, len)]; [None] is
    undefined behaviour. *)
Definition sqfs_check_path_then_convert (pathname : option cstr)
    (relative_out : option buf) (len : Z) : option (Z * option buf) :=
  let prefix := sqfs_mgr_get_prefix in
  let sqfs_path := getenv HOOKSQFS_FILE in
  match pathname with
  | None => Some (EFAULT, relative_out)
  | Some _ =>
      is_image ← path_equals_normalized pathname sqfs_path;
      if (is_image : bool) then Some (ENOENT, relative_out)
      else
        '(ok, out) ← path_relative_to_root (Some prefix) pathname relative_out len;
        if negb ok then Some (ENOENT, out) else Some (0, out)
  end.

(** The call with a local array [relative[PATH_MAX]]: the error number and,
    when it is 0, the string in the array. *)
Definition convert_local (pathname : option cstr) : prog world (Z * cstr) :=
  match sqfs_check_path_then_convert pathname (Some (uninit PATH_MAX)) PATH_MAX with
  | Some (ret, Some out) =>
      if ret =? 0 then match c_string out with Some s => Ret (0, s) | None => fault end
      else Ret (ret, [])
  | _ => fault
  end.

(** The call with a null output, which only checks containment. *)
Definition check_local (pathname : option cstr) : prog world Z :=
  match sqfs_check_path_then_convert pathname None 0 with
  | Some (ret, _) => Ret ret
  | None => fault
  end.

Context (t : Z).

Definition sqfs_lock : prog world unit := mutex_lock t.
Definition sqfs_unlock : prog world unit := mutex_unlock t.

Definition is_some {A} (o : option A) : bool := match o with Some _ => true | None => false end.

Definition sqfs_mgr_loaded_locked : prog world bool :=
  do file <- mgr_get t m_file;
  if negb (is_some file) then Ret false
  else
    do comp <- mgr_get t m_compressor;
    if negb (is_some comp) then Ret false
    else do reader <- mgr_get t m_data_reader; Ret (is_some reader).

Definition sqfs_util_log_failure (func : cstr) (err : Z) : prog world unit :=
  log_msg t (lit "libsquashfs " ++ func ++ lit " returned " ++ dec err ++ lit " ("
             ++ sqfs_error_string err ++ lit ")" ++ ["010"%char]).

Definition sqfs_compressor_name_readable (id : Z) : cstr :=
  default (lit "unknown") (sqfs_compressor_name_from_id id).

Definition line (s : cstr) : cstr := s ++ ["010"%char].

Definition sqfs_util_super_info (super : sqfs_super) : prog world unit :=
  log_msg t (line (lit "libsquashfs info:")) ;;
  log_msg t (line (lit "inodes: " ++ dec (inode_count super))) ;;
  log_msg t (line (lit "block size: " ++ dec (block_size super))) ;;
  log_msg t (line (lit "bytes used: " ++ dec (bytes_used super))) ;;
  log_msg t (line (lit "compression: " ++ sqfs_compressor_name_readable (compression_id super))).

(** [sqfs_destroy(obj)] runs the object's destructor; [sqfs_free(ptr)] only
    releases the memory, and accepts null. *)
Definition sqfs_destroy (p : loc) : prog world unit :=
  do h <- load t as_handle p;
  do _r <- call t (handle_destroy h);
  heap_free t p.

Definition sqfs_free (p : option loc) : prog world unit :=
  match p with Some p => heap_free t p | None => Ret tt end.

Definition set_file (p : option loc) (m : sqfs_mgr) : sqfs_mgr :=
  MkMgr p (m_compressor m) (m_data_reader m) (m_super m) (m_cfg m) (m_dir_map m) (m_fd_map m).
Definition set_compressor (p : option loc) (m : sqfs_mgr) : sqfs_mgr :=
  MkMgr (m_file m) p (m_data_reader m) (m_super m) (m_cfg m) (m_dir_map m) (m_fd_map m).
Definition set_data_reader (p : option loc) (m : sqfs_mgr) : sqfs_mgr :=
  MkMgr (m_file m) (m_compressor m) p (m_super m) (m_cfg m) (m_dir_map m) (m_fd_map m).
Definition set_super (s : sqfs_super) (m : sqfs_mgr) : sqfs_mgr :=
  MkMgr (m_file m) (m_compressor m) (m_data_reader m) s (m_cfg m) (m_dir_map m) (m_fd_map m).
Definition set_cfg (c : comp_config) (m : sqfs_mgr) : sqfs_mgr :=
  MkMgr (m_file m) (m_compressor m) (m_data_reader m) (m_super m) (Some c) (m_dir_map m) (m_fd_map m).

Definition sqfs_mgr_unload_image : prog world unit :=
  do reader <- mgr_get t m_data_reader;
  (match reader with
   | Some p => sqfs_destroy p ;; mgr_set t (set_data_reader None)
   | None => Ret tt end) ;;
  do comp <- mgr_get t m_compressor;
  (match comp with
   | Some p => sqfs_destroy p ;; mgr_set t (set_compressor None)
   | None => Ret tt end) ;;
  do file <- mgr_get t m_file;
  sqfs_free file ;;
  mgr_set t (set_file None).

(** The object a manager field points to. *)
Definition mgr_handle (f : sqfs_mgr -> option loc) : prog world handle :=
  do p <- mgr_get t f;
  match p with Some p => load t as_handle p | None => fault end.

(** The object a libsquashfs constructor returned. *)
Definition new_handle (h : option handle) : prog world (option loc) :=
  match h with Some h => (do p <- heap_alloc t (OHandle h); Ret (Some p)) | None => Ret None end.

(** [goto out] after unloading. *)
Definition load_failed : prog world bool := sqfs_mgr_unload_image ;; Ret false.

(** The part of [sqfs_mgr_load_image] from the data reader on. *)
Definition load_data_reader : prog world bool :=
  do file <- mgr_handle m_file;
  do super <- mgr_get t m_super;
  do comp <- mgr_handle m_compressor;
  do h <- call t (sqfs_data_reader_create file (block_size super) comp 0);
  do p <- new_handle h;
  mgr_set t (set_data_reader p) ;;
  match p with
  | None => log_msg t (line (lit "sqfs_data_reader_create failed")) ;; load_failed
  | Some p =>
      do reader <- load t as_handle p;
      do super <- mgr_get t m_super;
      do ret <- call t (sqfs_data_reader_load_fragment_table reader super);
      if negb (ret =? 0) then
        log_msg t (line (lit "sqfs_data_reader_load_fragment_table failed: " ++ dec ret)) ;;
        load_failed
      else Ret true
  end.

(** The part from the compressor on. *)
Definition load_compressor : prog world bool :=
  do super <- mgr_get t m_super;
  do '(ret, cfg) <- call t (sqfs_compressor_config_init (compression_id super)
                              (block_size super) SQFS_COMP_FLAG_UNCOMPRESS);
  mgr_set t (set_cfg cfg) ;;
  if negb (ret =? 0) then
    sqfs_util_log_failure (lit "sqfs_compressor_config_init") ret ;; load_failed
  else
    do '(ret, h) <- call t (sqfs_compressor_create cfg);
    if negb (ret =? 0) then
      sqfs_util_log_failure (lit "sqfs_compressor_create") ret ;; load_failed
    else
      do p <- new_handle (Some h);
      mgr_set t (set_compressor p) ;;
      do super <- mgr_get t m_super;
      do ret <- (if flag_set (super_flags super) SQFS_FLAG_COMPRESSOR_OPTIONS then
                   do comp <- mgr_handle m_compressor;
                   do file <- mgr_handle m_file;
                   call t (compressor_read_options comp file)
                 else Ret 0);
      if negb (ret =? 0) then
        sqfs_util_log_failure (lit "sqfs_compressor_read_options") ret ;; load_failed
      else load_data_reader.

Definition load_image_locked : prog world bool :=
  do loaded <- sqfs_mgr_loaded_locked;
  if (loaded : bool) then Ret true
  else
    match getenv HOOKSQFS_FILE with
    | None => log_msg t (line (lit "HOOKSQFS_FILE not set")) ;; Ret false
    | Some sqfs_path =>
        do h <- call t (sqfs_open_file sqfs_path SQFS_FILE_OPEN_READ_ONLY);
        do p <- new_handle h;
        mgr_set t (set_file p) ;;
        match p with
        | None => log_msg t (line (lit "sqfs_open_file failed")) ;; Ret false
        | Some p =>
            do file <- load t as_handle p;
            do '(ret, super) <- call t (sqfs_super_read file);
            mgr_set t (set_super super) ;;
            if negb (ret =? 0) then
              sqfs_util_log_failure (lit "sqfs_super_read") ret ;; load_failed
            else
              log_msg t (line (lit "libsquashfs read OK")) ;;
              sqfs_util_super_info super ;;
              load_compressor
        end
    end.

Definition sqfs_mgr_load_image : prog world bool :=
  sqfs_lock ;;
  do ok <- load_image_locked;
  sqfs_unlock ;;
  Ret ok.

(** [sqfs_dir_reader_create(&super, compressor, file, 0)] on the manager. *)
Definition new_dir_reader : prog world (option loc) :=
  do super <- mgr_get t m_super;
  do comp <- mgr_handle m_compressor;
  do file <- mgr_handle m_file;
  do h <- call t (sqfs_dir_reader_create super comp file 0);
  new_handle h.

Definition sqfs_find_inode (relative : option cstr) : prog world (option loc) :=
  match relative with
  | None => set_errno t EFAULT ;; Ret None
  | Some relative =>
      do loaded <- sqfs_mgr_loaded_locked;
      if negb loaded then set_errno t ENOENT ;; Ret None
      else
        do dir_reader <- new_dir_reader;
        match dir_reader with
        | None => set_errno t ENOMEM ;; Ret None
        | Some dir_reader =>
            do h <- load t as_handle dir_reader;
            do '(ret, i) <- call t (match relative with
                                    | [] => sqfs_dir_reader_get_root_inode h
                                    | _ => sqfs_dir_reader_find_by_path h relative
                                    end);
            do inode <- (if ret =? 0 then (do p <- heap_alloc t (OInode i); Ret (Some p))
                         else Ret None);
            sqfs_destroy dir_reader ;;
            if negb (ret =? 0) then set_errno t (errno_from_sqfs ret) ;; Ret None
            else Ret inode
        end
  end.

End image.
