(* ===== verification/FdOps.v ===== *)
(** * File descriptors of the image

    [sqfs_mgr.c]: [sqfs_open], [sqfs_read], [sqfs_pread], [sqfs_pread64],
    [sqfs_lseek], [sqfs_lseek64], [sqfs_close] and [sqfs_close_nocancel].  A
    read returns the count and the bytes it put in the caller's buffer. *)

From Stdlib Require Import HexString OctalString.
From S2P Require Import Prelude CString Posix Path Prog Foreign State Logging Backing Inode Seek.
From S2P Require Import Image.

(** [%x] and [%o] of an [unsigned int]. *)
Definition hex (z : Z) : cstr := drop 2 (lit (HexString.of_Z (wrap_u 32 z))).
Definition oct (z : Z) : cstr := drop 2 (lit (OctalString.of_Z (wrap_u 32 z))).

(** [%p]. *)
Definition ptr_str (z : Z) : cstr := if z =? 0 then lit "(nil)" else lit (HexString.of_Z z).

Definition quoted (s : cstr) : cstr := ["034"%char] ++ s ++ ["034"%char].

(** [%s] of a pointer that may be null. *)
Definition str_or_null (s : option cstr) : cstr := default (lit "(null)") s.

Section fdops.
Context `{Platform} `{UtHash} `{Ext} `{Fuel}.
Context (t : Z).

(** [HASH_FIND_INT(g_xSqfsMgr.fd_map, &fd, found)]. *)
Definition find_fd (fd : Z) : prog world (option loc) :=
  mgr_get t (λ m, hash_find fd (m_fd_map m)).

(** ** open *)

(** [error_and_free_inode]: the lock is held. *)
Definition open_error_and_free_inode (inode : loc) (relative : cstr) (flags : Z) : prog world Z :=
  sqfs_free t (Some inode) ;;
  sqfs_unlock t ;;
  do e <- get_errno t;
  log_hook t (Some (lit "sqfs_open"))
    (line (lit "failed: relative_path=" ++ quoted relative ++ lit ", flags=0x" ++ hex flags
           ++ lit ", errno=" ++ dec e)) ;;
  Ret (-1).

Definition open_error_and_free_fd (fd : Z) (inode : loc) (relative : cstr) (flags : Z)
    : prog world Z :=
  do _r <- libc_call t lf_close (λ p, call_close p fd);
  open_error_and_free_inode inode relative flags.

(** The part after the path was converted: the file of the image. *)
Definition open_in_image (relative : cstr) (flags : Z) : prog world Z :=
  sqfs_lock t ;;
  do inode <- sqfs_find_inode t (Some relative);
  match inode with
  | None =>
      do find_errno <- get_errno t;
      sqfs_unlock t ;;
      log_hook t (Some (lit "sqfs_open"))
        (line (lit "sqfs_find_inode(" ++ quoted relative ++ lit ") failed: errno=" ++ dec find_errno)) ;;
      set_errno t find_errno ;;
      Ret (-1)
  | Some inode =>
      do fd <- create_backing_fd t flags;
      if fd <? 0 then open_error_and_free_inode inode relative flags
      else
        do fd_entry <- malloc t (OFDEntry (MkFDMapEntry fd inode 0));
        match fd_entry with
        | None => set_errno t ENOMEM ;; open_error_and_free_fd fd inode relative flags
        | Some fd_entry =>
            mgr_set t (λ m, set_fd_map (hash_add fd fd_entry (m_fd_map m)) m) ;;
            set_errno t 0 ;;
            sqfs_unlock t ;;
            do e <- get_errno t;
            log_hook t (Some (lit "sqfs_open"))
              (line (lit "ok: relative_path=" ++ quoted relative ++ lit ", flags=0x" ++ hex flags
                     ++ lit ", errno=" ++ dec e ++ lit " => fd=" ++ dec fd)) ;;
            Ret fd
        end
  end.

(** [mode] is the variadic argument, read only when the flags need it. *)
Definition sqfs_open (pathname : option cstr) (flags mode : Z) : prog world Z :=
  do fd <- (if open_flags_need_mode flags
            then libc_call t lf_open (λ p, call_open p pathname flags (Some (wrap_u 32 mode)))
            else libc_call t lf_open (λ p, call_open p pathname flags None));
  if 0 <=? fd then Ret fd
  else
    do saved_errno <- get_errno t;
    do '(ret, relative) <- convert_local pathname;
    if negb (ret =? 0) then set_errno t saved_errno ;; Ret (-1)
    else open_in_image relative flags.

(** ** read *)

(** The text "inode=..." for the inode of an entry. *)
Definition entry_inode_number (p : loc) : prog world Z :=
  do e <- load t as_fd_entry p;
  do i <- load t as_inode (fe_inode e);
  Ret (ino_number i).

(** The branch for a descriptor of the image; the lock is held. *)
Definition read_mapped (found : loc) (fd count : Z) : prog world (Z * list ascii) :=
  do reader <- mgr_handle t m_data_reader;
  do e <- load t as_fd_entry found;
  do i <- load t as_inode (fe_inode e);
  do '(ret, bytes) <- call t (sqfs_data_reader_read reader i (fe_offset e) (wrap_u 32 count));
  if 0 <=? ret then
    log_hook t (Some (lit "sqfs_read"))
      (line (lit "ok: fd=" ++ dec fd ++ lit ", count=" ++ dec count ++ lit "@" ++ dec (fe_offset e)
             ++ lit ", inode=" ++ dec (ino_number i) ++ lit ": ret=" ++ dec ret)) ;;
    do e <- load t as_fd_entry found;
    store t found (OFDEntry (MkFDMapEntry (fe_key e) (fe_inode e) (wrap_u 64 (fe_offset e + ret)))) ;;
    set_errno t 0 ;;
    Ret (ret, bytes)
  else
    log_hook t (Some (lit "sqfs_read"))
      (line (lit "failed: fd=" ++ dec fd ++ lit ", count=" ++ dec count ++ lit ", inode="
             ++ dec (ino_number i) ++ lit ": " ++ sqfs_error_string ret)) ;;
    set_errno t (errno_from_sqfs ret) ;;
    Ret (-1, []).

Definition sqfs_read (fd count : Z) : prog world (Z * list ascii) :=
  sqfs_lock t ;;
  do found <- find_fd fd;
  match found with
  | None => sqfs_unlock t ;; libc_call t lf_read (λ p, call_read p fd count)
  | Some found =>
      do result <- read_mapped found fd count;
      sqfs_unlock t ;;
      Ret result
  end.

(** ** pread *)

Definition sqfs_pread_mapped (func : cstr) (fd_record : loc) (count offset : Z)
    : prog world (Z * list ascii) :=
  if offset <? 0 then set_errno t EINVAL ;; Ret (-1, [])
  else
    do reader <- mgr_handle t m_data_reader;
    do e <- load t as_fd_entry fd_record;
    do i <- load t as_inode (fe_inode e);
    do '(ret, bytes) <- call t (sqfs_data_reader_read reader i (wrap_u 64 offset) (wrap_u 32 count));
    if 0 <=? ret then
      log_hook t (Some func)
        (line (lit "ok: fd=" ++ dec (fe_key e) ++ lit ", count=" ++ dec count ++ lit "@" ++ dec offset
               ++ lit ", inode=" ++ dec (ino_number i) ++ lit ": ret=" ++ dec ret)) ;;
      set_errno t 0 ;;
      Ret (ret, bytes)
    else
      log_hook t (Some func)
        (line (lit "failed: fd=" ++ dec (fe_key e) ++ lit ", count=" ++ dec count ++ lit "@"
               ++ dec offset ++ lit ", inode=" ++ dec (ino_number i) ++ lit ": "
               ++ sqfs_error_string ret)) ;;
      set_errno t (errno_from_sqfs ret) ;;
      Ret (-1, []).

Definition sqfs_pread (fd count offset : Z) : prog world (Z * list ascii) :=
  sqfs_lock t ;;
  do found <- find_fd fd;
  match found with
  | None => sqfs_unlock t ;; libc_call t lf_pread (λ p, call_pread p fd count offset)
  | Some found =>
      do result <- sqfs_pread_mapped (lit "sqfs_pread") found count offset;
      sqfs_unlock t ;;
      Ret result
  end.

Definition sqfs_pread64 (fd count offset : Z) : prog world (Z * list ascii) :=
  sqfs_lock t ;;
  do found <- find_fd fd;
  match found with
  | None =>
      sqfs_unlock t ;;
      do p <- gets (λ w, lf_pread64 (w_libc w));
      if negb (p =? 0) then libc_call t lf_pread64 (λ p, call_pread p fd count offset)
      else set_errno t ENOSYS ;; Ret (-1, [])
  | Some found =>
      do result <- sqfs_pread_mapped (lit "sqfs_pread64") found count offset;
      sqfs_unlock t ;;
      Ret result
  end.

(** ** lseek *)

Definition seek_log (func : cstr) (what : string) (fd_record : loc) (offset whence old : Z)
    (new err : option Z) : prog world unit :=
  do e <- load t as_fd_entry fd_record;
  do i <- load t as_inode (fe_inode e);
  log_hook t (Some func)
    (line (lit what ++ lit ": fd=" ++ dec (fe_key e) ++ lit ", offset=" ++ dec offset ++ lit ", whence="
           ++ dec whence ++ lit ", old=" ++ dec old
           ++ match new with Some n => lit ", new=" ++ dec n | None => [] end
           ++ lit ", inode=" ++ dec (ino_number i)
           ++ match err with Some n => lit ", errno=" ++ dec n | None => [] end)).

(** The result and the value left in [*new_offset]. *)
Definition sqfs_lseek_mapped (func : cstr) (fd_record : loc) (offset whence max_return : Z)
    : prog world (Z * Z) :=
  do e <- load t as_fd_entry fd_record;
  let old_offset := fe_offset e in
  do i <- load t as_inode (fe_inode e);
  match sqfs_seek_calculate (sqfs_inode_size i) (fe_offset e) offset whence with
  | None => fault
  | Some (err, new) =>
      if negb (err =? 0) then
        set_errno t err ;;
        seek_log func "failed" fd_record offset whence old_offset None (Some err) ;;
        Ret (-1, 0)
      else
        match new with
        | None => fault
        | Some new_offset =>
            if max_return <? new_offset then
              set_errno t EOVERFLOW ;;
              seek_log func "failed" fd_record offset whence old_offset (Some new_offset)
                (Some EOVERFLOW) ;;
              Ret (-1, new_offset)
            else
              do e <- load t as_fd_entry fd_record;
              store t fd_record (OFDEntry (MkFDMapEntry (fe_key e) (fe_inode e) new_offset)) ;;
              set_errno t 0 ;;
              seek_log func "ok" fd_record offset whence old_offset (Some new_offset) None ;;
              Ret (0, new_offset)
        end
  end.

Definition sqfs_lseek (fd offset whence : Z) : prog world Z :=
  sqfs_lock t ;;
  do found <- find_fd fd;
  match found with
  | None => sqfs_unlock t ;; libc_call t lf_lseek (λ p, call_lseek p fd offset whence)
  | Some found =>
      do '(r, new_offset) <- sqfs_lseek_mapped (lit "sqfs_lseek") found offset whence
                               (max_signed_value_for_size sizeof_off_t);
      if negb (r =? 0) then sqfs_unlock t ;; Ret (off_wrap (-1))
      else
        let result := off_wrap new_offset in
        sqfs_unlock t ;;
        Ret result
  end.

Definition sqfs_lseek64 (fd offset whence : Z) : prog world Z :=
  sqfs_lock t ;;
  do found <- find_fd fd;
  match found with
  | None =>
      sqfs_unlock t ;;
      do p <- gets (λ w, lf_lseek64 (w_libc w));
      if negb (p =? 0) then libc_call t lf_lseek64 (λ p, call_lseek p fd offset whence)
      else set_errno t ENOSYS ;; Ret (-1)
  | Some found =>
      do '(r, new_offset) <- sqfs_lseek_mapped (lit "sqfs_lseek64") found offset whence
                               (wrap_u 64 INT64_MAX);
      if negb (r =? 0) then sqfs_unlock t ;; Ret (-1)
      else
        let result := wrap_s 64 new_offset in
        sqfs_unlock t ;;
        Ret result
  end.

(** ** close *)

(** The locked section of [sqfs_close_impl]: removes and frees the entry of
    the descriptor, and returns the inode number if there was one. *)
Definition close_unmap (fd : Z) : prog world (option Z) :=
  sqfs_lock t ;;
  do found <- find_fd fd;
  match found with
  | None => sqfs_unlock t ;; Ret None
  | Some found =>
      do inode_number <- entry_inode_number found;
      do e <- load t as_fd_entry found;
      mgr_set t (λ m, set_fd_map (hash_del (fe_key e) found (m_fd_map m)) m) ;;
      sqfs_free t (Some (fe_inode e)) ;;
      heap_free t found ;;
      sqfs_unlock t ;;
      Ret (Some inode_number)
  end.

(** [real_close] is the address of the function to call. *)
Definition sqfs_close_impl (func : cstr) (fd real_close : Z) : prog world Z :=
  if real_close =? 0 then set_errno t ENOSYS ;; Ret (-1)
  else
    do unmapped <- close_unmap fd;
    match unmapped with
    | None => call_at t real_close (λ p, call_close p fd)
    | Some inode_number =>
        do ret <- call_at t real_close (λ p, call_close p fd);
        do saved_errno <- get_errno t;
        log_hook t (Some func)
          (line (lit "fd=" ++ dec fd ++ lit ", inode=" ++ dec inode_number ++ lit ", ret=" ++ dec ret
                 ++ lit ", errno=" ++ dec (if ret =? 0 then 0 else saved_errno))) ;;
        set_errno t saved_errno ;;
        Ret ret
    end.

Definition sqfs_close (fd : Z) : prog world Z :=
  do real_close <- gets (λ w, lf_close (w_libc w));
  sqfs_close_impl (lit "sqfs_close") fd real_close.

Definition sqfs_close_nocancel (fd : Z) : prog world Z :=
  do nocancel <- gets (λ w, lf_close_nocancel (w_libc w));
  do real_close <- (if negb (nocancel =? 0) then Ret nocancel
                    else gets (λ w, lf_close (w_libc w)));
  sqfs_close_impl (lit "sqfs_close_nocancel") fd real_close.

End fdops.
