(* ===== verification/StatOps.v ===== *)
(** * stat and access

    [sqfs_mgr.c]: [sqfs_stat_impl], [sqfs_xstat] and [sqfs_access]. *)

From S2P Require Import Prelude CString Posix Path Prog Foreign State Logging Backing Inode Image.
From S2P Require Import FdOps.

Section statops.
Context `{Platform} `{UtHash} `{Ext} `{Fuel}.
Context (t : Z).

(** The attributes written to [*buf], or nothing when the inode was not
    found. *)
Definition sqfs_stat_impl (relative : cstr) : prog world (option stat) :=
  do inode <- sqfs_find_inode t (Some relative);
  match inode with
  | None => Ret None
  | Some p =>
      do i <- load t as_inode p;
      do super <- mgr_get t m_super;
      let st := sqfs_fill_stat i (block_size super) in
      sqfs_free t (Some p) ;;
      Ret (Some st)
  end.

(** The result and what was last written to [*buf]; [buf] tells whether the
    pointer is not null. *)
Definition sqfs_xstat (ver : Z) (pathname : option cstr) (buf : bool)
    : prog world (Z * option stat) :=
  do '(r, st) <- libc_call t lf_xstat (λ p, call_xstat p ver pathname buf);
  if r =? 0 then Ret (0, st)
  else
    do '(ret, relative) <- convert_local pathname;
    if negb (ret =? 0) then set_errno t ret ;; Ret (-1, st)
    else if negb buf then set_errno t EFAULT ;; Ret (-1, st)
    else if negb (ver =? 3) then
      log_hook t (Some (lit "sqfs_xstat")) (line (lit "Unsupported ver " ++ dec ver)) ;;
      set_errno t EFAULT ;;
      Ret (-1, st)
    else
      sqfs_lock t ;;
      do ok <- sqfs_stat_impl relative;
      do saved_errno <- get_errno t;
      sqfs_unlock t ;;
      set_errno t saved_errno ;;
      match ok with
      | Some st' => Ret (0, Some st')
      | None => Ret (-1, st)
      end.

(** [return_err]: [st_mode] is 0 unless the attributes were read. *)
Definition access_denied (pathname : option cstr) (mode st_mode : Z) : prog world Z :=
  do outside <- check_local pathname;
  (if outside =? 0 then
     do e <- get_errno t;
     log_hook t (Some (lit "sqfs_access"))
       (line (lit "denied: path=" ++ quoted (str_or_null pathname) ++ lit ", mode=" ++ dec mode
              ++ lit ", st_mode=" ++ oct st_mode ++ lit ", errno=" ++ dec e))
   else Ret tt) ;;
  Ret (-1).

Definition sqfs_access (pathname : option cstr) (mode : Z) : prog world Z :=
  do r <- libc_call t lf_access (λ p, call_access p pathname mode);
  if r =? 0 then
    do outside <- check_local pathname;
    (if outside =? 0 then
       log_hook t (Some (lit "sqfs_access"))
         (line (lit "granted: g_xLibcFuncs.access(path=" ++ quoted (str_or_null pathname)
                ++ lit ", mode=" ++ dec mode ++ lit ")"))
     else Ret tt) ;;
    Ret 0
  else
    do '(ret, relative) <- convert_local pathname;
    if negb (ret =? 0) then set_errno t ret ;; access_denied pathname mode 0
    else
      sqfs_lock t ;;
      do stat_ok <- sqfs_stat_impl relative;
      do saved_errno <- get_errno t;
      sqfs_unlock t ;;
      match stat_ok with
      | None => set_errno t saved_errno ;; access_denied pathname mode 0
      | Some st =>
          let can_read := negb (Z.land (st_mode st) 0x124 =? 0) in
          let can_exec := negb (Z.land (st_mode st) 0x49 =? 0) in
          if flag_set mode W_OK then
            set_errno t EROFS ;; access_denied pathname mode (st_mode st)
          else if flag_set mode R_OK && negb can_read then
            set_errno t EACCES ;; access_denied pathname mode (st_mode st)
          else if flag_set mode X_OK && negb can_exec then
            set_errno t EACCES ;; access_denied pathname mode (st_mode st)
          else
            log_hook t (Some (lit "sqfs_access"))
              (line (lit "granted: path=" ++ quoted (str_or_null pathname) ++ lit ", mode=" ++ dec mode
                     ++ lit ", st_mode=" ++ oct (st_mode st))) ;;
            Ret 0
      end.

End statops.
