(* ===== verification/DirOps.v ===== *)
(** * Directory streams

    [sqfs_mgr.c]: [free_sqfs_dir_entry_list], [enumerate_dir],
    [sqfs_opendir], [sqfs_readdir] and [sqfs_closedir].  [sqfs_readdir]
    returns the directory entry its result points to. *)

From S2P Require Import Prelude CString Posix Path Prog Foreign State Logging Backing Inode Image.
From S2P Require Import FdOps.

Section dirops.
Context `{Platform} `{UtHash} `{Ext} `{Fuel}.
Context (t : Z).

Definition D_NAME_SIZE : Z := 256.
Definition sizeof_dirent : Z := match BITS with BITS32 => 268 | BITS64 => 280 end.

(** [malloc(sizeof(struct SqfsDirEntryNode))]. *)
Definition uninit_node : SqfsDirEntryNode :=
  MkDirNode None (Dirent 0 0 0 0 (uninit D_NAME_SIZE)).

(** Freeing the nodes from the head on. *)
Fixpoint free_nodes (nodes : list loc) : prog world unit :=
  match nodes with
  | [] => Ret tt
  | current :: next =>
      do n <- load t as_dir_node current;
      sqfs_free t (dn_inode n) ;;
      heap_free t current ;;
      free_nodes next
  end.

(** Updates of the fields of a [DirMapEntry] in place. *)
Definition set_entry_list (l : list loc) (e : DirMapEntry) : DirMapEntry :=
  MkDirMapEntry (dm_key e) (dm_dir_reader e) (dm_is_real_dir e) l (dm_entry_current e)
    (dm_reached_end e).
Definition set_entry_current (l : list loc) (e : DirMapEntry) : DirMapEntry :=
  MkDirMapEntry (dm_key e) (dm_dir_reader e) (dm_is_real_dir e) (dm_entry_list e) l
    (dm_reached_end e).
Definition set_reached_end (b : bool) (e : DirMapEntry) : DirMapEntry :=
  MkDirMapEntry (dm_key e) (dm_dir_reader e) (dm_is_real_dir e) (dm_entry_list e)
    (dm_entry_current e) b.

Definition update_entry (p : loc) (f : DirMapEntry -> DirMapEntry) : prog world unit :=
  do e <- load t as_dir_entry p;
  store t p (ODirEntry (f e)).

(** [free_sqfs_dir_entry_list(&entry->dir_entry_list)]. *)
Definition free_sqfs_dir_entry_list (entry : loc) : prog world unit :=
  do e <- load t as_dir_entry entry;
  free_nodes (dm_entry_list e) ;;
  update_entry entry (set_entry_list []).

(** The fields of the new node's [dirent]; [None] when the name does not fit
    in [d_name] or the entry has no [size + 1] bytes of name. *)
Definition make_dirent (i : sqfs_inode) (de : sqfs_dir_entry) (name : buf) : option dirent :=
  let n := Z.to_nat (de_size de + 1) in
  if decide (n <= length (de_name de))%nat then
    name ← buf_write name 0 (take n (de_name de));
    name ← buf_write name n [NUL];
    Some (Dirent (ino_number i) 114514 sizeof_dirent
            (if (ino_type i =? SQFS_INODE_DIR) || (ino_type i =? SQFS_INODE_EXT_DIR)
             then DT_DIR else DT_REG)
            name)
  else None.

(** The loop of [enumerate_dir] over the list of the entry [entry]. *)
Fixpoint enumerate_loop (n : nat) (dir_reader : loc) (entry : loc) : prog world unit :=
  match n with
  | O => spin
  | S n =>
      do h <- load t as_handle dir_reader;
      do '(ret, de) <- call t (sqfs_dir_reader_read h);
      if 0 <? ret then Ret tt
      else if ret <? 0 then
        sqfs_util_log_failure t (lit "sqfs_dir_reader_read") ret ;;
        free_sqfs_dir_entry_list entry
      else
        do dir_entry <- heap_alloc t (OSqfsDirEntry de);
        do node <- malloc t (ODirNode uninit_node);
        match node with
        | None =>
            log_msg t (line (lit "  malloc failed for dir entry")) ;;
            sqfs_free t (Some dir_entry) ;;
            free_sqfs_dir_entry_list entry
        | Some node =>
            do h <- load t as_handle dir_reader;
            do '(ret, i) <- call t (sqfs_dir_reader_get_inode h);
            if negb (ret =? 0) then
              log_msg t (line (lit "  " ++ take (Z.to_nat (de_size de + 1)) (de_name de)
                               ++ lit " size=? head16=<inode error " ++ dec ret ++ lit ">")) ;;
              sqfs_free t (Some dir_entry) ;;
              free_sqfs_dir_entry_list entry
            else
              do inode <- heap_alloc t (OInode i);
              do nd <- load t as_dir_node node;
              match make_dirent i de (d_name (dn_dirent nd)) with
              | None => fault
              | Some d =>
                  store t node (ODirNode (MkDirNode (Some inode) d)) ;;
                  do e <- load t as_dir_entry entry;
                  store t entry (ODirEntry (set_entry_list (dm_entry_list e ++ [node]) e)) ;;
                  enumerate_loop n dir_reader entry
              end
        end
  end.

Definition enumerate_dir (dir_reader entry : loc) : prog world unit :=
  enumerate_loop fuel dir_reader entry.

(** ** opendir *)

(** [out_unlock_only]: releases the lock and closes the stream that is not
    handed to the caller. *)
Definition opendir_unlock (underlying_dir result : Z) : prog world Z :=
  do saved_errno <- get_errno t;
  sqfs_unlock t ;;
  (if negb (underlying_dir =? 0) && (result =? 0) then
     do _r <- libc_call t lf_closedir (λ p, call_closedir p underlying_dir);
     set_errno t saved_errno
   else Ret tt) ;;
  Ret result.

(** [out]. *)
Definition opendir_out (underlying_dir : Z) (inode : option loc) (dir_reader : loc)
    : prog world Z :=
  do saved_errno <- get_errno t;
  sqfs_free t inode ;;
  sqfs_destroy t dir_reader ;;
  set_errno t saved_errno ;;
  opendir_unlock underlying_dir 0.

(** The part after the directory reader was opened on the inode. *)
Definition opendir_register (is_real_dir : bool) (underlying_dir : Z) (inode dir_reader : loc)
    : prog world Z :=
  do underlying_dir <- (if negb is_real_dir then create_backing_dir t else Ret underlying_dir);
  if underlying_dir =? 0 then opendir_out underlying_dir (Some inode) dir_reader
  else
    do dir_entry <- malloc t (ODirEntry (MkDirMapEntry underlying_dir dir_reader is_real_dir [] [] false));
    match dir_entry with
    | None => set_errno t ENOMEM ;; opendir_out underlying_dir (Some inode) dir_reader
    | Some dir_entry =>
        mgr_set t (λ m, set_dir_map (hash_add underlying_dir dir_entry (m_dir_map m)) m) ;;
        enumerate_dir dir_reader dir_entry ;;
        sqfs_free t (Some inode) ;;
        opendir_unlock underlying_dir underlying_dir
    end.

(** The part under the lock. *)
Definition opendir_locked (relative : cstr) (is_real_dir : bool) (underlying_dir : Z)
    : prog world Z :=
  do loaded <- sqfs_mgr_loaded_locked t;
  if negb loaded then
    if is_real_dir then set_errno t 0 ;; opendir_unlock underlying_dir underlying_dir
    else set_errno t ENOENT ;; opendir_unlock underlying_dir 0
  else
    do dir_reader <- new_dir_reader t;
    match dir_reader with
    | None => set_errno t ENOMEM ;; opendir_unlock underlying_dir 0
    | Some dir_reader =>
        do inode <- sqfs_find_inode t (Some relative);
        match inode with
        | None =>
            do saved_errno <- get_errno t;
            if is_real_dir then
              log_hook t (Some (lit "sqfs_opendir"))
                (line (quoted relative ++ lit " belong to the upper layer")) ;;
              sqfs_destroy t dir_reader ;;
              set_errno t 0 ;;
              opendir_unlock underlying_dir underlying_dir
            else
              do e <- get_errno t;
              log_hook t (Some (lit "sqfs_opendir"))
                (line (lit "sqfs_find_inode(" ++ quoted relative ++ lit ") failed: " ++ dec e)) ;;
              set_errno t saved_errno ;;
              opendir_out underlying_dir None dir_reader
        | Some inode =>
            do i <- load t as_inode inode;
            if negb (ino_type i =? SQFS_INODE_DIR) && negb (ino_type i =? SQFS_INODE_EXT_DIR) then
              set_errno t ENOTDIR ;; opendir_out underlying_dir (Some inode) dir_reader
            else
              do h <- load t as_handle dir_reader;
              do ret <- call t (sqfs_dir_reader_open_dir h i 0);
              if negb (ret =? 0) then
                sqfs_util_log_failure t (lit "sqfs_dir_reader_open_dir") ret ;;
                set_errno t (errno_from_sqfs ret) ;;
                opendir_out underlying_dir (Some inode) dir_reader
              else opendir_register is_real_dir underlying_dir inode dir_reader
        end
    end.

Definition sqfs_opendir (name : option cstr) : prog world Z :=
  do underlying_dir <- libc_call t lf_opendir (λ p, call_opendir p name);
  let is_real_dir := negb (underlying_dir =? 0) in
  do '(ret, relative) <- convert_local name;
  if negb (ret =? 0) then
    if is_real_dir then set_errno t 0 ;; Ret underlying_dir
    else set_errno t ENOENT ;; Ret 0
  else
    log_hook t (Some (lit "sqfs_opendir")) (line (str_or_null name ++ lit " -> " ++ relative)) ;;
    sqfs_lock t ;;
    opendir_locked relative is_real_dir underlying_dir.

(** ** readdir *)

Definition dump_dirent (prefix : cstr) (entry : option dirent) : prog world unit :=
  match entry with
  | None => log_msg t (line (lit "  " ++ prefix ++ lit " (null)"))
  | Some d =>
      log_msg t (line (lit "  " ++ prefix ++ lit " ino=" ++ dec (d_ino d) ++ lit " off=" ++ dec (d_off d)
        ++ lit " reclen=" ++ dec (d_reclen d) ++ lit " type=" ++ dec (d_type d) ++ lit " name="
        ++ quoted (default [] (c_string (d_name d)))))
  end.

Definition dump_if (enabled : bool) (prefix : string) (entry : option dirent) : prog world unit :=
  if enabled then dump_dirent (lit prefix) entry else Ret tt.

(** The part on the entries of the image; the lock is held. *)
Definition readdir_image (found : loc) (log_readdir : bool) : prog world (option dirent) :=
  do e <- load t as_dir_entry found;
  if dm_reached_end e then
    dump_if log_readdir "sqfs_dir:" None ;;
    sqfs_unlock t ;;
    Ret None
  else
    (match dm_entry_current e with
     | [] => update_entry found (set_entry_current (dm_entry_list e))
     | _ => Ret tt
     end) ;;
    do e <- load t as_dir_entry found;
    match dm_entry_current e with
    | [] => sqfs_unlock t ;; Ret None
    | current :: next =>
        do n <- load t as_dir_node current;
        let result := dn_dirent n in
        update_entry found (set_entry_current next) ;;
        (match next with
         | [] => update_entry found (set_reached_end true)
         | _ => Ret tt
         end) ;;
        dump_if log_readdir "sqfs_dir:" (Some result) ;;
        sqfs_unlock t ;;
        Ret (Some result)
    end.

Definition sqfs_readdir (dirp : Z) : prog world (option dirent) :=
  let log_readdir := log_enabled (Some (lit "sqfs_readdir")) in
  sqfs_lock t ;;
  do found <- mgr_get t (λ m, hash_find dirp (m_dir_map m));
  match found with
  | None => sqfs_unlock t ;; libc_call t lf_readdir (λ p, call_readdir p dirp)
  | Some found =>
      do e <- load t as_dir_entry found;
      do result <- (if dm_is_real_dir e then libc_call t lf_readdir (λ p, call_readdir p dirp)
                    else Ret None);
      match result with
      | Some d =>
          dump_if log_readdir "real_dir:" (Some d) ;;
          sqfs_unlock t ;;
          Ret (Some d)
      | None => readdir_image found log_readdir
      end
  end.

(** ** closedir *)

Definition sqfs_closedir (dir : Z) : prog world Z :=
  sqfs_lock t ;;
  do found <- mgr_get t (λ m, hash_find dir (m_dir_map m));
  match found with
  | None => sqfs_unlock t ;; libc_call t lf_closedir (λ p, call_closedir p dir)
  | Some found =>
      do e <- load t as_dir_entry found;
      mgr_set t (λ m, set_dir_map (hash_del (dm_key e) found (m_dir_map m)) m) ;;
      sqfs_destroy t (dm_dir_reader e) ;;
      let underlying_dir := dm_key e in
      free_sqfs_dir_entry_list found ;;
      heap_free t found ;;
      log_hook t (Some (lit "sqfs_closedir")) (line (lit "dir=" ++ ptr_str dir)) ;;
      sqfs_unlock t ;;
      libc_call t lf_closedir (λ p, call_closedir p underlying_dir)
  end.

End dirops.
