(* ===== verification/StateFacts.v ===== *)
(** * Executing programs on explicit states

    Weakest-precondition rules for the primitive actions.  States are kept in
    constructor form, with the mutex described by the depth to which thread
    [t] holds it, so that a rule names exactly the fields an action changes. *)

From S2P Require Import Prelude CString Posix Prog Foreign State Logging Kernel.

(** The mutex when thread [t] holds it [d] times and no other thread does. *)
Definition mutex_of (t : Z) (d : nat) : option (Z * nat) :=
  match d with O => None | S _ => Some (t, d) end.

(** A change of [errno] of thread [t] only. *)
Definition errno_frame (t : Z) (er er' : gmap Z Z) : Prop := delete t er' = delete t er.

(** What logging may do outside: open the log file and write to it. *)
Inductive log_ext `{Ext} : ext -> ext -> Prop :=
| log_ext_refl x : log_ext x x
| log_ext_write fd bytes e x y : log_ext (sys_write fd bytes e x).2 y -> log_ext x y
| log_ext_open path flags mode e x y : log_ext (sys_openat path flags mode e x).2 y -> log_ext x y.

Section facts.
Context `{HP : Platform} `{HU : UtHash} `{HE : Ext}.
Implicit Types (er : gmap Z Z) (h : gmap loc obj) (mg : sqfs_mgr).

Lemma errno_frame_refl t er : errno_frame t er er.
Proof. done. Qed.

Lemma errno_frame_insert t er er' e : errno_frame t er er' -> errno_frame t er (<[t := e]> er').
Proof. unfold errno_frame. by rewrite delete_insert_eq. Qed.

Lemma errno_frame_insert_l t er er' e : errno_frame t (<[t := e]> er) er' -> errno_frame t er er'.
Proof. unfold errno_frame. by rewrite delete_insert_eq. Qed.

Lemma errno_frame_trans t er1 er2 er3 :
  errno_frame t er1 er2 -> errno_frame t er2 er3 -> errno_frame t er1 er3.
Proof. unfold errno_frame. congruence. Qed.

Lemma log_ext_trans x y z : log_ext x y -> log_ext y z -> log_ext x z.
Proof. induction 1; eauto using log_ext. Qed.

(** ** Rules *)

Section rules.
Context (t : Z).

Lemma wp_get_errno x er mu mg h n lc dc fc lf (Q : Z -> world -> Prop) :
  Q (default 0 (er !! t)) (World x er mu mg h n lc dc fc lf) ->
  wp (get_errno t) (World x er mu mg h n lc dc fc lf) Q.
Proof. intros HQ. eapply wp_act; [reflexivity|exact HQ]. Qed.

Lemma wp_set_errno e x er mu mg h n lc dc fc lf (Q : unit -> world -> Prop) :
  Q tt (World x (<[t := e]> er) mu mg h n lc dc fc lf) ->
  wp (set_errno t e) (World x er mu mg h n lc dc fc lf) Q.
Proof. intros HQ. eapply wp_act; [reflexivity|exact HQ]. Qed.

Lemma wp_lock d x er mg h n lc dc fc lf (Q : unit -> world -> Prop) :
  Q tt (World x er (mutex_of t (S d)) mg h n lc dc fc lf) ->
  wp (mutex_lock t) (World x er (mutex_of t d) mg h n lc dc fc lf) Q.
Proof.
  intros HQ. eapply wp_act; [|exact HQ]. destruct d; simpl; [done|]. by rewrite Z.eqb_refl.
Qed.

Lemma wp_unlock d x er mg h n lc dc fc lf (Q : unit -> world -> Prop) :
  Q tt (World x er (mutex_of t d) mg h n lc dc fc lf) ->
  wp (mutex_unlock t) (World x er (mutex_of t (S d)) mg h n lc dc fc lf) Q.
Proof. intros HQ. eapply wp_act; [|exact HQ]. simpl. rewrite Z.eqb_refl. by destruct d. Qed.

Lemma wp_locked {B} (f : world -> outcome (B * world)) d x er mg h n lc dc fc lf b w' (Q : B -> world -> Prop) :
  f (World x er (mutex_of t (S d)) mg h n lc dc fc lf) = Done (b, w') -> Q b w' ->
  wp (locked t f) (World x er (mutex_of t (S d)) mg h n lc dc fc lf) Q.
Proof. intros Hf HQ. eapply wp_act; [|exact HQ]. unfold holds_lock. simpl. by rewrite Z.eqb_refl. Qed.

Lemma wp_mgr_get {B} (f : sqfs_mgr -> B) d x er mg h n lc dc fc lf (Q : B -> world -> Prop) :
  Q (f mg) (World x er (mutex_of t (S d)) mg h n lc dc fc lf) ->
  wp (mgr_get t f) (World x er (mutex_of t (S d)) mg h n lc dc fc lf) Q.
Proof. intros HQ. eapply wp_locked; [reflexivity|exact HQ]. Qed.

Lemma wp_mgr_set (f : sqfs_mgr -> sqfs_mgr) d x er mg h n lc dc fc lf (Q : unit -> world -> Prop) :
  Q tt (World x er (mutex_of t (S d)) (f mg) h n lc dc fc lf) ->
  wp (mgr_set t f) (World x er (mutex_of t (S d)) mg h n lc dc fc lf) Q.
Proof. intros HQ. eapply wp_locked; [reflexivity|exact HQ]. Qed.

Lemma wp_heap_alloc o d x er mg h n lc dc fc lf (Q : loc -> world -> Prop) :
  Q n (World x er (mutex_of t (S d)) mg (<[n := o]> h) (Pos.succ n) lc dc fc lf) ->
  wp (heap_alloc t o) (World x er (mutex_of t (S d)) mg h n lc dc fc lf) Q.
Proof. intros HQ. eapply wp_locked; [reflexivity|exact HQ]. Qed.

Lemma wp_heap_free p o d x er mg h n lc dc fc lf (Q : unit -> world -> Prop) :
  h !! p = Some o ->
  Q tt (World x er (mutex_of t (S d)) mg (delete p h) n lc dc fc lf) ->
  wp (heap_free t p) (World x er (mutex_of t (S d)) mg h n lc dc fc lf) Q.
Proof. intros Hp HQ. eapply wp_locked; [|exact HQ]. simpl. by rewrite Hp. Qed.

Lemma wp_load {B} (f : obj -> option B) p o b d x er mg h n lc dc fc lf (Q : B -> world -> Prop) :
  h !! p = Some o -> f o = Some b ->
  Q b (World x er (mutex_of t (S d)) mg h n lc dc fc lf) ->
  wp (load t f p) (World x er (mutex_of t (S d)) mg h n lc dc fc lf) Q.
Proof. intros Hp Hf HQ. eapply wp_locked; [|exact HQ]. simpl. rewrite Hp. simpl. by rewrite Hf. Qed.

Lemma wp_store p o o' d x er mg h n lc dc fc lf (Q : unit -> world -> Prop) :
  h !! p = Some o ->
  Q tt (World x er (mutex_of t (S d)) mg (<[p := o']> h) n lc dc fc lf) ->
  wp (store t p o') (World x er (mutex_of t (S d)) mg h n lc dc fc lf) Q.
Proof. intros Hp HQ. eapply wp_locked; [|exact HQ]. simpl. by rewrite Hp. Qed.

Lemma wp_call {B} (c : foreign ext B) x er mu mg h n lc dc fc lf (Q : B -> world -> Prop) :
  (∀ b e x', c (default 0 (er !! t)) x = (b, e, x') ->
     Q b (World x' (<[t := e]> er) mu mg h n lc dc fc lf)) ->
  wp (call t c) (World x er mu mg h n lc dc fc lf) Q.
Proof.
  intros HQ. destruct (c (default 0 (er !! t)) x) as [[b e] x'] eqn:E.
  eapply wp_act; [|by apply HQ]. unfold errno_of. simpl. by rewrite E.
Qed.

Lemma wp_call_at {B} p (c : Z -> foreign ext B) x er mu mg h n lc dc fc lf (Q : B -> world -> Prop) :
  p ≠ 0 ->
  (∀ b e x', c p (default 0 (er !! t)) x = (b, e, x') ->
     Q b (World x' (<[t := e]> er) mu mg h n lc dc fc lf)) ->
  wp (call_at t p c) (World x er mu mg h n lc dc fc lf) Q.
Proof. intros Hp HQ. unfold call_at. rewrite (proj2 (Z.eqb_neq _ _) Hp). by apply wp_call. Qed.

Lemma wp_libc_call {B} sel (c : Z -> foreign ext B) x er mu mg h n lc dc fc lf (Q : B -> world -> Prop) :
  sel lc ≠ 0 ->
  (∀ b e x', c (sel lc) (default 0 (er !! t)) x = (b, e, x') ->
     Q b (World x' (<[t := e]> er) mu mg h n lc dc fc lf)) ->
  wp (libc_call t sel c) (World x er mu mg h n lc dc fc lf) Q.
Proof. intros Hp HQ. apply wp_bind, wp_gets. by apply wp_call_at. Qed.

Lemma wp_malloc o d x er mg h n lc dc fc lf (Q : option loc -> world -> Prop) :
  (∀ e x', malloc_ok (default 0 (er !! t)) x = (true, e, x') ->
     Q (Some n) (World x' (<[t := e]> er) (mutex_of t (S d)) mg (<[n := o]> h) (Pos.succ n) lc dc fc lf)) ->
  (∀ e x', malloc_ok (default 0 (er !! t)) x = (false, e, x') ->
     Q None (World x' (<[t := e]> er) (mutex_of t (S d)) mg h n lc dc fc lf)) ->
  wp (malloc t o) (World x er (mutex_of t (S d)) mg h n lc dc fc lf) Q.
Proof.
  intros HS HN. apply wp_bind, wp_call. intros [] e x' E.
  - apply wp_bind, wp_heap_alloc, wp_ret. by apply HS.
  - apply wp_ret. by apply HN.
Qed.

End rules.

(** ** Logging terminates and touches nothing but its output *)

Section logging.
Context {HF : Fuel} {HW : WriteSpec}.

Lemma log_write_loop_ok t fd : ∀ m p x er mu mg h n lc dc fc lf (Q : unit -> world -> Prop),
  (eintr_left x + length p < m)%nat ->
  (∀ x' er', log_ext x x' -> errno_frame t er er' -> Q tt (World x' er' mu mg h n lc dc fc lf)) ->
  wp (log_write_loop m t fd p) (World x er mu mg h n lc dc fc lf) Q.
Proof.
  induction m as [|m IH]; intros p x er mu mg h n lc dc fc lf Q Hm HQ; [lia|].
  destruct p as [|c p]; cbn [log_write_loop].
  { apply wp_ret, HQ; [constructor|done]. }
  apply wp_bind, wp_call. intros r e x' Hcall.
  pose proof (sys_write_spec fd (c :: p) (default 0 (er !! t)) x ltac:(done)) as Hw.
  rewrite Hcall in Hw.
  assert (Hx : ∀ y, log_ext x' y -> log_ext x y).
  { intros y Hy. apply (log_ext_write fd (c :: p) (default 0 (er !! t))). by rewrite Hcall. }
  assert (Her : ∀ er', errno_frame t (<[t:=e]> er) er' -> errno_frame t er er')
    by exact (λ er', errno_frame_insert_l t er er' e).
  destruct (Z.ltb_spec r 0).
  { apply wp_bind, wp_get_errno. rewrite lookup_insert_eq. simpl.
    destruct (Z.eqb_spec e EINTR) as [->|Hne].
    - apply IH; [destruct Hw as [(_ & _ & Hd)|[?|?]]; [specialize (Hd eq_refl)|..]; lia|]. auto.
    - apply wp_ret, HQ; [apply Hx; constructor|by apply Her]. }
  destruct (Z.eqb_spec r 0).
  { apply wp_ret, HQ; [apply Hx; constructor|by apply Her]. }
  destruct Hw as [?|[?|(Hr & _ & Hd)]]; [lia|lia|].
  destruct (Z.ltb_spec (Z.of_nat (length (c :: p))) r); [lia|].
  apply IH; [|auto]. rewrite length_drop. lia.
Qed.

Lemma log_write_ok t p x er mu mg h n lc dc fc lf (Q : unit -> world -> Prop) :
  (length p <= 1024)%nat ->
  (∀ x' er' lf', log_ext x x' -> errno_frame t er er' ->
     Q tt (World x' er' mu mg h n lc dc fc lf')) ->
  wp (log_write t p) (World x er mu mg h n lc dc fc lf) Q.
Proof.
  intros Hp HQ. unfold log_write. apply wp_bind, wp_gets. apply wp_bind. cbn [w_log_fd].
  assert (Hrest : ∀ x' er' lf', log_ext x x' -> errno_frame t er er' ->
    wp (do fd <- gets w_log_fd;
        if default (-1) fd <? 0 then Ret tt else log_write_loop fuel t (default (-1) fd) p)
      (World x' er' mu mg h n lc dc fc lf') Q).
  { intros x' er' lf' Hx Her. apply wp_bind, wp_gets. cbn [w_log_fd]. case_match.
    - apply wp_ret. by apply HQ.
    - apply log_write_loop_ok; [pose proof (eintr_fuel x'); lia|].
      intros x2 er2 Hx2 Her2. apply HQ; [by eapply log_ext_trans|by eapply errno_frame_trans]. }
  destruct lf as [fd|]; [apply wp_ret, Hrest; [constructor|done]|].
  unfold log_output_init_once. destruct (getenv (lit "HOOKSQFS_LOG_FILE")) as [[|c path]|];
    try (apply wp_bind, wp_ret, wp_modify, Hrest; [constructor|done]).
  apply wp_bind, wp_call. intros r e x' Hcall. apply wp_modify, Hrest.
  - eapply log_ext_open. rewrite Hcall. constructor.
  - by apply errno_frame_insert.
Qed.

Lemma snprintf_at_ok b i size text :
  (i + size <= length b)%nat -> ∃ b', snprintf_at b i size text = Some b' ∧ length b' = length b.
Proof.
  intros Hle. destruct size as [|m]; simpl; [by exists b|].
  destruct (buf_write b i (take m text ++ [NUL])) as [b'|] eqn:Hw.
  - exists b'. split; [done|]. by eapply buf_write_length.
  - unfold buf_write in Hw. rewrite decide_True in Hw; [done|].
    rewrite length_app, length_take. simpl. lia.
Qed.

Lemma log_msg_bytes_ok text :
  ∃ r, log_msg_bytes text = Some r ∧ ∀ b, r = Some b -> (length b <= 1024)%nat.
Proof.
  unfold log_msg_bytes.
  destruct (snprintf_at_ok (uninit (Z.of_nat LOG_BUF)) 0 LOG_BUF text) as (b' & -> & Hl);
    [rewrite uninit_length, Nat2Z.id; lia|].
  cbn [mbind option_bind]. case_decide; eexists; (split; [done|]); [done|].
  intros b [= <-]. rewrite length_take, Hl, uninit_length, Nat2Z.id. unfold LOG_BUF in *.
  case_decide; lia.
Qed.

Lemma log_hook_bytes_ok f text :
  ∃ r, log_hook_bytes f text = Some r ∧ ∀ b, r = Some b -> (length b <= 1024)%nat.
Proof.
  unfold log_hook_bytes. set (prefix := match f with Some (_ :: _ as g) => _ | _ => None end).
  assert (Hpre : ∃ b pl, (match prefix with
     | Some pre => b ← snprintf_at (uninit (Z.of_nat LOG_BUF)) 0 LOG_BUF pre; Some (b, length pre)
     | None => Some (uninit (Z.of_nat LOG_BUF), O) end) = Some (b, pl) ∧ length b = LOG_BUF).
  { destruct prefix as [pre|].
    - destruct (snprintf_at_ok (uninit (Z.of_nat LOG_BUF)) 0 LOG_BUF pre) as (b' & -> & Hl);
        [rewrite uninit_length, Nat2Z.id; lia|].
      rewrite uninit_length, Nat2Z.id in Hl. cbn. eauto.
    - eexists _, _. split; [done|]. by rewrite uninit_length, Nat2Z.id. }
  destruct Hpre as (b & pl & -> & Hb). cbn [mbind option_bind].
  case_decide; [eexists; by split|].
  destruct (snprintf_at_ok b pl (LOG_BUF - pl) text) as (b' & -> & Hl); [lia|].
  cbn [mbind option_bind]. case_decide; eexists; (split; [done|]); [done|].
  intros b2 [= <-]. rewrite length_take. unfold LOG_BUF in *. case_decide; lia.
Qed.

Lemma wp_log_hook t f text x er mu mg h n lc dc fc lf (Q : unit -> world -> Prop) :
  (∀ x' er' lf', log_ext x x' -> errno_frame t er er' -> (log_enabled f = false -> er' = er ∧ x' = x) ->
     Q tt (World x' er' mu mg h n lc dc fc lf')) ->
  wp (log_hook t f text) (World x er mu mg h n lc dc fc lf) Q.
Proof.
  intros HQ. unfold log_hook. destruct (log_enabled f) eqn:E; cbn [negb].
  - destruct (log_hook_bytes_ok f text) as ([b|] & -> & Hb).
    + apply log_write_ok; [by apply Hb|]. intros. apply HQ; done.
    + apply wp_ret, HQ; [constructor|done..].
  - apply wp_ret, HQ; [constructor|done..].
Qed.

Lemma wp_log_msg t text x er mu mg h n lc dc fc lf (Q : unit -> world -> Prop) :
  (∀ x' er' lf', log_ext x x' -> errno_frame t er er' -> Q tt (World x' er' mu mg h n lc dc fc lf')) ->
  wp (log_msg t text) (World x er mu mg h n lc dc fc lf) Q.
Proof.
  intros HQ. unfold log_msg. destruct (log_msg_bytes_ok text) as ([b|] & -> & Hb).
  - apply log_write_ok; [by apply Hb|]. done.
  - apply wp_ret, HQ; [constructor|done].
Qed.

End logging.
End facts.

#[global] Arguments mutex_of : simpl never.

(** ** Stepping through a program *)

(** Applies the rule of the first action of the program.  Loads and frees need
    the cell as a hypothesis; calls leave their result to be introduced. *)
Ltac wp_step :=
  lazymatch goal with
  | |- wp (prog_bind _ _) _ _ => apply wp_bind; wp_step
  | |- wp (Ret _) _ _ => apply wp_ret
  | |- wp (gets _) _ _ => apply wp_gets
  | |- wp (modify _) _ _ => apply wp_modify
  | |- wp (get_errno _) _ _ => apply wp_get_errno
  | |- wp (set_errno _ _) _ _ => apply wp_set_errno
  | |- wp (mutex_lock _) _ _ => apply wp_lock
  | |- wp (mutex_unlock _) _ _ => apply wp_unlock
  | |- wp (mgr_get _ _) _ _ => apply wp_mgr_get
  | |- wp (mgr_set _ _) _ _ => apply wp_mgr_set
  | |- wp (heap_alloc _ _) _ _ => apply wp_heap_alloc
  | |- wp (load _ _ _) _ _ => eapply wp_load; [eassumption|reflexivity|]
  | |- wp (heap_free _ _) _ _ => eapply wp_heap_free; [eassumption|]
  | |- wp (store _ _ _) _ _ => eapply wp_store; [eassumption|]
  | |- wp (call _ _) _ _ => apply wp_call
  | |- wp (libc_call _ _ _) _ _ => apply wp_libc_call; [cbn; tauto|]
  | |- wp (log_hook _ _ _) _ _ => apply wp_log_hook
  | |- wp (log_msg _ _) _ _ => apply wp_log_msg
  end; cbn beta iota.

Ltac wp_steps := repeat wp_step.
