(* ===== verification/Invariant.v ===== *)
(** * The invariant of the manager

    [wf w]: every heap object has one owner (an open descriptor, an open
    stream, the image, or nobody once it leaked), the two tables and the heap
    agree, and every key of a table is an open descriptor or stream.
    [fd_view w fd] is the abstract state of a descriptor of the image, its
    inode and its offset; [dir_view w d] that of a stream, whether it is on a
    real directory and the entries of the image still to be returned. *)

From S2P Require Import Prelude CString Posix Prog Foreign State Logging Kernel Seek StateFacts.

(** Who releases an object. *)
Inductive owner :=
| OwnFd (fd : Z)
| OwnDir (d : Z)
| OwnNode (p : loc)
| OwnFile
| OwnCompressor
| OwnDataReader
| OwnLeaked.

Section invariant.
Context `{HU : UtHash} `{HS : !UtHashSpec} `{HE : Ext} `{HK : !KernelSpec}.

Abbreviation heap := (gmap loc obj).
Abbreviation owners := (gmap loc owner).

(** Entry [p] of descriptor [fd]: a live entry with that key and a live
    inode, both owned by the descriptor; the offset is a 64-bit value. *)
Definition fd_owned (own : owners) (h : heap) (fd : Z) (p : loc) : Prop :=
  ∃ e i, h !! p = Some (OFDEntry e) ∧ fe_key e = fd ∧ is_uint64 (fe_offset e) ∧ own !! p = Some (OwnFd fd) ∧
         h !! fe_inode e = Some (OInode i) ∧ own !! fe_inode e = Some (OwnFd fd).

Definition node_owned (own : owners) (h : heap) (d : Z) (p : loc) : Prop :=
  ∃ ip de i, h !! p = Some (ODirNode (MkDirNode (Some ip) de)) ∧ own !! p = Some (OwnDir d) ∧
             h !! ip = Some (OInode i) ∧ own !! ip = Some (OwnNode p).

Definition dir_owned (own : owners) (h : heap) (d : Z) (p : loc) : Prop :=
  ∃ e hd, h !! p = Some (ODirEntry e) ∧ dm_key e = d ∧ own !! p = Some (OwnDir d) ∧
          h !! dm_dir_reader e = Some (OHandle hd) ∧ own !! dm_dir_reader e = Some (OwnDir d) ∧
          Forall (node_owned own h d) (dm_entry_list e) ∧ NoDup (dm_entry_list e) ∧
          dm_entry_current e `suffix_of` dm_entry_list e ∧
          (dm_reached_end e = true -> dm_entry_current e = []).

(** A pointer of the manager to an object of libsquashfs. *)
Definition image_owned (own : owners) (h : heap) (o : owner) (p : option loc) : Prop :=
  ∀ l, p = Some l -> own !! l = Some o ∧ ∃ hd, h !! l = Some (OHandle hd).

Record wf_with (own : owners) (fm dm : gmap Z loc) (x : ext) (mg : sqfs_mgr) (h : heap) (n : loc)
    : Prop := WfWith {
  wf_dom l : is_Some (own !! l) <-> is_Some (h !! l);
  wf_fresh l : is_Some (h !! l) -> (l < n)%positive;
  wf_fm : ht_rep (m_fd_map mg) fm;
  wf_dm : ht_rep (m_dir_map mg) dm;
  wf_fds fd p : fm !! fd = Some p -> fd_owned own h fd p;
  wf_dirs d p : dm !! d = Some p -> dir_owned own h d p;
  wf_file : image_owned own h OwnFile (m_file mg);
  wf_compressor : image_owned own h OwnCompressor (m_compressor mg);
  wf_data_reader : image_owned own h OwnDataReader (m_data_reader mg);
  wf_open_fds fd p : fm !! fd = Some p -> 0 <= fd ∧ fd ∈ open_fds x;
  wf_open_dirs d p : dm !! d = Some p -> d ≠ 0 ∧ d ∈ open_dirs x;
}.

Definition wf (w : world) : Prop :=
  ∃ own fm dm, wf_with own fm dm (w_ext w) (w_mgr w) (w_heap w) (w_next w).

(** The image serves reads: it is loaded. *)
Definition image_loaded (w : world) : Prop :=
  is_Some (m_file (w_mgr w)) ∧ is_Some (m_compressor (w_mgr w)) ∧ is_Some (m_data_reader (w_mgr w)).

(** ** Abstraction *)

Definition fd_entry_view (h : heap) (p : loc) : option (sqfs_inode * Z) :=
  e ← (h !! p) ≫= as_fd_entry;
  i ← (h !! fe_inode e) ≫= as_inode;
  Some (i, fe_offset e).

Definition fd_view (w : world) (fd : Z) : option (sqfs_inode * Z) :=
  p ← hash_find fd (m_fd_map (w_mgr w));
  fd_entry_view (w_heap w) p.

(** The nodes [readdir] has still to return. *)
Definition dm_pending (e : DirMapEntry) : list loc :=
  if dm_reached_end e then []
  else match dm_entry_current e with [] => dm_entry_list e | l => l end.

Definition node_dirent (h : heap) (l : loc) : option dirent :=
  n ← (h !! l) ≫= as_dir_node; Some (dn_dirent n).

Definition dir_entry_view (h : heap) (p : loc) : option (bool * list dirent) :=
  e ← (h !! p) ≫= as_dir_entry;
  ds ← mapM (node_dirent h) (dm_pending e);
  Some (dm_is_real_dir e, ds).

Definition dir_view (w : world) (d : Z) : option (bool * list dirent) :=
  p ← hash_find d (m_dir_map (w_mgr w));
  dir_entry_view (w_heap w) p.

(** The same, through the map a hash table stands for. *)
Definition fd_view_m (fm : gmap Z loc) (h : heap) (fd : Z) : option (sqfs_inode * Z) :=
  p ← fm !! fd; fd_entry_view h p.
Definition dir_view_m (dm : gmap Z loc) (h : heap) (d : Z) : option (bool * list dirent) :=
  p ← dm !! d; dir_entry_view h p.

(** What every hook leaves alone: the lock depth, the function table and the
    [errno] of other threads. *)
Record frame (t : Z) (w w' : world) : Prop := Frame {
  fr_mutex : w_mutex w' = w_mutex w;
  fr_libc : w_libc w' = w_libc w;
  fr_errno : errno_frame t (w_errno w) (w_errno w');
}.

(** The libsquashfs objects of the image. *)
Definition mgr_obj (f : sqfs_mgr -> option loc) (w : world) : option handle :=
  l ← f (w_mgr w); (w_heap w !! l) ≫= as_handle.
Definition image_reader (w : world) : option handle := mgr_obj m_data_reader w.
Definition image_file (w : world) : option handle := mgr_obj m_file w.
Definition image_compressor (w : world) : option handle := mgr_obj m_compressor w.

(** The same image, loaded or not. *)
Record image_same (w w' : world) : Prop := ImageSame {
  is_file : m_file (w_mgr w') = m_file (w_mgr w) ∧ image_file w' = image_file w;
  is_compressor :
    m_compressor (w_mgr w') = m_compressor (w_mgr w) ∧ image_compressor w' = image_compressor w;
  is_reader :
    m_data_reader (w_mgr w') = m_data_reader (w_mgr w) ∧ image_reader w' = image_reader w;
  is_super : m_super (w_mgr w') = m_super (w_mgr w);
}.

(** Every descriptor and stream except those excluded is as before. *)
Definition fds_same_but (P : Z -> Prop) (w w' : world) : Prop :=
  ∀ fd, ¬ P fd -> fd_view w' fd = fd_view w fd.
Definition dirs_same_but (P : Z -> Prop) (w w' : world) : Prop :=
  ∀ d, ¬ P d -> dir_view w' d = dir_view w d.

(** The effect of a hook of thread [t] that concerns the descriptors in [F] and
    the streams in [D] only. *)
Record touches (F D : Z -> Prop) (t : Z) (w w' : world) : Prop := Touches {
  to_wf : wf w';
  to_frame : frame t w w';
  to_fds : fds_same_but F w w';
  to_dirs : dirs_same_but D w w';
  to_image : image_same w w';
}.

Definition none : Z -> Prop := λ _, False.

(** Every function the hooks fall back to is known
    ([bLibcFuncPtrsLoaded]). *)
Definition libc_ready (lc : LibcFunctions) : Prop :=
  lf_open lc ≠ 0 ∧ lf_read lc ≠ 0 ∧ lf_pread lc ≠ 0 ∧ lf_pread64 lc ≠ 0 ∧ lf_lseek lc ≠ 0 ∧
  lf_lseek64 lc ≠ 0 ∧ lf_close lc ≠ 0 ∧ lf_close_nocancel lc ≠ 0 ∧ lf_opendir lc ≠ 0 ∧
  lf_readdir lc ≠ 0 ∧ lf_closedir lc ≠ 0 ∧ lf_access lc ≠ 0 ∧ lf_xstat lc ≠ 0.

(** ** Basic facts *)

Lemma wf_own_fresh own fm dm x mg h n :
  wf_with own fm dm x mg h n -> h !! n = None ∧ own !! n = None.
Proof.
  intros Hwf. assert (Hh : h !! n = None).
  { destruct (h !! n) eqn:E; [|done].
    pose proof (wf_fresh _ _ _ _ _ _ _ Hwf n ltac:(rewrite E; eauto)). lia. }
  split; [done|]. destruct (own !! n) eqn:E; [|done].
  destruct (proj1 (wf_dom _ _ _ _ _ _ _ Hwf n) ltac:(rewrite E; eauto)). congruence.
Qed.

(** [cells_kept P]: the cells whose owner satisfies [P] are unchanged. *)
Definition cells_kept (P : owner -> Prop) (own own' : owners) (h h' : heap) : Prop :=
  ∀ l o, own !! l = Some o -> P o -> own' !! l = Some o ∧ h' !! l = h !! l.

Lemma fd_owned_kept (P : owner -> Prop) own own' h h' fd p :
  cells_kept P own own' h h' -> P (OwnFd fd) -> fd_owned own h fd p -> fd_owned own' h' fd p.
Proof.
  intros Hk HP (e & i & Hp & Hkey & Hoff & Hop & Hi & Hoi).
  destruct (Hk _ _ Hop HP) as [? Ep]. destruct (Hk _ _ Hoi HP) as [? Ei].
  exists e, i. by rewrite Ep, Ei.
Qed.

Lemma dir_owned_kept (P : owner -> Prop) own own' h h' d p :
  cells_kept P own own' h h' -> P (OwnDir d) ->
  (∀ l, own !! l = Some (OwnDir d) -> P (OwnNode l)) ->
  dir_owned own h d p -> dir_owned own' h' d p.
Proof.
  intros Hk HP HN (e & hd & Hp & Hkey & Hop & Hr & Hor & Hnodes & Hrest).
  destruct (Hk _ _ Hop HP) as [? Ep]. destruct (Hk _ _ Hor HP) as [? Er].
  exists e, hd. rewrite Ep, Er. repeat split; try done; [|apply Hrest..].
  eapply Forall_impl; [exact Hnodes|]. intros l (ip & de & i & Hl & Hol & Hi & Hoi).
  destruct (Hk _ _ Hol HP) as [? El]. destruct (Hk _ _ Hoi (HN _ Hol)) as [? Ei].
  exists ip, de, i. by rewrite El, Ei.
Qed.

Lemma image_owned_kept (P : owner -> Prop) own own' h h' o p :
  cells_kept P own own' h h' -> P o -> image_owned own h o p -> image_owned own' h' o p.
Proof.
  intros Hk HP Hi l Hl. destruct (Hi l Hl) as [Ho (hd & Hh)].
  destruct (Hk _ _ Ho HP) as [? E]. rewrite E. eauto.
Qed.

(** A new cell disturbs nobody. *)
Lemma cells_kept_alloc own own' h o n P :
  own !! n = None -> own' = own ∨ (∃ w, own' = <[n := w]> own) -> cells_kept P own own' h (<[n := o]> h).
Proof.
  intros Hn Hown l w Hl _. assert (l ≠ n) by congruence. rewrite lookup_insert_ne by done.
  destruct Hown as [->|[w' ->]]; [done|]. by rewrite lookup_insert_ne.
Qed.

(** ** The abstract state through a well-formed world *)

Lemma fd_entry_view_kept (P : owner -> Prop) own own' h h' fd p :
  cells_kept P own own' h h' -> P (OwnFd fd) -> fd_owned own h fd p ->
  fd_entry_view h' p = fd_entry_view h p.
Proof.
  intros Hk HP (e & i & Hp & Hkey & Hoff & Hop & Hi & Hoi).
  destruct (Hk _ _ Hop HP) as [? Ep]. destruct (Hk _ _ Hoi HP) as [? Ei].
  unfold fd_entry_view. rewrite Ep, Hp. cbn [mbind option_bind as_fd_entry]. by rewrite Ei.
Qed.

Lemma dm_pending_subset e : dm_entry_current e `suffix_of` dm_entry_list e ->
  dm_pending e `suffix_of` dm_entry_list e.
Proof.
  intros Hs. unfold dm_pending. destruct (dm_reached_end e); [apply suffix_nil|].
  by destruct (dm_entry_current e).
Qed.

Lemma dir_entry_view_kept (P : owner -> Prop) own own' h h' d p :
  cells_kept P own own' h h' -> P (OwnDir d) -> dir_owned own h d p ->
  dir_entry_view h' p = dir_entry_view h p.
Proof.
  intros Hk HP (e & hd & Hp & Hkey & Hop & Hr & Hor & Hnodes & _ & Hsuf & _).
  destruct (Hk _ _ Hop HP) as [? Ep].
  unfold dir_entry_view. rewrite Ep, Hp. cbn [mbind option_bind as_dir_entry].
  rewrite (Forall_mapM_ext _ (node_dirent h) (dm_pending e)); [done|].
  destruct (dm_pending_subset e Hsuf) as [pre Hpre]. rewrite Hpre in Hnodes.
  apply Forall_app in Hnodes as [_ Hpend]. eapply Forall_impl; [exact Hpend|].
  intros l (ip & de & i & Hl & Hol & _). unfold node_dirent.
  by destruct (Hk _ _ Hol HP) as [_ ->].
Qed.

Section views.
Context own fm dm x mg h n (Hwf : wf_with own fm dm x mg h n).

Lemma fd_view_map w fd : w_mgr w = mg -> w_heap w = h -> fd_view w fd = fd_view_m fm h fd.
Proof.
  intros <- <-. unfold fd_view, fd_view_m.
  by rewrite (hash_find_spec _ _ _ (wf_fm _ _ _ _ _ _ _ Hwf)).
Qed.

Lemma dir_view_map w d : w_mgr w = mg -> w_heap w = h -> dir_view w d = dir_view_m dm h d.
Proof.
  intros <- <-. unfold dir_view, dir_view_m.
  by rewrite (hash_find_spec _ _ _ (wf_dm _ _ _ _ _ _ _ Hwf)).
Qed.

Lemma fd_view_m_kept (P : owner -> Prop) own' fm' h' fd :
  cells_kept P own own' h h' -> P (OwnFd fd) -> fm' !! fd = fm !! fd ->
  fd_view_m fm' h' fd = fd_view_m fm h fd.
Proof.
  intros Hk HP Hfm. unfold fd_view_m. rewrite Hfm. destruct (fm !! fd) as [p|] eqn:E; [|done].
  cbn [mbind option_bind]. eapply fd_entry_view_kept; eauto. by eapply wf_fds.
Qed.

Lemma dir_view_m_kept (P : owner -> Prop) own' dm' h' d :
  cells_kept P own own' h h' -> P (OwnDir d) -> dm' !! d = dm !! d ->
  dir_view_m dm' h' d = dir_view_m dm h d.
Proof.
  intros Hk HP Hfm. unfold dir_view_m. rewrite Hfm. destruct (dm !! d) as [p|] eqn:E; [|done].
  cbn [mbind option_bind]. eapply dir_entry_view_kept; eauto. by eapply wf_dirs.
Qed.

Lemma fd_view_Some w fd i off :
  w_mgr w = mg -> w_heap w = h -> fd_view w fd = Some (i, off) ->
  ∃ p ip, fm !! fd = Some p ∧ hash_find fd (m_fd_map mg) = Some p ∧
    h !! p = Some (OFDEntry (MkFDMapEntry fd ip off)) ∧ is_uint64 off ∧
    h !! ip = Some (OInode i) ∧ own !! p = Some (OwnFd fd) ∧ own !! ip = Some (OwnFd fd).
Proof.
  intros Hm Hh. rewrite (fd_view_map w fd Hm Hh). unfold fd_view_m, fd_entry_view.
  destruct (fm !! fd) as [p|] eqn:Hp; [|done]. cbn [mbind option_bind].
  destruct (wf_fds _ _ _ _ _ _ _ Hwf _ _ Hp) as ([k ip o] & j & He & Hk & Ho & Hop & Hi & Hoi).
  cbn in Hk, Ho, Hi, Hoi. subst k.
  rewrite He. cbn [mbind option_bind as_fd_entry fe_inode]. rewrite Hi. cbn [mbind option_bind as_inode].
  intros [= <- <-]. exists p, ip.
  rewrite (hash_find_spec _ _ _ (wf_fm _ _ _ _ _ _ _ Hwf)). repeat split; done || apply Ho.
Qed.

Lemma fd_view_None w fd :
  w_mgr w = mg -> w_heap w = h ->
  fd_view w fd = None -> fm !! fd = None ∧ hash_find fd (m_fd_map mg) = None.
Proof.
  intros Hm Hh. rewrite (fd_view_map w fd Hm Hh).
  rewrite (hash_find_spec _ _ _ (wf_fm _ _ _ _ _ _ _ Hwf)). unfold fd_view_m, fd_entry_view.
  destruct (fm !! fd) as [p|] eqn:Hp; [|done]. cbn [mbind option_bind].
  destruct (wf_fds _ _ _ _ _ _ _ Hwf _ _ Hp) as (e & j & He & _ & _ & _ & Hi & _).
  rewrite He. cbn [mbind option_bind as_fd_entry]. by rewrite Hi.
Qed.

End views.

(** ** Preservation *)

(** The outside moves on without closing anything the tables refer to. *)
Lemma wf_ext own fm dm x x' mg h n :
  wf_with own fm dm x mg h n ->
  (∀ fd p, fm !! fd = Some p -> fd ∈ open_fds x -> fd ∈ open_fds x') ->
  (∀ d p, dm !! d = Some p -> d ∈ open_dirs x -> d ∈ open_dirs x') ->
  wf_with own fm dm x' mg h n.
Proof.
  intros [] Hf Hd. constructor; try done; intros k p Hk.
  - destruct (wf_open_fds0 _ _ Hk). split; [done|]. by eapply Hf.
  - destruct (wf_open_dirs0 _ _ Hk). split; [done|]. by eapply Hd.
Qed.

(** An object appears that no table refers to yet. *)
Lemma wf_alloc own fm dm x mg h n p n' o w :
  wf_with own fm dm x mg h n -> h !! p = None -> (p < n')%positive -> (n <= n')%positive ->
  wf_with (<[p := w]> own) fm dm x mg (<[p := o]> h) n' ∧
  ∀ P, cells_kept P own (<[p := w]> own) h (<[p := o]> h).
Proof.
  intros Hwf Hp Hlt Hle.
  assert (Ho : own !! p = None).
  { destruct (own !! p) eqn:E; [|done].
    destruct (proj1 (wf_dom _ _ _ _ _ _ _ Hwf p) ltac:(rewrite E; eauto)). congruence. }
  assert (Hk : ∀ P, cells_kept P own (<[p := w]> own) h (<[p := o]> h)).
  { intros P. apply cells_kept_alloc; eauto. }
  split; [|done].
  destruct Hwf. constructor; try done.
  - intros l. rewrite !lookup_insert. case_decide; [split; by eauto|apply wf_dom0].
  - intros l. rewrite lookup_insert. case_decide; [by subst|]. intros ?%wf_fresh0. lia.
  - intros fd q Hq. eapply (fd_owned_kept (λ _, True)); eauto.
  - intros d q Hq. eapply (dir_owned_kept (λ _, True)); eauto.
  - by eapply (image_owned_kept (λ _, True)).
  - by eapply (image_owned_kept (λ _, True)).
  - by eapply (image_owned_kept (λ _, True)).
Qed.

Lemma wf_next own fm dm x mg h n n' :
  wf_with own fm dm x mg h n -> (n <= n')%positive -> wf_with own fm dm x mg h n'.
Proof. intros [] Hle. constructor; try done. intros l ?%wf_fresh0. lia. Qed.

(** An object nobody else owns changes its owner or goes away. *)
Lemma wf_drop own fm dm x mg h n p :
  wf_with own fm dm x mg h n -> own !! p = Some OwnLeaked ->
  wf_with (delete p own) fm dm x mg (delete p h) n.
Proof.
  intros Hwf Hp.
  assert (Hk : cells_kept (λ o, o ≠ OwnLeaked) own (delete p own) h (delete p h)).
  { intros l o Hl Hne. assert (l ≠ p) by congruence. by rewrite !lookup_delete_ne. }
  destruct Hwf. constructor; try done.
  - intros l. rewrite !lookup_delete. case_decide; [split; by intros [? ?]|apply wf_dom0].
  - intros l. rewrite lookup_delete. case_decide; [by intros [? ?]|apply wf_fresh0].
  - intros fd q Hq. eapply fd_owned_kept; eauto. done.
  - intros d q Hq. eapply dir_owned_kept; eauto; done.
  - by eapply image_owned_kept.
  - by eapply image_owned_kept.
  - by eapply image_owned_kept.
Qed.

(** Nothing the tables refer to is closed. *)
Definition grows (x x' : ext) : Prop :=
  open_fds x ⊆ open_fds x' ∧ open_dirs x ⊆ open_dirs x'.

Lemma wf_grows own fm dm x x' mg h n :
  grows x x' -> wf_with own fm dm x mg h n -> wf_with own fm dm x' mg h n.
Proof. intros [Hf Hd] Hwf. eapply wf_ext; [exact Hwf|intros ? ? _; set_solver..]. Qed.

(** The open descriptors and streams are the same. *)
Definition same_open (x x' : ext) : Prop :=
  open_fds x' = open_fds x ∧ open_dirs x' = open_dirs x.

Lemma same_open_grows x x' : same_open x x' -> grows x x'.
Proof. intros [Hf Hd]. unfold grows. by rewrite Hf, Hd. Qed.

Lemma same_open_trans x y z : same_open x y -> same_open y z -> same_open x z.
Proof. unfold same_open. intuition congruence. Qed.

Lemma keeps_same_open {B} (c : foreign ext B) e x b e' x' :
  keeps open_fds open_dirs c -> c e x = (b, e', x') -> same_open x x'.
Proof. intros Hk Hc. specialize (Hk e x). by rewrite Hc in Hk. Qed.

Lemma grows_refl x : grows x x.
Proof. done. Qed.

Lemma grows_trans x y z : grows x y -> grows y z -> grows x z.
Proof. unfold grows. set_solver. Qed.

Lemma keeps_grows {B} (c : foreign ext B) e x b e' x' :
  keeps open_fds open_dirs c -> c e x = (b, e', x') -> grows x x'.
Proof. intros Hk Hc. destruct (Hk e x) as [Hf Hd]. rewrite Hc in Hf, Hd. cbn in Hf, Hd.
  unfold grows. by rewrite Hf, Hd. Qed.

Lemma opens_grows (c : foreign ext Z) e x b e' x' :
  opens_fd open_fds open_dirs c -> c e x = (b, e', x') -> grows x x'.
Proof.
  intros Hk Hc. specialize (Hk e x). rewrite Hc in Hk. destruct Hk as [Hd Hf].
  unfold grows. case_match; set_solver.
Qed.

Lemma log_ext_grows x x' : log_ext x x' -> grows x x'.
Proof.
  induction 1 as [|fd bytes e x y _ IH|path flags mode e x y _ IH]; [apply grows_refl|..].
  - destruct (sys_write fd bytes e x) as [[? ?] ?] eqn:E.
    eapply grows_trans; [eapply keeps_grows; [apply keeps_write|exact E]|done].
  - destruct (sys_openat path flags mode e x) as [[? ?] ?] eqn:E.
    eapply grows_trans; [eapply opens_grows; [apply opens_openat|exact E]|done].
Qed.

Definition is_image_owner (o : owner) : Prop :=
  o = OwnFile ∨ o = OwnCompressor ∨ o = OwnDataReader.

Lemma mgr_obj_kept (P : owner -> Prop) own own' o f w w' :
  cells_kept P own own' (w_heap w) (w_heap w') -> P o ->
  image_owned own (w_heap w) o (f (w_mgr w)) -> f (w_mgr w') = f (w_mgr w) ->
  mgr_obj f w' = mgr_obj f w.
Proof.
  intros Hk HP Hi Hf. unfold mgr_obj. rewrite Hf. destruct (f (w_mgr w)) as [l|]; [|done].
  cbn [mbind option_bind]. destruct (Hi l eq_refl) as [Ho _]. by destruct (Hk _ _ Ho HP) as [_ ->].
Qed.

(** The manager's fields on the image are unchanged. *)
Definition mgr_image_same (mg mg' : sqfs_mgr) : Prop :=
  m_file mg' = m_file mg ∧ m_compressor mg' = m_compressor mg ∧
  m_data_reader mg' = m_data_reader mg ∧ m_super mg' = m_super mg.

(** A change that keeps the cells of everything it does not concern. *)
Lemma touches_intro (P : owner -> Prop) (F D : Z -> Prop) t own own' fm fm' dm dm' w w' :
  wf_with own fm dm (w_ext w) (w_mgr w) (w_heap w) (w_next w) ->
  wf_with own' fm' dm' (w_ext w') (w_mgr w') (w_heap w') (w_next w') ->
  cells_kept P own own' (w_heap w) (w_heap w') ->
  (∀ o, is_image_owner o -> P o) ->
  (∀ fd, ¬ F fd -> P (OwnFd fd) ∧ fm' !! fd = fm !! fd) ->
  (∀ d, ¬ D d -> P (OwnDir d) ∧ dm' !! d = dm !! d) ->
  frame t w w' -> mgr_image_same (w_mgr w) (w_mgr w') ->
  touches F D t w w'.
Proof.
  intros Hwf Hwf' Hk HI HF HD Hfr (Hf & Hc & Hr & Hs). constructor; try done.
  - by exists own', fm', dm'.
  - intros fd Hfd. destruct (HF fd Hfd) as [HP Hfm].
    rewrite (fd_view_map _ _ _ _ _ _ _ Hwf w fd), (fd_view_map _ _ _ _ _ _ _ Hwf' w' fd) by done.
    by eapply fd_view_m_kept.
  - intros d Hd. destruct (HD d Hd) as [HP Hdm].
    rewrite (dir_view_map _ _ _ _ _ _ _ Hwf w d), (dir_view_map _ _ _ _ _ _ _ Hwf' w' d) by done.
    by eapply dir_view_m_kept.
  - destruct Hwf. constructor; [split; [done|]..|done];
      (eapply mgr_obj_kept; [exact Hk| |eassumption|done]); apply HI; unfold is_image_owner; tauto.
Qed.

Lemma image_same_trans w1 w2 w3 : image_same w1 w2 -> image_same w2 w3 -> image_same w1 w3.
Proof. intros [[] [] [] ] [[] [] [] ]. constructor; try split; congruence. Qed.

Lemma frame_trans t w1 w2 w3 : frame t w1 w2 -> frame t w2 w3 -> frame t w1 w3.
Proof. intros [] []. constructor; congruence. Qed.

(** Consecutive operations. *)
Lemma touches_trans F D t w1 w2 w3 :
  touches F D t w1 w2 -> touches F D t w2 w3 -> touches F D t w1 w3.
Proof.
  intros [? ? Hf1 Hd1 ?] [? ? Hf2 Hd2 ?]. constructor.
  - done.
  - by eapply frame_trans.
  - intros fd Hfd. by rewrite Hf2, Hf1.
  - intros d Hd. by rewrite Hd2, Hd1.
  - by eapply image_same_trans.
Qed.

Lemma touches_refl F D t w : wf w -> touches F D t w w.
Proof. intros Hwf. constructor; done. Qed.

Lemma touches_weaken (F F' D D' : Z -> Prop) t w w' :
  (∀ z, F z -> F' z) -> (∀ z, D z -> D' z) -> touches F D t w w' -> touches F' D' t w w'.
Proof. intros HF HD [? ? Hf Hd ?]. constructor; try done; intros z Hz; [apply Hf|apply Hd]; auto. Qed.

Lemma mgr_obj_Some f w hd : mgr_obj f w = Some hd ->
  ∃ l, f (w_mgr w) = Some l ∧ w_heap w !! l = Some (OHandle hd).
Proof.
  unfold mgr_obj. destruct (f (w_mgr w)) as [l|]; [|done]. cbn [mbind option_bind].
  destruct (w_heap w !! l) as [[]|] eqn:E; try done. cbn. intros [= ->]. eauto.
Qed.

Lemma cells_kept_refl P own h : cells_kept P own own h h.
Proof. by intros l o. Qed.

(** ** Descriptors *)

Definition not_fd (fd : Z) (o : owner) : Prop := o ≠ OwnFd fd.

Section fd_changes.
Context own fm dm x mg h n (Hwf : wf_with own fm dm x mg h n).

(** A new offset in the entry of [fd]. *)
Lemma wf_set_offset fd p ip off off' :
  fm !! fd = Some p -> h !! p = Some (OFDEntry (MkFDMapEntry fd ip off)) -> is_uint64 off' ->
  let h' := <[p := OFDEntry (MkFDMapEntry fd ip off')]> h in
  wf_with own fm dm x mg h' n ∧ cells_kept (not_fd fd) own own h h' ∧
  (∀ i, h !! ip = Some (OInode i) -> fd_view_m fm h' fd = Some (i, off')).
Proof.
  intros Hfm Hp Hoff h'.
  destruct (wf_fds _ _ _ _ _ _ _ Hwf _ _ Hfm) as (e & i & He & _ & _ & Hop & Hi & Hoi).
  rewrite Hp in He. injection He as <-. cbn in Hi, Hoi.
  assert (Hne : ip ≠ p) by congruence.
  assert (Hk : cells_kept (not_fd fd) own own h h').
  { intros l o Hl Hnf. split; [done|]. apply lookup_insert_ne. unfold not_fd in Hnf. congruence. }
  split; [|split; [done|]].
  - destruct Hwf. constructor; try done.
    + intros l. unfold h'. rewrite lookup_insert. case_decide; [subst|apply wf_dom0].
      rewrite Hop. split; eauto.
    + intros l. unfold h'. rewrite lookup_insert. case_decide; [subst|apply wf_fresh0].
      intros _. apply wf_fresh0. rewrite Hp. eauto.
    + intros fd' q Hq. destruct (decide (fd' = fd)) as [->|Hd].
      * simplify_eq. exists (MkFDMapEntry fd ip off'), i. unfold h'. cbn.
        by rewrite lookup_insert_eq, lookup_insert_ne.
      * eapply fd_owned_kept; eauto. unfold not_fd. congruence.
    + intros d q Hq. eapply dir_owned_kept; eauto; unfold not_fd; done.
    + by eapply image_owned_kept.
    + by eapply image_owned_kept.
    + by eapply image_owned_kept.
  - intros j Hj. unfold fd_view_m, fd_entry_view, h'. rewrite Hfm. cbn [mbind option_bind].
    rewrite lookup_insert_eq. cbn [mbind option_bind as_fd_entry fe_inode fe_offset].
    rewrite lookup_insert_ne by done. rewrite Hj. done.
Qed.

(** A new entry, made of two objects nobody owns. *)
Lemma wf_add_fd fd p ip i :
  fm !! fd = None -> 0 <= fd -> fd ∈ open_fds x ->
  own !! p = Some OwnLeaked -> h !! p = Some (OFDEntry (MkFDMapEntry fd ip 0)) ->
  own !! ip = Some OwnLeaked -> h !! ip = Some (OInode i) ->
  let own' := <[p := OwnFd fd]> (<[ip := OwnFd fd]> own) in
  wf_with own' (<[fd := p]> fm) dm x (set_fd_map (hash_add fd p (m_fd_map mg)) mg) h n ∧
  cells_kept (λ o, o ≠ OwnLeaked) own own' h h ∧
  fd_view_m (<[fd := p]> fm) h fd = Some (i, 0).
Proof.
  intros Hfm Hpos Hopen Hop Hp Hoi Hi own'.
  assert (Hne : ip ≠ p) by congruence.
  assert (Hk : cells_kept (λ o, o ≠ OwnLeaked) own own' h h).
  { intros l o Hl Hnl. split; [|done]. unfold own'. by rewrite !lookup_insert_ne by congruence. }
  split; [|split; [done|]].
  - destruct Hwf. constructor; try done.
    + intros l. unfold own'. rewrite !lookup_insert.
      repeat case_decide; subst; [rewrite Hp|rewrite Hi|apply wf_dom0]; split; eauto.
    + by apply hash_add_spec.
    + intros fd' q. rewrite lookup_insert. case_decide; [intros [= <-]; subst|intros Hq].
      * exists (MkFDMapEntry fd' ip 0), i. cbn. unfold own'.
        rewrite lookup_insert_eq, lookup_insert_ne, lookup_insert_eq by done. done.
      * eapply fd_owned_kept; eauto. done.
    + intros d q Hq. eapply dir_owned_kept; eauto; done.
    + by eapply image_owned_kept.
    + by eapply image_owned_kept.
    + by eapply image_owned_kept.
    + intros fd' q. rewrite lookup_insert. case_decide; [intros [= <-]; by subst|apply wf_open_fds0].
  - unfold fd_view_m, fd_entry_view. rewrite lookup_insert_eq. cbn [mbind option_bind].
    rewrite Hp. cbn [mbind option_bind as_fd_entry fe_inode fe_offset]. by rewrite Hi.
Qed.

(** The entry of [fd] and its inode are released. *)
Lemma wf_del_fd fd p ip off :
  fm !! fd = Some p -> h !! p = Some (OFDEntry (MkFDMapEntry fd ip off)) ->
  let own' := delete p (delete ip own) in
  let h' := delete p (delete ip h) in
  wf_with own' (delete fd fm) dm x (set_fd_map (hash_del fd p (m_fd_map mg)) mg) h' n ∧
  cells_kept (not_fd fd) own own' h h'.
Proof.
  intros Hfm Hp own' h'.
  destruct (wf_fds _ _ _ _ _ _ _ Hwf _ _ Hfm) as (e & i & He & _ & _ & Hop & Hi & Hoi).
  rewrite Hp in He. injection He as <-. cbn in Hi, Hoi.
  assert (Hk : cells_kept (not_fd fd) own own' h h').
  { intros l o Hl Hnf. unfold not_fd in Hnf. unfold own', h'.
    rewrite !lookup_delete_ne by congruence. done. }
  split; [|done].
  destruct Hwf. constructor; try done.
  - intros l. unfold own', h'. rewrite !lookup_delete.
    repeat case_decide; subst; [split; by intros [? ?]..|apply wf_dom0].
  - intros l. unfold h'. rewrite !lookup_delete.
    repeat case_decide; subst; [by intros [? ?]..|apply wf_fresh0].
  - by apply hash_del_spec.
  - intros fd' q. rewrite lookup_delete. case_decide; [done|]. intros Hq.
    eapply fd_owned_kept; eauto. unfold not_fd. congruence.
  - intros d q Hq. eapply dir_owned_kept; eauto; unfold not_fd; done.
  - by eapply image_owned_kept.
  - by eapply image_owned_kept.
  - by eapply image_owned_kept.
  - intros fd' q. rewrite lookup_delete. case_decide; [done|apply wf_open_fds0].
Qed.

End fd_changes.

(** ** Foreign calls as functions on the world *)

(** The objects that are live. *)
Definition live (w : world) : gset loc := dom (w_heap w).

(** The world after a foreign call. *)
Definition after {B} (t : Z) (c : foreign ext B) (w : world) : world :=
  let '(_, e, x) := c (errno_of t w) (w_ext w) in
  set_errnos (<[t := e]> (w_errno w)) (set_ext x w).

(** The result of a foreign call. *)
Definition result {B} (t : Z) (c : foreign ext B) (w : world) : B :=
  (c (errno_of t w) (w_ext w)).1.1.

Lemma run_call {B} t (c : foreign ext B) w : run (call t c) w = Done (result t c w, after t c w).
Proof.
  unfold call, result, after. rewrite run_act. by destruct (c (errno_of t w) (w_ext w)) as [[b e] x].
Qed.

Lemma run_libc_call {B} t sel (c : Z -> foreign ext B) w :
  sel (w_libc w) ≠ 0 ->
  run (libc_call t sel c) w = Done (result t (c (sel (w_libc w))) w, after t (c (sel (w_libc w))) w).
Proof.
  intros Hne. unfold libc_call, call_at. rewrite run_bind. cbn [run gets act outcome_bind fst snd].
  rewrite (proj2 (Z.eqb_neq _ _) Hne). apply run_call.
Qed.

Lemma run_libc_bind {B C} t sel (c : Z -> foreign ext B) w :
  sel (w_libc w) ≠ 0 -> ∀ (rest : B -> prog world C),
  run (prog_bind (libc_call t sel c) rest) w
    = run (rest (result t (c (sel (w_libc w))) w)) (after t (c (sel (w_libc w))) w).
Proof. intros Hne rest. by rewrite run_bind, run_libc_call. Qed.

Lemma after_frame {B} t (c : foreign ext B) w : frame t w (after t c w).
Proof.
  unfold after. destruct (c _ _) as [[b e] x]. constructor; [done..|]. by apply errno_frame_insert.
Qed.

Lemma after_mgr {B} t (c : foreign ext B) w :
  w_mgr (after t c w) = w_mgr w ∧ w_heap (after t c w) = w_heap w ∧ w_next (after t c w) = w_next w.
Proof. unfold after. by destruct (c _ _) as [[? ?] ?]. Qed.

Lemma after_view {B} t (c : foreign ext B) w fd : fd_view (after t c w) fd = fd_view w fd.
Proof. unfold after. by destruct (c _ _) as [[? ?] ?]. Qed.

Lemma after_dir_view {B} t (c : foreign ext B) w d : dir_view (after t c w) d = dir_view w d.
Proof. unfold after. by destruct (c _ _) as [[? ?] ?]. Qed.

Lemma after_live {B} t (c : foreign ext B) w : live (after t c w) = live w.
Proof. unfold after. by destruct (c _ _) as [[? ?] ?]. Qed.

Lemma after_wf {B} t (c : foreign ext B) w :
  (∀ e x b e' x', c e x = (b, e', x') -> grows x x') -> wf w -> wf (after t c w).
Proof.
  intros Hc (own & fm & dm & Hwf). exists own, fm, dm. unfold after.
  destruct (c (errno_of t w) (w_ext w)) as [[b e] x] eqn:E. cbn. eapply wf_grows; [|exact Hwf].
  by eapply Hc.
Qed.

Lemma after_same_open t (c : foreign ext Z) w :
  opens_fd open_fds open_dirs c -> result t c w < 0 -> same_open (w_ext w) (w_ext (after t c w)).
Proof.
  intros Hc. specialize (Hc (errno_of t w) (w_ext w)). unfold result, after.
  destruct (c _ _) as [[r e] x]. cbn. intros Hr. destruct Hc as [Hd Hf].
  rewrite (proj2 (Z.ltb_lt r 0)) in Hf by done. done.
Qed.

(** Nothing but the outside and [errno] changed. *)
Lemma touches_same t d own fm dm x x' er er' mg h n n' lc dc dc' fc fc' lf lf' :
  wf_with own fm dm x mg h n -> (n <= n')%positive -> grows x x' -> errno_frame t er er' ->
  touches none none t (World x er (mutex_of t d) mg h n lc dc fc lf)
    (World x' er' (mutex_of t d) mg h n' lc dc' fc' lf').
Proof.
  intros Hwf Hn Hx Her.
  pose proof (wf_next _ _ _ _ _ _ _ _ (wf_grows _ _ _ _ _ _ _ _ Hx Hwf) Hn) as Hwf'.
  eapply (touches_intro (λ _, True)); [exact Hwf|exact Hwf'|by apply cells_kept_refl|done..].
Qed.

End invariant.

(** Opens a well-formed world whose mutex [t] holds [d] times. *)
Ltac open_world Hwf Hmu :=
  let own := fresh "own" in let fm := fresh "fm" in let dm := fresh "dm" in
  destruct Hwf as (own & fm & dm & Hwf);
  match type of Hwf with wf_with _ _ _ (w_ext ?w) _ _ _ =>
    destruct w as [x er mu mg h n lc dc fc lf] end;
  cbn [w_ext w_errno w_mutex w_mgr w_heap w_next w_libc w_dir_counter w_fd_counter w_log_fd] in *;
  subst.
