(* ===== verification/ImageFacts.v ===== *)
(** * The image: lemmas

    Looking up an inode, executed on an explicit state: the temporary
    directory reader is always released, and the result and the error number
    come from one lookup in the image. *)

From S2P Require Import Prelude CString Posix Path Prog Foreign State Logging Kernel Backing.
From S2P Require Import Inode Image StateFacts Invariant.

Section facts.
Context `{HP : Platform} `{HU : UtHash} `{HS : !UtHashSpec} `{HE : Ext} `{HK : !KernelSpec}
  `{HF : Fuel} `{HW : !WriteSpec}.

(** ** Abstract lookups *)

(** The call that looks a relative path up. *)
Definition lookup_call (h : handle) (relative : cstr) : foreign ext (Z * sqfs_inode) :=
  match relative with
  | [] => sqfs_dir_reader_get_root_inode h
  | _ => sqfs_dir_reader_find_by_path h relative
  end.

(** The image returned [i] for the path. *)
Definition found (relative : cstr) (i : sqfs_inode) : Prop :=
  ∃ h e x e' x', lookup_call h relative e x = ((0, i), e', x').

(** Why a lookup failed, by its error number. *)
Inductive find_error (loaded : Prop) (relative : cstr) : Z -> Prop :=
| find_unloaded : ¬ loaded -> find_error loaded relative ENOENT
| find_no_reader super c f e x e' x' :
    sqfs_dir_reader_create super c f 0 e x = (None, e', x') -> find_error loaded relative ENOMEM
| find_lookup h e x ret i e' x' :
    lookup_call h relative e x = ((ret, i), e', x') -> ret ≠ 0 ->
    find_error loaded relative (errno_from_sqfs ret).

Definition mgr_loaded (mg : sqfs_mgr) : bool :=
  is_some (m_file mg) && is_some (m_compressor mg) && is_some (m_data_reader mg).

Lemma mgr_loaded_spec w : mgr_loaded (w_mgr w) = true <-> image_loaded w.
Proof.
  unfold mgr_loaded, image_loaded. destruct (m_file _), (m_compressor _), (m_data_reader _);
    cbn; unfold is_Some; naive_solver.
Qed.

Lemma errno_from_sqfs_pos ret : 0 < errno_from_sqfs ret.
Proof. unfold errno_from_sqfs. by repeat case_match. Qed.

Section steps.
Context (t : Z).

Lemma wp_mgr_handle (f : sqfs_mgr -> option loc) l hd d x er mg h n lc dc fc lf
    (Q : handle -> world -> Prop) :
  f mg = Some l -> h !! l = Some (OHandle hd) ->
  Q hd (World x er (mutex_of t (S d)) mg h n lc dc fc lf) ->
  wp (mgr_handle t f) (World x er (mutex_of t (S d)) mg h n lc dc fc lf) Q.
Proof. intros Hf Hl HQ. unfold mgr_handle. wp_step. rewrite Hf. wp_step. exact HQ. Qed.

Lemma wp_loaded d x er mg h n lc dc fc lf (Q : bool -> world -> Prop) :
  Q (mgr_loaded mg) (World x er (mutex_of t (S d)) mg h n lc dc fc lf) ->
  wp (sqfs_mgr_loaded_locked t) (World x er (mutex_of t (S d)) mg h n lc dc fc lf) Q.
Proof.
  intros HQ. unfold sqfs_mgr_loaded_locked, mgr_loaded in *. wp_step.
  destruct (m_file mg); cbn [is_some negb andb] in *; [|by wp_step].
  wp_step. destruct (m_compressor mg); cbn [is_some negb andb] in *; by wp_steps.
Qed.

Lemma wp_sqfs_destroy p hd d x er mg h n lc dc fc lf (Q : unit -> world -> Prop) :
  h !! p = Some (OHandle hd) ->
  (∀ e x', same_open x x' ->
     Q tt (World x' (<[t := e]> er) (mutex_of t (S d)) mg (delete p h) n lc dc fc lf)) ->
  wp (sqfs_destroy t p) (World x er (mutex_of t (S d)) mg h n lc dc fc lf) Q.
Proof.
  intros Hp HQ. unfold sqfs_destroy. do 2 wp_step. intros [] e x' Hcall. wp_step. apply HQ.
  eapply keeps_same_open; [apply keeps_destroy|exact Hcall].
Qed.

Lemma wp_sqfs_free p o d x er mg h n lc dc fc lf (Q : unit -> world -> Prop) :
  h !! p = Some o ->
  Q tt (World x er (mutex_of t (S d)) mg (delete p h) n lc dc fc lf) ->
  wp (sqfs_free t (Some p)) (World x er (mutex_of t (S d)) mg h n lc dc fc lf) Q.
Proof. intros Hp HQ. unfold sqfs_free. by wp_step. Qed.

(** A directory reader on the loaded image. *)
Lemma wp_new_dir_reader own fm dm d x er mg h n lc dc fc lf (Q : option loc -> world -> Prop) :
  wf_with own fm dm x mg h n -> mgr_loaded mg = true ->
  (∀ e x' hd, same_open x x' ->
     Q (Some n) (World x' (<[t := e]> er) (mutex_of t (S d)) mg (<[n := OHandle hd]> h) (Pos.succ n)
                   lc dc fc lf)) ->
  (∀ super c f e0 e x', sqfs_dir_reader_create super c f 0 e0 x = (None, e, x') -> same_open x x' ->
     Q None (World x' (<[t := e]> er) (mutex_of t (S d)) mg h n lc dc fc lf)) ->
  wp (new_dir_reader t) (World x er (mutex_of t (S d)) mg h n lc dc fc lf) Q.
Proof.
  intros Hwf Hl HS' HN. unfold mgr_loaded in Hl.
  destruct (m_file mg) as [lf'|] eqn:Ef; [|done].
  destruct (m_compressor mg) as [lc'|] eqn:Ec; [|done].
  destruct (wf_file _ _ _ _ _ _ _ Hwf _ Ef) as (_ & hf & Hf).
  destruct (wf_compressor _ _ _ _ _ _ _ Hwf _ Ec) as (_ & hc & Hc).
  unfold new_dir_reader. wp_step.
  apply wp_bind. eapply wp_mgr_handle; [done..|]. apply wp_bind. eapply wp_mgr_handle; [done..|].
  wp_step. intros [hd|] e x' Hcall;
    (assert (same_open x x') by (eapply keeps_same_open; [apply keeps_dir_reader_create|exact Hcall]));
    unfold new_handle; cbn beta iota.
  - do 2 wp_step. by apply HS'.
  - wp_step. by eapply HN.
Qed.

(** The lookup: on success one new object, the inode; on failure none. *)
Lemma wp_find_inode own fm dm rel d x er mg h n lc dc fc lf (Q : option loc -> world -> Prop) :
  wf_with own fm dm x mg h n ->
  (∀ p n' i x' er', found rel i -> mgr_loaded mg = true -> same_open x x' -> errno_frame t er er' ->
     h !! p = None -> (p < n')%positive -> (n <= n')%positive ->
     Q (Some p) (World x' er' (mutex_of t (S d)) mg (<[p := OInode i]> h) n' lc dc fc lf)) ->
  (∀ n' x' e er', find_error (mgr_loaded mg = true) rel e -> same_open x x' ->
     errno_frame t er er' -> er' !! t = Some e -> (n <= n')%positive ->
     Q None (World x' er' (mutex_of t (S d)) mg h n' lc dc fc lf)) ->
  wp (sqfs_find_inode t (Some rel)) (World x er (mutex_of t (S d)) mg h n lc dc fc lf) Q.
Proof.
  intros Hwf HS' HN. unfold sqfs_find_inode. apply wp_bind, wp_loaded.
  destruct (mgr_loaded mg) eqn:El; cbn [negb].
  2:{ do 2 wp_step. apply (HN _ _ ENOENT); [by constructor|done|by apply errno_frame_insert|apply lookup_insert_eq|lia]. }
  destruct (wf_own_fresh _ _ _ _ _ _ _ Hwf) as [Hn _].
  apply wp_bind. eapply wp_new_dir_reader; [done..| |].
  - intros e x1 hd Hx1. eapply wp_bind, wp_load; [apply lookup_insert_eq|done|].
    change (match rel with [] => sqfs_dir_reader_get_root_inode hd
            | _ => sqfs_dir_reader_find_by_path hd rel end) with (lookup_call hd rel).
    wp_step. intros [ret i] e2 x2 Hcall. cbn beta iota.
    assert (Hx2 : same_open x1 x2).
    { unfold lookup_call in Hcall.
      destruct rel; (eapply keeps_same_open; [|exact Hcall]); [apply keeps_get_root|apply keeps_find_by_path]. }
    destruct (Z.eqb_spec ret 0) as [->|Hret]; cbn [negb].
    + do 2 wp_step. apply wp_bind. eapply wp_sqfs_destroy.
      { rewrite lookup_insert_ne by lia. apply lookup_insert_eq. }
      intros e3 x3 Hx3. wp_step.
      rewrite delete_insert_ne, delete_insert_id by (done || lia).
      apply HS'; [by exists hd, (default 0 ((<[t:=e]> er) !! t)), x1, e2, x2|done
        |by do 2 (eapply same_open_trans; [eassumption|])| | |lia|lia].
      { by do 3 apply errno_frame_insert. }
      destruct (h !! Pos.succ n) eqn:E; [|done].
      pose proof (wf_fresh _ _ _ _ _ _ _ Hwf (Pos.succ n) ltac:(rewrite E; eauto)). lia.
    + wp_step. apply wp_bind. eapply wp_sqfs_destroy; [apply lookup_insert_eq|].
      intros e3 x3 Hx3. do 2 wp_step. rewrite delete_insert_id by done.
      apply (HN _ _ (errno_from_sqfs ret)); [by eapply find_lookup| | |apply lookup_insert_eq|lia].
      * by do 2 (eapply same_open_trans; [eassumption|]).
      * by do 4 apply errno_frame_insert.
  - intros super c f e0 e x' Hcall Hx. do 2 wp_step.
    apply (HN _ _ ENOMEM); [by eapply find_no_reader|done| |apply lookup_insert_eq|lia].
    by do 2 apply errno_frame_insert.
Qed.

End steps.
End facts.
