(* ===== verification/MountFacts.v ===== *)
(** * Which paths are in the image: lemmas

    [mount_path] is what [sqfs_check_path_then_convert] computes, without the
    arrays: the error number, and the path relative to the mount point. *)

From S2P Require Import Prelude CString Posix Path PathSpec PathRelative Prog Foreign State.
From S2P Require Import Logging Kernel Backing Inode Image StateFacts.

Section mount.
Context `{HP : Platform} `{HU : UtHash} `{HE : Ext} `{HV : !EnvSpec} `{HF : Fuel}.

(** The path names the image file. *)
Definition is_image_file (s : cstr) : bool :=
  match getenv HOOKSQFS_FILE with
  | Some f => bool_decide (Z.of_nat (length s) < PATH_MAX ∧ Z.of_nat (length f) < PATH_MAX ∧
                           norm_str s = norm_str f)
  | None => false
  end.

Definition mount_path (pathname : option cstr) : Z * cstr :=
  match pathname with
  | None => (EFAULT, [])
  | Some s =>
      if is_image_file s then (ENOENT, [])
      else match relative_spec sqfs_mgr_get_prefix s with
           | Some r => (0, r)
           | None => (ENOENT, [])
           end
  end.

Definition path_arg (pathname : option cstr) : Prop := ∀ s, pathname = Some s -> nul_free s.

Lemma is_image_file_run s : nul_free s ->
  path_equals_normalized (Some s) (getenv HOOKSQFS_FILE) = Some (is_image_file s).
Proof.
  intros Hs. unfold is_image_file. destruct (getenv HOOKSQFS_FILE) as [f|] eqn:E; [|done].
  rewrite path_equals_normalized_run; [done|done|by eapply getenv_nul_free].
Qed.

Lemma prefix_nul_free : nul_free sqfs_mgr_get_prefix.
Proof.
  unfold sqfs_mgr_get_prefix. destruct (getenv (lit "HOOKSQFS_PREFIX")) eqn:E; cbn [from_option id].
  - by eapply getenv_nul_free.
  - by apply (bool_decide_unpack _).
Qed.

Lemma relative_part_length root path r :
  relative_part root path = Some r -> (length r <= length path)%nat.
Proof.
  unfold relative_part. intros H. repeat case_match; simplify_eq; simpl; try lia.
  assert (Hl : length (drop (length root) path) = S (length r)) by (by match goal with
    E : drop _ _ = _ |- _ => rewrite E end). rewrite length_drop in Hl. lia.
Qed.

(** A relative path fits in [relative[PATH_MAX]]. *)
Lemma relative_spec_fits root s r : relative_spec root s = Some r -> Z.of_nat (length r) < PATH_MAX.
Proof.
  unfold relative_spec. case_decide as Hlen; [|done]. intros Hr%relative_part_length.
  pose proof (norm_str_length s). unfold PATH_MAX in *. lia.
Qed.

Lemma convert_local_run pathname : path_arg pathname ->
  convert_local pathname = Ret (mount_path pathname).
Proof.
  intros Hp. unfold convert_local, sqfs_check_path_then_convert, mount_path.
  destruct pathname as [s|]; [|done]. specialize (Hp s eq_refl).
  rewrite is_image_file_run by done. cbn [mbind option_bind]. destruct (is_image_file s); [done|].
  pose proof (path_relative_run sqfs_mgr_get_prefix s (Some (uninit PATH_MAX)) PATH_MAX
    prefix_nul_free Hp) as Hr.
  unfold relative_result in Hr.
  destruct (relative_spec sqfs_mgr_get_prefix s) as [r|] eqn:E.
  - rewrite (proj2 (Z.eqb_neq PATH_MAX 0)) in Hr by done.
    rewrite (proj2 (Z.leb_gt _ _)) in Hr by (by eapply relative_spec_fits).
    destruct Hr as (o' & -> & Ho' & _).
    { intros o [= <-]. rewrite uninit_length. unfold PATH_MAX. lia. }
    cbn [mbind option_bind negb Z.eqb]. by rewrite Ho'.
  - rewrite Hr; [done|]. intros o [= <-]. rewrite uninit_length. unfold PATH_MAX. lia.
Qed.

Lemma check_local_run pathname : path_arg pathname ->
  check_local pathname = Ret (mount_path pathname).1.
Proof.
  intros Hp. unfold check_local, sqfs_check_path_then_convert, mount_path.
  destruct pathname as [s|]; [|done]. specialize (Hp s eq_refl).
  rewrite is_image_file_run by done. cbn [mbind option_bind]. destruct (is_image_file s); [done|].
  pose proof (path_relative_run sqfs_mgr_get_prefix s None 0 prefix_nul_free Hp) as Hr.
  unfold relative_result in Hr.
  destruct (relative_spec sqfs_mgr_get_prefix s) as [r|] eqn:E; rewrite Hr; done.
Qed.

Lemma wp_convert_local pathname w (Q : Z * cstr -> world -> Prop) :
  path_arg pathname -> Q (mount_path pathname) w -> wp (convert_local pathname) w Q.
Proof. intros Hp HQ. rewrite convert_local_run by done. by apply wp_ret. Qed.

Lemma wp_check_local pathname w (Q : Z -> world -> Prop) :
  path_arg pathname -> Q (mount_path pathname).1 w -> wp (check_local pathname) w Q.
Proof. intros Hp HQ. rewrite check_local_run by done. by apply wp_ret. Qed.

Lemma mount_path_error pathname : (mount_path pathname).1 ≠ 0 ->
  (mount_path pathname).1 = EFAULT ∨ (mount_path pathname).1 = ENOENT.
Proof. unfold mount_path. repeat case_match; cbn; tauto. Qed.

End mount.
