(* ===== verification/FdFacts.v ===== *)
(** * Descriptors of the image: lemmas

    The locked branches of the descriptor hooks, executed on an explicit
    well-formed state, with the abstract results they compute. *)

From S2P Require Import Prelude CString Posix Path Prog Foreign State Logging Kernel Backing.
From S2P Require Import Inode Seek Image FdOps StateFacts Invariant ImageFacts.

(** ** Abstract results *)

(** The result, the new offset and the error number of a seek whose result
    type holds values up to [max_return]. *)
Definition lseek_result (max_return size cur offset whence : Z) : Z * Z * Z :=
  match seek_spec size cur offset whence with
  | (_, Some p) => if p <=? max_return then (p, p, 0) else (-1, cur, EOVERFLOW)
  | (err, None) => (-1, cur, err)
  end.

(** What a read leaves: the result, the bytes and the error number, from what
    the data reader returned. *)
Definition read_result (r : Z * list ascii) : Z * list ascii * Z :=
  if 0 <=? r.1 then (r.1, r.2, 0) else (-1, [], errno_from_sqfs r.1).

Lemma lseek_result_range mx size cur offset whence ret off' e :
  is_uint64 size -> is_uint64 cur -> is_int64 offset ->
  lseek_result mx size cur offset whence = (ret, off', e) ->
  is_uint64 off' ∧ (ret = -1 ∧ off' = cur ∧ e ≠ 0 ∨ 0 <= ret <= mx ∧ off' = ret ∧ e = 0).
Proof.
  intros Hs Hc Ho. unfold lseek_result.
  destruct (seek_spec size cur offset whence) as [err o] eqn:E.
  pose proof (seek_spec_range _ _ _ _ _ _ Hs Hc Ho E) as Hr. destruct o as [p|].
  - destruct Hr as [_ Hp]. destruct (Z.leb_spec p mx); intros [= <- <- <-]; unfold is_uint64 in *.
    + split; [done|right; lia].
    + split; [done|left; done].
  - intros [= <- <- <-]. split; [done|left; done].
Qed.

Section facts.
Context `{HP : Platform} `{HU : UtHash} `{HS : !UtHashSpec} `{HE : Ext} `{HK : !KernelSpec}
  `{HF : Fuel} `{HW : !WriteSpec}.

Section steps.
Context (t : Z).

Lemma wp_seek_log func what p fd ip off i offset whence old new err d x er mg h n lc dc fc lf
    (Q : unit -> world -> Prop) :
  h !! p = Some (OFDEntry (MkFDMapEntry fd ip off)) -> h !! ip = Some (OInode i) ->
  (∀ x' er' lf', log_ext x x' -> errno_frame t er er' ->
     (log_enabled (Some func) = false -> er' = er ∧ x' = x) ->
     Q tt (World x' er' (mutex_of t (S d)) mg h n lc dc fc lf')) ->
  wp (seek_log t func what p offset whence old new err)
     (World x er (mutex_of t (S d)) mg h n lc dc fc lf) Q.
Proof.
  intros Hp Hi HQ. unfold seek_log. do 2 wp_step. by apply wp_log_hook.
Qed.

(** The locked branch of the seeks, on the entry of [fd]. *)
Lemma wp_lseek_mapped func p fd ip off i offset whence mx ret off' e d x er mg h n lc dc fc lf
    (Q : Z * Z -> world -> Prop) :
  h !! p = Some (OFDEntry (MkFDMapEntry fd ip off)) -> h !! ip = Some (OInode i) ->
  is_uint64 (sqfs_inode_size i) -> is_uint64 off -> is_int64 offset ->
  lseek_result mx (sqfs_inode_size i) off offset whence = (ret, off', e) ->
  (∀ new x' er' lf', log_ext x x' -> errno_frame t er er' ->
     (log_enabled (Some func) = false -> er' = <[t := e]> er ∧ x' = x) ->
     (0 <= ret -> new = ret) ->
     Q (if 0 <=? ret then 0 else -1, new)
       (World x' er' (mutex_of t (S d)) mg (<[p := OFDEntry (MkFDMapEntry fd ip off')]> h)
          n lc dc fc lf')) ->
  wp (sqfs_lseek_mapped t func p offset whence mx) (World x er (mutex_of t (S d)) mg h n lc dc fc lf) Q.
Proof.
  intros Hp Hi Hs Hoff Ho Hres HQ. unfold sqfs_lseek_mapped. do 2 wp_step. cbn [fe_offset fe_inode].
  rewrite seek_calculate_spec by done.
  unfold lseek_result in Hres. destruct (seek_spec _ _ _ _) as [err o] eqn:E.
  pose proof (seek_spec_range _ _ _ _ _ _ Hs Hoff Ho E) as Hr.
  assert (Hsame : <[p := OFDEntry (MkFDMapEntry fd ip off)]> h = h) by by apply insert_id.
  assert (Hp' : ∀ o', <[p := OFDEntry (MkFDMapEntry fd ip o')]> h !! p
                 = Some (OFDEntry (MkFDMapEntry fd ip o'))) by (intros; apply lookup_insert_eq).
  assert (Hne : ip ≠ p) by congruence.
  destruct o as [q|].
  - destruct Hr as [-> Hq]. cbn [Z.eqb negb]. destruct (Z.leb_spec q mx) as [Hle|Hgt].
    + injection Hres as <- <- <-. rewrite (proj2 (Z.ltb_ge _ _)) by lia.
      do 3 wp_step. cbn [fe_key fe_inode]. apply wp_bind.
      eapply wp_seek_log; [apply Hp'|by rewrite lookup_insert_ne|]. intros x' er' lf' Hx Her Hd.
      apply wp_ret. unfold is_uint64 in Hq.
      specialize (HQ q x' er' lf'). rewrite (proj2 (Z.leb_le 0 q)) in HQ by lia. apply HQ; auto.
      by eapply errno_frame_insert_l.
    + injection Hres as <- <- <-. rewrite (proj2 (Z.ltb_lt _ _)) by lia.
      wp_step. apply wp_bind. eapply wp_seek_log; [done..|]. intros x' er' lf' Hx Her Hd.
      apply wp_ret. specialize (HQ q x' er' lf'). rewrite Hsame in HQ. apply HQ; auto; [|lia].
      by eapply errno_frame_insert_l.
  - rewrite (proj2 (Z.eqb_neq _ _) Hr). cbn [negb]. injection Hres as <- <- <-.
    wp_step. apply wp_bind. eapply wp_seek_log; [done..|]. intros x' er' lf' Hx Her Hd.
    apply wp_ret. specialize (HQ 0 x' er' lf'). rewrite Hsame in HQ. apply HQ; auto; [|lia].
    by eapply errno_frame_insert_l.
Qed.

End steps.

(** ** Locked sections *)

(** A well-formed world in constructor form, and what an operation on the
    entry of [fd] leaves. *)
Lemma touches_offset t d fd p ip off off' own fm dm x x' er er' mg h n lc dc fc lf lf' :
  wf_with own fm dm x mg h n -> fm !! fd = Some p ->
  h !! p = Some (OFDEntry (MkFDMapEntry fd ip off)) -> is_uint64 off' ->
  grows x x' -> errno_frame t er er' ->
  let w := World x er (mutex_of t d) mg h n lc dc fc lf in
  let w' := World x' er' (mutex_of t d) mg (<[p := OFDEntry (MkFDMapEntry fd ip off')]> h) n lc dc fc lf' in
  touches (eq fd) none t w w' ∧ (∀ i, h !! ip = Some (OInode i) -> fd_view w' fd = Some (i, off')).
Proof.
  intros Hwf Hfm Hp Hoff Hx Her w w'.
  destruct (wf_set_offset _ _ _ _ _ _ _ Hwf fd p ip off off' Hfm Hp Hoff) as (Hwf' & Hk & Hv).
  apply (wf_grows _ _ _ _ _ _ _ _ Hx) in Hwf'. split.
  - eapply touches_intro; [exact Hwf|exact Hwf'|exact Hk|..]; [| |done| |done].
    + unfold is_image_owner, not_fd. intros o [->|[->| ->]]; done.
    + intros fd' Hne. split; [|done]. unfold not_fd. congruence.
    + by constructor.
  - intros i Hi. rewrite (fd_view_map _ _ _ _ _ _ _ Hwf' w') by done. auto.
Qed.

End facts.

Section reads.
Context `{HP : Platform} `{HU : UtHash} `{HS : !UtHashSpec} `{HE : Ext} `{HK : !KernelSpec}
  `{HF : Fuel} `{HW : !WriteSpec}.

Context (t : Z).

(** The locked branch of [sqfs_read]. *)
Lemma wp_read_mapped p fd ip off i l hd count r bytes e0 x1 d x er mg h n lc dc fc lf
    (Q : Z * list ascii -> world -> Prop) :
  h !! p = Some (OFDEntry (MkFDMapEntry fd ip off)) -> h !! ip = Some (OInode i) ->
  m_data_reader mg = Some l -> h !! l = Some (OHandle hd) ->
  sqfs_data_reader_read hd i off (wrap_u 32 count) (default 0 (er !! t)) x = ((r, bytes), e0, x1) ->
  (∀ x' er' lf', log_ext x1 x' -> errno_frame t er er' ->
     let '(ret, bytes', err) := read_result (r, bytes) in
     er' !! t = Some err ->
     Q (ret, bytes')
       (World x' er' (mutex_of t (S d)) mg
          (<[p := OFDEntry (MkFDMapEntry fd ip (if 0 <=? r then wrap_u 64 (off + r) else off))]> h)
          n lc dc fc lf')) ->
  wp (read_mapped t p fd count) (World x er (mutex_of t (S d)) mg h n lc dc fc lf) Q.
Proof.
  intros Hp Hi Hl Hhd Hread HQ. unfold read_mapped. apply wp_bind. eapply wp_mgr_handle; [done..|].
  do 3 wp_step. cbn [fe_offset fe_inode fe_key]. intros ret e x' Hcall.
  rewrite Hread in Hcall. injection Hcall as <- <- <-. unfold read_result in HQ. cbn [fst snd] in HQ.
  cbn beta iota. destruct (0 <=? r).
  - wp_step. intros x' er' lf' Hx Her _. do 4 wp_step. apply HQ; [done| |apply lookup_insert_eq].
    apply errno_frame_insert. by eapply errno_frame_insert_l.
  - wp_step. intros x' er' lf' Hx Her _. do 2 wp_step.
    specialize (HQ x' (<[t := errno_from_sqfs r]> er') lf').
    rewrite (insert_id h) in HQ by done. apply HQ; [done| |apply lookup_insert_eq].
    apply errno_frame_insert. by eapply errno_frame_insert_l.
Qed.

(** The branch both positioned reads share. *)
Lemma wp_pread_mapped func p fd ip off i l hd count offset d x er mg h n lc dc fc lf
    (Q : Z * list ascii -> world -> Prop) :
  h !! p = Some (OFDEntry (MkFDMapEntry fd ip off)) -> h !! ip = Some (OInode i) ->
  m_data_reader mg = Some l -> h !! l = Some (OHandle hd) -> 0 <= offset <= UINT64_MAX ->
  (∀ r bytes e0 x1 x' er' lf',
     sqfs_data_reader_read hd i offset (wrap_u 32 count) (default 0 (er !! t)) x
       = ((r, bytes), e0, x1) ->
     log_ext x1 x' -> errno_frame t er er' ->
     let '(ret, bytes', err) := read_result (r, bytes) in
     er' !! t = Some err ->
     Q (ret, bytes') (World x' er' (mutex_of t (S d)) mg h n lc dc fc lf')) ->
  wp (sqfs_pread_mapped t func p count offset) (World x er (mutex_of t (S d)) mg h n lc dc fc lf) Q.
Proof.
  intros Hp Hi Hl Hhd Ho HQ. unfold sqfs_pread_mapped. rewrite (proj2 (Z.ltb_ge _ _)) by lia.
  apply wp_bind. eapply wp_mgr_handle; [done..|]. unfold UINT64_MAX in Ho.
  do 3 wp_step. cbn [fe_inode fe_key]. intros [r bytes] e x1 Hcall.
  rewrite (wrap_u_id 64 offset) in Hcall by lia.
  unfold read_result in HQ. cbn beta iota. specialize (HQ r bytes e x1). cbn [fst snd] in HQ.
  destruct (0 <=? r); wp_step; intros x' er' lf' Hx Her _; do 2 wp_step;
    (eapply HQ; [exact Hcall|done| |apply lookup_insert_eq]);
    apply errno_frame_insert; by eapply errno_frame_insert_l.
Qed.

End reads.
