(* ===== verification/Demo.v ===== *)
(** * A concrete environment

    A small kernel, C library and image on which the properties are
    evaluated: the laws of [Foreign.v] and [Kernel.v] hold of it, so the
    hypotheses of the development can be met together.

    The image [/img.sqfs], mounted under [/hook], holds the regular file
    [a.txt] (inode 2, "hello world"), the directory [sub] (inode 3) and the
    executable [tool] (inode 4).  The real file system holds the files [/etc/x]
    and [/hook/real], and the directories [/etc] and [/hook/mix]. *)

From S2P Require Import Prelude CString Posix Prog Foreign State Logging Kernel Seek StateFacts.
From S2P Require Import Invariant MountFacts.

Definition demo64 : Platform := {| BITS := BITS64; stack_garbage := [] |}.

(** ** uthash: a map *)

Definition demo_hash : UtHash :=
  {| ht := gmap Z loc; ht_empty := ∅;
     hash_find k h := h !! k;
     hash_add k p h := <[k := p]> h;
     hash_del k p h := delete k h |}.

#[local] Existing Instance demo_hash.

Definition demo_hash_spec : UtHashSpec.
Proof. by exists (λ h m, h = m); intros; subst. Defined.

(** ** The kernel *)

(** What funchook has prepared and patched, and whether it is installed. *)
Record hook_state := HookState {
  hs_prepared : list (Z * Z);
  hs_patched : gmap Z Z;
  hs_active : bool;
}.

Record kernel := Kernel {
  k_fds : gset Z;
  k_dirs : gset Z;
  k_out : list ascii;
  k_pos : nat;
  k_names : gset cstr;
  k_memfd : bool;
  k_entries : gmap Z (list dirent);
  k_hook : hook_state;
}.

Definition set_k_fds (s : gset Z) (x : kernel) : kernel :=
  Kernel s (k_dirs x) (k_out x) (k_pos x) (k_names x) (k_memfd x) (k_entries x) (k_hook x).
Definition set_k_dirs (s : gset Z) (x : kernel) : kernel :=
  Kernel (k_fds x) s (k_out x) (k_pos x) (k_names x) (k_memfd x) (k_entries x) (k_hook x).
Definition set_k_out (b : list ascii) (x : kernel) : kernel :=
  Kernel (k_fds x) (k_dirs x) b (k_pos x) (k_names x) (k_memfd x) (k_entries x) (k_hook x).
Definition set_k_pos (n : nat) (x : kernel) : kernel :=
  Kernel (k_fds x) (k_dirs x) (k_out x) n (k_names x) (k_memfd x) (k_entries x) (k_hook x).
Definition set_k_names (s : gset cstr) (x : kernel) : kernel :=
  Kernel (k_fds x) (k_dirs x) (k_out x) (k_pos x) s (k_memfd x) (k_entries x) (k_hook x).
Definition set_k_entries (m : gmap Z (list dirent)) (x : kernel) : kernel :=
  Kernel (k_fds x) (k_dirs x) (k_out x) (k_pos x) (k_names x) (k_memfd x) m (k_hook x).
Definition set_k_hook (k : hook_state) (x : kernel) : kernel :=
  Kernel (k_fds x) (k_dirs x) (k_out x) (k_pos x) (k_names x) (k_memfd x) (k_entries x) k.

Definition no_inode : sqfs_inode := SqfsInode 0 0 0 0 0 0 0 0 0 0 0 0 0 0 0 0 0.
Definition demo_inode (ty mode num : Z) : sqfs_inode :=
  SqfsInode ty mode 1000 num 2 3 2 3 1 1 0 1 0 1 1 1 1.

Definition root_inode : sqfs_inode := demo_inode SQFS_INODE_DIR 0x1ed 1.
Definition a_inode : sqfs_inode := demo_inode SQFS_INODE_FILE 0x1a4 2.
Definition sub_inode : sqfs_inode := demo_inode SQFS_INODE_DIR 0x1ed 3.
Definition tool_inode : sqfs_inode := demo_inode SQFS_INODE_FILE 0x1ed 4.

Definition a_text : list ascii := lit "hello world".

Definition demo_lookup (path : cstr) : option sqfs_inode :=
  if decide (path = lit "a.txt") then Some a_inode
  else if decide (path = lit "sub") then Some sub_inode
  else if decide (path = lit "tool") then Some tool_inode
  else None.

Definition demo_entries : list (sqfs_dir_entry * sqfs_inode) :=
  [(SqfsDirEntry SQFS_INODE_FILE 4 (lit "a.txt"), a_inode);
   (SqfsDirEntry SQFS_INODE_DIR 2 (lit "sub"), sub_inode);
   (SqfsDirEntry SQFS_INODE_FILE 3 (lit "tool"), tool_inode)].

(** A new element of a set of descriptors or streams. *)
Definition new_id (s : gset Z) : Z := 1 + set_fold Z.max 2 s.

Definition demo_opens (ok : bool) (e : Z) (x : kernel) : Z * Z * kernel :=
  if ok then let r := new_id (k_fds x) in
             (r, e, set_k_fds ({[r]} ∪ k_fds x) x)
  else (-1, ENOENT, x).

Definition demo_opens_dir (ok : bool) (e : Z) (x : kernel) : Z * Z * kernel :=
  if ok then let d := new_id (k_dirs x) in
             (d, e, set_k_dirs ({[d]} ∪ k_dirs x) x)
  else (0, ENOENT, x).

Definition real_file (p : option cstr) : bool :=
  bool_decide (p = Some (lit "/etc/x") ∨ p = Some (lit "/hook/real")).
Definition real_dir (p : option cstr) : bool :=
  bool_decide (p = Some (lit "/etc") ∨ p = Some (lit "/hook/mix")).

Definition real_dirent : dirent :=
  Dirent 9 1 280 DT_REG (lit "x" ++ replicate 255 NUL).

Definition demo_env (log : bool) (v : cstr) : option cstr :=
  if decide (v = lit "HOOKSQFS_FILE") then Some (lit "/img.sqfs")
  else if decide (v = lit "HOOKSQFS_LOG_INCLUDE") then
    (if log then Some (lit "open, read") else None)
  else None.

(** [log] tells whether the hooks log. *)
Definition demo_ext_log (log : bool) : Ext :=
  {| ext := kernel; handle := nat; comp_config := Z;
     getenv := demo_env log;
     malloc_ok e x := (true, e, x);
     call_open _ p _ _ := demo_opens (real_file p);
     call_read _ fd n e x := (0, [], e, x);
     call_pread _ fd n o e x := (0, [], e, x);
     call_lseek _ fd o wh e x := (o, e, x);
     call_close _ fd e x :=
       (0, e, set_k_fds (k_fds x ∖ {[fd]}) x);
     call_opendir _ p e x :=
       demo_opens_dir (real_dir p || match p with Some s => bool_decide (s ∈ k_names x) | None => false end) e x;
     call_readdir _ d e x :=
       let l := default [] (k_entries x !! d) in
       (head l, e, set_k_entries (<[d := tail l]> (k_entries x)) x);
     call_closedir _ d e x :=
       (0, e, set_k_dirs (k_dirs x ∖ {[d]}) x);
     call_access _ p m e x := (if real_file p then (0, e, x) else (-1, ENOENT, x));
     call_xstat _ _ p b e x :=
       (if real_file p then (0, Some (Stat 5 0x81a4 1 0 0 3 4096 1 0 0 0), e, x)
        else (-1, None, ENOENT, x));
     sys_memfd_create _ _ e x := if k_memfd x then demo_opens true e x else (-1, ENOSYS, x);
     sys_openat path flags _ e x :=
       if negb (flag_set flags O_EXCL) then demo_opens true e x
       else if decide (path ∈ k_names x) then (-1, EEXIST, x)
       else demo_opens true e (set_k_names ({[path]} ∪ k_names x) x);
     sys_unlinkat path e x := (0, e, set_k_names (k_names x ∖ {[path]}) x);
     sys_write fd b e x :=
       (Z.of_nat (length b), e, set_k_out (k_out x ++ b) x);
     libc_mkdir path _ e x :=
       if decide (path ∈ k_names x) then (-1, EEXIST, x)
       else (0, e, set_k_names ({[path]} ∪ k_names x) x);
     libc_rmdir path e x := (0, e, set_k_names (k_names x ∖ {[path]}) x);
     libc_getpid e x := (77, e, x);
     sqfs_compressor_name_from_id id := if id =? 1 then Some (lit "gzip") else None;
     sqfs_inode_get_file_size i :=
       if ino_number i =? 2 then (0, 11) else (0, 0);
     sqfs_open_file _ _ e x := (Some 1%nat, e, x);
     sqfs_super_read _ e x := (0, SqfsSuper 4 131072 4096 1 0, e, x);
     sqfs_compressor_config_init a b c e x := (0, 1, e, x);
     sqfs_compressor_create _ e x := (0, 2%nat, e, x);
     compressor_read_options _ _ e x := (0, e, x);
     sqfs_data_reader_create _ _ _ _ e x := (Some 3%nat, e, x);
     sqfs_data_reader_load_fragment_table _ _ e x := (0, e, x);
     sqfs_data_reader_read _ i pos n e x :=
       let bytes := take (Z.to_nat n) (drop (Z.to_nat pos) (if ino_number i =? 2 then a_text else [])) in
       if ino_type i =? SQFS_INODE_FILE then (Z.of_nat (length bytes), bytes, e, x)
       else (SQFS_ERROR_NOT_FILE, [], e, x);
     sqfs_dir_reader_create _ _ _ _ e x := (Some 4%nat, e, x);
     sqfs_dir_reader_get_root_inode _ e x := (0, root_inode, e, x);
     sqfs_dir_reader_find_by_path _ p e x :=
       match demo_lookup p with
       | Some i => (0, i, e, x)
       | None => (SQFS_ERROR_NO_ENTRY, no_inode, e, x)
       end;
     sqfs_dir_reader_open_dir _ i _ e x :=
       (0, e, set_k_pos 0 x);
     sqfs_dir_reader_read _ e x :=
       match demo_entries !! k_pos x with
       | Some (de, _) => (0, de, e, set_k_pos (S (k_pos x)) x)
       | None => (1, SqfsDirEntry 0 0 [], e, x)
       end;
     sqfs_dir_reader_get_inode _ e x :=
       match demo_entries !! Nat.pred (k_pos x) with
       | Some (_, i) => (0, i, e, x)
       | None => (SQFS_ERROR_SEQUENCE, no_inode, e, x)
       end;
     handle_destroy _ e x := (tt, e, x) |}.

Definition demo_ext : Ext := demo_ext_log false.

Definition demo_fuel : Fuel := 1100%nat.

(** ** The laws hold *)

Lemma new_id_spec s : 2 <= set_fold Z.max 2 s ∧ new_id s ∉ s.
Proof.
  assert (H : ∀ y, y ∈ s -> y <= set_fold Z.max 2 s).
  { apply (set_fold_ind_L (λ r s, ∀ y, y ∈ s -> y <= r) Z.max 2); [set_solver|].
    intros y s' r _ IH z. rewrite elem_of_union, elem_of_singleton.
    intros [->|Hz]; [lia|specialize (IH z Hz); lia]. }
  split.
  - apply (set_fold_ind_L (λ r s, 2 <= r) Z.max 2); [lia|]. intros. lia.
  - unfold new_id. intros Hin%H. lia.
Qed.

Lemma demo_opens_spec log ok : @opens_fd (demo_ext_log log) k_fds k_dirs (demo_opens ok).
Proof.
  intros e x. unfold demo_opens. destruct ok; [|done].
  destruct (new_id_spec (k_fds x)) as [Hpos Hnew]. split; [done|].
  case_match eqn:E; [unfold new_id in E; zbool; lia|]. done.
Qed.

Lemma demo_opens_dir_spec ok e x :
  let '(d, _, x') := demo_opens_dir ok e x in
  k_fds x' = k_fds x ∧
  if d =? 0 then k_dirs x' = k_dirs x else d ∉ k_dirs x ∧ k_dirs x' = {[d]} ∪ k_dirs x.
Proof.
  unfold demo_opens_dir. destruct ok; [|done].
  destruct (new_id_spec (k_dirs x)) as [Hpos Hnew]. split; [done|].
  case_match eqn:E; [unfold new_id in E; zbool; lia|]. done.
Qed.

Definition demo_kernel_log (log : bool) : @KernelSpec (demo_ext_log log).
Proof.
  refine (@Build_KernelSpec (demo_ext_log log) k_fds k_dirs _ _ _ _ _ _ _ _ _ _ _ _ _ _ _ _ _ _
    _ _ _ _ _ _ _ _ _ _ _ _ _ _ _); intros;
    try (intros ? ?; cbn; repeat case_match; done).
  - apply demo_opens_spec.
  - intros e x. cbn -[demo_opens]. destruct (flag_set flags O_EXCL); cbn [negb];
      [|exact (demo_opens_spec log true e x)].
    destruct (decide _); [done|]. exact (demo_opens_spec log true e (set_k_names _ x)).
  - intros e x. cbn -[demo_opens]. destruct (k_memfd x); [exact (demo_opens_spec log true e x)|done].
  - done.
  - apply demo_opens_dir_spec.
  - done.
Defined.

Definition demo_kernel : @KernelSpec demo_ext := demo_kernel_log false.

Definition demo_write_log (log : bool) : @WriteSpec (demo_ext_log log) demo_fuel.
Proof.
  refine (@Build_WriteSpec (demo_ext_log log) demo_fuel (λ x _, k_out x) (λ _, O) _ _).
  - intros _. unfold fuel, demo_fuel. lia.
  - intros fd bytes e x Hne. cbn. right; right. rewrite Nat2Z.id, firstn_all.
    destruct bytes; [done|]. cbn [length]. repeat split; lia.
Defined.

Definition demo_content_log (log : bool) : @ContentSpec (demo_ext_log log).
Proof.
  refine (@Build_ContentSpec (demo_ext_log log)
    (λ i, if ino_number i =? 2 then a_text else []) _ _).
  - intros i. case_match; cbn; unfold UINT64_MAX; lia.
  - intros hd i pos n e x Hpos Hn. cbn -[Z.of_nat take drop length].
    set (text := if ino_number i =? 2 then a_text else []).
    destruct (ino_type i =? SQFS_INODE_FILE); [right|by left]. rewrite length_take, length_drop.
    split; [lia|]. split; [|split; [done|lia]].
    rewrite Nat2Z.id. rewrite <- (firstn_all (take (Z.to_nat n) _)) at 1.
    rewrite take_take, length_take, length_drop. f_equal. lia.
Defined.

Definition demo_names_log (log : bool) : @NameSpec (demo_ext_log log).
Proof.
  refine (@Build_NameSpec (demo_ext_log log) k_names _ _ _ _ _ _ _); intros; cbn;
    try (repeat case_match; done).
  - rewrite H0. cbn [negb]. destruct (decide _); [done|]. destruct (new_id_spec (k_fds x)) as [Hpos _].
    rewrite (proj2 (Z.leb_le _ _)); [done|]. unfold new_id. cbn. lia.
  - by destruct (decide _).
  - unfold demo_opens_dir. by case_match.
Defined.

Definition demo_names : @NameSpec demo_ext := demo_names_log false.

Definition demo_env_spec_log (log : bool) : @EnvSpec (demo_ext_log log).
Proof.
  refine (@Build_EnvSpec (demo_ext_log log) _). intros v s. cbn. unfold demo_env.
  repeat case_match; try done; intros [= <-]; by apply (bool_decide_unpack _).
Defined.

Definition demo_env_spec : @EnvSpec demo_ext := demo_env_spec_log false.

Definition demo_readdir_log (log : bool) : @ReaddirSpec (demo_ext_log log).
Proof.
  refine (@Build_ReaddirSpec (demo_ext_log log) (λ x d, default [] (k_entries x !! d)) _).
  intros p d e x. cbn. split; [done|]. by rewrite lookup_insert_eq.
Defined.

Definition demo_readdir : @ReaddirSpec demo_ext := demo_readdir_log false.

Definition demo_dir_log (log : bool) : @DirSpec (demo_ext_log log) demo_fuel.
Proof.
  refine (@Build_DirSpec (demo_ext_log log) demo_fuel (λ _, demo_entries)
    (λ x _, drop (k_pos x) demo_entries) (λ x _, snd <$> demo_entries !! Nat.pred (k_pos x))
    _ _ _ _ _ _ _ _ _ _); try (intros; intros e x h; cbn; repeat case_match; done).
  - intros _. unfold fuel, demo_fuel. cbn. lia.
  - intros _. repeat (apply Forall_cons; split; [cbn; lia|]). done.
  - done.
  - intros h e x. cbn -[demo_entries]. destruct (demo_entries !! k_pos x) as [[de i]|] eqn:E.
    + right; right. split; [done|]. exists i, (drop (S (k_pos x)) demo_entries).
      cbn -[demo_entries]. rewrite E. by rewrite <- (drop_S _ _ _ E).
    + right; left. split; [lia|]. by apply drop_ge, lookup_ge_None.
  - intros h e x. cbn -[demo_entries]. destruct (demo_entries !! Nat.pred (k_pos x)) as [[de i]|]; done.
  - intros p name e x h. cbn. unfold demo_opens_dir. by case_match.
Defined.

Definition demo_dir : @DirSpec demo_ext demo_fuel := demo_dir_log false.

Definition demo_content : @ContentSpec demo_ext := demo_content_log false.

Definition demo_write : @WriteSpec demo_ext demo_fuel := demo_write_log false.

(** ** A running process

    The image is loaded, descriptor 3 reads [a.txt] at offset 6, and stream
    100 is on a real directory, with one entry of the real directory and two of
    the image to come. *)

Definition demo_libc : LibcFunctions := MkLibcFunctions 1 2 3 4 5 6 7 8 9 10 11 12 13.

Definition demo_super : sqfs_super := SqfsSuper 4 131072 4096 1 0.

Definition demo_dirent (i : sqfs_inode) (ty : Z) (name : string) : dirent :=
  Dirent (ino_number i) 114514 280 ty
    (lit name ++ replicate (256 - String.length name) NUL).

Definition demo_x : kernel := Kernel {[0; 1; 2; 3]} {[100]} [] 0 {[lit "/tmp/hooksqfs-77-0"]} true
  {[100 := [real_dirent]]} (HookState [] ∅ false).

Section world.
Context (log : bool).
#[local] Instance demo_ext_inst : Ext := demo_ext_log log.
#[local] Instance demo_kernel_inst : KernelSpec := demo_kernel_log log.

Definition demo_mgr : sqfs_mgr :=
  MkMgr (Some 1%positive) (Some 2%positive) (Some 3%positive) demo_super (Some 1)
    {[100 := 7%positive]} {[3 := 5%positive]}.

Definition demo_heap : gmap loc obj :=
  list_to_map (zip (seq 1 11 ≫= λ n, [Pos.of_nat n])
    [OHandle 1%nat; OHandle 2%nat; OHandle 3%nat;
     OInode a_inode; OFDEntry (MkFDMapEntry 3 4%positive 6);
     OHandle 4%nat;
     ODirEntry (MkDirMapEntry 100 6%positive true [8%positive; 10%positive] [] false);
     ODirNode (MkDirNode (Some 9%positive) (demo_dirent a_inode DT_REG "a.txt"));
     OInode a_inode;
     ODirNode (MkDirNode (Some 11%positive) (demo_dirent sub_inode DT_DIR "sub"));
     OInode sub_inode]).

Definition demo_owners : gmap loc owner :=
  list_to_map (zip (seq 1 11 ≫= λ n, [Pos.of_nat n])
    [OwnFile; OwnCompressor; OwnDataReader; OwnFd 3; OwnFd 3; OwnDir 100; OwnDir 100;
     OwnDir 100; OwnNode 8; OwnDir 100; OwnNode 10]).

Definition demo_world_log : world :=
  World demo_x ∅ None demo_mgr demo_heap 12%positive demo_libc 0 0 None.

Lemma demo_wf_log : @wf demo_hash demo_hash_spec demo_ext_inst demo_kernel_inst demo_world_log.
Proof.
  exists demo_owners, {[3 := 5%positive]}, {[100 := 7%positive]}. constructor; try done.
  - intros l. rewrite <- !elem_of_dom.
    replace (dom demo_owners) with (dom (w_heap demo_world_log)); [done|].
    apply (bool_decide_unpack _). by vm_compute.
  - intros l. rewrite <- elem_of_dom. intros Hl. apply Pos.ltb_lt.
    revert l Hl. apply (bool_decide_unpack (set_Forall (λ l, (l <? w_next demo_world_log)%positive = true)
      (dom (w_heap demo_world_log)))). by vm_compute.
  - intros fd p [<- <-]%lookup_singleton_Some.
    exists (MkFDMapEntry 3 4%positive 6), a_inode.
    repeat split; try reflexivity; unfold UINT64_MAX; cbn; lia.
  - intros d p [<- <-]%lookup_singleton_Some.
    exists (MkDirMapEntry 100 6%positive true [8%positive; 10%positive] [] false), 4%nat.
    do 5 (split; [reflexivity|]). split.
    + apply Forall_cons; split; [|apply Forall_cons; split; [|apply Forall_nil_2]];
        [exists 9%positive, (demo_dirent a_inode DT_REG "a.txt"), a_inode
        |exists 11%positive, (demo_dirent sub_inode DT_DIR "sub"), sub_inode];
        repeat split; reflexivity.
    + split; [by apply (bool_decide_unpack _)|]. split; [apply suffix_nil|done].
  - intros l [= <-]. split; [reflexivity|by eexists].
  - intros l [= <-]. split; [reflexivity|by eexists].
  - intros l [= <-]. split; [reflexivity|by eexists].
  - intros fd p [<- <-]%lookup_singleton_Some. cbn. split; [lia|set_solver].
  - intros d p [<- <-]%lookup_singleton_Some. cbn. split; [lia|set_solver].
Qed.

End world.

Definition demo_world : @world demo_hash demo_ext := demo_world_log false.
Definition demo_wf : @wf demo_hash demo_hash_spec demo_ext demo_kernel demo_world := demo_wf_log false.

Lemma demo_libc_ready : libc_ready demo_libc.
Proof. by apply (bool_decide_unpack _). Defined.

Lemma demo_path_arg s : bool_decide (nul_free s) = true -> path_arg (Some s).
Proof. intros Hs s' [= <-]. by apply bool_decide_eq_true in Hs. Defined.
