(* ===== verification/LogProps.v ===== *)
(** * Properties of logging

    Which hooks log, and the bytes of a line. *)

From S2P Require Import Prelude CString Posix Prog Foreign State Logging Demo.

(** ** The list of hooks, split and trimmed *)

(** The fields of a comma-separated list. *)
Fixpoint split_on (d : ascii) (s : cstr) : list cstr :=
  match s with
  | [] => [[]]
  | c :: s' =>
      if decide (c = d) then [] :: split_on d s'
      else match split_on d s' with
           | f :: fs => (c :: f) :: fs
           | [] => [[c]]
           end
  end.

Definition trim (s : cstr) : cstr := reverse (skip_blanks (reverse (skip_blanks s))).

Definition tokens (include : cstr) : list cstr := trim <$> split_on ","%char include.

(** [ALL], the name of the hook, or its name without [sqfs_]. *)
Definition selects (f tok : cstr) : bool :=
  bool_decide (tok = lit "ALL" ∨ tok = f ∨ f = lit "sqfs_" ++ tok).

Lemma split_on_comma s :
  split_on ","%char s =
    take (comma_distance s) s ::
    match drop (comma_distance s) s with [] => [] | _ :: s' => split_on ","%char s' end.
Proof.
  induction s as [|c s IH]; [done|]. cbn [split_on comma_distance].
  destruct (decide (c = ","%char)) as [->|Hc]; [done|]. rewrite IH. done.
Qed.

Lemma comma_distance_le s : (comma_distance s <= length s)%nat.
Proof. induction s as [|c s IH]; cbn; [lia|]. case_decide; cbn; lia. Qed.

Lemma skip_blanks_comma p :
  take (comma_distance (skip_blanks p)) (skip_blanks p) = skip_blanks (take (comma_distance p) p) ∧
  drop (comma_distance (skip_blanks p)) (skip_blanks p) = drop (comma_distance p) p.
Proof.
  induction p as [|c p IH]; [done|]. cbn [skip_blanks comma_distance].
  destruct (is_blank c) eqn:Eb.
  - rewrite decide_False; [cbn [take drop skip_blanks]; by rewrite Eb|].
    intros ->. unfold is_blank in Eb. by apply bool_decide_eq_true in Eb as [?|?].
  - cbn [comma_distance]. case_decide; cbn [take drop]; [done|]. cbn [skip_blanks]. by rewrite Eb.
Qed.

Lemma trim_len_le start n : (trim_len start n <= n)%nat.
Proof.
  induction n as [|n IH]; [done|]. cbn [trim_len]. destruct (start !! n); [|lia]. case_match; lia.
Qed.

Lemma trim_len_take start n : (n <= length start)%nat ->
  take (trim_len start n) start = reverse (skip_blanks (reverse (take n start))).
Proof.
  induction n as [|n IH]; intros Hn; [by rewrite take_0|]. cbn [trim_len].
  destruct (start !! n) as [c|] eqn:E; [|apply lookup_ge_None in E; lia].
  rewrite (take_S_r _ _ _ E), reverse_app, reverse_singleton. cbn [app skip_blanks].
  destruct (is_blank c); [apply IH; lia|].
  by rewrite (take_S_r _ _ _ E), reverse_cons, reverse_involutive.
Qed.

Lemma strncmp_prefix b : ∀ a, strncmp_eq a b (length b) = bool_decide (b `prefix_of` a).
Proof.
  induction b as [|y b IH]; intros a; [by destruct a|].
  destruct a as [|x a]; cbn [strncmp_eq length].
  - symmetry. apply bool_decide_eq_false. by intros [? ?].
  - rewrite IH. case_bool_decide as Hxy; cbn [andb].
    + subst. apply bool_decide_ext. split; [apply prefix_cons|apply prefix_cons_inv_2].
    + symmetry. apply bool_decide_eq_false. intros ?%prefix_cons_inv_1. congruence.
Qed.

(** A comparison of the first [n] characters together with the length. *)
Lemma token_is start n b : (n <= length start)%nat ->
  bool_decide (n = length b) && strncmp_eq start b (length b) = bool_decide (take n start = b).
Proof.
  intros Hn. rewrite strncmp_prefix. case_bool_decide as Hl; cbn [andb].
  - apply bool_decide_ext. subst n. split.
    + intros [k ->]. by rewrite take_app_length.
    + intros Hb. exists (drop (length b) start). rewrite <- Hb at 1. by rewrite take_drop.
  - symmetry. apply bool_decide_eq_false. intros Hb. apply Hl. rewrite <- Hb, length_take. lia.
Qed.

Lemma token_selects_spec f start n : f ≠ [] -> (n <= length start)%nat ->
  token_selects (Some f) start n = selects f (take n start).
Proof.
  intros Hf Hn. unfold token_selects. rewrite (bool_decide_false (f = [])) by done. cbn [negb andb].
  change 3%nat with (length (lit "ALL")). rewrite token_is, token_is by done.
  change (strncmp_eq f (lit "sqfs_") 5) with (strncmp_eq f (lit "sqfs_") (length (lit "sqfs_"))).
  rewrite strncmp_prefix. unfold selects. rewrite token_is by done.
  rewrite !bool_decide_or. f_equal. f_equal. rewrite <- bool_decide_and. apply bool_decide_ext.
  split.
  - intros [[k ->] Hk]. change (take n start = k) in Hk. by rewrite Hk.
  - intros ->. split; [by eexists|]. done.
Qed.

Lemma selects_nil f : f ≠ [] -> f ≠ lit "sqfs_" -> selects f [] = false.
Proof. intros H1 H2. apply bool_decide_eq_false. rewrite app_nil_r. naive_solver. Qed.

Lemma log_enabled_loop_spec f : f ≠ [] -> f ≠ lit "sqfs_" ->
  ∀ n p, (length p < n)%nat ->
  log_enabled_loop n (Some f) p = Some (existsb (selects f) (tokens p)).
Proof.
  intros Hf Hs. induction n as [|n IH]; intros p Hn; [lia|]. cbn [log_enabled_loop].
  destruct p as [|c0 p0] eqn:Ep.
  { unfold tokens, trim. cbn. by rewrite selects_nil. }
  assert (Hp : (0 < length p)%nat) by (rewrite Ep; cbn; lia). rewrite <- Ep in *. clear Ep.
  destruct (skip_blanks_comma p) as [Htake Hdrop].
  set (start := skip_blanks p) in *. set (dist := comma_distance start) in *.
  assert (Hdist : (dist <= length start)%nat) by apply comma_distance_le.
  pose proof (trim_len_le start dist) as Htl.
  rewrite token_selects_spec by (done || lia). rewrite trim_len_take, Htake by done.
  unfold tokens. rewrite split_on_comma. cbn [fmap list_fmap existsb].
  change (reverse (skip_blanks (reverse (skip_blanks (take (comma_distance p) p)))))
    with (trim (take (comma_distance p) p)).
  destruct (selects f (trim (take (comma_distance p) p))); [done|]. cbn [orb]. rewrite Hdrop.
  assert (Hlen : (length (drop (comma_distance p) p) <= length p)%nat) by (rewrite length_drop; lia).
  destruct (drop (comma_distance p) p) as [|c rest] eqn:Er.
  - rewrite IH by (cbn; lia). unfold tokens, trim. cbn. by rewrite selects_nil.
  - assert (c = ","%char) as ->.
    { clear -Er. induction p as [|x p IH]; [done|]. cbn [comma_distance] in Er.
      destruct (decide (x = ","%char)) as [->|]; [by injection Er|]. by apply IH. }
    rewrite decide_True by done. apply IH. cbn in Hlen. lia.
Qed.

(** ** Lines *)

(** What is left of a text in a buffer of [LOG_BUF] bytes: when it does not
    fit, the terminator [snprintf] wrote takes the last place. *)
Definition log_line (text : cstr) : list ascii :=
  if decide (length text < LOG_BUF)%nat then text else take (LOG_BUF - 1) text ++ [NUL].

Section props.
Context `{HP : Platform} `{HU : UtHash} `{HE : Ext} `{HF : Fuel}.

(** C32: a hook logs when [HOOKSQFS_LOG_INCLUDE] lists [ALL], its name, or its
    name without [sqfs_], blanks around the names not counting. *)
Theorem log_enabled_correct f :
  f ≠ [] -> f ≠ lit "sqfs_" ->
  log_enabled (Some f) = match getenv (lit "HOOKSQFS_LOG_INCLUDE") with
                         | Some include => existsb (selects f) (tokens include)
                         | None => false
                         end.
Proof.
  intros Hf Hs. unfold log_enabled. destruct (getenv _) as [[|c s]|]; [|..|done].
  - unfold tokens, trim. cbn. by rewrite selects_nil.
  - rewrite log_enabled_loop_spec by (done || lia). done.
Qed.

Lemma snprintf_line b i size text :
  (i + size = length b)%nat -> (0 < size)%nat ->
  snprintf_at b i size text = Some (take i b ++ take (size - 1) text ++ [NUL] ++ drop (i + Nat.min (size - 1) (length text) + 1) b).
Proof.
  intros Hb Hsz. destruct size as [|m]; [lia|]. cbn [snprintf_at]. replace (S m - 1)%nat with m by lia.
  rewrite buf_write_Some by (rewrite length_app, length_take; cbn; lia).
  rewrite length_app, length_take. cbn [length]. by rewrite <- !app_assoc, Nat.add_assoc.
Qed.

Lemma take_line size pre text rest :
  (length pre + size = LOG_BUF)%nat -> (0 < size)%nat ->
  take (if decide (LOG_BUF < length pre + length text)%nat then LOG_BUF else (length pre + length text)%nat)
    (pre ++ take (size - 1) text ++ [NUL] ++ rest) = log_line (pre ++ text).
Proof.
  intros Hl Hs. unfold log_line. rewrite length_app. destruct (decide (length pre + length text < LOG_BUF)%nat) as [H|H].
  - rewrite decide_False by lia. rewrite (take_ge text) by lia.
    rewrite app_assoc, take_app_length' by (rewrite length_app; lia). done.
  - assert (E : (if decide (LOG_BUF < length pre + length text)%nat then LOG_BUF
                 else (length pre + length text)%nat) = LOG_BUF) by (case_decide; lia).
    rewrite E, !app_assoc, take_app_length' by (rewrite !length_app, length_take; cbn [length]; lia).
    f_equal. rewrite take_app_ge by lia. f_equal. f_equal. lia.
Qed.

(** C33: [log_hook] and [log_msg] hand the whole line to [log_write] when it is
    shorter than the buffer; a longer line is cut, and the terminating NUL of
    [snprintf] is written with it. *)
Theorem log_bytes_correct f text :
  text ≠ [] -> (length f + 12 < LOG_BUF)%nat ->
  log_msg_bytes text = Some (Some (log_line text)) ∧
  log_hook_bytes (Some f) text =
    Some (Some (log_line (match f with [] => [] | _ => lit "[hooklog] " ++ f ++ lit ": " end ++ text))).
Proof.
  intros Ht Hf. assert (Hu : length (uninit (Z.of_nat LOG_BUF)) = LOG_BUF) by by rewrite uninit_length, Nat2Z.id.
  assert (Hlt : length text ≠ O) by by destruct text. split.
  - unfold log_msg_bytes. rewrite snprintf_line by (rewrite ?Hu; unfold LOG_BUF; lia). cbn [mbind option_bind].
    rewrite decide_False by done. rewrite take_0, app_nil_l. do 2 f_equal.
    exact (take_line LOG_BUF [] text _ eq_refl ltac:(unfold LOG_BUF; lia)).
  - unfold log_hook_bytes. destruct f as [|c f].
    + cbn [mbind option_bind]. rewrite decide_False by (unfold LOG_BUF; lia). rewrite Nat.sub_0_r.
      rewrite snprintf_line by (rewrite ?Hu; unfold LOG_BUF; lia). cbn [mbind option_bind].
      rewrite decide_False by done. rewrite take_0, app_nil_l. do 2 f_equal.
      exact (take_line LOG_BUF [] text _ eq_refl ltac:(unfold LOG_BUF; lia)).
    + set (pre := lit "[hooklog] " ++ (c :: f) ++ lit ": ").
      assert (Hpre : length pre = (length (c :: f) + 12)%nat).
      { unfold pre. rewrite !length_app. cbn. lia. }
      rewrite snprintf_line by (rewrite ?Hu; unfold LOG_BUF; lia). cbn [mbind option_bind].
      rewrite take_0, app_nil_l, (take_ge pre) by lia.
      rewrite decide_False by lia.
      rewrite snprintf_line; [|rewrite !length_app, length_drop, Hu; cbn [length]; lia|lia].
      cbn [mbind option_bind]. rewrite decide_False by done.
      rewrite take_app_length. do 2 f_equal. apply take_line; lia.
Qed.

End props.

(** ** Witnesses *)

Section witnesses.
#[local] Existing Instance demo64.
#[local] Instance log_demo_ext : Ext := demo_ext_log true.

(** The list is [open, read]. *)
Lemma log_enabled_correct_witness :
  log_enabled (Some (lit "sqfs_read")) = true ∧ log_enabled (Some (lit "sqfs_close")) = false.
Proof.
  split.
  - rewrite (log_enabled_correct (lit "sqfs_read")); [vm_compute; reflexivity|discriminate..].
  - rewrite (log_enabled_correct (lit "sqfs_close")); [vm_compute; reflexivity|discriminate..].
Defined.

(** A line of 2000 characters ends with NUL. *)
Lemma log_bytes_correct_witness :
  log_msg_bytes (replicate 2000 "x"%char) = Some (Some (replicate 1023 "x"%char ++ [NUL])).
Proof.
  rewrite (proj1 (log_bytes_correct [] (replicate 2000 "x"%char) ltac:(discriminate) ltac:(cbn; unfold LOG_BUF; lia))).
  vm_compute. reflexivity.
Defined.

End witnesses.
