(* ===== verification/InodeProps.v ===== *)
(** * Properties of the attributes of an inode

    What [sqfs_fill_stat] reports, against a table of the file types and the
    widths of the fields of [struct stat]. *)

From S2P Require Import Prelude CString Posix Prog Foreign State Logging Inode Kernel Demo.

(** ** File types *)

(** The seven kinds of inode, each with a basic and an extended form. *)
Inductive file_kind := KDir | KFile | KSlink | KBdev | KCdev | KFifo | KSocket.

#[export] Instance file_kind_eq_dec : EqDecision file_kind.
Proof. solve_decision. Defined.

Definition file_kinds : list file_kind := [KDir; KFile; KSlink; KBdev; KCdev; KFifo; KSocket].

(** The kind of an inode type: 1 to 7 are the basic forms, 8 to 14 the
    extended ones, in the same order. *)
Definition kind_of (ty : Z) : option file_kind :=
  if decide (1 <= ty <= 14) then file_kinds !! Z.to_nat ((ty - 1) mod 7) else None.

(** The format bits POSIX gives a kind. *)
Definition kind_format (k : file_kind) : Z :=
  match k with
  | KDir => S_IFDIR | KFile => S_IFREG | KSlink => S_IFLNK | KBdev => S_IFBLK
  | KCdev => S_IFCHR | KFifo => S_IFIFO | KSocket => S_IFSOCK
  end.

Definition type_format (ty : Z) : Z := from_option kind_format 0 (kind_of ty).

Lemma kind_of_outside ty : ¬ 1 <= ty <= 14 -> kind_of ty = None.
Proof. intros Hty. unfold kind_of. by rewrite decide_False. Qed.

(** [sqfs_inode_mode] follows the table. *)
Lemma sqfs_inode_mode_table inode :
  sqfs_inode_mode inode = Z.lor (Z.land (ino_mode inode) 0xfff) (type_format (ino_type inode)).
Proof.
  unfold sqfs_inode_mode, type_format. destruct (decide (1 <= ino_type inode <= 14)) as [Hty|Hty].
  - generalize dependent (ino_type inode). intros ty Hty.
    assert (∃ n : nat, ty = Z.of_nat n ∧ (1 <= n <= 14)%nat) as (n & -> & Hn)
      by (exists (Z.to_nat ty); lia).
    do 15 (destruct n as [|n]; [first [lia|reflexivity]|]). lia.
  - rewrite (kind_of_outside _ Hty). cbn [from_option]. rewrite Z.lor_0_r.
    repeat match goal with
    | |- context [ino_type inode =? ?c] => rewrite (proj2 (Z.eqb_neq (ino_type inode) c)) by
        (intros E; apply Hty; rewrite E; by compute)
    end. reflexivity.
Qed.

Lemma type_format_bits ty : Z.land (type_format ty) S_IFMT = type_format ty ∧ Z.land (type_format ty) 0xfff = 0.
Proof.
  unfold type_format. destruct (kind_of ty) as [[]|]; by split.
Qed.

(** ** Widths *)

Section props.
Context `{HP : Platform} `{HE : Ext}.

Lemma wrap_s_word_iff z : 0 <= z -> wrap_s word_bits z = z <-> z < 2 ^ (word_bits - 1).
Proof.
  intros Hz. pose proof (wrap_s_range word_bits z). destruct word_bits_cases as [E|E]; rewrite E in *.
  - split; [intros <-; lia|]. intros ?. apply wrap_s_id; lia.
  - split; [intros <-; lia|]. intros ?. apply wrap_s_id; lia.
Qed.

(** The number of 512-byte blocks that hold [size] bytes. *)
Lemma blocks_cover size :
  0 <= size -> 512 * ((size + 511) / 512 - 1) < size <= 512 * ((size + 511) / 512).
Proof. intros Hs. pose proof (Z.div_mod (size + 511) 512). pose proof (Z.mod_pos_bound (size + 511) 512). lia. Qed.

Lemma st_blocks_exact size :
  0 <= size < 2 ^ (word_bits - 1) ->
  wrap_s word_bits (wrap_u 64 (size + 511) / 512) = (size + 511) / 512.
Proof.
  intros Hs. pose proof (blocks_cover size). destruct word_bits_cases as [E|E]; rewrite E in *.
  - rewrite wrap_u_id by lia. apply wrap_s_id; lia.
  - rewrite wrap_u_id by lia. apply wrap_s_id; lia.
Qed.

(** The attributes [sqfs_fill_stat] stores for an inode. *)
Record stat_of_inode (inode : sqfs_inode) (blksize : Z) (st : stat) : Prop := {
  so_format : Z.land (st_mode st) S_IFMT = type_format (ino_type inode);
  so_permissions : Z.land (st_mode st) 0xfff = Z.land (ino_mode inode) 0xfff;
  so_other_bits : st_mode st = Z.lor (Z.land (st_mode st) S_IFMT) (Z.land (st_mode st) 0xfff);
  so_number : st_ino st = ino_number inode;
  so_owner : st_uid st = 0 ∧ st_gid st = 0;
  so_size : st_size st = sqfs_inode_size inode <-> sqfs_inode_size inode < 2 ^ (word_bits - 1);
  so_range : - 2 ^ (word_bits - 1) <= st_size st < 2 ^ (word_bits - 1);
  so_blocks : sqfs_inode_size inode < 2 ^ (word_bits - 1) ->
    512 * (st_blocks st - 1) < st_size st <= 512 * st_blocks st;
  so_blksize : st_blksize st = blksize;
  so_times : st_atime st = st_mtime st ∧ st_ctime st = st_mtime st;
  so_mtime : st_mtime st = ino_mod_time inode <-> ino_mod_time inode < 2 ^ (word_bits - 1);
}.

Lemma mode_bits inode :
  Z.land (sqfs_inode_mode inode) S_IFMT = type_format (ino_type inode) ∧
  Z.land (sqfs_inode_mode inode) 0xfff = Z.land (ino_mode inode) 0xfff.
Proof.
  destruct (type_format_bits (ino_type inode)) as [Hf Hp].
  rewrite sqfs_inode_mode_table, !Z.land_lor_distr_l, <- !Z.land_assoc, Hf, Hp.
  split; [|by rewrite Z.land_diag, Z.lor_0_r].
  change (Z.land 0xfff S_IFMT) with 0. by rewrite Z.land_0_r.
Qed.

(** C19: the attributes of an inode.  The format bits of [st_mode] are those of
    the kind of the inode, basic or extended, and the permission bits are kept;
    [st_size], [st_blocks] and the times are exact as long as they fit in the
    [long] of the target, and a file of 2 GiB or more has another size on the
    32-bit target. *)
Theorem sqfs_fill_stat_correct inode blksize :
  0 <= sqfs_inode_size inode -> 0 <= ino_mod_time inode -> 0 <= blksize < 2 ^ (word_bits - 1) ->
  stat_of_inode inode blksize (sqfs_fill_stat inode blksize).
Proof.
  intros Hsize Htime Hblk. destruct (mode_bits inode) as [Hf Hp].
  split; cbn [sqfs_fill_stat st_mode st_ino st_uid st_gid st_size st_blocks st_blksize st_atime st_mtime st_ctime];
    try done.
  - rewrite Hf, Hp, Z.lor_comm. apply sqfs_inode_mode_table.
  - by apply wrap_s_word_iff.
  - apply wrap_s_range. destruct word_bits_cases; lia.
  - intros Hs. unfold off_wrap. rewrite (proj2 (wrap_s_word_iff _ Hsize)) by done.
    rewrite st_blocks_exact by done. by apply blocks_cover.
  - apply wrap_s_word_iff; lia.
  - by apply wrap_s_word_iff.
Qed.

End props.

(** ** Witnesses *)

Section witnesses.
#[local] Existing Instance demo64.
#[local] Instance inode_demo_ext : Ext := demo_ext_log false.

(** A socket inode with mode 0755. *)
Definition demo_socket : sqfs_inode :=
  SqfsInode SQFS_INODE_EXT_SOCKET 0x1ed 1700000000 7 0 0 0 0 0 0 0 0 0 0 0 1 2.

Lemma sqfs_fill_stat_correct_witness :
  stat_of_inode demo_socket 131072 (sqfs_fill_stat demo_socket 131072) ∧
  Z.land (st_mode (sqfs_fill_stat demo_socket 131072)) S_IFMT = S_IFSOCK.
Proof.
  assert (H : stat_of_inode demo_socket 131072 (sqfs_fill_stat demo_socket 131072)).
  { apply (sqfs_fill_stat_correct demo_socket 131072); vm_compute; try split; congruence. }
  split; [exact H|]. exact (so_format _ _ _ H).
Defined.

End witnesses.
