(* ===== verification/SeekProps.v ===== *)
(** * Properties of the seeks *)

From S2P Require Import Prelude CString Posix Path Prog Foreign State Logging Kernel Backing.
From S2P Require Import Inode Seek Image FdOps StateFacts Invariant FdFacts Demo.

Section props.
Context `{HP : Platform} `{HU : UtHash} `{HS : !UtHashSpec} `{HE : Ext} `{HK : !KernelSpec}
  `{HF : Fuel} `{HW : !WriteSpec}.

(** The largest value of [off_t]. *)
Definition OFF_T_MAX : Z := 2 ^ (word_bits - 1) - 1.

(** What both seeks do to a descriptor of the image. *)
Definition seek_post (t fd : Z) (func : string) (i : sqfs_inode) (res : Z * Z * Z) (w : world)
    (p : prog world Z) : Prop :=
  let '(ret, off', err) := res in
  ∃ w', run p w = Done (ret, w') ∧ touches (eq fd) none t w w' ∧ fd_view w' fd = Some (i, off') ∧
        (log_enabled (Some (lit func)) = false -> errno_of t w' = err ∧ w_ext w' = w_ext w).

Lemma off_t_max_bounds : 0 < OFF_T_MAX <= INT64_MAX ∧ 0 < word_bits.
Proof. unfold OFF_T_MAX, INT64_MAX. destruct word_bits_cases as [-> | ->]; lia. Qed.

(** The locked section both seeks share. *)
Lemma seek_locked t d w fd func offset whence mx (conv : Z -> Z) i off :
  wf w -> w_mutex w = mutex_of t d -> fd_view w fd = Some (i, off) ->
  is_uint64 (sqfs_inode_size i) -> is_int64 offset ->
  (∀ z, 0 <= z <= mx -> conv z = z) ->
  ∀ (missing : prog world Z),
  seek_post t fd func i (lseek_result mx (sqfs_inode_size i) off offset whence) w
    (mutex_lock t ;;
     do found <- find_fd t fd;
     match found with
     | None => missing
     | Some found =>
         do '(r, new_offset) <- sqfs_lseek_mapped t (lit func) found offset whence mx;
         if negb (r =? 0) then mutex_unlock t ;; Ret (-1)
         else mutex_unlock t ;; Ret (conv new_offset)
     end).
Proof.
  intros Hwf Hmu Hv Hs Ho Hconv missing. open_world Hwf Hmu.
  eapply fd_view_Some in Hv as (p & ip & Hfm & Hfind & Hp & Hoff & Hi & _); [|done..].
  unfold seek_post. destruct (lseek_result _ _ _ _ _) as [[ret off'] err] eqn:Hres.
  destruct (lseek_result_range _ _ _ _ _ _ _ _ Hs Hoff Ho Hres) as [Hoff' Hret].
  apply run_wp. wp_step. unfold find_fd. wp_step. rewrite Hfind. apply wp_bind.
  eapply wp_lseek_mapped; [exact Hp|exact Hi|done..|exact Hres|].
  intros new x' er' lf' Hx Her Hd Hnew.
  set (w0 := World x er (mutex_of t d) mg h n lc dc fc lf).
  destruct (touches_offset t d fd p ip off off' own fm dm x x' er er' mg h n lc dc fc lf lf'
              Hwf Hfm Hp Hoff' (log_ext_grows _ _ Hx) Her) as [Ht Hv'].
  assert (Herr : log_enabled (Some (lit func)) = false -> default 0 (er' !! t) = err ∧ x' = x).
  { intros E. destruct (Hd E) as [-> ->]. by rewrite lookup_insert_eq. }
  destruct Hret as [(-> & -> & Hne)|(Hr & -> & ->)].
  - cbn [Z.leb Z.eqb Z.compare negb Z.opp]. do 2 wp_step. eauto 10.
  - rewrite (proj2 (Z.leb_le 0 ret)), (Hnew ltac:(lia)) by lia. cbn [Z.eqb negb].
    do 2 wp_step. rewrite Hconv by lia. eauto 10.
Qed.

Lemma lseek_ok t d w fd offset whence i off :
  wf w -> w_mutex w = mutex_of t d -> fd_view w fd = Some (i, off) ->
  is_uint64 (sqfs_inode_size i) -> - OFF_T_MAX - 1 <= offset <= OFF_T_MAX ->
  seek_post t fd "sqfs_lseek" i
    (lseek_result OFF_T_MAX (sqfs_inode_size i) off offset whence) w (sqfs_lseek t fd offset whence).
Proof.
  intros Hwf Hmu Hv Hs Ho. pose proof off_t_max_bounds as [Hb Hw]. unfold INT64_MAX in Hb.
  unfold sqfs_lseek. rewrite max_signed_value_spec.
  replace (off_wrap (-1)) with (-1) by (symmetry; apply wrap_s_id; unfold OFF_T_MAX in *; lia).
  apply (seek_locked t d w fd "sqfs_lseek" offset whence OFF_T_MAX off_wrap i off); try done.
  - unfold is_int64, INT64_MIN, INT64_MAX. lia.
  - intros z Hz. apply wrap_s_id; unfold OFF_T_MAX in *; lia.
Qed.

Lemma lseek64_ok t d w fd offset whence i off :
  wf w -> w_mutex w = mutex_of t d -> fd_view w fd = Some (i, off) ->
  is_uint64 (sqfs_inode_size i) -> is_int64 offset ->
  seek_post t fd "sqfs_lseek64" i
    (lseek_result INT64_MAX (sqfs_inode_size i) off offset whence) w (sqfs_lseek64 t fd offset whence).
Proof.
  intros Hwf Hmu Hv Hs Ho. unfold sqfs_lseek64.
  replace (wrap_u 64 INT64_MAX) with INT64_MAX by done.
  apply (seek_locked t d w fd "sqfs_lseek64" offset whence INT64_MAX (wrap_s 64) i off); try done.
  intros z Hz. apply wrap_s_id; unfold INT64_MAX in *; lia.
Qed.

(** The result, the new offset and the error number POSIX asks of a seek whose
    result type holds values up to [mx]. *)
Definition posix_lseek (mx size cur offset whence : Z) : Z * Z * Z :=
  match posix_seek size cur offset whence with
  | (_, Some p) => if p <=? mx then (p, p, 0) else (-1, cur, EOVERFLOW)
  | (err, None) => (-1, cur, err)
  end.

(** What the seeks of the image do instead, in two cases. *)
Definition image_lseek (mx size cur offset whence : Z) : Z * Z * Z :=
  if decide (hole_at_end size offset whence)
  then if size <=? mx then (size, size, 0) else (-1, cur, EOVERFLOW)
  else if decide (negative_data offset whence) then (-1, cur, EINVAL)
  else posix_lseek mx size cur offset whence.

Lemma lseek_result_image mx size cur offset whence :
  is_uint64 size -> lseek_result mx size cur offset whence = image_lseek mx size cur offset whence.
Proof.
  intros Hs. unfold lseek_result, image_lseek, posix_lseek. rewrite seek_spec_posix by done.
  by repeat case_decide.
Qed.

(** C7: [sqfs_lseek] on a descriptor of the image always returns and implements
    the POSIX positions of a file without holes but for two cases: [SEEK_HOLE]
    at the end of the file returns its size where POSIX wants [ENXIO], and
    [SEEK_DATA] and [SEEK_HOLE] fail with [EINVAL] instead of [ENXIO] on a
    negative offset.  A position that is negative, beyond [uint64_t] or beyond
    [off_t] is refused and the offset left alone, and nothing else changes;
    [sqfs_lseek64] does the same on the 64-bit [off64_t], whatever the width of
    [off_t]. *)
Theorem sqfs_lseek_correct t d w fd offset whence i off :
  wf w -> w_mutex w = mutex_of t d -> fd_view w fd = Some (i, off) ->
  is_uint64 (sqfs_inode_size i) -> is_int64 offset ->
  (- OFF_T_MAX - 1 <= offset <= OFF_T_MAX ->
   seek_post t fd "sqfs_lseek" i
     (image_lseek OFF_T_MAX (sqfs_inode_size i) off offset whence) w (sqfs_lseek t fd offset whence)) ∧
  seek_post t fd "sqfs_lseek64" i
    (image_lseek INT64_MAX (sqfs_inode_size i) off offset whence) w (sqfs_lseek64 t fd offset whence).
Proof.
  intros. rewrite <- !lseek_result_image by done.
  split; [intros; by eapply lseek_ok|by eapply lseek64_ok].
Qed.

End props.

(** ** Witnesses *)

Section witnesses.
#[local] Existing Instances demo64 demo_hash demo_hash_spec demo_ext demo_kernel demo_fuel demo_write.

Lemma sqfs_lseek_correct_witness :
  seek_post 1 3 "sqfs_lseek" a_inode (9, 9, 0) demo_world (sqfs_lseek 1 3 3 SEEK_CUR) ∧
  seek_post 1 3 "sqfs_lseek" a_inode (-1, 6, EINVAL) demo_world (sqfs_lseek 1 3 (-12) SEEK_END) ∧
  seek_post 1 3 "sqfs_lseek64" a_inode (-1, 6, EOVERFLOW) demo_world
    (sqfs_lseek64 1 3 INT64_MAX SEEK_CUR) ∧
  seek_post 1 3 "sqfs_lseek64" a_inode (11, 11, 0) demo_world (sqfs_lseek64 1 3 11 SEEK_HOLE) ∧
  posix_lseek INT64_MAX 11 6 11 SEEK_HOLE = (-1, 6, ENXIO).
Proof.
  split; [|split; [|split; [|split; [|reflexivity]]]].
  - replace (9, 9, 0) with (image_lseek OFF_T_MAX (sqfs_inode_size a_inode) 6 3 SEEK_CUR)
      by reflexivity.
    apply (sqfs_lseek_correct 1 0 demo_world 3 3 SEEK_CUR a_inode 6);
      [apply demo_wf|done|by vm_compute|by split..].
  - replace (-1, 6, EINVAL) with (image_lseek OFF_T_MAX (sqfs_inode_size a_inode) 6 (-12) SEEK_END)
      by reflexivity.
    apply (sqfs_lseek_correct 1 0 demo_world 3 (-12) SEEK_END a_inode 6);
      [apply demo_wf|done|by vm_compute|by split..].
  - replace (-1, 6, EOVERFLOW)
      with (image_lseek INT64_MAX (sqfs_inode_size a_inode) 6 INT64_MAX SEEK_CUR) by reflexivity.
    apply (sqfs_lseek_correct 1 0 demo_world 3 INT64_MAX SEEK_CUR a_inode 6);
      [apply demo_wf|done|by vm_compute|by split..].
  - replace (11, 11, 0)
      with (image_lseek INT64_MAX (sqfs_inode_size a_inode) 6 11 SEEK_HOLE) by reflexivity.
    apply (sqfs_lseek_correct 1 0 demo_world 3 11 SEEK_HOLE a_inode 6);
      [apply demo_wf|done|by vm_compute|by split..].
Defined.

End witnesses.
