(* ===== verification/ReadProps.v ===== *)
(** * Properties of the reads *)

From S2P Require Import Prelude CString Posix Path Prog Foreign State Logging Kernel Backing.
From S2P Require Import Inode Seek Image FdOps StateFacts Invariant FdFacts Demo.

Section props.
Context `{HP : Platform} `{HU : UtHash} `{HS : !UtHashSpec} `{HE : Ext} `{HK : !KernelSpec}
  `{HF : Fuel} `{HW : !WriteSpec}.

(** What a read of a descriptor of the image leaves: the data reader is called
    once, at [pos], in the state [w]; the result, the bytes and the error
    number are made of what it returns, and the new offset is [next r]. *)
Definition read_post (t fd : Z) (i : sqfs_inode) (hd : handle) (pos count : Z) (next : Z -> Z)
    (w : world) (p : prog world (Z * list ascii)) : Prop :=
  ∃ r bytes e0 x1,
    sqfs_data_reader_read hd i pos (wrap_u 32 count) (errno_of t w) (w_ext w) = ((r, bytes), e0, x1) ∧
    ∃ w', run p w = Done ((read_result (r, bytes)).1, w') ∧
      touches (eq fd) none t w w' ∧ fd_view w' fd = Some (i, next r) ∧
      log_ext x1 (w_ext w') ∧ errno_of t w' = (read_result (r, bytes)).2.

Definition read_next (off r : Z) : Z := if 0 <=? r then wrap_u 64 (off + r) else off.

Lemma read_ok t d w fd count i off hd :
  wf w -> w_mutex w = mutex_of t d -> fd_view w fd = Some (i, off) -> image_reader w = Some hd ->
  read_post t fd i hd off count (read_next off) w (sqfs_read t fd count).
Proof.
  intros Hwf Hmu Hv Hrd. open_world Hwf Hmu.
  eapply fd_view_Some in Hv as (p & ip & Hfm & Hfind & Hp & Hoff & Hi & _); [|done..].
  apply mgr_obj_Some in Hrd as (l & Hl & Hhd). cbn in Hl, Hhd.
  destruct (sqfs_data_reader_read hd i off (wrap_u 32 count) (default 0 (er !! t)) x)
    as [[[r bytes] e0] x1] eqn:Hread.
  exists r, bytes, e0, x1. split; [done|]. apply run_wp.
  unfold sqfs_read, sqfs_lock, sqfs_unlock, find_fd. do 2 wp_step. rewrite Hfind. apply wp_bind.
  eapply wp_read_mapped; [done..|]. intros x' er' lf' Hx Her.
  unfold read_result. cbn [fst snd].
  assert (Hnext : is_uint64 (if 0 <=? r then wrap_u 64 (off + r) else off)).
  { destruct (0 <=? r); [|done]. pose proof (wrap_u_range 64 (off + r)).
    unfold is_uint64, UINT64_MAX. lia. }
  assert (Hg : grows x x').
  { eapply grows_trans; [eapply keeps_grows; [apply keeps_data_read|exact Hread]|].
    by apply log_ext_grows. }
  destruct (touches_offset t d fd p ip off _ own fm dm x x' er er' mg h n lc dc fc lf lf'
              Hwf Hfm Hp Hnext Hg Her) as [Ht Hv'].
  unfold read_next. destruct (0 <=? r); intros Herr; do 2 wp_step;
    (split; [done|]); split; [exact Ht| |exact Ht|]; (split; [by apply Hv'|]);
    (split; [done|]); unfold errno_of; cbn; by rewrite Herr.
Qed.

(** C34: [sqfs_read] on a descriptor of the image calls the data reader at the
    current offset and returns what it returns; the offset advances by the
    bytes read, or stays where it is when the read fails, and the error number
    is 0 or the translation of the libsquashfs error. *)
Theorem sqfs_read_correct t d w fd count i off hd :
  wf w -> w_mutex w = mutex_of t d -> fd_view w fd = Some (i, off) -> image_reader w = Some hd ->
  read_post t fd i hd off count (read_next off) w (sqfs_read t fd count).
Proof. apply read_ok. Qed.

(** The locked section both positioned reads share. *)
Lemma pread_locked t d w fd func count offset i off hd (missing : prog world (Z * list ascii)) :
  wf w -> w_mutex w = mutex_of t d -> fd_view w fd = Some (i, off) -> image_reader w = Some hd ->
  0 <= offset <= INT64_MAX ->
  read_post t fd i hd offset count (λ _, off) w
    (mutex_lock t ;;
     do found <- find_fd t fd;
     match found with
     | None => missing
     | Some found =>
         do result <- sqfs_pread_mapped t func found count offset;
         mutex_unlock t ;; Ret result
     end).
Proof.
  intros Hwf Hmu Hv Hrd Ho. open_world Hwf Hmu. unfold INT64_MAX in Ho.
  eapply fd_view_Some in Hv as (p & ip & Hfm & Hfind & Hp & Hoff & Hi & _); [|done..].
  apply mgr_obj_Some in Hrd as (l & Hl & Hhd). cbn in Hl, Hhd.
  destruct (sqfs_data_reader_read hd i offset (wrap_u 32 count) (default 0 (er !! t)) x)
    as [[[r bytes] e0] x1] eqn:Hread.
  exists r, bytes, e0, x1. split; [done|]. apply run_wp.
  unfold find_fd. do 2 wp_step. rewrite Hfind. apply wp_bind.
  eapply wp_pread_mapped; [done..|unfold UINT64_MAX; lia|].
  intros r' bytes' e0' x1' x' er' lf' Hread' Hx Her.
  rewrite Hread in Hread'. injection Hread' as <- <- <- <-.
  assert (Hg : grows x x').
  { eapply grows_trans; [eapply keeps_grows; [apply keeps_data_read|exact Hread]|].
    by apply log_ext_grows. }
  destruct (touches_offset t d fd p ip off _ own fm dm x x' er er' mg h n lc dc fc lf lf'
              Hwf Hfm Hp Hoff Hg Her) as [Ht Hv'].
  rewrite insert_id in Ht, Hv' by done.
  unfold read_result. cbn [fst snd]. destruct (0 <=? r); intros Herr; do 2 wp_step;
    (split; [done|]); (split; [exact Ht|]); (split; [by apply Hv'|]);
    (split; [done|]); unfold errno_of; cbn; by rewrite Herr.
Qed.

(** A negative position is refused without reading anything. *)
Lemma pread_negative t d w fd count offset i off :
  wf w -> w_mutex w = mutex_of t d -> fd_view w fd = Some (i, off) -> offset < 0 ->
  let w' := set_errnos (<[t := EINVAL]> (w_errno w)) w in
  run (sqfs_pread t fd count offset) w = Done ((-1, []), w') ∧
  run (sqfs_pread64 t fd count offset) w = Done ((-1, []), w').
Proof.
  intros Hwf Hmu Hv Ho w'. subst w'. open_world Hwf Hmu.
  eapply fd_view_Some in Hv as (p & ip & Hfm & Hfind & Hp & Hoff & Hi & _); [|done..].
  split; apply run_eq_wp; unfold sqfs_pread, sqfs_pread64, sqfs_lock, sqfs_unlock, find_fd;
    do 2 wp_step; rewrite Hfind; unfold sqfs_pread_mapped;
    rewrite (proj2 (Z.ltb_lt _ _)) by done; by wp_steps.
Qed.

Definition pread_post (t fd : Z) (i : sqfs_inode) (hd : handle) (offset count off : Z) (w : world)
    (p : prog world (Z * list ascii)) : Prop :=
  if offset <? 0 then run p w = Done ((-1, []), set_errnos (<[t := EINVAL]> (w_errno w)) w)
  else read_post t fd i hd offset count (λ _, off) w p.

Lemma pread_ok t d w fd count offset i off hd :
  wf w -> w_mutex w = mutex_of t d -> fd_view w fd = Some (i, off) -> image_reader w = Some hd ->
  is_int64 offset ->
  pread_post t fd i hd offset count off w (sqfs_pread t fd count offset) ∧
  pread_post t fd i hd offset count off w (sqfs_pread64 t fd count offset).
Proof.
  intros Hwf Hmu Hv Hrd [_ Ho]. unfold pread_post. destruct (Z.ltb_spec offset 0).
  - by eapply pread_negative.
  - split; by eapply pread_locked.
Qed.

(** C22: [sqfs_pread] and [sqfs_pread64] on a descriptor of the image read at
    the given position and leave the offset of the descriptor alone; a
    negative position is refused with [EINVAL] and nothing is read. *)
Theorem sqfs_pread_correct t d w fd count offset i off hd :
  wf w -> w_mutex w = mutex_of t d -> fd_view w fd = Some (i, off) -> image_reader w = Some hd ->
  is_int64 offset ->
  pread_post t fd i hd offset count off w (sqfs_pread t fd count offset) ∧
  pread_post t fd i hd offset count off w (sqfs_pread64 t fd count offset).
Proof. apply pread_ok. Qed.

(** ** Streams of reads *)

Context `{HC : !ContentSpec}.

Fixpoint read_seq (t fd : Z) (counts : list Z) : prog world (list (Z * list ascii)) :=
  match counts with
  | [] => Ret []
  | c :: cs => do r <- sqfs_read t fd c; do rs <- read_seq t fd cs; Ret (r :: rs)
  end.

(** One read, in terms of the content of the file. *)
Lemma read_content t d w fd count i off hd :
  wf w -> w_mutex w = mutex_of t d -> fd_view w fd = Some (i, off) -> image_reader w = Some hd ->
  0 <= off -> 0 <= count ->
  ∃ r bytes w', run (sqfs_read t fd count) w = Done ((r, bytes), w') ∧ touches (eq fd) none t w w' ∧
    fd_view w' fd = Some (i, off + Z.of_nat (length bytes)) ∧
    bytes = take (length bytes) (drop (Z.to_nat off) (content i)) ∧
    (r = -1 ∧ bytes = [] ∨ r = Z.of_nat (length bytes) ∧ r <= wrap_u 32 count) ∧
    (r = 0 -> 0 < wrap_u 32 count -> Z.of_nat (length (content i)) <= off).
Proof.
  intros Hwf Hmu Hv Hrd Hoff Hcount.
  destruct (read_ok t d w fd count i off hd Hwf Hmu Hv Hrd)
    as (r & bytes & e0 & x1 & Hread & w' & Hrun & Ht & Hv' & _).
  pose proof (wrap_u_range 32 count ltac:(lia)) as Hcr.
  pose proof (data_read_spec hd i off (wrap_u 32 count) (errno_of t w) (w_ext w) Hoff ltac:(lia)) as Hc.
  rewrite Hread in Hc. unfold read_result, read_next in *. cbn [fst snd] in *.
  destruct Hc as [Hneg|(Hr & Hb & Hlen & Hprog)].
  - rewrite (proj2 (Z.leb_gt 0 r)) in Hrun, Hv' by lia.
    exists (-1), [], w'. cbn [length Z.of_nat]. rewrite Z.add_0_r.
    split; [done|]. split; [done|]. split; [done|]. split; [done|]. split; [by left|lia].
  - rewrite (proj2 (Z.leb_le 0 r)) in Hrun, Hv' by lia.
    assert (Hsmall : off + r <= UINT64_MAX ∨ r = 0).
    { destruct (decide (r = 0)); [by right|left]. pose proof (content_size i).
      rewrite Hb, length_take, length_drop in Hlen. lia. }
    assert (Hw : wrap_u 64 (off + r) = off + Z.of_nat (length bytes)).
    { rewrite Hlen. destruct Hsmall as [Hs| ->]; [|rewrite Z.add_0_r];
        apply wrap_u_id; unfold UINT64_MAX in *; [lia|].
      destruct Hwf as (own & fm & dm & Hwf).
      eapply fd_view_Some in Hv as (? & ? & _ & _ & _ & Hu & _); [|exact Hwf|done..].
      unfold is_uint64, UINT64_MAX in Hu. lia. }
    rewrite Hw in Hv'. exists r, bytes, w'. split; [done|]. split; [done|]. split; [done|].
    split; [rewrite <- Hlen, Nat2Z.id in Hb; exact Hb|]. split; [right; lia|].
    intros -> Hpos. destruct (Z.lt_ge_cases off (Z.of_nat (length (content i)))); [|done].
    specialize (Hprog Hpos ltac:(done)). lia.
Qed.

Lemma reads_ok t d fd counts : ∀ w i off hd,
  wf w -> w_mutex w = mutex_of t d -> fd_view w fd = Some (i, off) -> image_reader w = Some hd ->
  0 <= off -> Forall (λ c, 0 <= c) counts ->
  ∃ results w', run (read_seq t fd counts) w = Done (results, w') ∧ touches (eq fd) none t w w' ∧
    let bytes := results ≫= snd in
    bytes = take (length bytes) (drop (Z.to_nat off) (content i)) ∧
    fd_view w' fd = Some (i, off + Z.of_nat (length bytes)).
Proof.
  induction counts as [|c cs IH]; intros w i off hd Hwf Hmu Hv Hrd Hoff Hcs; cbn [read_seq].
  { exists [], w. split; [done|]. split; [by apply touches_refl|]. cbn. by rewrite Z.add_0_r. }
  apply Forall_cons in Hcs as [Hc Hcs].
  destruct (read_content t d w fd c i off hd Hwf Hmu Hv Hrd Hoff Hc)
    as (r & b & w1 & Hrun & Ht & Hv1 & Hb & _).
  pose proof Ht as [Hwf1 [Hm1 _ _] _ _ Him].
  destruct (IH w1 i (off + Z.of_nat (length b)) hd) as (rs & w2 & Hrun2 & Ht2 & Hbs & Hv2);
    [done|congruence|done|by rewrite (proj2 (is_reader _ _ Him))|lia|done|].
  exists ((r, b) :: rs), w2. split.
  { rewrite run_bind, Hrun. cbn [outcome_bind fst snd]. by rewrite run_bind, Hrun2. }
  split; [by eapply touches_trans|]. cbn [mbind list_bind snd].
  fold (mbind (M := list) (A := Z * list ascii) snd rs).
  set (bs := rs ≫= snd) in *. rewrite length_app. split.
  - rewrite <- take_take_drop. rewrite <- Hb. f_equal. rewrite Hbs at 1. rewrite drop_drop.
    do 3 f_equal. lia.
  - rewrite Hv2. do 2 f_equal. lia.
Qed.

Lemma read_seq_app t fd cs1 cs2 w rs1 w1 rs2 w2 :
  run (read_seq t fd cs1) w = Done (rs1, w1) -> run (read_seq t fd cs2) w1 = Done (rs2, w2) ->
  run (read_seq t fd (cs1 ++ cs2)) w = Done (rs1 ++ rs2, w2).
Proof.
  revert w rs1. induction cs1 as [|c cs IH]; intros w rs1 H1 H2; cbn [read_seq app] in *.
  - injection H1 as <- <-. exact H2.
  - rewrite run_bind in H1 |- *. destruct (run (sqfs_read t fd c) w) as [[r w']| | |]; try done.
    cbn [outcome_bind fst snd] in *. rewrite run_bind in H1 |- *.
    destruct (run (read_seq t fd cs) w') as [[rs w'']| | |] eqn:E; try done.
    cbn [outcome_bind fst snd] in *. injection H1 as <- <-. by rewrite (IH w' rs E H2).
Qed.

(** C3: reading a descriptor any number of times, with any counts, returns the
    consecutive pieces of the file from the current offset on: nothing is
    lost, repeated or reordered, also when some reads fail, and the final
    offset is the initial one plus the bytes delivered.  The data reader gets
    the low 32 bits of a count.  When they are not zero and a further read
    returns 0, the reads before it have delivered the whole rest of the file;
    when they are zero, which a positive multiple of 4 GiB on the 64-bit target
    also is, the read delivers nothing wherever the offset is. *)
Theorem reads_stream_content t d fd counts w i off hd :
  wf w -> w_mutex w = mutex_of t d -> fd_view w fd = Some (i, off) -> image_reader w = Some hd ->
  0 <= off -> Forall (λ c, 0 <= c) counts ->
  ∃ results w', run (read_seq t fd counts) w = Done (results, w') ∧ touches (eq fd) none t w w' ∧
    let bytes := results ≫= snd in
    bytes = take (length bytes) (drop (Z.to_nat off) (content i)) ∧
    fd_view w' fd = Some (i, off + Z.of_nat (length bytes)) ∧
    ∀ c, 0 <= c -> ∃ r last w2, run (sqfs_read t fd c) w' = Done ((r, last), w2) ∧
      (wrap_u 32 c ≠ 0 -> r = 0 -> bytes = drop (Z.to_nat off) (content i)) ∧
      (wrap_u 32 c = 0 -> last = [] ∧ r <= 0).
Proof.
  intros Hwf Hmu Hv Hrd Hoff Hcs.
  destruct (reads_ok t d fd counts w i off hd) as (rs & w1 & Hrun & Ht & Hb & Hv1); [done..|].
  exists rs, w1. split; [done|]. split; [done|]. split; [done|]. split; [done|]. intros c Hc.
  pose proof Ht as [Hwf1 [Hm1 _ _] _ _ Him]. pose proof (wrap_u_range 32 c ltac:(lia)) as Hcr.
  destruct (read_content t d w1 fd c i (off + Z.of_nat (length (rs ≫= snd))) hd)
    as (r & b & w2 & Hrun2 & _ & _ & _ & Hr & Heof);
    [done|congruence|done|by rewrite (proj2 (is_reader _ _ Him))|lia|lia|].
  exists r, b, w2. split; [done|]. split.
  - intros Hz ->. rewrite Hb. apply take_ge. rewrite length_drop. specialize (Heof eq_refl ltac:(lia)). lia.
  - intros Hz. rewrite Hz in Hr. destruct Hr as [[-> ->]|[-> Hr]]; [done|].
    split; [apply length_zero_iff_nil; lia|lia].
Qed.

End props.

(** ** Witnesses *)

Section witnesses.
#[local] Existing Instances demo64 demo_hash demo_hash_spec demo_ext demo_kernel demo_fuel demo_write
  demo_content.

Lemma sqfs_read_correct_witness :
  read_post 1 3 a_inode 3%nat 6 4 (read_next 6) demo_world (sqfs_read 1 3 4).
Proof.
  apply (sqfs_read_correct 1 0 demo_world 3 4 a_inode 6 3%nat); [apply demo_wf|done|by vm_compute..].
Defined.

Lemma sqfs_pread_correct_witness :
  read_post 1 3 a_inode 3%nat 2 4 (λ _, 6) demo_world (sqfs_pread64 1 3 4 2) ∧
  run (sqfs_pread 1 3 4 (-1)) demo_world = Done ((-1, []), set_errnos {[1 := EINVAL]} demo_world).
Proof.
  split.
  - apply (sqfs_pread_correct 1 0 demo_world 3 4 2 a_inode 6 3%nat);
      [apply demo_wf|done|by vm_compute..|by split].
  - apply (sqfs_pread_correct 1 0 demo_world 3 4 (-1) a_inode 6 3%nat);
      [apply demo_wf|done|by vm_compute..|by split].
Defined.

(** The count in the middle is 4 GiB: it delivers nothing. *)
Lemma reads_stream_content_witness :
  ∃ results w', run (read_seq 1 3 [2; 2 ^ 32; 9]) demo_world = Done (results, w') ∧
    results ≫= snd = lit "world" ∧ fd_view w' 3 = Some (a_inode, 11).
Proof.
  destruct (reads_stream_content 1 0 3 [2; 2 ^ 32; 9] demo_world a_inode 6 3%nat)
    as (rs & w' & Hrun & _ & Hb & Hv & _);
    [apply demo_wf|done|by vm_compute..|done|by repeat constructor|].
  exists rs, w'. split; [exact Hrun|].
  assert (match run (read_seq 1 3 [2; 2 ^ 32; 9]) demo_world with
          | Done (rs, _) => rs ≫= snd = lit "world" | _ => False end) as H by (vm_compute; reflexivity).
  rewrite Hrun in H. split; [exact H|]. rewrite Hv, H. reflexivity.
Defined.

End witnesses.
