(* ===== verification/BackingProps.v ===== *)
(** * Properties of the backing descriptors and directories *)

From S2P Require Import Prelude CString Posix Path Prog Foreign State Logging Kernel Backing.
From S2P Require Import StateFacts Seek Invariant Demo.

Section props.
Context `{HP : Platform} `{HU : UtHash} `{HE : Ext}.

(** ** Descriptors *)

Section descriptors.
Context `{HK : !KernelSpec} (t : Z).

(** A new descriptor, or a negative number and nothing opened. *)
Definition new_fd (x x' : ext) (r : Z) : Prop :=
  open_dirs x' = open_dirs x ∧
  if r <? 0 then open_fds x' = open_fds x else r ∉ open_fds x ∧ open_fds x' = {[r]} ∪ open_fds x.

Lemma new_fd_grows x x' r : new_fd x x' r -> grows x x'.
Proof. intros [Hd Hf]. unfold grows. case_match; [|destruct Hf]; set_solver. Qed.

Lemma new_fd_l x y z r : same_open x y -> new_fd y z r -> new_fd x z r.
Proof. intros [Hf Hd]. unfold new_fd. by rewrite Hf, Hd. Qed.

Lemma new_fd_r x y z r : new_fd x y r -> same_open y z -> new_fd x z r.
Proof. intros Hn [Hf Hd]. unfold new_fd in *. by rewrite Hf, Hd. Qed.

Lemma opens_new_fd (c : foreign ext Z) e x r e' x' :
  opens_fd open_fds open_dirs c -> c e x = (r, e', x') -> new_fd x x' r.
Proof. intros Hc E. specialize (Hc e x). by rewrite E in Hc. Qed.

Lemma new_fd_none x x' r : same_open x x' -> r < 0 -> new_fd x x' r.
Proof. intros [Hf Hd] Hr. split; [done|]. by rewrite (proj2 (Z.ltb_lt r 0)). Qed.

Lemma new_fd_neg x x' r : new_fd x x' r -> r < 0 -> same_open x x'.
Proof. intros [Hd Hf] Hr. rewrite (proj2 (Z.ltb_lt r 0)) in Hf by done. done. Qed.

Lemma wp_unlinked_tmp_loop flags : ∀ k x er mu mg h n lc dc fc lf (Q : Z -> world -> Prop),
  (∀ r x' er' fc', new_fd x x' r -> errno_frame t er er' -> (r < 0 -> r = -1) ->
     Q r (World x' er' mu mg h n lc dc fc' lf)) ->
  wp (unlinked_tmp_loop t k flags) (World x er mu mg h n lc dc fc lf) Q.
Proof.
  induction k as [|k IH]; intros x er mu mg h n lc dc fc lf Q HQ; cbn [unlinked_tmp_loop].
  { do 2 wp_step. apply HQ; [by apply new_fd_none|by apply errno_frame_insert|done]. }
  apply wp_bind. eapply wp_act; [reflexivity|].
  wp_step. intros pid e1 x1 H1. apply (keeps_same_open _ _ _ _ _ _ keeps_getpid) in H1.
  wp_step. intros fd e2 x2 H2. apply (opens_new_fd _ _ _ _ _ _ (opens_openat _ _ _)) in H2.
  apply (new_fd_l _ _ _ _ H1) in H2. destruct (Z.leb_spec 0 fd).
  - wp_step. intros r3 e3 x3 H3. apply (keeps_same_open _ _ _ _ _ _ (keeps_unlinkat _)) in H3.
    wp_step. apply HQ; [by eapply new_fd_r|by do 3 apply errno_frame_insert|lia].
  - assert (same_open x x2).
    { destruct H2 as [Hd Hf]. rewrite (proj2 (Z.ltb_lt fd 0)) in Hf by lia. done. }
    wp_step. case_match.
    + wp_step. apply HQ; [by apply new_fd_none|by do 2 apply errno_frame_insert|done].
    + apply IH. intros r x' er' fc' Hx Her Hr. apply HQ; [by eapply new_fd_l| |done].
      by do 2 eapply errno_frame_insert_l.
Qed.

Lemma wp_create_backing_fd flags x er mu mg h n lc dc fc lf (Q : Z -> world -> Prop) :
  (∀ r x' er' fc', new_fd x x' r -> errno_frame t er er' -> Q r (World x' er' mu mg h n lc dc fc' lf)) ->
  wp (create_backing_fd t flags) (World x er mu mg h n lc dc fc lf) Q.
Proof.
  intros HQ. unfold create_backing_fd, create_memfd. wp_step. intros fd e x1 H1.
  apply (opens_new_fd _ _ _ _ _ _ (opens_memfd _ _)) in H1. destruct (Z.leb_spec 0 fd).
  - wp_step. apply HQ; [done|by apply errno_frame_insert].
  - assert (same_open x x1).
    { destruct H1 as [Hd Hf]. rewrite (proj2 (Z.ltb_lt fd 0)) in Hf by lia. done. }
    wp_step. case_match.
    + wp_step. apply HQ; [by apply new_fd_none|by apply errno_frame_insert].
    + apply wp_unlinked_tmp_loop. intros r x' er' fc' Hx Her _. apply HQ; [by eapply new_fd_l|].
      by eapply errno_frame_insert_l.
Qed.

(** ** Directories *)

(** A new stream, or null and nothing opened. *)
Definition new_dir (x x' : ext) (d : Z) : Prop :=
  open_fds x' = open_fds x ∧
  if d =? 0 then open_dirs x' = open_dirs x else d ∉ open_dirs x ∧ open_dirs x' = {[d]} ∪ open_dirs x.

Lemma new_dir_grows x x' r : new_dir x x' r -> grows x x'.
Proof. intros [Hd Hf]. unfold grows. case_match; [|destruct Hf]; set_solver. Qed.

Lemma new_dir_l x y z r : same_open x y -> new_dir y z r -> new_dir x z r.
Proof. intros [Hf Hd]. unfold new_dir. by rewrite Hf, Hd. Qed.

Lemma new_dir_r x y z r : new_dir x y r -> same_open y z -> new_dir x z r.
Proof. intros Hn [Hf Hd]. unfold new_dir in *. by rewrite Hf, Hd. Qed.

Lemma opendir_new_dir p name e x d e' x' :
  call_opendir p name e x = (d, e', x') -> new_dir x x' d.
Proof. intros E. pose proof (opens_dir p name e x) as H. by rewrite E in H. Qed.

(** Something about the outside that the calls of [create_backing_dir] keep. *)
Definition backing_keeps (J : ext -> Prop) : Prop :=
  (∀ e x, J x -> J (libc_getpid e x).2) ∧ (∀ path m e x, J x -> J (libc_mkdir path m e x).2) ∧
  (∀ path e x, J x -> J (libc_rmdir path e x).2) ∧
  (∀ a path e x, J x -> J (call_opendir a path e x).2).

Lemma kept_by {B} (J : ext -> Prop) (c : foreign ext B) e x b e' x' :
  (∀ e x, J x -> J (c e x).2) -> c e x = (b, e', x') -> J x -> J x'.
Proof. intros Hc E Hx. specialize (Hc e x Hx). by rewrite E in Hc. Qed.

Lemma wp_backing_dir_loop J : backing_keeps J ->
  ∀ k x er mu mg h n lc dc fc lf (Q : Z -> world -> Prop),
  lf_opendir lc ≠ 0 -> J x ->
  (∀ r x' er' dc', new_dir x x' r -> errno_frame t er er' -> J x' ->
     Q r (World x' er' mu mg h n lc dc' fc lf)) ->
  wp (backing_dir_loop t k) (World x er mu mg h n lc dc fc lf) Q.
Proof.
  intros (Jpid & Jmk & Jrm & Jop).
  induction k as [|k IH]; intros x er mu mg h n lc dc fc lf Q Hlc HJ HQ; cbn [backing_dir_loop].
  { do 2 wp_step. apply HQ; [done|by apply errno_frame_insert|done]. }
  apply wp_bind. eapply wp_act; [reflexivity|].
  wp_step. intros pid e1 x1 H1. pose proof (kept_by J _ _ _ _ _ _ Jpid H1 HJ) as HJ1.
  apply (keeps_same_open _ _ _ _ _ _ keeps_getpid) in H1.
  wp_step. intros r e2 x2 H2. pose proof (kept_by J _ _ _ _ _ _ (Jmk _ _) H2 HJ1) as HJ2.
  apply (keeps_same_open _ _ _ _ _ _ (keeps_mkdir _ _)) in H2.
  apply (same_open_trans _ _ _ H1) in H2. destruct (Z.eqb_spec r 0); cbn [negb].
  - apply wp_bind, wp_libc_call; [done|]. intros d e3 x3 H3.
    pose proof (kept_by J _ _ _ _ _ _ (Jop _ _) H3 HJ2) as HJ3. apply opendir_new_dir in H3.
    apply (new_dir_l _ _ _ _ H2) in H3.
    wp_step. wp_step. intros r4 e4 x4 H4. pose proof (kept_by J _ _ _ _ _ _ (Jrm _) H4 HJ3) as HJ4.
    apply (keeps_same_open _ _ _ _ _ _ (keeps_rmdir _)) in H4.
    assert (Her : errno_frame t er (<[t:=e4]> (<[t:=e3]> (<[t:=e2]> (<[t:=e1]> er)))))
      by by do 4 apply errno_frame_insert.
    destruct (Z.eqb_spec d 0) as [->|].
    + do 2 wp_step. apply HQ; [by eapply new_dir_r|by apply errno_frame_insert|done].
    + wp_step. apply HQ; [by eapply new_dir_r|done|done].
  - wp_step. case_match.
    + apply IH; [done|done|]. intros d x' er' dc' Hx Her HJ'. apply HQ; [by eapply new_dir_l| |done].
      by do 2 eapply errno_frame_insert_l.
    + wp_step. apply HQ; [done|by do 2 apply errno_frame_insert|done].
Qed.

End descriptors.

(** ** Nothing is left in the file system *)

Section names.
Context `{HN : !NameSpec} (t : Z).

Lemma open_flags_excl flags :
  let open_flags := Z.lor (Z.lor O_RDWR O_CREAT) O_EXCL in
  let fl := if flag_set flags O_CLOEXEC then Z.lor open_flags O_CLOEXEC else open_flags in
  flag_set fl O_CREAT = true ∧ flag_set fl O_EXCL = true.
Proof. cbn zeta. by case_match. Qed.

(** The laws of the names, on the equation of a call. *)
Lemma getpid_names e x b e' x' : libc_getpid e x = (b, e', x') -> names x' = names x.
Proof. intros E. pose proof (names_getpid e x) as H. by rewrite E in H. Qed.
Lemma memfd_names s f e x b e' x' : sys_memfd_create s f e x = (b, e', x') -> names x' = names x.
Proof. intros E. pose proof (names_memfd s f e x) as H. by rewrite E in H. Qed.
Lemma opendir_names p s e x b e' x' : call_opendir p s e x = (b, e', x') -> names x' = names x.
Proof. intros E. pose proof (names_opendir p s e x) as H. by rewrite E in H. Qed.
Lemma openat_names path flags m e x r e' x' :
  flag_set flags O_CREAT = true -> flag_set flags O_EXCL = true ->
  sys_openat path flags m e x = (r, e', x') ->
  if 0 <=? r then path ∉ names x ∧ names x' = {[path]} ∪ names x else names x' = names x.
Proof. intros Hc Hx E. pose proof (names_openat path flags m e x Hc Hx) as H. by rewrite E in H. Qed.
Lemma mkdir_names path m e x r e' x' :
  libc_mkdir path m e x = (r, e', x') ->
  if r =? 0 then path ∉ names x ∧ names x' = {[path]} ∪ names x else names x' = names x.
Proof. intros E. pose proof (names_mkdir path m e x) as H. by rewrite E in H. Qed.
Lemma unlinkat_names path e x r e' x' :
  sys_unlinkat path e x = (r, e', x') -> names x' = if r =? 0 then names x ∖ {[path]} else names x.
Proof. intros E. pose proof (names_unlinkat path e x) as H. by rewrite E in H. Qed.
Lemma rmdir_names path e x r e' x' :
  libc_rmdir path e x = (r, e', x') -> names x' = if r =? 0 then names x ∖ {[path]} else names x.
Proof. intros E. pose proof (names_rmdir path e x) as H. by rewrite E in H. Qed.

(** The names after something temporary was made between [x] and [x']: those
    of before, unless the last call was a removal that failed, and the one new
    name is still there. *)
Inductive tidied (remove : cstr -> foreign ext Z) (x x' : ext) : Prop :=
| tidied_clean : names x' = names x -> tidied remove x x'
| tidied_left path e1 x1 r e2 :
    remove path e1 x1 = (r, e2, x') -> r ≠ 0 -> path ∉ names x -> names x' = {[path]} ∪ names x ->
    tidied remove x x'.

Lemma tidied_l remove x y z : names y = names x -> tidied remove y z -> tidied remove x z.
Proof. intros E [H|path e1 x1 r e2 Hc Hr Hp Hn]; [by left; rewrite H|rewrite E in *; by eapply tidied_left]. Qed.

Lemma tidied_remove (remove : cstr -> foreign ext Z) path e1 x x1 r e2 x' :
  (path ∉ names x ∧ names x1 = {[path]} ∪ names x) -> remove path e1 x1 = (r, e2, x') ->
  (names x' = if r =? 0 then names x1 ∖ {[path]} else names x1) -> tidied remove x x'.
Proof.
  intros [Hp Hn] Hc Hx. rewrite Hn in Hx. destruct (Z.eqb_spec r 0).
  - apply tidied_clean. rewrite Hx. apply leibniz_equiv. set_solver.
  - by eapply tidied_left.
Qed.

(** A counter after one of at most [k] attempts. *)
Definition advanced (k : nat) (c c' : Z) : Prop :=
  ∃ j, (j <= k)%nat ∧ c' = wrap_u word_bits (c + Z.of_nat j).

Lemma advanced_refl k c : 0 <= c < 2 ^ word_bits -> advanced k c c.
Proof. intros. exists O. rewrite Z.add_0_r. split; [lia|]. by rewrite wrap_u_id. Qed.

Lemma advanced_one k c : advanced (S k) c (wrap_u word_bits (c + 1)).
Proof. exists 1%nat. split; [lia|done]. Qed.

Lemma advanced_S k c c' : advanced k (wrap_u word_bits (c + 1)) c' -> advanced (S k) c c'.
Proof.
  intros (j & Hj & ->). exists (S j). split; [lia|].
  unfold wrap_u. rewrite Zplus_mod_idemp_l. f_equal. lia.
Qed.

Lemma counter_range c : 0 <= wrap_u word_bits c < 2 ^ word_bits.
Proof. apply wrap_u_range. destruct word_bits_cases; lia. Qed.

Lemma wp_unlinked_tmp_names flags :
  flag_set flags O_CREAT = true -> flag_set flags O_EXCL = true ->
  ∀ k x er mu mg h n lc dc fc lf (Q : Z -> world -> Prop),
  0 <= fc < 2 ^ word_bits ->
  (∀ r x' er' fc', tidied sys_unlinkat x x' -> advanced k fc fc' -> Q r (World x' er' mu mg h n lc dc fc' lf)) ->
  wp (unlinked_tmp_loop t k flags) (World x er mu mg h n lc dc fc lf) Q.
Proof.
  intros Hcreat Hexcl.
  induction k as [|k IH]; intros x er mu mg h n lc dc fc lf Q Hfc HQ; cbn [unlinked_tmp_loop].
  { do 2 wp_step. apply HQ; [by apply tidied_clean|by apply advanced_refl]. }
  apply wp_bind. eapply wp_act; [reflexivity|]. cbn [w_fd_counter].
  wp_step. intros pid e1 x1 H1%getpid_names. wp_step. intros fd e2 x2 H2.
  apply (openat_names _ _ _ _ _ _ _ _ Hcreat Hexcl) in H2. rewrite H1 in H2.
  destruct (Z.leb_spec 0 fd).
  - wp_step. intros r3 e3 x3 H3. wp_step.
    apply HQ; [eapply tidied_remove; [exact H2|exact H3|by eapply unlinkat_names]|apply advanced_one].
  - wp_step. case_match; [wp_step; apply HQ; [by apply tidied_clean|apply advanced_one]|].
    apply IH; [apply counter_range|]. intros r x' er' fc' Hx Ha.
    cbn [w_ext] in *. apply HQ; [by eapply tidied_l|by apply advanced_S].
Qed.

Lemma wp_backing_dir_names : ∀ k x er mu mg h n lc dc fc lf (Q : Z -> world -> Prop),
  lf_opendir lc ≠ 0 -> 0 <= dc < 2 ^ word_bits ->
  (∀ r x' er' dc', tidied libc_rmdir x x' -> advanced k dc dc' -> Q r (World x' er' mu mg h n lc dc' fc lf)) ->
  wp (backing_dir_loop t k) (World x er mu mg h n lc dc fc lf) Q.
Proof.
  induction k as [|k IH]; intros x er mu mg h n lc dc fc lf Q Hlc Hdc HQ; cbn [backing_dir_loop].
  { do 2 wp_step. apply HQ; [by apply tidied_clean|by apply advanced_refl]. }
  apply wp_bind. eapply wp_act; [reflexivity|]. cbn [w_dir_counter].
  wp_step. intros pid e1 x1 H1%getpid_names. wp_step. intros r e2 x2 H2%mkdir_names.
  rewrite H1 in H2. destruct (Z.eqb_spec r 0); cbn [negb].
  - apply wp_bind, wp_libc_call; [done|]. intros d e3 x3 H3%opendir_names.
    wp_step. wp_step. intros r4 e4 x4 H4. rewrite <- H3 in H2.
    assert (tidied libc_rmdir x x4) by (eapply tidied_remove; [exact H2|exact H4|by eapply rmdir_names]).
    case_match; wp_steps; (apply HQ; [done|apply advanced_one]).
  - wp_step. case_match.
    + apply IH; [done|apply counter_range|]. intros d x' er' dc' Hx Ha.
      cbn [w_ext] in *. apply HQ; [by eapply tidied_l|by apply advanced_S].
    + wp_step. apply HQ; [by apply tidied_clean|apply advanced_one].
Qed.

End names.

(** ** Claims *)

Context `{HK : !KernelSpec} `{HN : !NameSpec}.

(** C20: [create_backing_fd] always ends, after at most 128 temporary names; it
    returns a new descriptor or -1 with nothing opened.  No name it made stays
    in the file system, unless its last call, the removal of the one name it
    made, fails: the code ignores that, and the name stays.  A temporary file
    is tried only when the kernel has no [memfd_create]. *)
Theorem create_backing_fd_correct t flags w :
  0 <= w_fd_counter w < 2 ^ word_bits ->
  ∃ r w', run (create_backing_fd t flags) w = Done (r, w') ∧
    new_fd (w_ext w) (w_ext w') r ∧ tidied sys_unlinkat (w_ext w) (w_ext w') ∧
    w' = set_ext (w_ext w') (set_errnos (w_errno w')
           (set_counters (w_dir_counter w) (w_fd_counter w') w)) ∧
    advanced 128 (w_fd_counter w) (w_fd_counter w') ∧
    (let '(m, e, _) := sys_memfd_create (lit "hooksqfs")
         (if flag_set flags O_CLOEXEC then MFD_CLOEXEC else 0) (errno_of t w) (w_ext w) in
     w_fd_counter w' ≠ w_fd_counter w -> m < 0 ∧ (e = ENOSYS ∨ e = EINVAL)).
Proof.
  intros Hfc. destruct w as [x er mu mg h n lc dc fc lf]. cbn in Hfc.
  destruct (open_flags_excl flags) as [Hcreat Hexcl].
  set (w := World x er mu mg h n lc dc fc lf).
  assert (Hnames : wp (create_backing_fd t flags) w (λ r w',
    tidied sys_unlinkat x (w_ext w') ∧
    w' = set_ext (w_ext w') (set_errnos (w_errno w') (set_counters dc (w_fd_counter w') w)) ∧
    advanced 128 fc (w_fd_counter w') ∧
    (let '(m, e, _) := sys_memfd_create (lit "hooksqfs")
         (if flag_set flags O_CLOEXEC then MFD_CLOEXEC else 0) (errno_of t w) x in
     w_fd_counter w' ≠ fc -> m < 0 ∧ (e = ENOSYS ∨ e = EINVAL)))).
  { subst w. unfold create_backing_fd, create_memfd, errno_of. cbn [w_errno].
    wp_step. intros m e x1 Hm. cbn [w_errno w_ext] in Hm. rewrite Hm.
    apply memfd_names in Hm. destruct (Z.leb_spec 0 m).
    { wp_step. split; [by apply tidied_clean|]. repeat split; [by apply advanced_refl|done..]. }
    wp_step. rewrite lookup_insert_eq. cbn [from_option id].
    destruct (Z.eqb_spec e ENOSYS), (Z.eqb_spec e EINVAL); cbn [negb andb];
      [..|wp_step; split; [by apply tidied_clean|]; repeat split; [by apply advanced_refl|done..]];
    (apply wp_unlinked_tmp_names; [done..|]; intros r x' er' fc' Hx Ha; cbn;
     split; [by eapply tidied_l|]; repeat split; [done|lia|auto]). }
  assert (Hopen : wp (create_backing_fd t flags) w (λ r w', new_fd x (w_ext w') r)).
  { apply wp_create_backing_fd. done. }
  destruct (wp_and _ _ _ _ Hopen Hnames) as (r & w' & Hrun & Ho & Hrest). exists r, w'. auto.
Qed.

(** C30: [create_backing_dir] always ends, after at most 128 names; it returns a
    new stream on the directory it made, or null with nothing opened.  No name
    it made stays in the file system, unless its last call, the removal of the
    one directory it made, fails: the code ignores that, and it stays. *)
Theorem create_backing_dir_correct t w :
  lf_opendir (w_libc w) ≠ 0 -> 0 <= w_dir_counter w < 2 ^ word_bits ->
  ∃ d w', run (create_backing_dir t) w = Done (d, w') ∧
    new_dir (w_ext w) (w_ext w') d ∧ tidied libc_rmdir (w_ext w) (w_ext w') ∧
    w' = set_ext (w_ext w') (set_errnos (w_errno w')
           (set_counters (w_dir_counter w') (w_fd_counter w) w)) ∧
    advanced 128 (w_dir_counter w) (w_dir_counter w').
Proof.
  intros Hlc Hdc. destruct w as [x er mu mg h n lc dc fc lf]. cbn in Hlc, Hdc.
  set (w := World x er mu mg h n lc dc fc lf).
  assert (Hnames : wp (create_backing_dir t) w (λ r w', tidied libc_rmdir x (w_ext w') ∧
    w' = set_ext (w_ext w') (set_errnos (w_errno w') (set_counters (w_dir_counter w') fc w)) ∧
    advanced 128 dc (w_dir_counter w'))).
  { apply wp_backing_dir_names; [done..|]. intros r x' er' dc' Hx Ha. done. }
  assert (Hopen : wp (create_backing_dir t) w (λ r w', new_dir x (w_ext w') r)).
  { by apply (wp_backing_dir_loop t (λ _, True)). }
  destruct (wp_and _ _ _ _ Hopen Hnames) as (r & w' & Hrun & Ho & Hrest). exists r, w'. auto.
Qed.

End props.

(** ** Witnesses *)

Section witnesses.
#[local] Existing Instances demo64 demo_hash demo_ext demo_kernel demo_names.

(** Without [memfd_create], and with the first temporary name taken. *)
Definition no_memfd_world : world :=
  set_ext (Kernel {[0; 1; 2; 3]} {[100]} [] 0 {[lit "/tmp/hooksqfs-77-0"]} false ∅ (HookState [] ∅ false)) demo_world.

Lemma create_backing_fd_correct_witness :
  ∃ r w', run (create_backing_fd 1 O_CLOEXEC) no_memfd_world = Done (r, w') ∧
    new_fd (w_ext no_memfd_world) (w_ext w') r ∧
    tidied sys_unlinkat (w_ext no_memfd_world) (w_ext w') ∧
    names (w_ext w') = {[lit "/tmp/hooksqfs-77-0"]} ∧ r = 4 ∧ w_fd_counter w' = 2.
Proof.
  destruct (create_backing_fd_correct 1 O_CLOEXEC no_memfd_world ltac:(by split))
    as (r & w' & Hrun & Hnew & Hnames & _).
  exists r, w'. split; [exact Hrun|]. split; [exact Hnew|]. split; [exact Hnames|].
  assert (match run (create_backing_fd 1 O_CLOEXEC) no_memfd_world with
          | Done (r, w') => names (w_ext w') = {[lit "/tmp/hooksqfs-77-0"]} ∧ r = 4 ∧ w_fd_counter w' = 2 | _ => False end) as H by by vm_compute.
  rewrite Hrun in H. exact H.
Defined.

Lemma create_backing_dir_correct_witness :
  ∃ d w', run (create_backing_dir 1) demo_world = Done (d, w') ∧
    new_dir (w_ext demo_world) (w_ext w') d ∧ d = 101.
Proof.
  destruct (create_backing_dir_correct 1 demo_world ltac:(done) ltac:(by split))
    as (d & w' & Hrun & Hnew & _).
  exists d, w'. split; [exact Hrun|]. split; [exact Hnew|].
  assert (match run (create_backing_dir 1) demo_world with
          | Done (d, w') => d = 101 | _ => False end) as H by by vm_compute.
  rewrite Hrun in H. exact H.
Defined.

End witnesses.
