(* ===== verification/FdProps.v ===== *)
(** * Properties of open and close *)

From S2P Require Import Prelude CString Posix Path Prog Foreign State Logging Kernel Backing.
From S2P Require Import Inode Seek Image FdOps StateFacts Invariant ImageFacts MountFacts.
From S2P Require Import BackingProps FdFacts Demo.

Section props.
Context `{HP : Platform} `{HU : UtHash} `{HS : !UtHashSpec} `{HE : Ext} `{HK : !KernelSpec}
  `{HF : Fuel} `{HW : !WriteSpec}.

Abbreviation heap := (gmap loc obj).

(** The objects of a descriptor of the image: its entry and its inode. *)
Definition fd_cells (w : world) (fd : Z) : gset loc :=
  match hash_find fd (m_fd_map (w_mgr w)) with
  | Some p =>
      {[p]} ∪ match w_heap w !! p with Some (OFDEntry e) => {[fe_inode e]} | _ => ∅ end
  | None => ∅
  end.

(** ** close *)

Lemma wp_close_unmap t fd p ip off i d x er mg h n lc dc fc lf (Q : option Z -> world -> Prop) :
  hash_find fd (m_fd_map mg) = Some p ->
  h !! p = Some (OFDEntry (MkFDMapEntry fd ip off)) -> h !! ip = Some (OInode i) ->
  Q (Some (ino_number i))
    (World x er (mutex_of t d) (set_fd_map (hash_del fd p (m_fd_map mg)) mg)
       (delete p (delete ip h)) n lc dc fc lf) ->
  wp (close_unmap t fd) (World x er (mutex_of t d) mg h n lc dc fc lf) Q.
Proof.
  intros Hfind Hp Hi HQ. unfold close_unmap, sqfs_lock, sqfs_unlock, find_fd, entry_inode_number, sqfs_free.
  do 2 wp_step. rewrite Hfind. apply wp_bind. do 3 wp_step. do 2 wp_step. wp_step. cbn [fe_inode fe_key].
  assert (Hne : ip ≠ p) by congruence.
  apply wp_bind. eapply wp_heap_free; [by rewrite lookup_delete_ne|]. by do 2 wp_step.
Qed.

(** What closing a descriptor of the image leaves, [addr] being the function
    called: the real close ran once on the descriptor, its result and error
    number are returned, the entry is gone and its objects are released. *)
Definition close_post (t fd addr : Z) (func : string) (w : world) (p : prog world Z) : Prop :=
  let '(r, e, x1) := call_close addr fd (errno_of t w) (w_ext w) in
  ∃ w', run p w = Done (r, w') ∧ touches (eq fd) none t w w' ∧ fd_view w' fd = None ∧
        errno_of t w' = e ∧ live w' = live w ∖ fd_cells w fd ∧ log_ext x1 (w_ext w') ∧
        (log_enabled (Some (lit func)) = false -> w_ext w' = x1).

Lemma fd_cells_eq fd p ip off x er mu mg h n lc dc fc lf :
  hash_find fd (m_fd_map mg) = Some p -> h !! p = Some (OFDEntry (MkFDMapEntry fd ip off)) ->
  fd_cells (World x er mu mg h n lc dc fc lf) fd = {[p; ip]}.
Proof. intros Hf Hp. unfold fd_cells. cbn [w_mgr w_heap]. by rewrite Hf, Hp. Qed.

Lemma close_ok t d w fd func addr i off :
  wf w -> w_mutex w = mutex_of t d -> fd_view w fd = Some (i, off) -> addr ≠ 0 ->
  close_post t fd addr func w (sqfs_close_impl t (lit func) fd addr).
Proof.
  intros Hwf Hmu Hv Haddr. open_world Hwf Hmu.
  eapply fd_view_Some in Hv as (p & ip & Hfm & Hfind & Hp & Hoff & Hi & _); [|done..].
  unfold close_post, errno_of. cbn [w_errno w_ext].
  destruct (call_close addr fd (default 0 (er !! t)) x) as [[r e] x1] eqn:Hclose.
  apply run_wp. unfold sqfs_close_impl. rewrite (proj2 (Z.eqb_neq _ _) Haddr).
  apply wp_bind. eapply wp_close_unmap; [done..|]. cbn beta iota.
  apply wp_bind, wp_call_at; [done|]. intros r' e' x' Hcall. rewrite Hclose in Hcall.
  injection Hcall as <- <- <-. wp_step. rewrite lookup_insert_eq. cbn [from_option id].
  wp_step. intros x' er' lf' Hx Her Hd. do 2 wp_step. split; [done|].
  destruct (wf_del_fd _ _ _ _ _ _ _ Hwf fd p ip off Hfm Hp) as [Hwf' Hk].
  assert (Hwf2 : wf_with (delete p (delete ip own)) (delete fd fm) dm x'
     (set_fd_map (hash_del fd p (m_fd_map mg)) mg) (delete p (delete ip h)) n).
  { apply (wf_grows _ _ _ x1); [by apply log_ext_grows|].
    pose proof (closes_fd addr fd (default 0 (er !! t)) x) as [Hf1 Hd1]. rewrite Hclose in Hf1, Hd1.
    cbn [snd] in Hf1, Hd1. apply (wf_ext _ _ _ _ _ _ _ _ Hwf').
    - intros fd' q. rewrite lookup_delete. case_decide; [done|]. set_solver.
    - intros d' q _. by rewrite Hd1. }
  split; [|split; [|split; [|split; [|split]]]]; [|unfold errno_of; cbn..].
  - eapply (touches_intro (not_fd fd)); [exact Hwf|exact Hwf2|exact Hk| | |done| |done].
    + unfold is_image_owner, not_fd. intros o [->|[->| ->]]; done.
    + intros fd' Hne. split; [unfold not_fd; congruence|]. by apply lookup_delete_ne.
    + constructor; [done..|]. apply errno_frame_insert. by eapply errno_frame_insert_l.
  - rewrite (fd_view_map _ _ _ _ _ _ _ Hwf2) by done. unfold fd_view_m. by rewrite lookup_delete_eq.
  - by rewrite lookup_insert_eq.
  - rewrite (fd_cells_eq fd p ip off) by done. unfold live. cbn [w_heap].
    rewrite !dom_delete_L. set_solver.
  - done.
  - intros Hq. by destruct (Hd Hq) as [_ ->].
Qed.

Lemma both_close_ok t d w fd i off :
  wf w -> w_mutex w = mutex_of t d -> fd_view w fd = Some (i, off) ->
  lf_close (w_libc w) ≠ 0 ->
  close_post t fd (lf_close (w_libc w)) "sqfs_close" w (sqfs_close t fd) ∧
  close_post t fd (if lf_close_nocancel (w_libc w) =? 0 then lf_close (w_libc w)
                   else lf_close_nocancel (w_libc w)) "sqfs_close_nocancel" w
    (sqfs_close_nocancel t fd).
Proof.
  intros Hwf Hmu Hv Hlc. split.
  - pose proof (close_ok t d w fd "sqfs_close" (lf_close (w_libc w)) i off Hwf Hmu Hv Hlc) as H.
    unfold close_post in *. case_match. case_match. exact H.
  - pose proof (close_ok t d w fd "sqfs_close_nocancel"
      (if lf_close_nocancel (w_libc w) =? 0 then lf_close (w_libc w)
       else lf_close_nocancel (w_libc w)) i off Hwf Hmu Hv) as H.
    unfold close_post, sqfs_close_nocancel in *. cbn [run prog_bind gets act outcome_bind fst snd] in *.
    destruct (Z.eqb_spec (lf_close_nocancel (w_libc w)) 0) as [E|E]; cbn [negb] in *;
      specialize (H ltac:(done)); repeat case_match; exact H.
Qed.

(** C21: closing a descriptor of the image, through [close] or
    [__close_nocancel], calls the real close exactly once, on the reserved
    descriptor, and returns its result and error number; the entry leaves the
    table, the entry and the inode are released, and nothing else changes. *)
Theorem sqfs_close_correct t d w fd i off :
  wf w -> w_mutex w = mutex_of t d -> fd_view w fd = Some (i, off) ->
  lf_close (w_libc w) ≠ 0 ->
  close_post t fd (lf_close (w_libc w)) "sqfs_close" w (sqfs_close t fd) ∧
  close_post t fd (if lf_close_nocancel (w_libc w) =? 0 then lf_close (w_libc w)
                   else lf_close_nocancel (w_libc w)) "sqfs_close_nocancel" w
    (sqfs_close_nocancel t fd).
Proof. apply both_close_ok. Qed.

(** ** open *)

(** The tables, the heap and the open descriptors are as before. *)
Definition unchanged (t : Z) (w w' : world) : Prop :=
  touches none none t w w' ∧ live w' = live w ∧
  (log_enabled (Some (lit "sqfs_open")) = false -> same_open (w_ext w) (w_ext w')).

(** The outcomes of opening the path [rel] of the image. *)
Inductive open_outcome (t : Z) (rel : cstr) (w : world) : Z -> world -> Prop :=
| open_not_found e w' :
    find_error (image_loaded w) rel e -> errno_of t w' = e -> unchanged t w w' ->
    open_outcome t rel w (-1) w'
| open_no_resource i w' : found rel i -> unchanged t w w' -> open_outcome t rel w (-1) w'
| open_ok fd i w' :
    found rel i -> image_loaded w -> 0 <= fd -> fd_view w fd = None -> fd_view w' fd = Some (i, 0) ->
    touches (eq fd) none t w w' ->
    live w' = live w ∪ fd_cells w' fd -> live w ## fd_cells w' fd ->
    (log_enabled (Some (lit "sqfs_open")) = false ->
     new_fd (w_ext w) (w_ext w') fd ∧ errno_of t w' = 0) ->
    open_outcome t rel w fd w'.

Lemma unchanged_intro t d own fm dm x x' er er' mg h n n' lc dc dc' fc fc' lf lf' :
  wf_with own fm dm x mg h n -> (n <= n')%positive -> grows x x' -> errno_frame t er er' ->
  (log_enabled (Some (lit "sqfs_open")) = false -> same_open x x') ->
  unchanged t (World x er (mutex_of t d) mg h n lc dc fc lf)
    (World x' er' (mutex_of t d) mg h n' lc dc' fc' lf').
Proof.
  intros Hwf Hn Hx Her Hs. split; [|split; [done|exact Hs]]. by eapply touches_same.
Qed.

(** The failure after the inode was found: it is released again. *)
Lemma wp_open_error ip i rel flags t d x er mg h n lc dc fc lf (Q : Z -> world -> Prop) :
  h !! ip = None ->
  (∀ x' er' lf', log_ext x x' -> errno_frame t er er' ->
     (log_enabled (Some (lit "sqfs_open")) = false -> x' = x) ->
     Q (-1) (World x' er' (mutex_of t d) mg h n lc dc fc lf')) ->
  wp (open_error_and_free_inode t ip rel flags)
    (World x er (mutex_of t (S d)) mg (<[ip := OInode i]> h) n lc dc fc lf) Q.
Proof.
  intros Hip HQ. unfold open_error_and_free_inode, sqfs_unlock.
  apply wp_bind. eapply wp_sqfs_free; [apply lookup_insert_eq|]. rewrite delete_insert_id by done.
  do 3 wp_step. intros x' er' lf' Hx Her Hd. wp_step. apply HQ; [done..|]. intros Hq. by destruct (Hd Hq).
Qed.

(** The success: the table refers to the two new objects. *)
Lemma open_outcome_ok t d rel own fm dm x x3 x4 er er4 mg h n n1 ip i r lc dc fc fc2 lf lf4 :
  wf_with own fm dm x mg h n -> found rel i -> mgr_loaded mg = true ->
  h !! ip = None -> (ip < n1)%positive -> (n <= n1)%positive -> 0 <= r ->
  new_fd x x3 r -> log_ext x3 x4 -> errno_frame t er er4 ->
  (log_enabled (Some (lit "sqfs_open")) = false -> er4 !! t = Some 0 ∧ x4 = x3) ->
  open_outcome t rel (World x er (mutex_of t d) mg h n lc dc fc lf) r
    (World x4 er4 (mutex_of t d) (set_fd_map (hash_add r n1 (m_fd_map mg)) mg)
       (<[n1 := OFDEntry (MkFDMapEntry r ip 0)]> (<[ip := OInode i]> h)) (Pos.succ n1)
       lc dc fc2 lf4).
Proof.
  intros Hwf Hfound Hld Hip Hlt Hn1 Hr [Hdirs Hfds] Hx4 Her Hq.
  rewrite (proj2 (Z.ltb_ge r 0)) in Hfds by lia. destruct Hfds as [Hfresh Hfds].
  assert (Hfm : fm !! r = None).
  { destruct (fm !! r) as [q|] eqn:E; [|done].
    destruct (wf_open_fds _ _ _ _ _ _ _ Hwf r q E) as [_ Hin]. done. }
  destruct (wf_own_fresh _ _ _ _ _ _ _ (wf_next _ _ _ _ _ _ _ _ Hwf Hn1)) as [Hn1h _].
  assert (Hipn : ip ≠ n1) by (intros ->; lia).
  destruct (wf_alloc _ _ _ _ _ _ _ ip n1 (OInode i) OwnLeaked Hwf Hip Hlt Hn1) as [Hwf1 Hk1].
  destruct (wf_alloc _ _ _ _ _ _ _ n1 (Pos.succ n1) (OFDEntry (MkFDMapEntry r ip 0)) OwnLeaked Hwf1)
    as [Hwf2 Hk2]; [by rewrite lookup_insert_ne|lia|lia|].
  destruct (log_ext_grows _ _ Hx4) as [Hgf Hgd].
  assert (Hx34 : grows x x4) by (unfold grows; set_solver).
  apply (wf_grows _ _ _ _ _ _ _ _ Hx34) in Hwf2.
  destruct (wf_add_fd _ _ _ _ _ _ _ Hwf2 r n1 ip i) as (Hwf3 & Hk3 & Hv3);
    rewrite ?lookup_insert_eq, ?(lookup_insert_ne _ n1 ip), ?lookup_insert_eq; try done; [set_solver|].
  assert (Hkept : cells_kept (λ o, o ≠ OwnLeaked) own
    (<[n1:=OwnFd r]> (<[ip:=OwnFd r]> (<[n1:=OwnLeaked]> (<[ip:=OwnLeaked]> own)))) h
    (<[n1:=OFDEntry (MkFDMapEntry r ip 0)]> (<[ip:=OInode i]> h))).
  { intros l o Hl Ho. destruct (Hk1 (λ o, o ≠ OwnLeaked) _ _ Hl Ho) as [Hl1 E1].
    destruct (Hk2 (λ o, o ≠ OwnLeaked) _ _ Hl1 Ho) as [Hl2 E2]. destruct (Hk3 _ _ Hl2 Ho) as [Hl3 _].
    split; [exact Hl3|congruence]. }
  set (w' := World x4 _ _ _ _ _ _ _ _ _).
  assert (Hcells : fd_cells w' r = {[n1; ip]}).
  { eapply fd_cells_eq; [|apply lookup_insert_eq].
    rewrite (hash_find_spec _ _ _ (wf_fm _ _ _ _ _ _ _ Hwf3)). apply lookup_insert_eq. }
  apply (open_ok _ _ _ r i); [done|by apply mgr_loaded_spec|done|..].
  - rewrite (fd_view_map _ _ _ _ _ _ _ Hwf) by done. unfold fd_view_m. by rewrite Hfm.
  - rewrite (fd_view_map _ _ _ _ _ _ _ Hwf3) by done. exact Hv3.
  - eapply (touches_intro (λ o, o ≠ OwnLeaked)); [exact Hwf|exact Hwf3|exact Hkept| | |done| |done].
    + unfold is_image_owner. intros o [->|[->| ->]]; done.
    + intros fd' Hne. split; [done|]. by apply lookup_insert_ne.
    + by constructor.
  - rewrite Hcells. unfold live, w'. cbn [w_heap]. rewrite !dom_insert_L. set_solver.
  - rewrite Hcells. unfold live. cbn [w_heap].
    apply not_elem_of_dom in Hip, Hn1h. set_solver.
  - intros Hquiet. destruct (Hq Hquiet) as [E ->]. split.
    + split; [done|]. by rewrite (proj2 (Z.ltb_ge r 0)) by lia.
    + unfold errno_of, w'. cbn. by rewrite E.
Qed.

(** The path of the image names nothing. *)
Lemma open_missing_ok t d rel own fm dm e x x1 x2 er er1 er2 mg h n n' lc dc fc lf lf2 :
  wf_with own fm dm x mg h n -> find_error (mgr_loaded mg = true) rel e -> same_open x x1 ->
  errno_frame t er er1 -> (n <= n')%positive -> log_ext x1 x2 -> errno_frame t er1 er2 ->
  (log_enabled (Some (lit "sqfs_open")) = false -> x2 = x1) ->
  open_outcome t rel (World x er (mutex_of t d) mg h n lc dc fc lf) (-1)
    (World x2 (<[t := e]> er2) (mutex_of t d) mg h n' lc dc fc lf2).
Proof.
  intros Hwf Hfe Hx1 Her1 Hn Hx2 Her2 Hq. apply (open_not_found _ _ _ e).
  - destruct Hfe as [Hnl|?|?]; [apply find_unloaded|by eapply find_no_reader|by eapply find_lookup].
    by rewrite <- mgr_loaded_spec.
  - unfold errno_of. cbn. by rewrite lookup_insert_eq.
  - apply unchanged_intro with (own := own) (fm := fm) (dm := dm); try done.
    + eapply grows_trans; [by apply same_open_grows|by apply log_ext_grows].
    + apply errno_frame_insert. by eapply errno_frame_trans.
    + by intros ->%Hq.
Qed.

(** No memory for the entry: the descriptor is closed again. *)
Lemma wp_open_no_memory t d rel flags r ip i own fm dm x x3 er er3 mg h n n1 lc dc fc fc2 lf :
  wf_with own fm dm x mg h n -> found rel i -> lf_close lc ≠ 0 -> h !! ip = None -> (n <= n1)%positive ->
  0 <= r -> new_fd x x3 r -> errno_frame t er er3 ->
  wp (open_error_and_free_fd t r ip rel flags)
    (World x3 er3 (mutex_of t (S d)) mg (<[ip := OInode i]> h) n1 lc dc fc2 lf)
    (open_outcome t rel (World x er (mutex_of t d) mg h n lc dc fc lf)).
Proof.
  intros Hwf Hfound Hclose Hip Hn Hr [Hdirs Hfds] Her. unfold open_error_and_free_fd.
  apply wp_bind, wp_libc_call; [done|]. intros r4 e4 x4 Hc.
  pose proof (closes_fd (lf_close lc) r (default 0 (er3 !! t)) x3) as [Hf4 Hd4]. cbn [w_ext w_errno] in Hc.
  rewrite Hc in Hf4, Hd4. cbn [snd] in Hf4, Hd4.
  rewrite (proj2 (Z.ltb_ge r 0)) in Hfds by lia. destruct Hfds as [Hfresh Hfds].
  assert (Hso : same_open x x4).
  { split; [|congruence]. rewrite Hf4, Hfds. apply leibniz_equiv. set_solver. }
  apply wp_open_error; [done|]. intros x5 er5 lf5 Hx5 Her5 Hd5. apply (open_no_resource _ _ _ i); [done|].
  apply unchanged_intro with (own := own) (fm := fm) (dm := dm); try done.
  - eapply grows_trans; [by apply same_open_grows|by apply log_ext_grows].
  - eapply errno_frame_trans; [exact Her|]. by eapply errno_frame_insert_l.
  - intros Hq. by rewrite (Hd5 Hq).
Qed.

Lemma wp_open_in_image t d rel flags w :
  wf w -> w_mutex w = mutex_of t d -> libc_ready (w_libc w) ->
  wp (open_in_image t rel flags) w (open_outcome t rel w).
Proof.
  intros Hwf Hmu Hlc. open_world Hwf Hmu. destruct Hlc as (_ & _ & _ & _ & _ & _ & Hclose & _).
  unfold open_in_image, sqfs_lock, sqfs_unlock. wp_step. apply wp_bind.
  eapply wp_find_inode; [exact Hwf|..].
  2:{ intros n' x1 e er1 Hfe Hx1 Her1 He Hn. do 3 wp_step.
      intros x2 er2 lf2 Hx2 Her2 Hd2. do 2 wp_step. rewrite He. cbn [from_option id].
      eapply open_missing_ok; try done. by intros [_ ?]%Hd2. }
  intros ip n1 i x1 er1 Hfound Hld Hx1 Her1 Hip Hlt Hn1.
  apply wp_bind, wp_create_backing_fd. intros r x2 er2 fc2 Hnew Her2.
  pose proof (new_fd_l _ _ _ _ Hx1 Hnew) as Hnew'.
  assert (Her12 : errno_frame t er er2) by by eapply errno_frame_trans.
  destruct (Z.ltb_spec r 0).
  { apply wp_open_error; [done|]. intros x3 er3 lf3 Hx3 Her3 Hd3.
    apply (open_no_resource _ _ _ i); [done|].
    apply unchanged_intro with (own := own) (fm := fm) (dm := dm); try done.
    - eapply grows_trans; [by eapply new_fd_grows|by apply log_ext_grows].
    - by eapply errno_frame_trans.
    - intros Hq. rewrite (Hd3 Hq). by eapply new_fd_neg. }
  apply wp_bind, wp_malloc; intros e3 x3 Hm;
    apply (keeps_same_open _ _ _ _ _ _ keeps_malloc) in Hm;
    pose proof (new_fd_r _ _ _ _ Hnew' Hm) as Hnew3; cbn beta iota.
  - (* success *)
    do 5 wp_step. intros x4 er4 lf4 Hx4 Her4 Hd4. wp_step.
    eapply open_outcome_ok; try done.
    + eapply errno_frame_trans; [exact Her12|]. by do 2 eapply errno_frame_insert_l.
    + intros Hq. destruct (Hd4 Hq) as [-> ->]. by rewrite lookup_insert_eq.
  - wp_step. eapply wp_open_no_memory; try done.
    eapply errno_frame_trans; [exact Her12|]. by do 2 eapply errno_frame_insert_l.
Qed.

(** ** The whole of open *)

Section open.
Context `{HV : !EnvSpec}.

Definition real_open (w : world) (pathname : option cstr) (flags mode : Z) : foreign ext Z :=
  call_open (lf_open (w_libc w)) pathname flags
    (if open_flags_need_mode flags then Some (wrap_u 32 mode) else None).

Lemma sqfs_open_run t d w pathname flags mode :
  wf w -> w_mutex w = mutex_of t d -> libc_ready (w_libc w) -> path_arg pathname ->
  let c := real_open w pathname flags mode in
  if 0 <=? result t c w
  then run (sqfs_open t pathname flags mode) w = Done (result t c w, after t c w)
  else if (mount_path pathname).1 =? 0
  then ∃ r w', run (sqfs_open t pathname flags mode) w = Done (r, w') ∧
         open_outcome t (mount_path pathname).2 (after t c w) r w'
  else run (sqfs_open t pathname flags mode) w = Done (-1, after t c w).
Proof.
  intros Hwf Hmu Hlc Hpath c.
  assert (Hrun : run (sqfs_open t pathname flags mode) w =
    run (let fd := result t c w in
         if 0 <=? fd then Ret fd
         else do saved_errno <- get_errno t;
              do '(ret, relative) <- convert_local pathname;
              if negb (ret =? 0) then set_errno t saved_errno ;; Ret (-1)
              else open_in_image t relative flags) (after t c w)).
  { unfold sqfs_open, c, real_open. rewrite run_bind.
    destruct (open_flags_need_mode flags); rewrite run_libc_call by apply Hlc; done. }
  rewrite Hrun. clear Hrun. cbv zeta. destruct (Z.leb_spec 0 (result t c w)); [done|].
  rewrite run_bind. cbn [run get_errno gets act outcome_bind fst snd].
  rewrite convert_local_run by done. destruct (mount_path pathname) as [ret rel]. cbn [fst snd prog_bind].
  destruct (Z.eqb_spec ret 0); cbn [negb].
  - apply (wp_open_in_image t d).
    + apply after_wf; [|done]. intros. eapply opens_grows; [apply opens_open|done].
    + by rewrite (fr_mutex _ _ _ (after_frame t c w)).
    + by rewrite (fr_libc _ _ _ (after_frame t c w)).
  - rewrite run_bind. cbn [run set_errno modify act outcome_bind fst snd]. do 2 f_equal.
    unfold after. destruct (c _ _) as [[r e] x]. destruct w as [x1 er1 mu1 mg1 h1 n1 lc1 dc1 fc1 lf1]. unfold set_errnos, set_ext, errno_of.
    cbn [w_ext w_errno w_mutex w_mgr w_heap w_next w_libc w_dir_counter w_fd_counter w_log_fd].
    f_equal. by rewrite lookup_insert_eq, insert_insert_eq.
Qed.

(** C2: [sqfs_open] tries the real file system first and returns its
    descriptor untouched; when that fails, a path outside the mount point
    reports the real error, and a path of the image is looked up: it is not
    found (with the error number of the lookup), or resources run out, and then
    nothing has changed, or a fresh descriptor refers to the inode found, at
    offset 0. *)
Theorem sqfs_open_correct t d w pathname flags mode :
  wf w -> w_mutex w = mutex_of t d -> libc_ready (w_libc w) -> path_arg pathname ->
  let c := real_open w pathname flags mode in
  if 0 <=? result t c w
  then run (sqfs_open t pathname flags mode) w = Done (result t c w, after t c w)
  else if (mount_path pathname).1 =? 0
  then ∃ r w', run (sqfs_open t pathname flags mode) w = Done (r, w') ∧
         open_outcome t (mount_path pathname).2 (after t c w) r w'
  else run (sqfs_open t pathname flags mode) w = Done (-1, after t c w).
Proof. apply sqfs_open_run. Qed.

(** A descriptor in the table after an open that succeeded is one the open
    took from the image. *)
Lemma open_from_image t d w pathname flags mode fd w1 i off :
  wf w -> w_mutex w = mutex_of t d -> libc_ready (w_libc w) -> path_arg pathname ->
  run (sqfs_open t pathname flags mode) w = Done (fd, w1) -> 0 <= fd -> fd_view w1 fd = Some (i, off) ->
  let w0 := after t (real_open w pathname flags mode) w in
  same_open (w_ext w) (w_ext w0) ∧ open_outcome t (mount_path pathname).2 w0 fd w1.
Proof.
  intros Hwf Hmu Hlc Hpath Hrun Hfd Hv w0.
  pose proof (sqfs_open_run t d w pathname flags mode Hwf Hmu Hlc Hpath) as H. cbv zeta in H.
  fold w0 in H. set (c := real_open w pathname flags mode) in *.
  assert (Hc : opens_fd open_fds open_dirs c) by apply opens_open.
  destruct (Z.leb_spec 0 (result t c w)) as [Hr|Hr].
  - exfalso. rewrite Hrun in H. injection H as -> ->. unfold w0 in Hv. rewrite after_view in Hv.
    destruct Hwf as (own & fm & dm & Hwf).
    eapply fd_view_Some in Hv as (p & ip & Hfm & _); [|exact Hwf|done..].
    destruct (wf_open_fds _ _ _ _ _ _ _ Hwf _ _ Hfm) as [_ Hin].
    specialize (Hc (errno_of t w) (w_ext w)). unfold result in *.
    destruct (c (errno_of t w) (w_ext w)) as [[r e] x]. cbn in *.
    rewrite (proj2 (Z.ltb_ge r 0)) in Hc by lia. by destruct Hc as (_ & ? & _).
  - split; [by apply after_same_open|]. destruct ((mount_path pathname).1 =? 0).
    + destruct H as (r & w' & Hrun' & Ho). rewrite Hrun in Hrun'. injection Hrun' as <- <-. done.
    + rewrite Hrun in H. injection H as -> _. lia.
Qed.

(** C13: opening a file of the image and closing it again gives everything
    back: no object and no descriptor is leaked, and every descriptor is as it
    was before. *)
Theorem open_close_roundtrip t d w pathname flags mode fd w1 r w2 i off :
  wf w -> w_mutex w = mutex_of t d -> libc_ready (w_libc w) -> path_arg pathname ->
  log_enabled (Some (lit "sqfs_open")) = false -> log_enabled (Some (lit "sqfs_close")) = false ->
  run (sqfs_open t pathname flags mode) w = Done (fd, w1) -> 0 <= fd -> fd_view w1 fd = Some (i, off) ->
  run (sqfs_close t fd) w1 = Done (r, w2) ->
  live w2 = live w ∧ same_open (w_ext w) (w_ext w2) ∧ ∀ fd', fd_view w2 fd' = fd_view w fd'.
Proof.
  intros Hwf Hmu Hlc Hpath Hq1 Hq2 Hopen Hfd Hv Hcl.
  destruct (open_from_image t d w pathname flags mode fd w1 i off) as [Hso Ho]; try done.
  destruct Ho as [|? w1|fd j w1 Hfound _ _ Hnone Hsome Ht Hlive Hdisj Hquiet]; [lia..|].
  destruct (Hquiet Hq1) as [[Hdirs Hfds] _]. rewrite (proj2 (Z.ltb_ge fd 0)) in Hfds by lia.
  destruct Hfds as [Hfresh Hfds]. rewrite after_live in Hlive, Hdisj. rewrite after_view in Hnone.
  destruct Ht as [Hwf1 [Hm1 Hl1 _] Hsame _ _].
  pose proof (close_ok t d w1 fd "sqfs_close" (lf_close (w_libc w1)) i off Hwf1) as Hclose.
  rewrite Hm1, (fr_mutex _ _ _ (after_frame t _ w)), Hl1, (fr_libc _ _ _ (after_frame t _ w)) in Hclose.
  specialize (Hclose Hmu Hv ltac:(apply Hlc)). unfold close_post in Hclose.
  pose proof (closes_fd (lf_close (w_libc w)) fd (errno_of t w1) (w_ext w1)) as [Hf Hd].
  destruct (call_close _ fd (errno_of t w1) (w_ext w1)) as [[r' e] x1]. cbn [snd] in Hf, Hd.
  destruct Hclose as (w' & Hrun & Ht2 & Hnone' & _ & Hlive' & _ & Hx).
  unfold sqfs_close in Hcl. cbn [run prog_bind gets act outcome_bind fst snd] in Hcl.
  rewrite Hl1, (fr_libc _ _ _ (after_frame t _ w)), Hrun in Hcl. injection Hcl as _ <-.
  destruct Hso as [Hso1 Hso2]. split; [|split].
  - rewrite Hlive', Hlive. set_solver.
  - rewrite (Hx Hq2). split; [|congruence]. rewrite Hf, Hfds, Hso1. rewrite Hso1 in Hfresh. set_solver.
  - intros fd'. destruct (decide (fd = fd')) as [<-|Hne]; [congruence|].
    rewrite (to_fds _ _ _ _ _ Ht2) by done. rewrite Hsame by done. apply after_view.
Qed.

End open.

(** ** Descriptors that are not of the image *)

Lemma wp_close_unmapped t fd func addr d x er mg h n lc dc fc lf (Q : Z -> world -> Prop) :
  hash_find fd (m_fd_map mg) = None -> addr ≠ 0 ->
  wp (call_at t addr (λ p, call_close p fd)) (World x er (mutex_of t d) mg h n lc dc fc lf) Q ->
  wp (sqfs_close_impl t func fd addr) (World x er (mutex_of t d) mg h n lc dc fc lf) Q.
Proof.
  intros Hfind Haddr HQ. unfold sqfs_close_impl. rewrite (proj2 (Z.eqb_neq _ _) Haddr).
  unfold close_unmap, sqfs_lock, sqfs_unlock, find_fd. apply wp_bind. do 2 wp_step. rewrite Hfind.
  do 2 wp_step. exact HQ.
Qed.

(** [p] is the foreign call [c]: its result, its error number, its effect. *)
Definition passes {B} (t : Z) (p : prog world B) (c : foreign ext B) (w : world) : Prop :=
  run p w = Done (result t c w, after t c w).

Lemma unmapped_ok t d w fd count offset whence :
  wf w -> w_mutex w = mutex_of t d -> libc_ready (w_libc w) -> fd_view w fd = None ->
  passes t (sqfs_read t fd count) (call_read (lf_read (w_libc w)) fd count) w ∧
  passes t (sqfs_pread t fd count offset) (call_pread (lf_pread (w_libc w)) fd count offset) w ∧
  passes t (sqfs_pread64 t fd count offset) (call_pread (lf_pread64 (w_libc w)) fd count offset) w ∧
  passes t (sqfs_lseek t fd offset whence) (call_lseek (lf_lseek (w_libc w)) fd offset whence) w ∧
  passes t (sqfs_lseek64 t fd offset whence) (call_lseek (lf_lseek64 (w_libc w)) fd offset whence) w ∧
  passes t (sqfs_close t fd) (call_close (lf_close (w_libc w)) fd) w ∧
  passes t (sqfs_close_nocancel t fd) (call_close (lf_close_nocancel (w_libc w)) fd) w.
Proof.
  intros Hwf Hmu Hlc Hv. unfold passes. open_world Hwf Hmu.
  destruct Hlc as (H1 & H2 & H3 & H4 & H5 & H6 & H7 & H8 & _).
  eapply fd_view_None in Hv as [_ Hfind]; [|done..].
  assert (Hlast : ∀ B sel (c : Z -> foreign ext B), sel lc ≠ 0 ->
    wp (libc_call t sel c) (World x er (mutex_of t d) mg h n lc dc fc lf)
      (λ b w', b = result t (c (sel lc)) (World x er (mutex_of t d) mg h n lc dc fc lf) ∧
               w' = after t (c (sel lc)) (World x er (mutex_of t d) mg h n lc dc fc lf))).
  { intros B sel c Hne. apply wp_libc_call; [done|]. intros b e x' E.
    unfold result, after, errno_of. cbn [w_errno w_ext]. by rewrite E. }
  repeat split; apply run_eq_wp;
    unfold sqfs_read, sqfs_pread, sqfs_pread64, sqfs_lseek, sqfs_lseek64, sqfs_lock, sqfs_unlock, find_fd.
  - do 2 wp_step. rewrite Hfind. wp_step. by apply Hlast.
  - do 2 wp_step. rewrite Hfind. wp_step. by apply Hlast.
  - do 2 wp_step. rewrite Hfind. do 2 wp_step. cbn [w_libc].
    rewrite (proj2 (Z.eqb_neq _ _) H4). by apply (Hlast _ lf_pread64).
  - do 2 wp_step. rewrite Hfind. wp_step. by apply Hlast.
  - do 2 wp_step. rewrite Hfind. do 2 wp_step. cbn [w_libc].
    rewrite (proj2 (Z.eqb_neq _ _) H6). by apply (Hlast _ lf_lseek64).
  - unfold sqfs_close. wp_step. apply wp_close_unmapped; [done|done|].
    exact (Hlast _ lf_close (λ p, call_close p fd) H7).
  - unfold sqfs_close_nocancel. wp_step. cbn [w_libc]. rewrite (proj2 (Z.eqb_neq _ _) H8).
    cbn [negb]. wp_step. apply wp_close_unmapped; [done|done|].
    exact (Hlast _ lf_close_nocancel (λ p, call_close p fd) H8).
Qed.

(** C27: on a descriptor the image does not own every hook is the libc
    function: it makes the same call, in the same state, and returns its
    result and its error number. *)
Theorem unmapped_passthrough t d w fd count offset whence :
  wf w -> w_mutex w = mutex_of t d -> libc_ready (w_libc w) -> fd_view w fd = None ->
  passes t (sqfs_read t fd count) (call_read (lf_read (w_libc w)) fd count) w ∧
  passes t (sqfs_pread t fd count offset) (call_pread (lf_pread (w_libc w)) fd count offset) w ∧
  passes t (sqfs_pread64 t fd count offset) (call_pread (lf_pread64 (w_libc w)) fd count offset) w ∧
  passes t (sqfs_lseek t fd offset whence) (call_lseek (lf_lseek (w_libc w)) fd offset whence) w ∧
  passes t (sqfs_lseek64 t fd offset whence) (call_lseek (lf_lseek64 (w_libc w)) fd offset whence) w ∧
  passes t (sqfs_close t fd) (call_close (lf_close (w_libc w)) fd) w ∧
  passes t (sqfs_close_nocancel t fd) (call_close (lf_close_nocancel (w_libc w)) fd) w.
Proof. apply unmapped_ok. Qed.

(** Where the C library has no 64-bit variant, a descriptor the image does
    not own fails with [ENOSYS]; so does closing when no close is known. *)
Lemma missing_libc_function t d w fd count offset whence :
  wf w -> w_mutex w = mutex_of t d -> fd_view w fd = None ->
  let failed := set_errnos (<[t := ENOSYS]> (w_errno w)) w in
  (lf_pread64 (w_libc w) = 0 -> run (sqfs_pread64 t fd count offset) w = Done ((-1, []), failed)) ∧
  (lf_lseek64 (w_libc w) = 0 -> run (sqfs_lseek64 t fd offset whence) w = Done (-1, failed)) ∧
  (lf_close (w_libc w) = 0 -> run (sqfs_close t fd) w = Done (-1, failed)).
Proof.
  intros Hwf Hmu Hv failed. subst failed. open_world Hwf Hmu.
  eapply fd_view_None in Hv as [_ Hfind]; [|done..].
  split; [|split]; intros H0; apply run_eq_wp;
    unfold sqfs_pread64, sqfs_lseek64, sqfs_close, sqfs_close_impl, sqfs_lock, sqfs_unlock, find_fd.
  - do 2 wp_step. rewrite Hfind. do 2 wp_step. cbn [w_libc]. rewrite H0. cbn [Z.eqb negb]. by do 2 wp_step.
  - do 2 wp_step. rewrite Hfind. do 2 wp_step. cbn [w_libc]. rewrite H0. cbn [Z.eqb negb]. by do 2 wp_step.
  - wp_step. cbn [w_libc]. rewrite H0. cbn [Z.eqb negb]. by do 2 wp_step.
Qed.

End props.

(** ** Witnesses *)

Section witnesses.
#[local] Existing Instances demo64 demo_hash demo_hash_spec demo_ext demo_kernel demo_fuel demo_write
  demo_env_spec.

Lemma sqfs_close_correct_witness :
  close_post 1 3 7 "sqfs_close" demo_world (sqfs_close 1 3) ∧
  close_post 1 3 8 "sqfs_close_nocancel" demo_world (sqfs_close_nocancel 1 3).
Proof.
  apply (sqfs_close_correct 1 0 demo_world 3 a_inode 6); [apply demo_wf|done|by vm_compute|done].
Defined.

(** [/hook/./sub/../tool] is not a real file; it is opened in the image. *)
Lemma sqfs_open_correct_witness :
  ∃ r w', run (sqfs_open 1 (Some (lit "/hook/./sub/../tool")) O_RDONLY 0) demo_world = Done (r, w') ∧
    open_outcome 1 (lit "tool")
      (after 1 (real_open demo_world (Some (lit "/hook/./sub/../tool")) O_RDONLY 0) demo_world) r w' ∧
    r = 4.
Proof.
  pose proof (sqfs_open_correct 1 0 demo_world (Some (lit "/hook/./sub/../tool")) O_RDONLY 0
    demo_wf eq_refl demo_libc_ready ltac:(by apply demo_path_arg)) as H. cbv zeta in H.
  assert (E1 : result 1 (real_open demo_world (Some (lit "/hook/./sub/../tool")) O_RDONLY 0) demo_world
               = -1) by (vm_compute; reflexivity).
  assert (E2 : mount_path (Some (lit "/hook/./sub/../tool")) = (0, lit "tool"))
    by (vm_compute; reflexivity).
  rewrite E1 in H. rewrite E2 in H. cbn [Z.leb Z.compare fst snd Z.eqb] in H. destruct H as (r & w' & Hrun & Ho).
  exists r, w'. split; [exact Hrun|]. split; [exact Ho|].
  assert (match run (sqfs_open 1 (Some (lit "/hook/./sub/../tool")) O_RDONLY 0) demo_world with
          | Done (r, _) => r = 4 | _ => False end) as H by by vm_compute.
  by rewrite Hrun in H.
Defined.

Lemma open_close_roundtrip_witness :
  match run (sqfs_open 1 (Some (lit "/hook/a.txt")) O_RDONLY 0) demo_world with
  | Done (fd, w1) =>
      match run (sqfs_close 1 fd) w1 with
      | Done (_, w2) => live w2 = live demo_world ∧ same_open (w_ext demo_world) (w_ext w2) ∧
                        ∀ fd', fd_view w2 fd' = fd_view demo_world fd'
      | _ => False
      end
  | _ => False
  end.
Proof.
  assert (match run (sqfs_open 1 (Some (lit "/hook/a.txt")) O_RDONLY 0) demo_world with
          | Done (fd, w1) =>
              fd = 4 ∧ fd_view w1 fd = Some (a_inode, 0) ∧
              match run (sqfs_close 1 fd) w1 with Done _ => True | _ => False end
          | _ => False
          end) as H by by vm_compute.
  destruct (run (sqfs_open 1 (Some (lit "/hook/a.txt")) O_RDONLY 0) demo_world)
    as [[fd w1]| | |] eqn:E1; [|exact H..].
  destruct H as (-> & Hv & H). destruct (run (sqfs_close 1 4) w1) as [[r w2]| | |] eqn:E2; [|exact H..].
  exact (open_close_roundtrip 1 0 demo_world (Some (lit "/hook/a.txt")) O_RDONLY 0 4 w1 r w2 a_inode 0
    demo_wf eq_refl demo_libc_ready (demo_path_arg (lit "/hook/a.txt") ltac:(by vm_compute))
    eq_refl eq_refl E1 ltac:(lia) Hv E2).
Defined.

Lemma unmapped_passthrough_witness :
  run (sqfs_close_nocancel 1 2) demo_world
    = Done (0, after 1 (call_close 8 2) demo_world).
Proof.
  apply (unmapped_passthrough 1 0 demo_world 2 0 0 0);
    [apply demo_wf|done|apply demo_libc_ready|by vm_compute].
Defined.

End witnesses.
