(* ===== verification/StatProps.v ===== *)
(** * Properties of stat and access *)

From S2P Require Import Prelude CString Posix Path Prog Foreign State Logging Kernel Backing Inode.
From S2P Require Import Image FdOps StatOps StateFacts Seek Invariant ImageFacts MountFacts Demo.

(** ** Abstract decisions *)

(** The rights the read-only image grants to a mode of [access]: nothing may be
    written, and reading or executing needs the right for somebody. *)
Definition granted (st_mode mode : Z) : Prop :=
  flag_set mode W_OK = false ∧
  (flag_set mode R_OK = true -> flag_set st_mode 0x124 = true) ∧
  (flag_set mode X_OK = true -> flag_set st_mode 0x49 = true).

#[export] Instance granted_dec st_mode mode : Decision (granted st_mode mode).
Proof. unfold granted. solve_decision. Defined.

Section props.
Context `{HP : Platform} `{HU : UtHash} `{HS : !UtHashSpec} `{HE : Ext} `{HK : !KernelSpec}
  `{HF : Fuel} `{HW : !WriteSpec} `{HV : !EnvSpec}.

(** The outcomes of reading the attributes of the path [rel] of the image: no
    object and no descriptor stays behind, whatever happens. *)
Inductive stat_outcome (t : Z) (rel : cstr) (w : world) : option stat -> world -> Prop :=
| stat_found i st w' :
    found rel i -> st = sqfs_fill_stat i (block_size (m_super (w_mgr w))) ->
    touches none none t w w' -> live w' = live w -> same_open (w_ext w) (w_ext w') ->
    stat_outcome t rel w (Some st) w'
| stat_missing e w' :
    find_error (image_loaded w) rel e -> errno_of t w' = e -> touches none none t w w' ->
    live w' = live w -> same_open (w_ext w) (w_ext w') ->
    stat_outcome t rel w None w'.

Lemma find_error_loaded w rel e :
  find_error (mgr_loaded (w_mgr w) = true) rel e -> find_error (image_loaded w) rel e.
Proof.
  intros [Hnl| |]; [apply find_unloaded|by eapply find_no_reader|by eapply find_lookup].
  by rewrite <- mgr_loaded_spec.
Qed.

Lemma wp_stat_impl own fm dm rel t d x er mg h n lc dc fc lf (Q : option stat -> world -> Prop) :
  wf_with own fm dm x mg h n ->
  (∀ i x' er' n', found rel i -> same_open x x' -> errno_frame t er er' -> (n <= n')%positive ->
     Q (Some (sqfs_fill_stat i (block_size (m_super mg))))
       (World x' er' (mutex_of t (S d)) mg h n' lc dc fc lf)) ->
  (∀ e x' er' n', find_error (mgr_loaded mg = true) rel e -> same_open x x' ->
     errno_frame t er er' -> er' !! t = Some e -> (n <= n')%positive ->
     Q None (World x' er' (mutex_of t (S d)) mg h n' lc dc fc lf)) ->
  wp (sqfs_stat_impl t rel) (World x er (mutex_of t (S d)) mg h n lc dc fc lf) Q.
Proof.
  intros Hwf HS' HN. unfold sqfs_stat_impl. apply wp_bind. eapply wp_find_inode; [exact Hwf|..].
  - intros p n' i x' er' Hfound _ Hx Her Hp Hlt Hn.
    apply wp_bind. eapply wp_load; [apply lookup_insert_eq|reflexivity|]. wp_step.
    apply wp_bind. eapply wp_sqfs_free; [apply lookup_insert_eq|]. rewrite delete_insert_id by done.
    wp_step. by apply HS'.
  - intros n' x' e er' Hfe Hx Her He Hn. wp_step. by eapply HN.
Qed.

(** ** stat *)

Lemma wp_outcome {A B} (p : prog world A) w (f : B -> A) (R : B -> world -> Prop) :
  wp p w (λ a w', ∃ o, a = f o ∧ R o w') -> ∃ o w', run p w = Done (f o, w') ∧ R o w'.
Proof. intros (a & w' & Hr & o & -> & HR). by exists o, w'. Qed.

Definition xstat_post (t ver : Z) (pathname : option cstr) (buf : bool) (w : world) : Prop :=
  let c := call_xstat (lf_xstat (w_libc w)) ver pathname buf in
  let w0 := after t c w in
  let st := (result t c w).2 in
  let failed e := run (sqfs_xstat t ver pathname buf) w
                    = Done ((-1, st), set_errnos (<[t := e]> (w_errno w0)) w0) in
  if (result t c w).1 =? 0 then run (sqfs_xstat t ver pathname buf) w = Done ((0, st), w0)
  else if negb ((mount_path pathname).1 =? 0) then failed (mount_path pathname).1
  else if negb buf then failed EFAULT
  else if negb (ver =? 3)
  then ∃ w', run (sqfs_xstat t ver pathname buf) w = Done ((-1, st), w') ∧
             touches none none t w0 w' ∧ errno_of t w' = EFAULT
  else ∃ o w', run (sqfs_xstat t ver pathname buf) w
                 = Done (match o with Some st' => (0, Some st') | None => (-1, st) end, w') ∧
               stat_outcome t (mount_path pathname).2 w0 o w'.

Lemma xstat_ok t d w ver pathname buf :
  wf w -> w_mutex w = mutex_of t d -> lf_xstat (w_libc w) ≠ 0 -> path_arg pathname ->
  xstat_post t ver pathname buf w.
Proof.
  intros Hwf Hmu Hlc Hpath. unfold xstat_post.
  set (c := call_xstat (lf_xstat (w_libc w)) ver pathname buf). set (w0 := after t c w). unfold sqfs_xstat.
  rewrite !(run_libc_bind t) by done. fold c. fold w0.
  assert (Hwf0 : wf w0) by (apply after_wf; [|done]; intros; eapply keeps_grows; [apply keeps_xstat|done]).
  assert (Hmu0 : w_mutex w0 = mutex_of t d)
    by exact (eq_trans (fr_mutex _ _ _ (after_frame t c w)) Hmu).
  destruct (result t c w) as [r st]. cbn [fst snd]. clearbody w0. clear Hwf Hmu.
  destruct (r =? 0); [done|]. rewrite convert_local_run by done.
  destruct (mount_path pathname) as [ret rel]. cbn [fst snd prog_bind].
  destruct (ret =? 0); cbn [negb]; [|done]. destruct buf; cbn [negb]; [|done].
  open_world Hwf0 Hmu0. destruct (ver =? 3); cbn [negb].
  - apply wp_outcome. unfold sqfs_lock, sqfs_unlock. wp_step. apply wp_bind.
    eapply wp_stat_impl; [exact Hwf0|..].
    + intros i x' er' n' Hfound Hx Her Hn. do 3 wp_step.
      match goal with |- wp (Ret ?p) ?w' _ =>
        apply wp_ret; exists (Some (sqfs_fill_stat i (block_size (m_super mg)))); split; [done|] end.
      apply (stat_found _ _ _ i); [done|done| |done|done].
      eapply touches_same; [exact Hwf0|done|by apply same_open_grows|by apply errno_frame_insert].
    + intros e x' er' n' Hfe Hx Her He Hn. do 3 wp_step.
      apply wp_ret. exists None. split; [done|].
      apply (stat_missing _ _ _ e); [by apply (find_error_loaded (World x er (mutex_of t d) mg h n lc dc fc lf))| | |done|done].
      * unfold errno_of. cbn. by rewrite lookup_insert_eq, He.
      * eapply touches_same; [exact Hwf0|done|by apply same_open_grows|by apply errno_frame_insert].
  - apply run_wp. wp_step. intros x' er' lf' Hx Her _. do 2 wp_step. split; [done|]. split.
    + eapply touches_same; [exact Hwf0|done|by apply log_ext_grows|by apply errno_frame_insert].
    + unfold errno_of. cbn. by rewrite lookup_insert_eq.
Qed.

(** C11: [sqfs_xstat] returns the attributes the real file system reports;
    failing that it refuses a path outside the image, a null buffer and an
    unknown structure version, and otherwise reads the attributes of the inode
    the image finds for the path, or reports the error of the lookup.  The
    reason of the real failure does not matter, and its error number is
    replaced, also outside the prefix.  No object and no descriptor stays
    behind. *)
Theorem sqfs_xstat_correct t d w ver pathname buf :
  wf w -> w_mutex w = mutex_of t d -> lf_xstat (w_libc w) ≠ 0 -> path_arg pathname ->
  xstat_post t ver pathname buf w.
Proof. apply xstat_ok. Qed.

(** ** access *)

Definition access_quiet : Prop := log_enabled (Some (lit "sqfs_access")) = false.

Lemma wp_access_denied t pathname mode st_mode x er mu mg h n lc dc fc lf (Q : Z -> world -> Prop) :
  path_arg pathname ->
  (∀ x' er' lf', log_ext x x' -> errno_frame t er er' -> (access_quiet -> er' = er ∧ x' = x) ->
     Q (-1) (World x' er' mu mg h n lc dc fc lf')) ->
  wp (access_denied t pathname mode st_mode) (World x er mu mg h n lc dc fc lf) Q.
Proof.
  intros Hp HQ. unfold access_denied. apply wp_bind, wp_check_local; [done|].
  destruct ((mount_path pathname).1 =? 0).
  - apply wp_bind. do 2 wp_step. intros x' er' lf' Hx Her Hd. wp_step. by apply HQ.
  - do 2 wp_step. apply HQ; [constructor|done..].
Qed.

(** A denial outside the image logs nothing. *)
Lemma access_denied_outside t pathname mode st_mode :
  path_arg pathname -> (mount_path pathname).1 ≠ 0 ->
  access_denied t pathname mode st_mode = Ret (-1).
Proof.
  intros Hp Hne. unfold access_denied. rewrite check_local_run by done. cbn [prog_bind].
  by rewrite (proj2 (Z.eqb_neq _ _) Hne).
Qed.

(** The outcomes of [access] on the path [rel] of the image. *)
Inductive access_outcome (t : Z) (rel : cstr) (mode : Z) (w : world) : Z -> world -> Prop :=
| access_granted i w' :
    found rel i -> granted (sqfs_inode_mode i) mode -> access_outcome t rel mode w 0 w'
| access_refused i w' :
    found rel i -> ¬ granted (sqfs_inode_mode i) mode ->
    (access_quiet -> errno_of t w' = if flag_set mode W_OK then EROFS else EACCES) ->
    access_outcome t rel mode w (-1) w'
| access_missing e w' :
    find_error (image_loaded w) rel e -> (access_quiet -> errno_of t w' = e) ->
    access_outcome t rel mode w (-1) w'.

Definition access_frame (t : Z) (w w' : world) : Prop :=
  touches none none t w w' ∧ live w' = live w ∧ (access_quiet -> same_open (w_ext w) (w_ext w')).

Lemma access_frame_intro t d own fm dm x x1 x' er er' mg h n n' lc dc fc lf lf' :
  wf_with own fm dm x mg h n -> (n <= n')%positive -> same_open x x1 -> log_ext x1 x' ->
  errno_frame t er er' -> (access_quiet -> x' = x1) ->
  access_frame t (World x er (mutex_of t d) mg h n lc dc fc lf)
    (World x' er' (mutex_of t d) mg h n' lc dc fc lf').
Proof.
  intros Hwf Hn Hx1 Hx' Her Hq. split; [|split; [done|]].
  - eapply touches_same; try done.
    eapply grows_trans; [by apply same_open_grows|by apply log_ext_grows].
  - intros ->%Hq. done.
Qed.

(** The part of [sqfs_access] after the image found [i]. *)
Definition access_decide (t : Z) (pathname : option cstr) (mode : Z) (st : stat) : prog world Z :=
  let can_read := negb (Z.land (st_mode st) 0x124 =? 0) in
  let can_exec := negb (Z.land (st_mode st) 0x49 =? 0) in
  if flag_set mode W_OK then
    set_errno t EROFS ;; access_denied t pathname mode (st_mode st)
  else if flag_set mode R_OK && negb can_read then
    set_errno t EACCES ;; access_denied t pathname mode (st_mode st)
  else if flag_set mode X_OK && negb can_exec then
    set_errno t EACCES ;; access_denied t pathname mode (st_mode st)
  else
    log_hook t (Some (lit "sqfs_access"))
      (line (lit "granted: path=" ++ quoted (str_or_null pathname) ++ lit ", mode=" ++ dec mode
             ++ lit ", st_mode=" ++ oct (st_mode st))) ;;
    Ret 0.

Lemma wp_access_decide t pathname mode st x er mu mg h n lc dc fc lf (Q : Z -> world -> Prop) :
  path_arg pathname ->
  (∀ r x' er' lf', log_ext x x' -> errno_frame t er er' -> (access_quiet -> x' = x) ->
     (r = 0 ∧ granted (st_mode st) mode ∨
      r = -1 ∧ ¬ granted (st_mode st) mode ∧
      (access_quiet -> er' !! t = Some (if flag_set mode W_OK then EROFS else EACCES))) ->
     Q r (World x' er' mu mg h n lc dc fc lf')) ->
  wp (access_decide t pathname mode st) (World x er mu mg h n lc dc fc lf) Q.
Proof.
  intros Hp HQ. unfold access_decide.
  assert (Hdeny : ∀ e, ¬ granted (st_mode st) mode ->
    e = (if flag_set mode W_OK then EROFS else EACCES) ->
    wp (set_errno t e ;; access_denied t pathname mode (st_mode st))
       (World x er mu mg h n lc dc fc lf) Q).
  { intros e Hng He. wp_step. apply wp_access_denied; [done|]. intros x' er' lf' Hx Her Hd.
    apply HQ; [done|by eapply errno_frame_insert_l|by intros [_ ?]%Hd|]. right.
    split; [done|]. split; [done|]. intros [-> _]%Hd. rewrite lookup_insert_eq. by f_equal. }
  fold (flag_set (st_mode st) 0x124). fold (flag_set (st_mode st) 0x49). unfold granted in *.
  destruct (flag_set mode W_OK) eqn:EW; [apply Hdeny; [naive_solver|done]|].
  destruct (flag_set mode R_OK) eqn:ER, (flag_set (st_mode st) 0x124) eqn:EMR; cbn [andb negb];
    [|apply Hdeny; [naive_solver|done]|..];
    (destruct (flag_set mode X_OK) eqn:EX, (flag_set (st_mode st) 0x49) eqn:EMX; cbn [andb negb];
     [|apply Hdeny; [naive_solver|done]|..]);
    (wp_step; intros x' er' lf' Hx Her Hd; wp_step; apply HQ; [done|done|by intros [_ ?]%Hd|naive_solver]).
Qed.

Definition access_post (t : Z) (pathname : option cstr) (mode : Z) (w : world) : Prop :=
  let c := call_access (lf_access (w_libc w)) pathname mode in
  let w0 := after t c w in
  if result t c w =? 0
  then ∃ w', run (sqfs_access t pathname mode) w = Done (0, w') ∧ access_frame t w0 w'
  else if negb ((mount_path pathname).1 =? 0)
  then run (sqfs_access t pathname mode) w
         = Done (-1, set_errnos (<[t := (mount_path pathname).1]> (w_errno w0)) w0)
  else ∃ r w', run (sqfs_access t pathname mode) w = Done (r, w') ∧
         access_outcome t (mount_path pathname).2 mode w0 r w' ∧ access_frame t w0 w'.

Lemma access_ok t d w pathname mode :
  wf w -> w_mutex w = mutex_of t d -> lf_access (w_libc w) ≠ 0 -> path_arg pathname ->
  access_post t pathname mode w.
Proof.
  intros Hwf Hmu Hlc Hpath. unfold access_post.
  set (c := call_access (lf_access (w_libc w)) pathname mode). set (w0 := after t c w). unfold sqfs_access. rewrite !(run_libc_bind t) by done.
  fold c. fold w0.
  assert (Hwf0 : wf w0) by (apply after_wf; [|done]; intros; eapply keeps_grows; [apply keeps_access|done]).
  assert (Hmu0 : w_mutex w0 = mutex_of t d)
    by exact (eq_trans (fr_mutex _ _ _ (after_frame t c w)) Hmu).
  clearbody w0. clear Hwf Hmu. open_world Hwf0 Hmu0. rewrite convert_local_run by done.
  pose proof (access_denied_outside t pathname mode 0 Hpath) as Hout.
  destruct (result t c w =? 0).
  { apply run_wp. apply wp_bind, wp_check_local; [done|]. destruct ((mount_path pathname).1 =? 0).
    - wp_step. intros x' er' lf' Hx Her Hd. wp_step. split; [done|].
      eapply access_frame_intro; [exact Hwf0|done|by split|done|done|by intros [_ ?]%Hd].
    - do 2 wp_step. split; [done|].
      eapply access_frame_intro; [exact Hwf0|done|by split|constructor|done..]. }
  destruct (mount_path pathname) as [ret rel]. cbn [fst snd prog_bind] in *.
  destruct (Z.eqb_spec ret 0) as [->|Hne]; cbn [negb]; [|rewrite Hout by done; done].
  change (wp (sqfs_lock t ;;
      do stat_ok <- sqfs_stat_impl t rel;
      do saved_errno <- get_errno t;
      sqfs_unlock t ;;
      match stat_ok with
      | None => set_errno t saved_errno ;; access_denied t pathname mode 0
      | Some st => access_decide t pathname mode st
      end) (World x er (mutex_of t d) mg h n lc dc fc lf)
      (λ r w', access_outcome t rel mode (World x er (mutex_of t d) mg h n lc dc fc lf) r w' ∧
               access_frame t (World x er (mutex_of t d) mg h n lc dc fc lf) w')).
  unfold sqfs_lock, sqfs_unlock. wp_step. apply wp_bind. eapply wp_stat_impl; [exact Hwf0|..].
  - intros i x1 er1 n' Hfound Hx1 Her1 Hn. do 2 wp_step. apply wp_access_decide; [done|].
    intros r x' er' lf' Hx Her Hq Hr. cbn [st_mode sqfs_fill_stat] in Hr. split.
    + destruct Hr as [[-> Hg]|(-> & Hng & He)]; [by apply (access_granted _ _ _ _ i)|].
      apply (access_refused _ _ _ _ i); [done..|]. intros E%He. unfold errno_of. cbn. by rewrite E.
    + eapply access_frame_intro; [exact Hwf0|done|exact Hx1|done|by eapply errno_frame_trans|done].
  - intros e x1 er1 n' Hfe Hx1 Her1 He Hn. do 3 wp_step. apply wp_access_denied; [done|].
    intros x' er' lf' Hx Her Hq. split.
    + apply (access_missing _ _ _ _ e).
      * by apply (find_error_loaded (World x er (mutex_of t d) mg h n lc dc fc lf)).
      * intros [-> _]%Hq. unfold errno_of. cbn. by rewrite lookup_insert_eq, He.
    + eapply access_frame_intro; [exact Hwf0|done|exact Hx1|done| |by intros [_ ?]%Hq].
      eapply errno_frame_trans; [exact Her1|]. by eapply errno_frame_insert_l.
Qed.

(** C12: [sqfs_access] grants what the real file system grants; failing that, a
    path outside the image is refused with [ENOENT] or [EFAULT], a path the
    image does not find with the error of the lookup, and the rest is decided
    on the rights of the inode found: never for writing ([EROFS]), and for
    reading and executing when some user has the right ([EACCES] otherwise).
    As the reason of the real failure does not matter, a real file that exists
    and denies the access is decided by the image, and the real error number is
    replaced, also outside the prefix.  No object and no descriptor stays
    behind. *)
Theorem sqfs_access_correct t d w pathname mode :
  wf w -> w_mutex w = mutex_of t d -> lf_access (w_libc w) ≠ 0 -> path_arg pathname ->
  access_post t pathname mode w.
Proof. apply access_ok. Qed.

End props.

(** ** Witnesses *)

Section witnesses.
#[local] Existing Instances demo64 demo_hash demo_hash_spec demo_ext demo_kernel demo_fuel demo_write
  demo_env_spec.

Lemma sqfs_xstat_correct_witness :
  ∃ o w', run (sqfs_xstat 1 3 (Some (lit "/hook/sub/../a.txt")) true) demo_world
      = Done (match o with Some st' => (0, Some st') | None => (-1, None) end, w') ∧
    stat_outcome 1 (lit "a.txt")
      (after 1 (call_xstat 13 3 (Some (lit "/hook/sub/../a.txt")) true) demo_world) o w' ∧
    option_map st_size o = Some 11.
Proof.
  pose proof (sqfs_xstat_correct 1 0 demo_world 3 (Some (lit "/hook/sub/../a.txt")) true
    demo_wf eq_refl ltac:(done) ltac:(by apply demo_path_arg)) as H. unfold xstat_post in H.
  assert (E2 : mount_path (Some (lit "/hook/sub/../a.txt")) = (0, lit "a.txt"))
    by (vm_compute; reflexivity).
  assert (E1 : result 1 (call_xstat (lf_xstat (w_libc demo_world)) 3
                           (Some (lit "/hook/sub/../a.txt")) true) demo_world = (-1, None))
    by (vm_compute; reflexivity).
  rewrite E1, E2 in H. cbn [fst snd Z.eqb negb] in H. destruct H as (o & w' & Hrun & Ho).
  exists o, w'. split; [exact Hrun|]. split; [exact Ho|].
  assert (match run (sqfs_xstat 1 3 (Some (lit "/hook/sub/../a.txt")) true) demo_world with
          | Done ((0, Some st), _) => st_size st = 11 | _ => False end) as H by by vm_compute.
  rewrite Hrun in H. destruct o as [s|]; [|destruct H]. cbn [option_map]. f_equal. exact H.
Defined.

(** [/hook/tool] may be executed, and not written. *)
Lemma sqfs_access_correct_witness :
  ∃ r w', run (sqfs_access 1 (Some (lit "/hook/tool")) (Z.lor W_OK X_OK)) demo_world = Done (r, w') ∧
    access_outcome 1 (lit "tool") (Z.lor W_OK X_OK)
      (after 1 (call_access 12 (Some (lit "/hook/tool")) (Z.lor W_OK X_OK)) demo_world) r w' ∧ r = -1.
Proof.
  pose proof (sqfs_access_correct 1 0 demo_world (Some (lit "/hook/tool")) (Z.lor W_OK X_OK)
    demo_wf eq_refl ltac:(done) ltac:(by apply demo_path_arg)) as H. unfold access_post in H.
  assert (E2 : mount_path (Some (lit "/hook/tool")) = (0, lit "tool")) by (vm_compute; reflexivity).
  assert (E1 : result 1 (call_access (lf_access (w_libc demo_world)) (Some (lit "/hook/tool"))
                           (Z.lor W_OK X_OK)) demo_world = -1)
    by (vm_compute; reflexivity).
  rewrite E1, E2 in H. cbn [fst snd Z.eqb negb] in H. destruct H as (r & w' & Hrun & Ho & _).
  exists r, w'. split; [exact Hrun|]. split; [exact Ho|].
  assert (match run (sqfs_access 1 (Some (lit "/hook/tool")) (Z.lor W_OK X_OK)) demo_world with
          | Done (r, _) => r = -1 | _ => False end) as H by by vm_compute.
  by rewrite Hrun in H.
Defined.

End witnesses.
