(* ===== verification/LoadProps.v ===== *)
(** * Properties of loading and unloading the image

    Loading goes through intermediate states that hold some of the three
    libsquashfs objects; [loading] is the invariant of these states, relative
    to the state before. *)

From S2P Require Import Prelude CString Posix Path Prog Foreign State Logging Kernel Backing Inode.
From S2P Require Import Image StateFacts Seek Invariant ImageFacts Demo.

(** ** The fields of the manager that hold the image *)

Inductive image_field := FFile | FCompressor | FDataReader.

Section fields.
Context `{HU : UtHash} `{HE : Ext}.

Definition field_get (f : image_field) : sqfs_mgr -> option loc :=
  match f with FFile => m_file | FCompressor => m_compressor | FDataReader => m_data_reader end.
Definition field_set (f : image_field) : option loc -> sqfs_mgr -> sqfs_mgr :=
  match f with FFile => set_file | FCompressor => set_compressor | FDataReader => set_data_reader end.
Definition field_owner (f : image_field) : owner :=
  match f with FFile => OwnFile | FCompressor => OwnCompressor | FDataReader => OwnDataReader end.

(** The objects of the image, and a manager without any. *)
Definition image_cells (mg : sqfs_mgr) : gset loc :=
  let cell f := match field_get f mg with Some p => {[p]} | None => ∅ end in
  cell FFile ∪ cell FCompressor ∪ cell FDataReader.

Definition image_empty (mg : sqfs_mgr) : Prop :=
  m_file mg = None ∧ m_compressor mg = None ∧ m_data_reader mg = None.

(** The image is loaded or not: never in between. *)
Definition image_whole (w : world) : Prop := image_loaded w ∨ image_empty (w_mgr w).

End fields.

Section props.
Context `{HP : Platform} `{HU : UtHash} `{HS : !UtHashSpec} `{HE : Ext} `{HK : !KernelSpec}
  `{HF : Fuel} `{HW : !WriteSpec}.

Lemma elem_image_cells l mg : l ∈ image_cells mg <-> ∃ f, field_get f mg = Some l.
Proof.
  unfold image_cells. rewrite !elem_of_union. split.
  - intros [[Hl|Hl]|Hl]; [exists FFile|exists FCompressor|exists FDataReader]; case_match; set_solver.
  - intros [[] Hf]; rewrite Hf; set_solver.
Qed.

Definition not_image (o : owner) : Prop := ¬ is_image_owner o.

Section stages.
Context (own0 : gmap loc owner) (fm dm : gmap Z loc) (mg0 : sqfs_mgr) (h0 : gmap loc obj).

(** An intermediate state. *)
Record loading (own : gmap loc owner) (x : ext) (mg : sqfs_mgr) (h : gmap loc obj) (n : loc) : Prop := {
  ld_wf : wf_with own fm dm x mg h n;
  ld_kept : cells_kept not_image own0 own h0 h;
  ld_dom : dom h = dom h0 ∪ image_cells mg;
  ld_disj : image_cells mg ## dom h0;
}.

Lemma loading_grows own x x' mg h n : loading own x mg h n -> grows x x' -> loading own x' mg h n.
Proof. intros [] Hx. constructor; try done. by eapply wf_grows. Qed.

Lemma loading_mgr own x mg mg' h n :
  loading own x mg h n -> (∀ f, field_get f mg' = field_get f mg) ->
  m_fd_map mg' = m_fd_map mg -> m_dir_map mg' = m_dir_map mg -> loading own x mg' h n.
Proof.
  intros [Hwf Hk Hd Hj] Hf Hfm Hdm.
  assert (Hc : image_cells mg' = image_cells mg) by (unfold image_cells; by rewrite !Hf).
  constructor; [|done|by rewrite Hc..].
  pose proof (Hf FFile) as E1. pose proof (Hf FCompressor) as E2. pose proof (Hf FDataReader) as E3.
  cbn in E1, E2, E3. destruct Hwf. constructor; by rewrite ?E1, ?E2, ?E3, ?Hfm, ?Hdm.
Qed.

(** A field without an object receives a new one. *)
Lemma loading_set own x mg h n f hd :
  loading own x mg h n -> field_get f mg = None ->
  loading (<[n := field_owner f]> own) x (field_set f (Some n) mg) (<[n := OHandle hd]> h) (Pos.succ n).
Proof.
  intros [Hwf Hk Hd Hj] Hf.
  destruct (wf_own_fresh _ _ _ _ _ _ _ Hwf) as [Hn _].
  destruct (wf_alloc _ _ _ _ _ _ _ n (Pos.succ n) (OHandle hd) (field_owner f) Hwf Hn) as [Hwf' Hk'];
    [lia|lia|].
  assert (Hc : image_cells (field_set f (Some n) mg) = {[n]} ∪ image_cells mg).
  { apply leibniz_equiv. destruct f; unfold image_cells; cbn in *; rewrite Hf; set_solver. }
  assert (Hfresh : n ∉ dom h0) by (apply not_elem_of_dom in Hn; set_solver).
  constructor.
  - destruct Hwf'. constructor; try done; destruct f; try done; cbn;
      intros l [= <-]; (split; [apply lookup_insert_eq|exists hd; apply lookup_insert_eq]).
  - intros l o Hl Ho. destruct (Hk l o Hl Ho) as [Hl' E].
    destruct (Hk' not_image l o Hl' Ho) as [? ?]. split; [done|congruence].
  - rewrite dom_insert_L, Hd, Hc. set_solver.
  - rewrite Hc. set_solver.
Qed.

Lemma wf_field own x mg h n f p :
  wf_with own fm dm x mg h n -> field_get f mg = Some p ->
  own !! p = Some (field_owner f) ∧ ∃ hd, h !! p = Some (OHandle hd).
Proof. intros [] Hf. destruct f; cbn in Hf; auto. Qed.

Lemma field_owner_inj f g : field_owner f = field_owner g -> f = g.
Proof. by destruct f, g. Qed.

(** The object of a field goes away. *)
Lemma loading_clear own x mg h n f p :
  loading own x mg h n -> field_get f mg = Some p ->
  loading (delete p own) x (field_set f None mg) (delete p h) n.
Proof.
  intros [Hwf Hk Hd Hj] Hf.
  destruct (wf_field _ _ _ _ _ _ _ Hwf Hf) as [Hop [hd Hp]].
  assert (Hkd : cells_kept (λ o, o ≠ field_owner f) own (delete p own) h (delete p h)).
  { intros l o Hl Hne. assert (l ≠ p) by congruence. by rewrite !lookup_delete_ne. }
  assert (Hothers : ∀ g q, g ≠ f -> field_get g mg = Some q -> q ≠ p).
  { intros g q Hg Hq ->. destruct (wf_field _ _ _ _ _ _ _ Hwf Hq) as [Ho _].
    rewrite Hop in Ho. injection Ho as Ho. by apply Hg, field_owner_inj. }
  assert (Hc : image_cells (field_set f None mg) = image_cells mg ∖ {[p]}).
  { apply leibniz_equiv. intros l. rewrite elem_of_difference, elem_of_singleton, !elem_image_cells. split.
    - intros [g Hg]. assert (g ≠ f) by (intros ->; by destruct f). split.
      + exists g. by destruct f, g.
      + apply (Hothers g); [done|]. by destruct f, g.
    - intros [[g Hg] Hne]. exists g. assert (g ≠ f) by (intros ->; congruence). by destruct f, g. }
  assert (Hpin : p ∈ image_cells mg) by (apply elem_image_cells; by exists f).
  constructor.
  - destruct Hwf. constructor; try done.
    + intros l. rewrite !lookup_delete. case_decide; [split; by intros [? ?]|apply wf_dom].
    + intros l. rewrite lookup_delete. case_decide; [by intros [? ?]|apply wf_fresh].
    + by destruct f.
    + by destruct f.
    + intros fd q Hq. eapply fd_owned_kept; eauto. by destruct f.
    + intros d q Hq. eapply dir_owned_kept; eauto; by destruct f.
    + destruct f; [done|..]; (eapply image_owned_kept; [exact Hkd|done|done]).
    + destruct f; [|done|]; (eapply image_owned_kept; [exact Hkd|done|done]).
    + destruct f; [..|done]; (eapply image_owned_kept; [exact Hkd|done|done]).
  - intros l o Hl Ho. destruct (Hk l o Hl Ho) as [Hl' E].
    assert (o ≠ field_owner f) by (intros ->; apply Ho; unfold is_image_owner; destruct f; auto).
    destruct (Hkd l o Hl') as [? ?]; [done|]. split; [done|congruence].
  - rewrite dom_delete_L, Hd, Hc. set_solver.
  - rewrite Hc. set_solver.
Qed.

(** ** Execution *)

Section steps.
Context (t : Z) (d : nat) (er0 : gmap Z Z) (lc : LibcFunctions) (dc fc : Z).

(** The state after loading succeeded, or failed without a trace. *)
Definition load_result (b : bool) (w' : world) : Prop :=
  ∃ own' x' er' mg' h' n' lf',
    w' = World x' er' (mutex_of t (S d)) mg' h' n' lc dc fc lf' ∧
    loading own' x' mg' h' n' ∧ errno_frame t er0 er' ∧
    if b then mgr_loaded mg' = true else image_empty mg'.

(** Dropping one field: its destructor runs before it is released. *)
Lemma wp_drop_field f own x er mg h n lf (Q : unit -> world -> Prop) :
  loading own x mg h n -> errno_frame t er0 er ->
  (∀ own' x' er' mg' h', loading own' x' mg' h' n -> errno_frame t er0 er' ->
     field_get f mg' = None -> (∀ g, g ≠ f -> field_get g mg' = field_get g mg) ->
     Q tt (World x' er' (mutex_of t (S d)) mg' h' n lc dc fc lf)) ->
  wp (match field_get f mg with
      | Some p => sqfs_destroy t p ;; mgr_set t (field_set f None)
      | None => Ret tt
      end) (World x er (mutex_of t (S d)) mg h n lc dc fc lf) Q.
Proof.
  intros Hld Her HQ. destruct (field_get f mg) as [p|] eqn:Hf.
  - destruct (wf_field _ _ _ _ _ _ _ (ld_wf _ _ _ _ _ Hld) Hf) as [_ [hd Hp]].
    apply wp_bind. eapply wp_sqfs_destroy; [exact Hp|]. intros e x' Hx. wp_step.
    apply (HQ (delete p own)); [|by apply errno_frame_insert|by destruct f|intros g Hg; by destruct f, g].
    eapply loading_grows; [by apply loading_clear|by apply same_open_grows].
  - wp_step. by apply (HQ own).
Qed.

Lemma wp_unload own x er mg h n lf (Q : unit -> world -> Prop) :
  loading own x mg h n -> errno_frame t er0 er ->
  (∀ w', load_result false w' -> Q tt w') ->
  wp (sqfs_mgr_unload_image t) (World x er (mutex_of t (S d)) mg h n lc dc fc lf) Q.
Proof.
  intros Hld Her HQ. unfold sqfs_mgr_unload_image. wp_step.
  apply wp_bind. eapply (wp_drop_field FDataReader); [done..|]. clear dependent own x er.
  intros own x er mg1 h1 Hld Her E1 Eo1. wp_step.
  apply wp_bind. eapply (wp_drop_field FCompressor); [done..|]. clear dependent own x er.
  intros own x er mg2 h2 Hld Her E2 Eo2.
  assert (m_data_reader mg2 = None) by (by rewrite <- E1; apply (Eo2 FDataReader)).
  wp_step. unfold sqfs_free. destruct (m_file mg2) as [p|] eqn:Hf.
  - destruct (wf_field _ _ _ _ _ FFile _ (ld_wf _ _ _ _ _ Hld) Hf) as [_ [hd Hp]].
    do 2 wp_step. apply HQ. eexists _, _, _, _, _, _, _. split; [done|].
    split; [exact (loading_clear _ _ _ _ _ FFile p Hld Hf)|]. split; [done|]. by split.
  - do 2 wp_step. apply HQ. exists own, x, er, (set_file None mg2), h2, n, lf. split; [done|].
    split; [|split; [done|by split]]. eapply loading_mgr; [exact Hld|by intros []|done..].
Qed.

Lemma wp_load_failed own x er mg h n lf :
  loading own x mg h n -> errno_frame t er0 er ->
  wp (load_failed t) (World x er (mutex_of t (S d)) mg h n lc dc fc lf) load_result.
Proof.
  intros Hld Her. unfold load_failed. apply wp_bind. eapply wp_unload; [done..|].
  intros w' Hw'. by wp_step.
Qed.

(** The object of a field, in an intermediate state. *)
Lemma wp_field_handle f own x er mg h n lf (Q : handle -> world -> Prop) :
  loading own x mg h n -> is_Some (field_get f mg) ->
  (∀ hd, Q hd (World x er (mutex_of t (S d)) mg h n lc dc fc lf)) ->
  wp (mgr_handle t (field_get f)) (World x er (mutex_of t (S d)) mg h n lc dc fc lf) Q.
Proof.
  intros Hld [p Hf] HQ.
  destruct (wf_field _ _ _ _ _ _ _ (ld_wf _ _ _ _ _ Hld) Hf) as [_ [hd Hp]].
  by eapply wp_mgr_handle.
Qed.

(** A failure after a message. *)
Lemma wp_log_failed text own x er mg h n lf :
  loading own x mg h n -> errno_frame t er0 er ->
  wp (log_msg t text ;; load_failed t) (World x er (mutex_of t (S d)) mg h n lc dc fc lf) load_result.
Proof.
  intros Hld Her. wp_step. intros x' er' lf' Hx Her'.
  eapply wp_load_failed; [by eapply loading_grows; [|apply log_ext_grows]|by eapply errno_frame_trans].
Qed.

Lemma wp_load_data_reader own x er mg h n lf :
  loading own x mg h n -> errno_frame t er0 er ->
  is_Some (m_file mg) -> is_Some (m_compressor mg) -> m_data_reader mg = None ->
  wp (load_data_reader t) (World x er (mutex_of t (S d)) mg h n lc dc fc lf) load_result.
Proof.
  intros Hld Her Hf Hc Hr. unfold load_data_reader.
  apply wp_bind. eapply (wp_field_handle FFile); [done..|]. intros hf. wp_step.
  apply wp_bind. eapply (wp_field_handle FCompressor); [done..|]. intros hc.
  wp_step. intros o e x1 Hx1. apply (keeps_same_open _ _ _ _ _ _ (keeps_data_reader_create _ _ _ _)) in Hx1.
  assert (Hld1 : loading own x1 mg h n) by (eapply loading_grows; [done|by apply same_open_grows]).
  assert (Her1 : errno_frame t er0 (<[t:=e]> er)) by by apply errno_frame_insert.
  unfold new_handle. destruct o as [hr|].
  - do 3 wp_step.
    pose proof (loading_set _ _ _ _ _ FDataReader hr Hld1 Hr) as Hld2.
    apply wp_bind. eapply wp_load; [apply lookup_insert_eq|done|]. wp_step.
    wp_step. intros ret e2 x2 Hx2. apply (keeps_same_open _ _ _ _ _ _ (keeps_load_fragment _ _)) in Hx2.
    assert (Hld3 : loading _ x2 _ _ _) by (eapply loading_grows; [exact Hld2|by apply same_open_grows]).
    destruct (ret =? 0); cbn [negb].
    + wp_step. eexists _, _, _, _, _, _, _. split; [done|]. split; [exact Hld3|].
      split; [by apply errno_frame_insert|]. unfold mgr_loaded, set_data_reader. cbn.
      by destruct Hf as [? ->], Hc as [? ->].
    + eapply wp_log_failed; [exact Hld3|by apply errno_frame_insert].
  - do 2 wp_step. eapply wp_log_failed; [|done]. eapply loading_mgr; [exact Hld1|by intros []|done..].
Qed.

Lemma wp_load_compressor own x er mg h n lf :
  loading own x mg h n -> errno_frame t er0 er ->
  is_Some (m_file mg) -> m_compressor mg = None -> m_data_reader mg = None ->
  wp (load_compressor t) (World x er (mutex_of t (S d)) mg h n lc dc fc lf) load_result.
Proof.
  intros Hld Her Hf Hc Hr. unfold load_compressor. do 2 wp_step. intros [ret cfg] e x1 Hx1.
  apply (keeps_same_open _ _ _ _ _ _ (keeps_config_init _ _ _)) in Hx1. wp_step.
  assert (Hld1 : loading own x1 (set_cfg cfg mg) h n).
  { eapply loading_grows; [eapply loading_mgr; [exact Hld|by intros []|done..]|by apply same_open_grows]. }
  assert (Her1 : errno_frame t er0 (<[t:=e]> er)) by by apply errno_frame_insert.
  destruct (ret =? 0); cbn [negb]; [|eapply wp_log_failed; [exact Hld1|done]].
  wp_step. intros [ret2 hc] e2 x2 Hx2.
  apply (keeps_same_open _ _ _ _ _ _ (keeps_compressor_create _)) in Hx2.
  assert (Hld2 : loading own x2 (set_cfg cfg mg) h n)
    by (eapply loading_grows; [done|by apply same_open_grows]).
  assert (Her2 : errno_frame t er0 (<[t:=e2]> (<[t:=e]> er))) by by apply errno_frame_insert.
  cbn beta iota. destruct (ret2 =? 0); cbn [negb]; [|eapply wp_log_failed; [exact Hld2|done]].
  unfold new_handle. do 4 wp_step.
  pose proof (loading_set _ _ _ _ _ FCompressor hc Hld2 Hc) as Hld3.
  apply wp_bind. case_match.
  - apply wp_bind. eapply (wp_field_handle FCompressor); [exact Hld3|by eexists|]. intros hc'.
    apply wp_bind. eapply (wp_field_handle FFile); [exact Hld3|done|]. intros hf.
    wp_step. intros r3 e3 x3 Hx3. apply (keeps_same_open _ _ _ _ _ _ (keeps_read_options _ _)) in Hx3.
    assert (Hld4 : loading _ x3 _ _ _) by (eapply loading_grows; [exact Hld3|by apply same_open_grows]).
    assert (Her3 : errno_frame t er0 (<[t:=e3]> (<[t:=e2]> (<[t:=e]> er)))) by by apply errno_frame_insert.
    destruct (r3 =? 0); cbn [negb]; [|eapply wp_log_failed; [exact Hld4|done]].
    eapply wp_load_data_reader; [exact Hld4|done|done|by eexists|done].
  - wp_step. cbn [Z.eqb negb]. eapply wp_load_data_reader; [exact Hld3|done|done|by eexists|done].
Qed.

Lemma wp_super_info super own x er mg h n lf (Q : unit -> world -> Prop) :
  loading own x mg h n -> errno_frame t er0 er ->
  (∀ x' er' lf', loading own x' mg h n -> errno_frame t er0 er' ->
     Q tt (World x' er' (mutex_of t (S d)) mg h n lc dc fc lf')) ->
  wp (sqfs_util_super_info t super) (World x er (mutex_of t (S d)) mg h n lc dc fc lf) Q.
Proof.
  intros Hld Her HQ. unfold sqfs_util_super_info.
  do 5 (wp_step; let x' := fresh "x" in let er' := fresh "er" in let lf' := fresh "lf" in
        let Hx := fresh "Hx" in let Her' := fresh "Her" in
        intros x' er' lf' Hx%log_ext_grows Her').
  apply HQ; [|by repeat (eapply errno_frame_trans; [eassumption|])].
  eapply loading_grows; [exact Hld|]. by repeat (eapply grows_trans; [eassumption|]).
Qed.

Lemma wp_load_image_locked own x er mg h n lf :
  loading own x mg h n -> errno_frame t er0 er -> image_empty mg ->
  wp (load_image_locked t) (World x er (mutex_of t (S d)) mg h n lc dc fc lf) load_result.
Proof.
  intros Hld Her (Hf & Hc & Hr). unfold load_image_locked. apply wp_bind, wp_loaded.
  unfold mgr_loaded. rewrite Hf. cbn [is_some andb].
  assert (Hempty : ∀ x' er' lf', loading own x' mg h n -> errno_frame t er0 er' ->
    load_result false (World x' er' (mutex_of t (S d)) mg h n lc dc fc lf')).
  { intros x' er' lf' Hl He. by exists own, x', er', mg, h, n, lf'. }
  destruct (getenv HOOKSQFS_FILE) as [path|].
  2:{ wp_step. intros x' er' lf' Hx Her'. wp_step. apply Hempty; [|by eapply errno_frame_trans].
      eapply loading_grows; [done|by apply log_ext_grows]. }
  wp_step. intros o e x1 Hx1. apply (keeps_same_open _ _ _ _ _ _ (keeps_open_file _ _)) in Hx1.
  assert (Hld1 : loading own x1 mg h n) by (eapply loading_grows; [done|by apply same_open_grows]).
  assert (Her1 : errno_frame t er0 (<[t:=e]> er)) by by apply errno_frame_insert.
  unfold new_handle. destruct o as [hf|].
  2:{ do 3 wp_step. intros x' er' lf' Hx Her'. wp_step.
      exists own, x', er', (set_file None mg), h, n, lf'. split; [done|].
      split; [|split; [by eapply errno_frame_trans|by split]].
      eapply loading_mgr; [eapply loading_grows; [exact Hld1|by apply log_ext_grows]| |done..].
      by intros []. }
  do 3 wp_step. pose proof (loading_set _ _ _ _ _ FFile hf Hld1 Hf) as Hld2.
  apply wp_bind. eapply wp_load; [apply lookup_insert_eq|done|]. wp_step. intros [ret super] e2 x2 Hx2.
  apply (keeps_same_open _ _ _ _ _ _ (keeps_super_read _)) in Hx2. wp_step.
  assert (Hld3 : loading (<[n:=OwnFile]> own) x2 (set_super super (set_file (Some n) mg))
                   (<[n:=OHandle hf]> h) (Pos.succ n)).
  { eapply loading_grows; [eapply loading_mgr; [exact Hld2|by intros []|done..]|by apply same_open_grows]. }
  assert (Her2 : errno_frame t er0 (<[t:=e2]> (<[t:=e]> er))) by by apply errno_frame_insert.
  destruct (ret =? 0); cbn [negb]; [|eapply wp_log_failed; [exact Hld3|done]].
  wp_step. intros x3 er3 lf3 Hx3 Her3.
  assert (Hld4 : loading _ x3 _ _ _) by (eapply loading_grows; [exact Hld3|by apply log_ext_grows]).
  apply wp_bind. eapply wp_super_info; [exact Hld4|by eapply errno_frame_trans|].
  intros x4 er4 lf4 Hld5 Her4. eapply wp_load_compressor; [exact Hld5|done|by eexists|done..].
Qed.

End steps.
End stages.

Lemma loading_start own fm dm x mg h n :
  wf_with own fm dm x mg h n -> image_empty mg -> loading own fm dm h own x mg h n.
Proof.
  intros Hwf (Hf & Hc & Hr). unfold image_empty in *. constructor; [done|apply cells_kept_refl|..];
    unfold image_cells; cbn; rewrite Hf, Hc, Hr; set_solver.
Qed.

Lemma views_kept (P : owner -> Prop) own own' fm dm w w' :
  wf_with own fm dm (w_ext w) (w_mgr w) (w_heap w) (w_next w) ->
  wf_with own' fm dm (w_ext w') (w_mgr w') (w_heap w') (w_next w') ->
  cells_kept P own own' (w_heap w) (w_heap w') -> (∀ z, P (OwnFd z) ∧ P (OwnDir z)) ->
  (∀ fd, fd_view w' fd = fd_view w fd) ∧ (∀ d, dir_view w' d = dir_view w d).
Proof.
  intros Hwf Hwf' Hk Hz. split; intros z.
  - rewrite (fd_view_map _ _ _ _ _ _ _ Hwf w z), (fd_view_map _ _ _ _ _ _ _ Hwf' w' z) by done.
    eapply fd_view_m_kept; [exact Hwf|exact Hk|apply Hz|done].
  - rewrite (dir_view_map _ _ _ _ _ _ _ Hwf w z), (dir_view_map _ _ _ _ _ _ _ Hwf' w' z) by done.
    eapply dir_view_m_kept; [exact Hwf|exact Hk|apply Hz|done].
Qed.

Definition load_post (t : Z) (w : world) : Prop :=
  ∃ ok w', run (sqfs_mgr_load_image t) w = Done (ok, w') ∧
    (image_loaded w -> ok = true ∧ w' = w) ∧
    wf w' ∧ frame t w w' ∧ (∀ fd, fd_view w' fd = fd_view w fd) ∧
    (∀ dir, dir_view w' dir = dir_view w dir) ∧
    live w' ∖ image_cells (w_mgr w') = live w ∖ image_cells (w_mgr w) ∧
    (if ok then image_loaded w' else image_empty (w_mgr w') ∧ live w' = live w).

Lemma load_ok t d w :
  wf w -> w_mutex w = mutex_of t d -> image_whole w -> load_post t w.
Proof.
  intros Hwf Hmu [Hl|Hempty]; open_world Hwf Hmu.
  - exists true, (World x er (mutex_of t d) mg h n lc dc fc lf).
    assert (Hwf' : wf (World x er (mutex_of t d) mg h n lc dc fc lf)) by by exists own, fm, dm.
    split; [|split; [done|]; split; [done|]; split; [done|done]].
    apply run_eq_wp. unfold sqfs_mgr_load_image, sqfs_lock, sqfs_unlock. wp_step. apply wp_bind.
    unfold load_image_locked. apply wp_bind, wp_loaded. apply mgr_loaded_spec in Hl. cbn [w_mgr] in Hl.
    rewrite Hl. by do 3 wp_step.
  - assert (Hnl : ¬ image_loaded (World x er (mutex_of t d) mg h n lc dc fc lf)).
    { intros (Hs & _). cbn in Hs. destruct Hempty as (E & _). rewrite E in Hs. by destruct Hs. }
    apply run_ex. unfold sqfs_mgr_load_image, sqfs_lock, sqfs_unlock. wp_step. apply wp_bind.
    eapply wp_mono; [eapply (wp_load_image_locked own fm dm h t d er lc dc fc);
      [by apply loading_start|done|done]|].
    intros ok ? (own' & x' & er' & mg' & h' & n' & lf' & -> & [Hwf' Hk Hd Hj] & Her & Hok).
    do 2 wp_step. split; [done|].
    assert (HP' : ∀ z, not_image (OwnFd z) ∧ not_image (OwnDir z))
      by (intros z; unfold not_image, is_image_owner; split; intros [|[|]]; done).
    destruct (views_kept not_image own own' fm dm (World x er (mutex_of t d) mg h n lc dc fc lf)
      (World x' er' (mutex_of t d) mg' h' n' lc dc fc lf')) as [Hfds Hdirs]; try done.
    split; [by exists own', fm, dm|]. split; [by constructor|]. split; [done|]. split; [done|].
    assert (Hnone : image_cells mg = ∅).
    { destruct Hempty as (E1 & E2 & E3). unfold image_cells. cbn. rewrite E1, E2, E3. set_solver. }
    unfold live. cbn [w_heap w_mgr]. rewrite Hd, Hnone. split; [set_solver|].
    destruct ok; [by apply mgr_loaded_spec|]. split; [done|].
    unfold image_cells. destruct Hok as (E1 & E2 & E3). cbn. rewrite E1, E2, E3. set_solver.
Qed.

(** C16: [sqfs_mgr_load_image] always ends.  When the image is loaded it does
    nothing; otherwise it loads all three libsquashfs objects and returns true,
    or returns false with none of them, every object it had made released
    again.  The tables are untouched. *)
Theorem sqfs_mgr_load_image_correct t d w :
  wf w -> w_mutex w = mutex_of t d -> image_whole w -> load_post t w.
Proof. apply load_ok. Qed.

(** The loaded image, seen as an intermediate state. *)
Lemma loading_loaded own fm dm x mg h n :
  wf_with own fm dm x mg h n ->
  loading (filter (λ kv, kv.1 ∉ image_cells mg) own) fm dm (filter (λ kv, kv.1 ∉ image_cells mg) h)
    own x mg h n.
Proof.
  intros Hwf. constructor; [done| | |].
  - intros l o [Hl Hni]%map_lookup_filter_Some _. split; [done|]. destruct (h !! l) eqn:E; symmetry.
    + by apply map_lookup_filter_Some.
    + apply map_lookup_filter_None. by left.
  - assert (Hsub : image_cells mg ⊆ dom h).
    { intros l Hl. apply elem_of_dom.
      apply elem_image_cells in Hl as [f Hf].
      destruct (wf_field _ _ _ _ _ _ _ _ _ Hwf Hf) as [_ [hd ->]]. by eexists. }
    apply leibniz_equiv. intros l. rewrite elem_of_union, !elem_of_dom.
    destruct (decide (l ∈ image_cells mg)) as [Hin|Hout].
    + split; [by right|]. intros _. by apply elem_of_dom, Hsub.
    + split; [intros [o Ho]; left; exists o; by apply map_lookup_filter_Some|].
      intros [[o Ho]|?]; [|done]. apply map_lookup_filter_Some in Ho as [? _]. by exists o.
  - intros l Hl Hd. apply elem_of_dom in Hd as [o Ho].
    by apply map_lookup_filter_Some in Ho as [_ ?].
Qed.

(** C37: unloading runs the destructors of the data reader and of the
    compressor, in this order and exactly once, releases the three objects and
    forgets them.  No other destructor runs: the file object is released
    without its own, so what that object holds open stays open. *)
Theorem sqfs_mgr_unload_image_correct t d w hr hc :
  wf w -> w_mutex w = mutex_of t (S d) -> image_loaded w ->
  image_reader w = Some hr -> image_compressor w = Some hc ->
  let '(_, e1, x1) := handle_destroy hr (errno_of t w) (w_ext w) in
  let '(_, e2, x2) := handle_destroy hc e1 x1 in
  ∃ w', run (sqfs_mgr_unload_image t) w = Done (tt, w') ∧
    w_ext w' = x2 ∧ errno_of t w' = e2 ∧ wf w' ∧ image_empty (w_mgr w') ∧
    live w' = live w ∖ image_cells (w_mgr w).
Proof.
  intros Hwf Hmu Hl Hr Hc. open_world Hwf Hmu.
  apply mgr_obj_Some in Hr as (pr & Hr & Hpr). apply mgr_obj_Some in Hc as (pc & Hc & Hpc).
  cbn [w_mgr w_heap] in *. destruct Hl as ([pf Hf] & _). cbn [w_mgr] in Hf.
  pose proof (loading_loaded _ _ _ _ _ _ _ Hwf) as Hld.
  pose proof (loading_clear _ _ _ _ _ _ _ _ _ FDataReader pr Hld Hr) as Hld1.
  pose proof (loading_clear _ _ _ _ _ _ _ _ _ FCompressor pc Hld1 Hc) as Hld2.
  pose proof (loading_clear _ _ _ _ _ _ _ _ _ FFile pf Hld2 Hf) as Hld3.
  unfold errno_of. cbn [w_errno].
  destruct (handle_destroy hr (default 0 (er !! t)) x) as [[[] e1] x1] eqn:E1.
  destruct (handle_destroy hc e1 x1) as [[[] e2] x2] eqn:E2.
  apply run_wp. unfold sqfs_mgr_unload_image, sqfs_destroy, sqfs_free. wp_step. rewrite Hr.
  apply wp_bind. do 2 wp_step. intros [] e x' E. rewrite E1 in E. injection E as <- <-.
  do 3 wp_step. cbn [m_compressor set_data_reader]. rewrite Hc.
  destruct (wf_field _ _ _ _ _ _ _ FCompressor pc (ld_wf _ _ _ _ _ _ _ _ _ Hld1) Hc) as [_ [hc' Hpc']].
  assert (hc' = hc) as ->.
  { assert (pc ≠ pr) by (intros ->; by rewrite lookup_delete_eq in Hpc').
    rewrite lookup_delete_ne in Hpc' by done. congruence. }
  apply wp_bind. do 2 wp_step. rewrite lookup_insert_eq. cbn [from_option id].
  intros [] e x' E. rewrite E2 in E. injection E as <- <-.
  do 3 wp_step. cbn [m_file set_compressor set_data_reader]. rewrite Hf.
  destruct (wf_field _ _ _ _ _ _ _ FFile pf (ld_wf _ _ _ _ _ _ _ _ _ Hld2) Hf) as [_ [hf Hpf]].
  do 2 wp_step. split; [done|]. split; [done|]. split; [unfold errno_of; cbn; by rewrite lookup_insert_eq|].
  destruct Hld3 as [Hwf3 _ Hdom _]. split; [|split; [done|]].
  - exists (delete pf (delete pc (delete pr own))), fm, dm.
    apply (wf_grows _ _ _ x x2); [|exact Hwf3].
    eapply grows_trans; [eapply keeps_grows; [apply keeps_destroy|exact E1]|].
    eapply keeps_grows; [apply keeps_destroy|exact E2].
  - unfold live. cbn [w_heap w_mgr]. rewrite !dom_delete_L. unfold image_cells. cbn.
    rewrite Hf, Hc, Hr. set_solver.
Qed.

End props.

(** ** Witnesses *)

Section witnesses.
#[local] Existing Instances demo64 demo_hash demo_hash_spec demo_ext demo_kernel demo_fuel demo_write.

(** The process before the image is loaded. *)
Definition fresh_world : world :=
  World demo_x ∅ None (MkMgr None None None (SqfsSuper 0 0 0 0 0) None ∅ ∅) ∅ 1%positive
    demo_libc 0 0 None.

Lemma fresh_wf : wf fresh_world.
Proof.
  exists ∅, ∅, ∅. constructor; try done.
  - intros l. rewrite !lookup_empty. split; by intros [].
  - intros l. cbn. rewrite lookup_empty. by intros [].
Defined.

Lemma sqfs_mgr_load_image_correct_witness :
  ∃ ok w', run (sqfs_mgr_load_image 1) fresh_world = Done (ok, w') ∧ wf w' ∧
    ok = true ∧ image_loaded w'.
Proof.
  destruct (sqfs_mgr_load_image_correct 1 0 fresh_world fresh_wf eq_refl (or_intror (conj eq_refl
    (conj eq_refl eq_refl)))) as (ok & w' & Hrun & _ & Hwf & _ & _ & _ & _ & Hok).
  exists ok, w'. split; [exact Hrun|]. split; [exact Hwf|].
  assert (match run (sqfs_mgr_load_image 1) fresh_world with
          | Done (ok, _) => ok = true | _ => False end) as H by by vm_compute.
  rewrite Hrun in H. rewrite H in Hok. split; [exact H|exact Hok].
Defined.

Lemma sqfs_mgr_unload_image_correct_witness :
  ∃ w', run (sqfs_mgr_unload_image 1) (set_mutex (Some (1, 1%nat)) demo_world) = Done (tt, w') ∧
    wf w' ∧ image_empty (w_mgr w').
Proof.
  destruct (sqfs_mgr_unload_image_correct 1 0 (set_mutex (Some (1, 1%nat)) demo_world) 3%nat 2%nat
    demo_wf eq_refl) as (w' & Hrun & _ & _ & Hwf & He & _).
  - repeat split; eexists; reflexivity.
  - reflexivity.
  - reflexivity.
  - exists w'. split; [exact Hrun|]. split; [exact Hwf|exact He].
Defined.

End witnesses.
