(* ===== verification/DirFacts.v ===== *)
(** * Directory streams: lemmas

    The invariant under the changes of a stream: its cursor moves, its nodes
    are released, it enters and leaves the table. *)

From S2P Require Import Prelude CString Posix Path Prog Foreign State Logging Kernel Backing Inode.
From S2P Require Import Image DirOps StateFacts Seek Invariant ImageFacts.

Section facts.
Context `{HP : Platform} `{HU : UtHash} `{HS : !UtHashSpec} `{HE : Ext} `{HK : !KernelSpec}
  `{HF : Fuel} `{HW : !WriteSpec}.

Abbreviation heap := (gmap loc obj).

Definition not_dir (d : Z) (o : owner) : Prop := o ≠ OwnDir d.

(** The entry of a stream and its pending entries. *)
Lemma dir_view_Some own fm dm x er mu mg h n lc dc fc lf d real ds :
  wf_with own fm dm x mg h n ->
  dir_view (World x er mu mg h n lc dc fc lf) d = Some (real, ds) ->
  ∃ p e, dm !! d = Some p ∧ hash_find d (m_dir_map mg) = Some p ∧ h !! p = Some (ODirEntry e) ∧
    dm_key e = d ∧ dm_is_real_dir e = real ∧ mapM (node_dirent h) (dm_pending e) = Some ds ∧
    dir_owned own h d p.
Proof.
  intros Hwf. rewrite (dir_view_map _ _ _ _ _ _ _ Hwf) by done. unfold dir_view_m, dir_entry_view.
  destruct (dm !! d) as [p|] eqn:Hp; [|done]. cbn [mbind option_bind].
  pose proof (wf_dirs _ _ _ _ _ _ _ Hwf _ _ Hp) as Ho.
  destruct Ho as (e & hd & He & Hkey & Hrest). rewrite He. cbn [mbind option_bind as_dir_entry].
  destruct (mapM (node_dirent h) (dm_pending e)) as [ds'|] eqn:Hds; [|done].
  intros [= <- <-]. exists p, e. rewrite (hash_find_spec _ _ _ (wf_dm _ _ _ _ _ _ _ Hwf)).
  repeat (split; [done|]). by exists e, hd.
Qed.

Lemma dir_view_None own fm dm x er mu mg h n lc dc fc lf d :
  wf_with own fm dm x mg h n ->
  dir_view (World x er mu mg h n lc dc fc lf) d = None ->
  dm !! d = None ∧ hash_find d (m_dir_map mg) = None.
Proof.
  intros Hwf. rewrite (dir_view_map _ _ _ _ _ _ _ Hwf) by done. unfold dir_view_m, dir_entry_view.
  rewrite (hash_find_spec _ _ _ (wf_dm _ _ _ _ _ _ _ Hwf)).
  destruct (dm !! d) as [p|] eqn:Hp; [|done]. cbn [mbind option_bind].
  destruct (wf_dirs _ _ _ _ _ _ _ Hwf _ _ Hp) as (e & hd & He & _ & _ & _ & _ & Hnodes & _ & Hsuf & _).
  rewrite He. cbn [mbind option_bind as_dir_entry].
  assert (is_Some (mapM (node_dirent h) (dm_pending e))) as [ds ->]; [|done].
  apply mapM_is_Some. destruct (dm_pending_subset e Hsuf) as [pre Hpre]. rewrite Hpre in Hnodes.
  apply Forall_app in Hnodes as [_ Hpend]. eapply Forall_impl; [exact Hpend|].
  intros l (ip & de & i & Hl & _). unfold compose, node_dirent. rewrite Hl. by eexists.
Qed.

Section changes.
Context own fm dm x mg h n (Hwf : wf_with own fm dm x mg h n).

(** The cursor of stream [d] moves. *)
Lemma wf_set_cursor d p e e' :
  dm !! d = Some p -> h !! p = Some (ODirEntry e) ->
  dm_key e' = dm_key e -> dm_dir_reader e' = dm_dir_reader e -> dm_is_real_dir e' = dm_is_real_dir e ->
  dm_entry_list e' = dm_entry_list e -> dm_entry_current e' `suffix_of` dm_entry_list e ->
  (dm_reached_end e' = true -> dm_entry_current e' = []) ->
  let h' := <[p := ODirEntry e']> h in
  wf_with own fm dm x mg h' n ∧ cells_kept (not_dir d) own own h h' ∧
  ∀ ds, mapM (node_dirent h) (dm_pending e') = Some ds ->
    dir_view_m dm h' d = Some (dm_is_real_dir e, ds).
Proof.
  intros Hdm Hp Hkey Hrd Hreal Hlist Hcur Hend h'.
  pose proof (wf_dirs _ _ _ _ _ _ _ Hwf _ _ Hdm) as (e0 & hd & He & Hk0 & Hop & Hr & Hor & Hnodes & Hnd & Hsuf & Hre).
  rewrite Hp in He. injection He as <-.
  assert (Hk : cells_kept (not_dir d) own own h h').
  { intros l o Hl Hnf. split; [done|]. apply lookup_insert_ne. unfold not_dir in Hnf. congruence. }
  assert (Hsame : ∀ l o, h !! l = Some o -> (∀ e, o ≠ ODirEntry e) -> h' !! l = Some o).
  { intros l o Hl Ho. unfold h'. rewrite lookup_insert_ne; [done|]. intros ->. rewrite Hp in Hl.
    injection Hl as <-. by eapply Ho. }
  split; [|split; [done|]].
  - destruct Hwf. constructor; try done.
    + intros l. unfold h'. rewrite lookup_insert. case_decide; [subst|apply wf_dom].
      rewrite Hop. split; eauto.
    + intros l. unfold h'. rewrite lookup_insert. case_decide; [subst|apply wf_fresh].
      intros _. apply wf_fresh. rewrite Hp. eauto.
    + intros fd q Hq. eapply fd_owned_kept; eauto. unfold not_dir. done.
    + intros d' q Hq. destruct (decide (d' = d)) as [->|Hd].
      * assert (q = p) as -> by congruence. exists e', hd. unfold h'. rewrite lookup_insert_eq.
        rewrite Hkey, Hrd, Hlist. repeat (split; [done|]). split; [by apply Hsame|]. split; [done|].
        split; [|done]. eapply Forall_impl; [exact Hnodes|].
        intros l (ip & de & i & Hl & Hol & Hi & Hoi). exists ip, de, i.
        split; [by apply Hsame|]. split; [done|]. split; [by apply Hsame|done].
      * eapply dir_owned_kept; eauto; unfold not_dir; congruence.
    + by eapply image_owned_kept.
    + by eapply image_owned_kept.
    + by eapply image_owned_kept.
  - intros ds Hds. unfold dir_view_m, dir_entry_view, h'. rewrite Hdm. cbn [mbind option_bind].
    rewrite lookup_insert_eq. cbn [mbind option_bind as_dir_entry].
    rewrite (Forall_mapM_ext _ (node_dirent h) (dm_pending e')); [by rewrite Hds, Hreal|].
    assert (Hsub : dm_pending e' `suffix_of` dm_entry_list e).
    { rewrite <- Hlist. apply dm_pending_subset. by rewrite Hlist. }
    destruct Hsub as [pre Hpre]. rewrite Hpre in Hnodes. apply Forall_app in Hnodes as [_ Hpend].
    eapply Forall_impl; [exact Hpend|]. intros l (ip & de & i & Hl & _). unfold node_dirent.
    fold h'. by rewrite (Hsame l _ Hl), Hl.
Qed.

End changes.

Lemma wp_update_entry t p e f d x er mg h n lc dc fc lf (Q : unit -> world -> Prop) :
  h !! p = Some (ODirEntry e) ->
  Q tt (World x er (mutex_of t (S d)) mg (<[p := ODirEntry (f e)]> h) n lc dc fc lf) ->
  wp (update_entry t p f) (World x er (mutex_of t (S d)) mg h n lc dc fc lf) Q.
Proof. intros Hp HQ. unfold update_entry. do 2 wp_step. exact HQ. Qed.

(** Dumping only logs, and only when it is enabled. *)
Lemma wp_dump_if t b s o d x er mg h n lc dc fc lf (Q : unit -> world -> Prop) :
  (∀ x' er' lf', log_ext x x' -> errno_frame t er er' -> (b = false -> er' = er ∧ x' = x ∧ lf' = lf) ->
     Q tt (World x' er' (mutex_of t d) mg h n lc dc fc lf')) ->
  wp (dump_if t b s o) (World x er (mutex_of t d) mg h n lc dc fc lf) Q.
Proof.
  intros HQ. unfold dump_if, dump_dirent. destruct b; [|wp_step; apply HQ; [constructor|done..]].
  destruct o; apply wp_log_msg; intros; by apply HQ.
Qed.

(** ** readdir *)

(** The part of [readdir_image] after the cursor was started. *)
Definition readdir_next (t : Z) (p : loc) (log : bool) : prog world (option dirent) :=
  do e0 <- load t as_dir_entry p;
  match dm_entry_current e0 with
  | [] => sqfs_unlock t ;; Ret None
  | current :: next =>
      do n <- load t as_dir_node current;
      let result := dn_dirent n in
      update_entry t p (set_entry_current next) ;;
      (match next with
       | [] => update_entry t p (set_reached_end true)
       | _ => Ret tt
       end) ;;
      dump_if t log "sqfs_dir:" (Some result) ;;
      sqfs_unlock t ;;
      Ret (Some result)
  end.

Section readdir.
Context (t d : Z) (p : loc) (k : nat) (log : bool).
Context (own : gmap loc owner) (fm dm : gmap Z loc) (x : ext) (er : gmap Z Z) (mg : sqfs_mgr)
  (h : heap) (n : loc) (lc : LibcFunctions) (dc fc : Z) (lf : option Z).

(** The continuation [Q] holds after the entries pending were [ds] and the
    first of them, if any, was returned. *)
Definition readdir_cont (e : DirMapEntry) (ds : list dirent) (Q : option dirent -> world -> Prop) : Prop :=
  ∀ x' er' lf' e', log_ext x x' -> errno_frame t er er' ->
    (log = false -> er' = er ∧ x' = x ∧ lf' = lf) ->
    let h' := <[p := ODirEntry e']> h in
    wf_with own fm dm x mg h' n -> cells_kept (not_dir d) own own h h' ->
    dir_view_m dm h' d = Some (dm_is_real_dir e, tail ds) ->
    Q (head ds) (World x' er' (mutex_of t k) mg h' n lc dc fc lf').

(** Nothing was pending. *)
Lemma readdir_cont_none e Q x' er' lf' :
  wf_with own fm dm x mg h n -> dm !! d = Some p -> h !! p = Some (ODirEntry e) ->
  dm_pending e = [] -> readdir_cont e [] Q ->
  log_ext x x' -> errno_frame t er er' -> (log = false -> er' = er ∧ x' = x ∧ lf' = lf) ->
  Q None (World x' er' (mutex_of t k) mg h n lc dc fc lf').
Proof.
  intros Hwf Hdm Hp Hpend HQ Hx Her Hq.
  specialize (HQ x' er' lf' e Hx Her Hq). rewrite insert_id in HQ by done. apply HQ.
  - done.
  - apply cells_kept_refl.
  - unfold dir_view_m, dir_entry_view. rewrite Hdm. cbn [mbind option_bind]. rewrite Hp.
    cbn [mbind option_bind as_dir_entry]. by rewrite Hpend.
Qed.

Lemma wp_readdir_next e current next ds Q :
  wf_with own fm dm x mg h n -> dm !! d = Some p -> h !! p = Some (ODirEntry e) ->
  dm_reached_end e = false -> (current :: next) `suffix_of` dm_entry_list e ->
  mapM (node_dirent h) (current :: next) = Some ds -> readdir_cont e ds Q ->
  wp (readdir_next t p log)
    (World x er (mutex_of t (S k)) mg
       (<[p := ODirEntry (set_entry_current (current :: next) e)]> h) n lc dc fc lf) Q.
Proof.
  intros Hwf Hdm Hp Er Hcur Hm HQ. unfold readdir_next, sqfs_unlock.
  pose proof (wf_dirs _ _ _ _ _ _ _ Hwf _ _ Hdm) as (e0 & hd & He & _ & _ & _ & _ & Hnodes & _).
  rewrite Hp in He. injection He as <-.
  eapply wp_bind, wp_load; [apply lookup_insert_eq|done|].
  cbn [dm_entry_current set_entry_current].
  assert (Hin : node_owned own h d current).
  { destruct Hcur as [pre Hpre]. rewrite Hpre in Hnodes. apply Forall_app in Hnodes as [_ Hn].
    by apply Forall_cons in Hn as [? _]. }
  destruct Hin as (ip & de & i & Hl & _). cbn [mapM] in Hm.
  assert (node_dirent h current = Some de) as Hd by (unfold node_dirent; by rewrite Hl).
  rewrite Hd in Hm. cbn [mbind option_bind] in Hm.
  destruct (mapM (node_dirent h) next) as [rest|] eqn:Hrest; [|done].
  cbn in Hm. injection Hm as <-. unfold readdir_cont in HQ. cbn [head tail] in HQ.
  assert (current ≠ p) by congruence.
  apply wp_bind. eapply wp_load; [by rewrite lookup_insert_ne|reflexivity|].
  cbn [dn_dirent]. apply wp_bind. eapply wp_update_entry; [apply lookup_insert_eq|].
  rewrite insert_insert_eq.
  set (e1 := set_entry_current next (set_entry_current (current :: next) e)).
  set (e2 := match next with [] => set_reached_end true e1 | _ => e1 end).
  apply wp_bind. apply (wp_mono _ _ (λ _ w', w' = World x er (mutex_of t (S k)) mg
                          (<[p := ODirEntry e2]> h) n lc dc fc lf)).
  { unfold e2. destruct next; [|by wp_step]. eapply wp_update_entry; [apply lookup_insert_eq|].
    by rewrite insert_insert_eq. }
  intros [] w' ->. apply wp_bind, wp_dump_if. intros x' er' lf' Hx Her Hq. do 2 wp_step.
  assert (Hn : next `suffix_of` dm_entry_list e) by (etrans; [by exists [current]|exact Hcur]).
  destruct (wf_set_cursor _ _ _ _ _ _ _ Hwf d p e e2 Hdm Hp) as (Hwf' & Hk & Hview);
    [by unfold e2; destruct next..|by unfold e2; destruct next
    |unfold e2; destruct next; [done|]; cbn; rewrite Er; done|].
  apply (HQ x' er' lf' e2); [done|done|done|done|done|]. apply Hview.
  unfold e2, dm_pending. destruct next; cbn; [by cbn in Hrest|]. by rewrite Er.
Qed.

(** One [readdir] on the entries of the image returns the first pending entry
    and moves the cursor past it. *)
Lemma wp_readdir_image e ds Q :
  wf_with own fm dm x mg h n -> dm !! d = Some p -> h !! p = Some (ODirEntry e) ->
  mapM (node_dirent h) (dm_pending e) = Some ds -> readdir_cont e ds Q ->
  wp (readdir_image t p log) (World x er (mutex_of t (S k)) mg h n lc dc fc lf) Q.
Proof.
  intros Hwf Hdm Hp Hds HQ. unfold readdir_image.
  pose proof (wf_dirs _ _ _ _ _ _ _ Hwf _ _ Hdm) as (e0 & hd & He & _ & _ & _ & _ & Hnodes & _ & Hsuf & _).
  rewrite Hp in He. injection He as <-. wp_step.
  assert (Hsame : set_entry_current (dm_entry_current e) e = e) by by destruct e.
  unfold dm_pending in Hds. destruct (dm_reached_end e) eqn:Er.
  { injection Hds as <-. apply wp_bind, wp_dump_if. intros x' er' lf' Hx Her Hq. unfold sqfs_unlock.
    do 2 wp_step. eapply (readdir_cont_none e); try done. unfold dm_pending. by rewrite Er. }
  destruct (dm_entry_current e) as [|c l] eqn:Ec.
  - apply wp_bind. eapply wp_update_entry; [exact Hp|]. destruct (dm_entry_list e) as [|c l] eqn:El.
    + injection Hds as <-. rewrite Hsame, insert_id by done. unfold sqfs_unlock. wp_step. rewrite Ec.
      do 2 wp_step. eapply (readdir_cont_none e); [done..| |done|constructor|done|done].
      unfold dm_pending. by rewrite Er, Ec, El.
    + by eapply wp_readdir_next; rewrite ?El.
  - wp_step. change (wp (readdir_next t p log) (World x er (mutex_of t (S k)) mg h n lc dc fc lf) Q).
    rewrite <- (insert_id h p (ODirEntry e)) by done. rewrite <- Hsame. by eapply wp_readdir_next.
Qed.

End readdir.

(** ** Releasing a stream *)

Definition node_inode (h : heap) (l : loc) : option loc := ((h !! l) ≫= as_dir_node) ≫= dn_inode.

(** The objects of a list of nodes, and of a stream. *)
Definition node_cells (h : heap) (nodes : list loc) : gset loc :=
  list_to_set nodes ∪ list_to_set (omap (node_inode h) nodes).

Definition dir_cells (w : world) (d : Z) : gset loc :=
  match hash_find d (m_dir_map (w_mgr w)) with
  | Some p =>
      {[p]} ∪ match (w_heap w !! p) ≫= as_dir_entry with
              | Some e => {[dm_dir_reader e]} ∪ node_cells (w_heap w) (dm_entry_list e)
              | None => ∅
              end
  | None => ∅
  end.

(** [h'] is [h] without the cells of [S]. *)
Definition without {A} (S : gset loc) (h h' : gmap loc A) : Prop :=
  ∀ l, h' !! l = if decide (l ∈ S) then None else h !! l.

Lemma without_exists {A} S (h : gmap loc A) : ∃ h', without S h h'.
Proof.
  exists (filter (λ kv, kv.1 ∉ S) h). intros l. case_decide.
  - apply map_lookup_filter_None. right. naive_solver.
  - destruct (h !! l) as [a|] eqn:E.
    + by apply map_lookup_filter_Some.
    + apply map_lookup_filter_None. by left.
Qed.

Lemma without_dom {A} S (h h' : gmap loc A) : without S h h' -> dom h' = dom h ∖ S.
Proof.
  intros Hw. apply leibniz_equiv. intros l. rewrite elem_of_difference, !elem_of_dom, Hw.
  case_decide; [|naive_solver]. split; [by intros []|naive_solver].
Qed.

Lemma elem_node_cells h nodes l :
  l ∈ node_cells h nodes <-> l ∈ nodes ∨ ∃ q, q ∈ nodes ∧ node_inode h q = Some l.
Proof.
  unfold node_cells. rewrite elem_of_union, !elem_of_list_to_set, list_elem_of_omap. done.
Qed.

(** The cells of the nodes of [d] belong to [d] or to one of the nodes. *)
Lemma node_cells_owner own h d nodes l :
  Forall (node_owned own h d) nodes -> l ∈ node_cells h nodes ->
  own !! l = Some (OwnDir d) ∨ ∃ q, q ∈ nodes ∧ own !! l = Some (OwnNode q).
Proof.
  intros Hn. rewrite Forall_forall in Hn. rewrite elem_node_cells. intros [Hl|(q & Hq & Hl)].
  - destruct (Hn l Hl) as (ip & de & i & _ & Ho & _). by left.
  - destruct (Hn q Hq) as (ip & de & i & Hq' & _ & _ & Ho). unfold node_inode in Hl.
    rewrite Hq' in Hl. cbn in Hl. injection Hl as ->. right. by exists q.
Qed.

Lemma wp_free_nodes t own dd k : ∀ nodes x er mg h n lc dc fc lf (Q : unit -> world -> Prop),
  Forall (node_owned own h dd) nodes -> NoDup nodes ->
  (∀ h', without (node_cells h nodes) h h' ->
     Q tt (World x er (mutex_of t (S k)) mg h' n lc dc fc lf)) ->
  wp (free_nodes t nodes) (World x er (mutex_of t (S k)) mg h n lc dc fc lf) Q.
Proof.
  induction nodes as [|c rest IH]; intros x er mg h n lc dc fc lf Q Hn Hnd HQ; cbn [free_nodes].
  { wp_step. apply HQ. intros l. by rewrite decide_False by (unfold node_cells; set_solver). }
  apply Forall_cons in Hn as [(ip & de & i & Hc & Hoc & Hi & Hoi) Hn].
  apply NoDup_cons in Hnd as [Hc_rest Hnd].
  assert (Hne : ip ≠ c) by congruence.
  wp_step. cbn [dn_inode]. apply wp_bind. eapply wp_sqfs_free; [exact Hi|].
  apply wp_bind. eapply wp_heap_free; [by rewrite lookup_delete_ne|].
  assert (Hother : ∀ q, q ∈ rest -> q ≠ c ∧ q ≠ ip).
  { intros q Hq. split; [by intros ->|]. intros ->. rewrite Forall_forall in Hn.
    destruct (Hn ip Hq) as (? & ? & ? & _ & Ho & _). congruence. }
  assert (Hkeep : ∀ q, q ∈ rest -> delete c (delete ip h) !! q = h !! q).
  { intros q Hq. destruct (Hother q Hq). by rewrite !lookup_delete_ne. }
  assert (Hcells : node_cells (delete c (delete ip h)) rest = node_cells h rest).
  { unfold node_cells. f_equal. f_equal. apply list_omap_ext, Forall_Forall2_diag, Forall_forall.
    intros q Hq. unfold node_inode. by rewrite Hkeep. }
  apply IH; [|done|].
  - apply Forall_forall. intros q Hq. rewrite Forall_forall in Hn.
    destruct (Hn q Hq) as (ip' & de' & i' & Hq' & Ho' & Hi' & Hoi'). exists ip', de', i'.
    rewrite Hkeep by done. repeat (split; [done|]). split; [|done].
    rewrite !lookup_delete_ne; [done|..]; intros <-; [|congruence].
    rewrite Hoi in Hoi'. injection Hoi' as <-. done.
  - intros h' Hh'. apply HQ. intros l. rewrite (Hh' l), Hcells.
    assert (E : l ∈ node_cells h (c :: rest) <-> l = c ∨ l = ip ∨ l ∈ node_cells h rest).
    { rewrite !elem_node_cells. unfold node_inode at 1. setoid_rewrite elem_of_cons. split.
      - intros [[?|?]|(q & [->|Hq] & Hl)]; [by left|by do 2 right; left| |by do 2 right; right; exists q].
        rewrite Hc in Hl. cbn in Hl. injection Hl as ->. by right; left.
      - intros [->|[->|[?|(q & Hq & Hl)]]]; [by left; left| |by left; right|by right; exists q; split; [right|]].
        right. exists c. split; [by left|]. by rewrite Hc. }
    rewrite !lookup_delete. repeat case_decide; try done; exfalso; naive_solver.
Qed.

Section release.
Context own fm dm x mg h n (Hwf : wf_with own fm dm x mg h n).

(** Ownership outside the stream [d] with the given nodes. *)
Definition not_stream (d : Z) (nodes : list loc) (o : owner) : Prop :=
  match o with OwnDir d' => d' ≠ d | OwnNode q => q ∉ nodes | _ => True end.

Lemma wf_del_dir d p e own' h' :
  dm !! d = Some p -> h !! p = Some (ODirEntry e) ->
  let cells := {[p; dm_dir_reader e]} ∪ node_cells h (dm_entry_list e) in
  without cells h h' -> without cells own own' ->
  wf_with own' fm (delete d dm) x (set_dir_map (hash_del d p (m_dir_map mg)) mg) h' n ∧
  cells_kept (not_stream d (dm_entry_list e)) own own' h h'.
Proof.
  intros Hdm Hp cells Hh Hown.
  pose proof (wf_dirs _ _ _ _ _ _ _ Hwf _ _ Hdm) as (e0 & hd & He & Hk0 & Hop & Hr & Hor & Hnodes & Hnd & Hsuf & Hre).
  rewrite Hp in He. injection He as <-.
  assert (Hout : ∀ l o, own !! l = Some o -> not_stream d (dm_entry_list e) o -> l ∉ cells).
  { intros l o Hl Ho Hin. unfold cells in Hin. rewrite !elem_of_union, !elem_of_singleton in Hin.
    destruct Hin as [[->| ->]|Hin].
    - rewrite Hop in Hl. injection Hl as <-. by apply Ho.
    - rewrite Hor in Hl. injection Hl as <-. by apply Ho.
    - destruct (node_cells_owner _ _ _ _ _ Hnodes Hin) as [Ho'|(q & Hq & Ho')];
        rewrite Hl in Ho'; injection Ho' as ->; by apply Ho. }
  assert (Hk : cells_kept (not_stream d (dm_entry_list e)) own own' h h').
  { intros l o Hl Ho. pose proof (Hout l o Hl Ho). rewrite (Hh l), (Hown l).
    by rewrite !decide_False. }
  split; [|done].
  destruct Hwf. constructor; try done.
  - intros l. rewrite (Hh l), (Hown l). case_decide; [split; by intros []|apply wf_dom].
  - intros l. rewrite (Hh l). case_decide; [by intros []|apply wf_fresh].
  - by apply hash_del_spec.
  - intros fd q Hq. eapply fd_owned_kept; eauto. done.
  - intros d' q. rewrite lookup_delete. case_decide; [done|]. intros Hq.
    eapply dir_owned_kept; [exact Hk|cbn; congruence| |by apply wf_dirs].
    intros l Hl Hin. rewrite Forall_forall in Hnodes.
    destruct (Hnodes l Hin) as (? & ? & ? & _ & Ho & _). congruence.
  - by eapply image_owned_kept.
  - by eapply image_owned_kept.
  - by eapply image_owned_kept.
  - intros d' q. rewrite lookup_delete. case_decide; [done|apply wf_open_dirs].
Qed.

End release.

(** ** closedir up to the real call *)

Lemma wp_closedir_release t d p e own fm dm k x er mg h n lc dc fc lf (Q : Z -> world -> Prop) :
  wf_with own fm dm x mg h n -> dm !! d = Some p -> h !! p = Some (ODirEntry e) -> dm_key e = d ->
  hash_find d (m_dir_map mg) = Some p ->
  (∀ x1 er1 lf1 h', grows x x1 ->
     (log_enabled (Some (lit "sqfs_closedir")) = false -> same_open x x1) -> errno_frame t er er1 ->
     without ({[p; dm_dir_reader e]} ∪ node_cells h (dm_entry_list e)) h h' ->
     wp (libc_call t lf_closedir (λ q, call_closedir q d))
       (World x1 er1 (mutex_of t k) (set_dir_map (hash_del d p (m_dir_map mg)) mg) h' n lc dc fc lf1) Q) ->
  wp (sqfs_closedir t d) (World x er (mutex_of t k) mg h n lc dc fc lf) Q.
Proof.
  intros Hwf Hdm Hp Hkey Hfind HQ.
  pose proof (wf_dirs _ _ _ _ _ _ _ Hwf _ _ Hdm) as (e0 & hd & He & _ & Hop & Hr & Hor & Hnodes & Hnd & _).
  rewrite Hp in He. injection He as <-. rewrite Forall_forall in Hnodes.
  assert (Hprd : dm_dir_reader e ≠ p) by congruence.
  unfold sqfs_closedir, sqfs_lock, sqfs_unlock. do 2 wp_step. rewrite Hfind. do 2 wp_step.
  apply wp_bind. eapply wp_sqfs_destroy; [exact Hr|]. intros e1 x1 Hx1. cbv zeta. rewrite Hkey.
  unfold free_sqfs_dir_entry_list. apply wp_bind, wp_bind.
  eapply wp_load; [by rewrite lookup_delete_ne|reflexivity|]. apply wp_bind.
  set (h1 := delete (dm_dir_reader e) h).
  assert (Hkeep : ∀ l o, h !! l = Some o -> (∀ hd, o ≠ OHandle hd) -> h1 !! l = Some o).
  { intros l o Hl Hne. unfold h1. rewrite lookup_delete_ne; [done|]. intros <-. rewrite Hr in Hl.
    injection Hl as <-. by eapply Hne. }
  assert (Hcells : node_cells h1 (dm_entry_list e) = node_cells h (dm_entry_list e)).
  { unfold node_cells. f_equal. f_equal. apply list_omap_ext, Forall_Forall2_diag, Forall_forall.
    intros l Hl. destruct (Hnodes l Hl) as (ip & de & i & Hl' & _). unfold node_inode.
    by rewrite (Hkeep l _ Hl'), Hl'. }
  eapply (wp_free_nodes _ own d).
  { apply Forall_forall. intros l Hl. destruct (Hnodes l Hl) as (ip & de & i & Hl' & Ho & Hi & Hoi).
    exists ip, de, i. split; [by apply Hkeep|]. split; [done|]. split; [by apply Hkeep|done]. }
  { done. }
  intros h2 Hh2. rewrite Hcells in Hh2.
  assert (Hp2 : h2 !! p = Some (ODirEntry e)).
  { rewrite (Hh2 p), decide_False; [by apply Hkeep|]. rewrite elem_node_cells. intros [Hl|(q & Hq & Hl)].
    - destruct (Hnodes p Hl) as (? & ? & ? & Hl' & _). congruence.
    - destruct (Hnodes q Hq) as (ip & de & i & Hq' & _ & Hi & _). unfold node_inode in Hl.
      rewrite Hq' in Hl. cbn in Hl. injection Hl as ->. congruence. }
  eapply wp_update_entry; [exact Hp2|].
  apply wp_bind. eapply wp_heap_free; [apply lookup_insert_eq|]. rewrite delete_insert_eq.
  wp_step. intros x2 er2 lf2 Hx2 Her2 Hq2. wp_step. apply HQ.
  - eapply grows_trans; [by apply same_open_grows|by apply log_ext_grows].
  - intros Hq. destruct (Hq2 Hq) as [_ ->]. done.
  - by eapply errno_frame_insert_l.
  - intros l. rewrite lookup_delete, (Hh2 l). unfold h1. rewrite lookup_delete.
    repeat case_decide; try done; exfalso; set_solver.
Qed.

End facts.
