(* ===== verification/DirProps.v ===== *)
(** * Properties of readdir and closedir *)

From S2P Require Import Prelude CString Posix Path Prog Foreign State Logging Kernel Backing Inode.
From S2P Require Import Image FdOps DirOps StateFacts Seek Invariant ImageFacts DirFacts MountFacts Demo FdProps.

Section props.
Context `{HP : Platform} `{HU : UtHash} `{HS : !UtHashSpec} `{HE : Ext} `{HK : !KernelSpec}
  `{HF : Fuel} `{HW : !WriteSpec}.

(** A change of stream [d] only. *)
Lemma touches_dir t k d P own own' fm dm dm' x x' er er' mg mg' h h' n n' lc dc dc' fc fc' lf lf' :
  wf_with own fm dm x mg h n -> wf_with own' fm dm' x' mg' h' n' -> cells_kept P own own' h h' ->
  (∀ o, is_image_owner o -> P o) -> (∀ fd, P (OwnFd fd)) ->
  (∀ d', d' ≠ d -> P (OwnDir d') ∧ dm' !! d' = dm !! d') ->
  errno_frame t er er' -> mgr_image_same mg mg' ->
  touches none (eq d) t (World x er (mutex_of t k) mg h n lc dc fc lf)
    (World x' er' (mutex_of t k) mg' h' n' lc dc' fc' lf').
Proof.
  intros Hwf Hwf' Hk HI HFd HD Her Him.
  eapply touches_intro; [exact Hwf|exact Hwf'|exact Hk|done| | |by constructor|done].
  - intros fd _. split; [apply HFd|done].
  - intros d' Hd. apply HD. congruence.
Qed.

(** ** readdir *)

Definition readdir_quiet : Prop := log_enabled (Some (lit "sqfs_readdir")) = false.

(** The real directory under a stream answers first. *)
Definition real_first (t d : Z) (real : bool) (w : world) : option dirent * world :=
  let c := call_readdir (lf_readdir (w_libc w)) d in
  if real then (result t c w, after t c w) else (None, w).

Definition readdir_post (t d : Z) (real : bool) (ds : list dirent) (w : world) : Prop :=
  let '(o, w1) := real_first t d real w in
  ∃ w', run (sqfs_readdir t d) w = Done (match o with Some x => Some x | None => head ds end, w') ∧
    touches none (eq d) t w w' ∧
    dir_view w' d = Some (real, match o with Some _ => ds | None => tail ds end) ∧
    (readdir_quiet -> w_ext w' = w_ext w1 ∧ w_errno w' = w_errno w1).

Lemma readdir_locked_ok t k d p e real ds own fm dm x x1 er er1 mg h n lc dc fc lf :
  wf_with own fm dm x mg h n -> grows x x1 -> errno_frame t er er1 ->
  dm !! d = Some p -> h !! p = Some (ODirEntry e) -> dm_is_real_dir e = real ->
  mapM (node_dirent h) (dm_pending e) = Some ds ->
  ∀ (o : option dirent) (b : bool), b = log_enabled (Some (lit "sqfs_readdir")) ->
  wp (match o with
      | Some dd => dump_if t b "real_dir:" (Some dd) ;; sqfs_unlock t ;; Ret (Some dd)
      | None => readdir_image t p b
      end) (World x1 er1 (mutex_of t (S k)) mg h n lc dc fc lf)
    (λ r w', r = match o with Some x => Some x | None => head ds end ∧
       touches none (eq d) t (World x er (mutex_of t k) mg h n lc dc fc lf) w' ∧
       dir_view w' d = Some (real, match o with Some _ => ds | None => tail ds end) ∧
       (readdir_quiet -> w_ext w' = x1 ∧ w_errno w' = er1)).
Proof.
  intros Hwf Hx1 Her1 Hdm Hp Hreal Hds o b Hb. unfold readdir_quiet, sqfs_unlock.
  pose proof (wf_grows _ _ _ _ _ _ _ _ Hx1 Hwf) as Hwf1.
  destruct o as [dd|].
  - apply wp_bind, wp_dump_if. intros x' er' lf' Hx Her Hq. do 2 wp_step. split; [done|].
    pose proof (wf_grows _ _ _ _ _ _ _ _ (log_ext_grows _ _ Hx) Hwf1) as Hwf2. split; [|split].
    + eapply (touches_dir _ _ _ (λ _, True)); [exact Hwf|exact Hwf2|apply cells_kept_refl|done..| |done].
      by eapply errno_frame_trans.
    + rewrite (dir_view_map _ _ _ _ _ _ _ Hwf2) by done. unfold dir_view_m, dir_entry_view.
      rewrite Hdm. cbn [mbind option_bind]. rewrite Hp. cbn [mbind option_bind as_dir_entry].
      by rewrite Hds, Hreal.
    + intros E. by destruct (Hq ltac:(congruence)) as (-> & -> & _).
  - eapply (wp_readdir_image t d p k b own fm dm); [exact Hwf1|exact Hdm|exact Hp|exact Hds|].
    intros x' er' lf' e' Hx Her Hq h' Hwf2 Hk Hview. split; [done|].
    pose proof (wf_grows _ _ _ _ _ _ _ _ (log_ext_grows _ _ Hx) Hwf2) as Hwf3. split; [|split].
    + eapply (touches_dir _ _ _ (not_dir d)); [exact Hwf|exact Hwf3|exact Hk| |done| | |done].
      * unfold is_image_owner, not_dir. intros ? [->|[->| ->]]; done.
      * intros d' Hne. split; [unfold not_dir; congruence|done].
      * by eapply errno_frame_trans.
    + rewrite (dir_view_map _ _ _ _ _ _ _ Hwf3) by done. by rewrite Hview, Hreal.
    + intros E. by destruct (Hq ltac:(congruence)) as (-> & -> & _).
Qed.

Lemma readdir_ok t k d w real ds :
  wf w -> w_mutex w = mutex_of t k -> lf_readdir (w_libc w) ≠ 0 -> dir_view w d = Some (real, ds) ->
  readdir_post t d real ds w.
Proof.
  intros Hwf Hmu Hlc Hv. unfold readdir_post. destruct (real_first t d real w) as [o w1] eqn:Ew1.
  open_world Hwf Hmu.
  eapply dir_view_Some in Hv as (p & e & Hdm & Hfind & Hp & Hkey & Hreal & Hds & _); [|done].
  apply run_wp. unfold sqfs_readdir, sqfs_lock. do 2 wp_step. rewrite Hfind. wp_step. rewrite Hreal.
  unfold real_first, result, after, errno_of in Ew1. cbn [w_libc w_errno w_ext] in Ew1.
  destruct real.
  - apply wp_bind, wp_libc_call; [done|]. intros o' e' x' Hcall. rewrite Hcall in Ew1.
    injection Ew1 as <- <-. eapply readdir_locked_ok; [exact Hwf| | |done..].
    + eapply keeps_grows; [apply keeps_readdir|exact Hcall].
    + by apply errno_frame_insert.
  - injection Ew1 as <- <-. wp_step.
    exact (readdir_locked_ok t k d p e false ds own fm dm x x er er mg h n lc dc fc lf
      Hwf (grows_refl _) (errno_frame_refl _ _) Hdm Hp Hreal Hds None _ eq_refl).
Qed.

(** C23: [sqfs_readdir] on a stream of the image asks the real directory under
    it first, if there is one, and returns its entry; when that has no more,
    it returns the next entry of the image, and null after the last. *)
Theorem sqfs_readdir_correct t k d w real ds :
  wf w -> w_mutex w = mutex_of t k -> lf_readdir (w_libc w) ≠ 0 -> dir_view w d = Some (real, ds) ->
  readdir_post t d real ds w.
Proof. apply readdir_ok. Qed.

(** ** Listings *)

Section listing.
Context `{HR : !ReaddirSpec}.

Fixpoint readdir_seq (t d : Z) (n : nat) : prog world (list (option dirent)) :=
  match n with
  | O => Ret []
  | S n => do r <- sqfs_readdir t d; do rs <- readdir_seq t d n; Ret (r :: rs)
  end.

(** What is still to be listed: the rest of the real directory, then the rest
    of the image. *)
Definition listing (w : world) (d : Z) (real : bool) (ds : list dirent) : list dirent :=
  (if real then real_entries (w_ext w) d else []) ++ ds.

Lemma readdir_seq_ok t k d n : ∀ w real ds,
  wf w -> w_mutex w = mutex_of t k -> lf_readdir (w_libc w) ≠ 0 -> readdir_quiet ->
  dir_view w d = Some (real, ds) ->
  ∃ w', run (readdir_seq t d n) w = Done ((λ j, listing w d real ds !! j) <$> seq 0 n, w') ∧
    touches none (eq d) t w w'.
Proof.
  induction n as [|n IH]; intros w real ds Hwf Hmu Hlc Hq Hv; cbn [readdir_seq].
  { exists w. split; [done|]. by apply touches_refl. }
  pose proof (readdir_ok t k d w real ds Hwf Hmu Hlc Hv) as H. unfold readdir_post in H.
  assert (Hfirst : let '(o, w1) := real_first t d real w in
    listing w d real ds = match o with
      | Some x => x :: listing w1 d real ds
      | None => match ds with [] => [] | x :: _ => x :: listing w1 d real (tail ds) end
      end ∧ (o = None -> ds = [] -> listing w1 d real [] = [])).
  { unfold real_first, listing, result, after. destruct real; [|by destruct ds].
    pose proof (readdir_spec (lf_readdir (w_libc w)) d (errno_of t w) (w_ext w)) as Hs.
    destruct (call_readdir _ d (errno_of t w) (w_ext w)) as [[o e] x']. destruct Hs as [-> Hs].
    cbn [fst w_ext set_errnos set_ext]. rewrite Hs. destruct (real_entries (w_ext w) d); [|done].
    by destruct ds. }
  destruct (real_first t d real w) as [o w1]. destruct H as (w' & Hrun & Ht & Hv' & Hx).
  destruct (Hx Hq) as [Hx1 _]. destruct Hfirst as [Hl Hnil]. pose proof Ht as [Hwf' [Hm Hl' _] _ _ _].
  destruct (IH w' real (match o with Some _ => ds | None => tail ds end))
    as (w2 & Hrun2 & Ht2); [done|congruence|by rewrite Hl'|done|done|].
  exists w2. split; [|by eapply touches_trans]. rewrite run_bind, Hrun. cbn [outcome_bind fst snd].
  rewrite run_bind, Hrun2. cbn [outcome_bind fst snd run]. do 2 f_equal.
  assert (Hsame : listing w' d real (match o with Some _ => ds | None => tail ds end)
    = listing w1 d real (match o with Some _ => ds | None => tail ds end))
    by (unfold listing; by rewrite Hx1).
  rewrite Hsame, Hl. cbn [seq]. rewrite <- fmap_S_seq, fmap_cons. f_equal.
  - destruct o; [done|]. by destruct ds.
  - rewrite <- list_fmap_compose. apply list_fmap_ext. intros _ j _. cbn.
    destruct o; [done|]. destruct ds as [|y ds]; [|done]. cbn. by rewrite Hnil.
Qed.

(** C10: successive [readdir]s on a stream return the entries of the real
    directory, then those of the image, each exactly once and in order, and
    null ever after. *)
Theorem readdir_listing t k d n w real ds :
  wf w -> w_mutex w = mutex_of t k -> lf_readdir (w_libc w) ≠ 0 -> readdir_quiet ->
  dir_view w d = Some (real, ds) ->
  ∃ w', run (readdir_seq t d n) w = Done ((λ j, listing w d real ds !! j) <$> seq 0 n, w') ∧
    touches none (eq d) t w w'.
Proof. apply readdir_seq_ok. Qed.

End listing.
(** ** closedir *)

Definition closedir_quiet : Prop := log_enabled (Some (lit "sqfs_closedir")) = false.

Lemma image_owner_not_stream d nodes o : is_image_owner o -> not_stream d nodes o.
Proof. unfold is_image_owner. by intros [->|[->| ->]]. Qed.

Definition closedir_post (t d : Z) (w : world) : Prop :=
  ∃ r w', run (sqfs_closedir t d) w = Done (r, w') ∧
    (∃ e1 x1, grows (w_ext w) x1 ∧ (closedir_quiet -> same_open (w_ext w) x1) ∧
       call_closedir (lf_closedir (w_libc w)) d e1 x1 = (r, errno_of t w', w_ext w')) ∧
    touches none (eq d) t w w' ∧ dir_view w' d = None ∧ live w' = live w ∖ dir_cells w d.

Lemma closedir_ok t k d w real ds :
  wf w -> w_mutex w = mutex_of t k -> lf_closedir (w_libc w) ≠ 0 -> dir_view w d = Some (real, ds) ->
  closedir_post t d w.
Proof.
  intros Hwf Hmu Hlc Hv. open_world Hwf Hmu.
  eapply dir_view_Some in Hv as (p & e & Hdm & Hfind & Hp & Hkey & _); [|done].
  destruct (without_exists ({[p; dm_dir_reader e]} ∪ node_cells h (dm_entry_list e)) own) as [own' Hown'].
  apply run_ex. eapply wp_closedir_release; [exact Hwf|done..|].
  intros x1 er1 lf1 h' Hx1 Hq Her1 Hh'.
  apply wp_libc_call; [done|]. intros r e2 x2 Hcall.
  destruct (wf_del_dir _ _ _ _ _ _ _ Hwf d p e own' h' Hdm Hp Hh' Hown') as [Hwf' Hk].
  assert (Hwf2 : wf_with own' fm (delete d dm) x2 (set_dir_map (hash_del d p (m_dir_map mg)) mg) h' n).
  { pose proof (closes_dir (lf_closedir lc) d (default 0 (er1 !! t)) x1) as [Hf Hd].
    cbn [w_errno w_ext] in Hcall. rewrite Hcall in Hf, Hd. cbn [snd] in Hf, Hd. destruct Hx1 as [Hgf Hgd].
    apply (wf_ext _ _ _ _ _ _ _ _ Hwf').
    - intros fd q _. set_solver.
    - intros d' q. rewrite lookup_delete. case_decide; [done|]. set_solver. }
  split; [|split; [|split]].
  - exists (default 0 (er1 !! t)), x1. split; [done|]. split; [done|].
    unfold errno_of. cbn [w_errno w_ext w_libc] in *. rewrite lookup_insert_eq. exact Hcall.
  - eapply (touches_dir _ _ _ (not_stream d (dm_entry_list e))); [exact Hwf|exact Hwf2|exact Hk| |done| | |done].
    + apply image_owner_not_stream.
    + intros d' Hne. split; [done|]. by apply lookup_delete_ne.
    + by apply errno_frame_insert.
  - rewrite (dir_view_map _ _ _ _ _ _ _ Hwf2) by done. unfold dir_view_m. by rewrite lookup_delete_eq.
  - unfold live, dir_cells. cbn [w_heap w_mgr]. rewrite Hfind, Hp. cbn [mbind option_bind as_dir_entry].
    rewrite (without_dom _ _ _ Hh'). set_solver.
Qed.

(** C26: [sqfs_closedir] on a stream of the image takes it out of the table,
    releases its directory reader, its entries and their inodes, and then
    closes the underlying stream, once, with the result and error number of
    that call; nothing else changes. *)
Theorem sqfs_closedir_correct t k d w real ds :
  wf w -> w_mutex w = mutex_of t k -> lf_closedir (w_libc w) ≠ 0 -> dir_view w d = Some (real, ds) ->
  closedir_post t d w.
Proof. apply closedir_ok. Qed.

(** ** Streams that are not of the image *)

(** On a stream that no hook registered, [sqfs_readdir] and [sqfs_closedir]
    are the libc functions. *)
Lemma unmapped_dir_ok t k d w :
  wf w -> w_mutex w = mutex_of t k -> libc_ready (w_libc w) -> dir_view w d = None ->
  passes t (sqfs_readdir t d) (call_readdir (lf_readdir (w_libc w)) d) w ∧
  passes t (sqfs_closedir t d) (call_closedir (lf_closedir (w_libc w)) d) w.
Proof.
  intros Hwf Hmu Hlc Hv. unfold passes. open_world Hwf Hmu.
  destruct Hlc as (_ & _ & _ & _ & _ & _ & _ & _ & _ & H1 & H2 & _).
  eapply dir_view_None in Hv as [_ Hfind]; [|done].
  split; apply run_eq_wp; unfold sqfs_readdir, sqfs_closedir, sqfs_lock, sqfs_unlock;
    do 2 wp_step; rewrite Hfind; wp_step; (apply wp_libc_call; [done|]); intros b e x' E;
    unfold result, after, errno_of; cbn [w_errno w_ext w_libc] in *; by rewrite E.
Qed.

End props.

(** ** Witnesses *)

Section witnesses.
#[local] Existing Instances demo64 demo_hash demo_hash_spec demo_ext demo_kernel demo_fuel demo_write
  demo_readdir.

Definition demo_a_dirent : dirent := demo_dirent a_inode DT_REG "a.txt".
Definition demo_sub_dirent : dirent := demo_dirent sub_inode DT_DIR "sub".

Lemma demo_dir_view : dir_view demo_world 100 = Some (true, [demo_a_dirent; demo_sub_dirent]).
Proof. reflexivity. Defined.

Lemma sqfs_readdir_correct_witness :
  readdir_post 1 100 true [demo_a_dirent; demo_sub_dirent] demo_world.
Proof.
  apply (sqfs_readdir_correct 1 0 100 demo_world); [exact demo_wf|done|done|exact demo_dir_view].
Defined.

(** Five calls on the stream: the real entry, the two of the image, null. *)
Lemma readdir_listing_witness :
  ∃ w', run (readdir_seq 1 100 5) demo_world
      = Done ([Some real_dirent; Some demo_a_dirent; Some demo_sub_dirent; None; None], w') ∧
    touches none (eq 100) 1 demo_world w'.
Proof.
  exact (readdir_listing 1 0 100 5 demo_world true [demo_a_dirent; demo_sub_dirent] demo_wf eq_refl
    ltac:(done) eq_refl demo_dir_view).
Defined.

Lemma sqfs_closedir_correct_witness :
  ∃ r w', run (sqfs_closedir 1 100) demo_world = Done (r, w') ∧ dir_view w' 100 = None ∧
    live w' = live demo_world ∖ dir_cells demo_world 100.
Proof.
  destruct (sqfs_closedir_correct 1 0 100 demo_world true [demo_a_dirent; demo_sub_dirent] demo_wf
    eq_refl ltac:(done) demo_dir_view) as (r & w' & Hrun & _ & _ & Hv & Hl).
  exists r, w'. split; [exact Hrun|]. split; [exact Hv|exact Hl].
Defined.

End witnesses.
