(* ===== verification/OpendirFacts.v ===== *)
(** * Filling a directory stream: lemmas

    The invariant while [sqfs_opendir] registers a stream, [enumerate_dir]
    appends its nodes and, on an error, empties the list again. *)

From S2P Require Import Prelude CString Posix Path Prog Foreign State Logging Kernel Backing Inode.
From S2P Require Import Image FdOps DirOps StateFacts Seek Invariant ImageFacts DirFacts.

Section facts.
Context `{HP : Platform} `{HU : UtHash} `{HS : !UtHashSpec} `{HE : Ext} `{HK : !KernelSpec}
  `{HF : Fuel} `{HW : !WriteSpec}.

Abbreviation heap := (gmap loc obj).
Abbreviation owners := (gmap loc owner).

(** ** The three changes *)

Section changes.
Context own fm dm x mg h n (Hwf : wf_with own fm dm x mg h n).

(** A new stream, with an empty list, on a directory reader nobody owns. *)
Lemma wf_add_dir d p rd real hd :
  dm !! d = None -> d ≠ 0 -> d ∈ open_dirs x ->
  own !! p = Some OwnLeaked -> h !! p = Some (ODirEntry (MkDirMapEntry d rd real [] [] false)) ->
  own !! rd = Some OwnLeaked -> h !! rd = Some (OHandle hd) ->
  let own' := <[p := OwnDir d]> (<[rd := OwnDir d]> own) in
  wf_with own' fm (<[d := p]> dm) x (set_dir_map (hash_add d p (m_dir_map mg)) mg) h n ∧
  cells_kept (λ o, o ≠ OwnLeaked) own own' h h.
Proof.
  intros Hdm Hne0 Hopen Hop Hp Hor Hr own'.
  assert (Hne : rd ≠ p) by congruence.
  assert (Hk : cells_kept (λ o, o ≠ OwnLeaked) own own' h h).
  { intros l o Hl Hnl. split; [|done]. unfold own'. by rewrite !lookup_insert_ne by congruence. }
  split; [|done]. destruct Hwf. constructor; try done.
  - intros l. unfold own'. rewrite !lookup_insert.
    repeat case_decide; subst; [rewrite Hp|rewrite Hr|apply wf_dom]; split; eauto.
  - by apply hash_add_spec.
  - intros fd q Hq. eapply fd_owned_kept; eauto. done.
  - intros d' q. rewrite lookup_insert. case_decide; [intros [= <-]; subst|intros Hq].
    + exists (MkDirMapEntry d' rd real [] [] false), hd. cbn. unfold own'.
      rewrite lookup_insert_eq, lookup_insert_ne, lookup_insert_eq by done.
      do 5 (split; [done|]). split; [constructor|]. split; [constructor|]. done.
    + eapply dir_owned_kept; eauto; done.
  - by eapply image_owned_kept.
  - by eapply image_owned_kept.
  - by eapply image_owned_kept.
  - intros d' q. rewrite lookup_insert. case_decide; [intros [= <-]; by subst|apply wf_open_dirs].
Qed.

Context d p e (Hdm : dm !! d = Some p) (Hp : h !! p = Some (ODirEntry e))
  (Hcur : dm_entry_current e = []) (Hend : dm_reached_end e = false).

Lemma stream_owned : ∃ hd, dm_key e = d ∧ own !! p = Some (OwnDir d) ∧
  h !! dm_dir_reader e = Some (OHandle hd) ∧ own !! dm_dir_reader e = Some (OwnDir d) ∧
  Forall (node_owned own h d) (dm_entry_list e) ∧ NoDup (dm_entry_list e).
Proof.
  destruct (wf_dirs _ _ _ _ _ _ _ Hwf _ _ Hdm) as (e0 & hd & He & Hk0 & Hop & Hr & Hor & Hn & Hnd & _).
  rewrite Hp in He. injection He as <-. by exists hd.
Qed.

(** Owners other than stream [d] and its nodes. *)
Definition outside (o : owner) : Prop :=
  o ≠ OwnLeaked ∧ o ≠ OwnDir d ∧ ∀ q, o = OwnNode q -> own !! q ≠ Some (OwnDir d).

(** The invariant after a change of the list of stream [d]. *)
Lemma wf_set_list own' h' l' :
  (∀ q, is_Some (own' !! q) <-> is_Some (h' !! q)) -> (∀ q, is_Some (h' !! q) -> (q < n)%positive) ->
  h' !! p = Some (ODirEntry (set_entry_list l' e)) -> own' !! p = Some (OwnDir d) ->
  h' !! dm_dir_reader e = h !! dm_dir_reader e -> own' !! dm_dir_reader e = Some (OwnDir d) ->
  Forall (node_owned own' h' d) l' -> NoDup l' ->
  cells_kept outside own own' h h' ->
  wf_with own' fm dm x mg h' n.
Proof.
  intros Hdom Hfresh Hp' Hop' Hr' Hor' Hnodes Hnd Hk.
  destruct stream_owned as (hd & Hkey & _ & Hr & _). destruct Hwf. constructor; try done.
  - intros fd q Hq. eapply fd_owned_kept; [exact Hk|done|by apply wf_fds].
  - intros d' q Hq. destruct (decide (d' = d)) as [->|Hd].
    + simplify_eq. exists (set_entry_list l' e), hd. cbn. rewrite Hr'. do 7 (split; [done|]).
      rewrite Hcur, Hend. split; [apply suffix_nil|done].
    + eapply dir_owned_kept; [exact Hk| | |by apply wf_dirs].
      * split; [done|]. split; [congruence|done].
      * intros l Hl. split; [done|]. split; [done|]. intros ? [= <-]. congruence.
  - eapply image_owned_kept; [exact Hk|done|done].
  - eapply image_owned_kept; [exact Hk|done|done].
  - eapply image_owned_kept; [exact Hk|done|done].
Qed.

(** A node and its inode, which nobody owned, join the list. *)
Lemma wf_append_node node ip de i :
  own !! node = Some OwnLeaked -> h !! node = Some (ODirNode (MkDirNode (Some ip) de)) ->
  own !! ip = Some OwnLeaked -> h !! ip = Some (OInode i) ->
  let own' := <[node := OwnDir d]> (<[ip := OwnNode node]> own) in
  let h' := <[p := ODirEntry (set_entry_list (dm_entry_list e ++ [node]) e)]> h in
  wf_with own' fm dm x mg h' n.
Proof.
  intros Hon Hn Hoi Hi own' h'. destruct stream_owned as (hd & Hkey & Hop & Hr & Hor & Hnodes & Hnd).
  assert (ip ≠ node ∧ node ≠ p ∧ ip ≠ p ∧ dm_dir_reader e ≠ p ∧ dm_dir_reader e ≠ node ∧
          dm_dir_reader e ≠ ip) as (? & ? & ? & ? & ? & ?) by (repeat split; congruence).
  assert (Hnot : ∀ q, q ∈ dm_entry_list e -> own !! q = Some (OwnDir d)).
  { rewrite Forall_forall in Hnodes. intros q Hq. by destruct (Hnodes q Hq) as (? & ? & ? & _ & ? & _). }
  apply (wf_set_list own' h' (dm_entry_list e ++ [node])); unfold own', h'.
  - intros q. rewrite !lookup_insert. repeat case_decide; subst; try congruence;
      rewrite ?Hn, ?Hi, ?Hop; try (split; by eauto). apply (wf_dom _ _ _ _ _ _ _ Hwf).
  - intros q. rewrite lookup_insert. case_decide; [subst|apply (wf_fresh _ _ _ _ _ _ _ Hwf)]. intros _.
    apply (wf_fresh _ _ _ _ _ _ _ Hwf). rewrite Hp. eauto.
  - apply lookup_insert_eq.
  - by rewrite !lookup_insert_ne.
  - by rewrite lookup_insert_ne.
  - by rewrite !lookup_insert_ne.
  - apply Forall_app. split; [|apply Forall_singleton].
    + eapply Forall_impl; [exact Hnodes|]. intros q (iq & dq & jq & Hq & Hoq & Hiq & Hoiq).
      exists iq, dq, jq. rewrite !lookup_insert_ne by congruence. done.
    + exists ip, de, i. rewrite !lookup_insert_eq, !lookup_insert_ne, lookup_insert_eq by done. done.
  - apply NoDup_app. split; [done|]. split; [|apply NoDup_singleton].
    intros q Hq ->%list_elem_of_singleton. apply Hnot in Hq. congruence.
  - intros l o Hl (Ho1 & Ho2 & _).
    by rewrite !lookup_insert_ne by congruence.
Qed.

(** The nodes are released and the list is emptied. *)
Lemma wf_clear_list own' h' :
  without (node_cells h (dm_entry_list e)) h h' -> without (node_cells h (dm_entry_list e)) own own' ->
  wf_with own' fm dm x mg (<[p := ODirEntry (set_entry_list [] e)]> h') n.
Proof.
  intros Hh Hown. destruct stream_owned as (hd & Hkey & Hop & Hr & Hor & Hnodes & Hnd).
  assert (Hout : ∀ q o, h !! q = Some o -> (∀ nd, o ≠ ODirNode nd) -> (∀ i, o ≠ OInode i) ->
                 q ∉ node_cells h (dm_entry_list e)).
  { rewrite Forall_forall in Hnodes. intros q o Hq Hn1 Hn2. rewrite elem_node_cells.
    intros [Hin|(r & Hin & Hr')]; destruct (Hnodes _ Hin) as (iq & dq & jq & Hq' & _ & Hi & _).
    - rewrite Hq in Hq'. injection Hq' as ->. by eapply Hn1.
    - unfold node_inode in Hr'. rewrite Hq' in Hr'. injection Hr' as ->. rewrite Hq in Hi.
      injection Hi as ->. by eapply Hn2. }
  pose proof (Hout p _ Hp ltac:(done) ltac:(done)) as Hpo.
  pose proof (Hout _ _ Hr ltac:(done) ltac:(done)) as Hro.
  assert (dm_dir_reader e ≠ p) by congruence.
  apply (wf_set_list own' _ []).
  - intros q. rewrite (Hown q). destruct (decide (p = q)) as [<-|Hne].
    + rewrite lookup_insert_eq, decide_False, Hop by done. split; eauto.
    + rewrite lookup_insert_ne, (Hh q) by done. case_decide; [split; by intros []|].
      apply (wf_dom _ _ _ _ _ _ _ Hwf).
  - intros q. rewrite lookup_insert. case_decide; [subst|rewrite (Hh q)]; destruct Hwf.
    + intros _. apply wf_fresh. rewrite Hp. eauto.
    + case_decide; [by intros []|apply wf_fresh].
  - apply lookup_insert_eq.
  - by rewrite (Hown p), decide_False.
  - by rewrite lookup_insert_ne, (Hh _), decide_False.
  - by rewrite (Hown _), decide_False.
  - constructor.
  - constructor.
  - intros l o Hl (Ho1 & Ho2 & Ho3).
    rewrite lookup_insert_ne by congruence. rewrite (Hown l), (Hh l), !decide_False; [done|..];
      intros Hin; (destruct (node_cells_owner _ _ _ _ _ Hnodes Hin) as [Ho|(q & Hq & Ho)];
      [congruence|]; rewrite Hl in Ho; injection Ho as ->; eapply Ho3; [done|];
      rewrite Forall_forall in Hnodes; by destruct (Hnodes q Hq) as (? & ? & ? & _ & ? & _)).
Qed.

End changes.
End facts.
