(* ===== verification/EnumFacts.v ===== *)
(** * Reading a directory of the image: lemmas

    [enumerate_dir] on an explicit state: under the laws of the directory
    reader the loop ends within its fuel, with the whole listing or, after an
    error, with an empty list. *)

From S2P Require Import Prelude CString Posix Path Prog Foreign State Logging Kernel Backing Inode.
From S2P Require Import Image FdOps DirOps StateFacts Seek Invariant ImageFacts DirFacts OpendirFacts.

Lemma mapM_app_Some {A B} (f : A -> option B) l1 l2 k1 k2 :
  mapM f l1 = Some k1 -> mapM f l2 = Some k2 -> mapM f (l1 ++ l2) = Some (k1 ++ k2).
Proof. rewrite !mapM_Some. apply Forall2_app. Qed.

Section facts.
Context `{HP : Platform} `{HU : UtHash} `{HS : !UtHashSpec} `{HE : Ext} `{HK : !KernelSpec}
  `{HF : Fuel} `{HW : !WriteSpec}.

Abbreviation heap := (gmap loc obj).
Abbreviation owners := (gmap loc owner).

(** ** The listing of a directory *)

(** The entry the code makes of an entry of the image and its inode. *)
Definition image_dirent (ei : sqfs_dir_entry * sqfs_inode) : option dirent :=
  make_dirent ei.2 ei.1 (uninit D_NAME_SIZE).

Definition short_name (ei : sqfs_dir_entry * sqfs_inode) : Prop :=
  0 <= de_size ei.1 < 255 ∧ Z.of_nat (length (de_name ei.1)) = de_size ei.1 + 1.

(** A name of at most 255 bytes is copied and terminated. *)
Lemma image_dirent_name ei : short_name ei ->
  ∃ d, image_dirent ei = Some d ∧ d_ino d = ino_number ei.2 ∧
    take (S (length (de_name ei.1))) (d_name d) = de_name ei.1 ++ [NUL] ∧ length (d_name d) = 256%nat.
Proof.
  destruct ei as [[ty sz name] i]. unfold short_name, image_dirent, make_dirent. cbn. intros [Hsz Hlen].
  rewrite decide_True by lia. rewrite take_ge by lia.
  assert (Hu : length (uninit D_NAME_SIZE) = 256%nat) by apply uninit_length.
  unfold buf_write. cbn [length]. rewrite decide_True by lia. cbn [mbind option_bind].
  set (b1 := take 0 _ ++ name ++ drop _ _).
  assert (Hb1 : length b1 = 256%nat).
  { unfold b1. rewrite !length_app, length_take, length_drop. lia. }
  rewrite decide_True by (rewrite Hb1; lia). cbn [mbind option_bind].
  assert (Ht : take (Z.to_nat (sz + 1)) b1 = name).
  { unfold b1. rewrite take_0, app_nil_l. rewrite take_app_length'; [done|lia]. }
  rewrite Ht.
  eexists. split; [done|]. cbn. split; [done|]. split.
  - rewrite cons_middle, app_assoc, take_app_length'; [done|]. rewrite length_app. cbn. lia.
  - rewrite length_app. cbn [length]. rewrite length_drop, Hb1. lia.
Qed.

(** ** The cells of a stream being filled *)

(** [h] is [h0] with the entry [p] changed, the [nodes] and their inodes
    added, and the objects [L] added that nobody will release. *)
Record filled (own0 : owners) (h0 : heap) (p : loc) (own : owners) (h : heap) (nodes : list loc)
    (L : gset loc) : Prop := Filled {
  fl_dom : dom h = dom h0 ∪ node_cells h nodes ∪ L;
  fl_new : node_cells h nodes ## dom h0;
  fl_leak : L ## dom h0 ∪ node_cells h nodes;
  fl_kept l : l ∈ dom h0 -> l ≠ p -> own !! l = own0 !! l ∧ h !! l = h0 !! l;
}.

Lemma node_cells_ext h h' nodes :
  (∀ q, q ∈ nodes -> h' !! q = h !! q) -> node_cells h' nodes = node_cells h nodes.
Proof.
  intros Hq. unfold node_cells. f_equal. f_equal. apply list_omap_ext, Forall_Forall2_diag, Forall_forall.
  intros q Hin. unfold node_inode. by rewrite Hq.
Qed.

Lemma filled_start own h p : filled own h p own h [] ∅.
Proof. constructor; try done; unfold node_cells; cbn; set_solver. Qed.

(** An object appears that will not be released. *)
Lemma filled_leak own0 h0 p own h nodes L q o w :
  filled own0 h0 p own h nodes L -> h !! q = None ->
  filled own0 h0 p (<[q := w]> own) (<[q := o]> h) nodes ({[q]} ∪ L) ∧
  size ({[q]} ∪ L) = S (size L).
Proof.
  intros [Hdom Hnew Hleak Hkept] Hq. apply not_elem_of_dom in Hq. rewrite Hdom in Hq.
  assert (Hc : node_cells (<[q:=o]> h) nodes = node_cells h nodes).
  { apply node_cells_ext. intros r Hr. rewrite lookup_insert_ne; [done|]. intros ->.
    apply Hq. rewrite !elem_of_union, elem_node_cells. tauto. }
  split.
  - constructor; rewrite ?Hc; try done; [rewrite dom_insert_L, Hdom; set_solver|set_solver|].
    intros l Hl Hne. assert (q ≠ l) by set_solver. rewrite !lookup_insert_ne by done. by apply Hkept.
  - rewrite size_union, size_singleton by set_solver. done.
Qed.

(** Two objects become a node of the stream and its inode. *)
Lemma filled_append own0 h0 p own h nodes L node ip de i w1 w2 o :
  filled own0 h0 p own h nodes L -> p ∈ dom h0 -> h !! node = None -> h !! ip = None -> ip ≠ node ->
  filled own0 h0 p (<[node := w1]> (<[ip := w2]> own))
    (<[p := o]> (<[node := ODirNode (MkDirNode (Some ip) de)]> (<[ip := OInode i]> h)))
    (nodes ++ [node]) L.
Proof.
  intros [Hdom Hnew Hleak Hkept] Hp Hn Hi Hne.
  apply not_elem_of_dom in Hn, Hi. rewrite Hdom in Hn, Hi. set (h' := <[p := o]> _).
  assert (Hnp : node ≠ p) by set_solver.
  assert (Hc : node_cells h' (nodes ++ [node]) = {[node; ip]} ∪ node_cells h nodes).
  { assert (Hn0 : node_cells h' nodes = node_cells h nodes).
    { apply node_cells_ext. intros r Hr.
      assert (r ∈ node_cells h nodes) by (apply elem_node_cells; by left).
      unfold h'. rewrite !lookup_insert_ne; [done|set_solver..]. }
    assert (Hn1 : node_inode h' node = Some ip).
    { unfold node_inode, h'. rewrite lookup_insert_ne, lookup_insert_eq by done. done. }
    apply leibniz_equiv. intros l. rewrite elem_of_union, elem_of_union, !elem_of_singleton, <- Hn0,
      !elem_node_cells. setoid_rewrite elem_of_app. setoid_rewrite list_elem_of_singleton. split.
    - intros [[?|?]|(q & [?| ->] & Hl)]; [tauto|tauto|right; right; by exists q|].
      rewrite Hn1 in Hl. injection Hl as ->. tauto.
    - intros [[->| ->]|[?|(q & ? & ?)]]; [tauto| |tauto|right; exists q; tauto].
      right. exists node. tauto. }
  constructor; rewrite ?Hc.
  - unfold h'. rewrite !dom_insert_L, Hdom. set_solver.
  - set_solver.
  - set_solver.
  - intros l Hl Hlp. unfold h'. rewrite !lookup_insert_ne by set_solver. by apply Hkept.
Qed.

(** The nodes go away again. *)
Lemma filled_clear own0 h0 p own h nodes L own' h' o :
  filled own0 h0 p own h nodes L -> p ∈ dom h0 ->
  without (node_cells h nodes) h h' -> without (node_cells h nodes) own own' ->
  filled own0 h0 p own' (<[p := o]> h') [] L.
Proof.
  intros [Hdom Hnew Hleak Hkept] Hp Hh Hown.
  assert (Hnil : ∀ g : heap, node_cells g [] = ∅) by done.
  constructor; rewrite ?Hnil; [|set_solver..|].
  - rewrite dom_insert_L, (without_dom _ _ _ Hh), Hdom. apply leibniz_equiv. set_solver.
  - intros l Hl Hne. rewrite lookup_insert_ne by done. rewrite (Hown l), (Hh l).
    rewrite !decide_False by set_solver. by apply Hkept.
Qed.

(** ** What the outside may do meanwhile *)

(** Descriptors may be opened (by logging), no stream is opened or closed. *)
Definition same_dirs (x x' : ext) : Prop := open_fds x ⊆ open_fds x' ∧ open_dirs x' = open_dirs x.

Lemma same_dirs_refl x : same_dirs x x.
Proof. done. Qed.

Lemma same_dirs_trans x y z : same_dirs x y -> same_dirs y z -> same_dirs x z.
Proof. unfold same_dirs. intros [? ->] [? ->]. split; [set_solver|done]. Qed.

Lemma same_dirs_grows x x' : same_dirs x x' -> grows x x'.
Proof. unfold same_dirs, grows. by intros [? ->]. Qed.

Lemma same_open_dirs x x' : same_open x x' -> same_dirs x x'.
Proof. unfold same_open, same_dirs. by intros [-> ->]. Qed.

Lemma keeps_same_dirs {B} (c : foreign ext B) e x b e' x' :
  keeps open_fds open_dirs c -> c e x = (b, e', x') -> same_dirs x x'.
Proof. intros Hc E. by eapply same_open_dirs, keeps_same_open. Qed.

Lemma log_ext_dirs x x' : log_ext x x' -> same_dirs x x'.
Proof.
  induction 1 as [|fd bytes e x y _ IH|path flags mode e x y _ IH]; [apply same_dirs_refl|..].
  - destruct (sys_write fd bytes e x) as [[? ?] ?] eqn:E.
    eapply same_dirs_trans; [eapply keeps_same_dirs; [apply keeps_write|exact E]|done].
  - pose proof (opens_openat path flags mode e x) as Ho.
    destruct (sys_openat path flags mode e x) as [[r ?] x'] eqn:E.
    eapply same_dirs_trans; [|exact IH]. destruct Ho as [Hd Hf]. split; [|done].
    case_match; set_solver.
Qed.

(** ** The loop *)

Section loop.
Context `{HD : !DirSpec}.
Context (t d : Z) (p : loc) (k : nat) (fm dm : gmap Z loc) (mg : sqfs_mgr) (lc : LibcFunctions) (dc fc : Z).
Context (own0 : owners) (h0 : heap) (e : DirMapEntry).
Context (Hdm : dm !! d = Some p) (Hp0 : p ∈ dom h0).
Context (Hcur : dm_entry_current e = []) (Hend : dm_reached_end e = false).

(** The stream holds the list [nodes]. *)
Definition holding (own : owners) (h : heap) (x : ext) (n : loc) (nodes : list loc) (L : gset loc)
    : Prop :=
  wf_with own fm dm x mg h n ∧ h !! p = Some (ODirEntry (set_entry_list nodes e)) ∧
  filled own0 h0 p own h nodes L.

Lemma holding_ext own h x x' n nodes L : grows x x' -> holding own h x n nodes L -> holding own h x' n nodes L.
Proof. intros Hx (Hwf & Hrest). split; [by eapply wf_grows|done]. Qed.

(** After an error the list is released. *)
Lemma wp_clear own h x n nodes L er lf (Q : unit -> world -> Prop) :
  holding own h x n nodes L ->
  (∀ own' h', holding own' h' x n [] L -> Q tt (World x er (mutex_of t (S k)) mg h' n lc dc fc lf)) ->
  wp (free_sqfs_dir_entry_list t p) (World x er (mutex_of t (S k)) mg h n lc dc fc lf) Q.
Proof.
  intros (Hwf & Hp & Hfill) HQ. unfold free_sqfs_dir_entry_list. wp_step. cbn [dm_entry_list set_entry_list].
  destruct (stream_owned _ _ _ _ _ _ _ Hwf d p _ Hdm Hp) as (hd & _ & Hop & _ & _ & Hnodes & Hnd).
  cbn [dm_entry_list set_entry_list] in Hnodes, Hnd.
  apply wp_bind. eapply (wp_free_nodes _ own d); [done..|]. intros h' Hh'.
  destruct (without_exists (node_cells h nodes) own) as [own' Hown'].
  assert (Hp' : h' !! p = Some (ODirEntry (set_entry_list nodes e))).
  { rewrite (Hh' p), decide_False; [done|]. intros Hin. apply (fl_new _ _ _ _ _ _ _ Hfill) in Hin. done. }
  eapply wp_update_entry; [exact Hp'|]. change (set_entry_list [] (set_entry_list nodes e)) with (set_entry_list [] e).
  apply (HQ own'). split; [|split].
  - change (set_entry_list [] e) with (set_entry_list [] (set_entry_list nodes e)).
    by eapply wf_clear_list.
  - apply lookup_insert_eq.
  - by eapply filled_clear.
Qed.

(** An object appears that will not be released. *)
Lemma holding_leak own h x n n' nodes L q o :
  holding own h x n nodes L -> h !! q = None -> (q < n')%positive -> (n <= n')%positive ->
  holding (<[q := OwnLeaked]> own) (<[q := o]> h) x n' nodes ({[q]} ∪ L) ∧
  size ({[q]} ∪ L) = S (size L).
Proof.
  intros (Hwf & Hp & Hfill) Hq Hlt Hle.
  destruct (filled_leak _ _ _ _ _ _ _ q o OwnLeaked Hfill Hq) as [Hfill' Hsize].
  split; [|done]. split; [by eapply wf_alloc|]. split; [|done].
  rewrite lookup_insert_ne; [done|]. intros ->. by rewrite Hp in Hq.
Qed.

Lemma holding_next own h x n n' nodes L :
  holding own h x n nodes L -> (n <= n')%positive -> holding own h x n' nodes L.
Proof. intros (Hwf & Hrest) Hle. split; [by eapply wf_next|done]. Qed.

Lemma holding_fresh own h x n nodes L q : holding own h x n nodes L -> (n <= q)%positive -> h !! q = None.
Proof.
  intros (Hwf & _) Hle. apply (wf_next _ _ _ _ _ _ _ q) in Hwf; [|done]. by eapply wf_own_fresh.
Qed.

Lemma insert_over {A} (m : gmap loc A) i j (a b c : A) :
  i ≠ j -> <[i := a]> (<[j := b]> (<[i := c]> m)) = <[i := a]> (<[j := b]> m).
Proof. intros Hij. by rewrite (insert_insert_ne m j i), insert_insert_eq. Qed.

(** One round of the loop: the entry read, the node and the inode. *)
Lemma holding_round own h x n nodes L de u i dt :
  holding own h x n nodes L ->
  let node := Pos.succ n in
  let ip := Pos.succ node in
  let h' := <[p := ODirEntry (set_entry_list (nodes ++ [node]) e)]>
    (<[node := ODirNode (MkDirNode (Some ip) dt)]> (<[ip := OInode i]>
      (<[node := u]> (<[n := OSqfsDirEntry de]> h)))) in
  (∃ own', holding own' h' x (Pos.succ ip) (nodes ++ [node]) ({[n]} ∪ L)) ∧
  size ({[n]} ∪ L) = S (size L) ∧ node_dirent h' node = Some dt ∧
  ∀ q, q ∈ nodes -> node_dirent h' q = node_dirent h q.
Proof.
  intros Hh node ip h'.
  assert (Hf : ∀ q, (n <= q)%positive -> h !! q = None) by (intros; by eapply holding_fresh).
  destruct (holding_leak _ _ _ _ (Pos.succ ip) _ _ n (OSqfsDirEntry de) Hh) as [Hh1 Hsize];
    [by apply Hf|lia|lia|].
  destruct Hh1 as (Hwf1 & Hp1 & Hfill1).
  assert (Hpn : p ≠ node) by (intros ->; rewrite lookup_insert_ne, Hf in Hp1 by lia; done).
  set (h1 := <[n := OSqfsDirEntry de]> h) in *. set (own1 := <[n := OwnLeaked]> own) in *.
  assert (Hi1 : h1 !! ip = None) by (unfold h1; rewrite lookup_insert_ne by lia; apply Hf; lia).
  assert (Hn1 : h1 !! node = None) by (unfold h1; rewrite lookup_insert_ne by lia; apply Hf; lia).
  assert (Hne : node ≠ ip) by lia.
  unfold h'. rewrite insert_over by done.
  destruct (wf_alloc _ _ _ _ _ _ _ ip (Pos.succ ip) (OInode i) OwnLeaked Hwf1) as [Hwf2 _]; [done|lia..|].
  destruct (wf_alloc _ _ _ _ _ _ _ node (Pos.succ ip) (ODirNode (MkDirNode (Some ip) dt)) OwnLeaked Hwf2)
    as [Hwf3 _]; [by rewrite lookup_insert_ne|lia..|].
  split; [|split; [done|split]].
  - exists (<[node := OwnDir d]> (<[ip := OwnNode node]> own1)). split; [|split].
    + pose proof (wf_append_node _ _ _ _ _ _ _ Hwf3 d p (set_entry_list nodes e) Hdm) as Happ.
      rewrite !(lookup_insert_ne _ _ p) in Happ by (congruence || (intros ->; congruence)).
      specialize (Happ Hp1 Hcur Hend node ip dt i). rewrite insert_over, insert_insert_eq in Happ by done.
      apply Happ; rewrite ?lookup_insert_eq; try done; by rewrite lookup_insert_ne, lookup_insert_eq.
    + apply lookup_insert_eq.
    + by apply filled_append.
  - unfold node_dirent. by rewrite lookup_insert_ne, lookup_insert_eq.
  - intros q Hq. destruct Hh as (_ & Hp & Hfill). unfold node_dirent, h1.
    assert (q ∈ dom h ∧ q ≠ p) as [Hqh Hqp].
    { assert (Hc : q ∈ node_cells h nodes) by (apply elem_node_cells; by left). split.
      - rewrite (fl_dom _ _ _ _ _ _ _ Hfill). set_solver.
      - intros ->. by apply (fl_new _ _ _ _ _ _ _ Hfill p). }
    assert (Hrq : ∀ r, (n <= r)%positive -> r ≠ q).
    { intros r Hr ->. apply elem_of_dom in Hqh as [? Hqh]. by rewrite Hf in Hqh. }
    rewrite !lookup_insert_ne; [done|..]; (by apply not_eq_sym) || (apply Hrq; lia).
Qed.

(** What holds when the loop is left: the list is complete, or empty because a
    call failed. *)
Definition enum_post x er h n nodes (L : gset loc) left (Q : unit -> world -> Prop) : Prop :=
  ∀ x' er' lf' own' h' n' nodes' L',
    same_dirs x x' -> errno_frame t er er' -> holding own' h' x' n' nodes' L' -> (n <= n')%positive ->
    (size L' <= size L + length left)%nat ->
    (nodes' = [] ∧ read_fails left) ∨ (size L' = (size L + length left)%nat ∧ ∀ ds, mapM (node_dirent h) nodes = Some ds ->
      ∃ dl, mapM image_dirent left = Some dl ∧ mapM (node_dirent h') nodes' = Some (ds ++ dl)) ->
    Q tt (World x' er' (mutex_of t (S k)) mg h' n' lc dc fc lf').

(** The list is given up. *)
Lemma enum_post_clear x er h n nodes L left Q x' er' lf' own' h' n' nodes' L' :
  read_fails left -> enum_post x er h n nodes L left Q -> same_dirs x x' -> errno_frame t er er' ->
  holding own' h' x' n' nodes' L' -> (n <= n')%positive -> (size L' <= size L + length left)%nat ->
  wp (free_sqfs_dir_entry_list t p) (World x' er' (mutex_of t (S k)) mg h' n' lc dc fc lf') Q.
Proof.
  intros Hrf HQ Hx Her Hh Hn Hsz. eapply wp_clear; [exact Hh|]. intros own2 h2 Hh2.
  eapply HQ; try done. by left.
Qed.

(** The calls of the loop and the position of the directory reader. *)
Lemma dir_read_eq hd e0 x ret de e' x' :
  sqfs_dir_reader_read hd e0 x = (ret, de, e', x') ->
  same_dirs x x' ∧ (ret < 0 ∨ (0 < ret ∧ dir_left x hd = []) ∨ (ret = 0 ∧ ∃ i rest,
    dir_left x hd = (de, i) :: rest ∧ dir_left x' hd = rest ∧ dir_current x' hd = Some i)).
Proof.
  intros E. split; [by eapply keeps_same_dirs; [apply keeps_dir_read|]|].
  pose proof (dir_read_spec hd e0 x) as Hs. by rewrite E in Hs.
Qed.

Lemma get_inode_eq hd e0 x ret i e' x' :
  sqfs_dir_reader_get_inode hd e0 x = (ret, i, e', x') ->
  same_dirs x x' ∧ (ret = 0 -> dir_current x hd = Some i) ∧ dir_left x' hd = dir_left x hd.
Proof.
  intros E. split; [by eapply keeps_same_dirs; [apply keeps_get_inode|]|].
  pose proof (get_inode_spec hd e0 x) as Hs. by rewrite E in Hs.
Qed.

Lemma malloc_eq hd e0 x b e' x' : malloc_ok e0 x = (b, e', x') ->
  same_dirs x x' ∧ dir_left x' hd = dir_left x hd ∧ dir_current x' hd = dir_current x hd.
Proof.
  intros E. split; [by eapply keeps_same_dirs; [apply keeps_malloc|]|].
  pose proof (dir_keeps_malloc e0 x hd) as Hs. by rewrite E in Hs.
Qed.

Lemma reader_handle own h x n nodes L : holding own h x n nodes L ->
  ∃ hd, h !! dm_dir_reader e = Some (OHandle hd).
Proof.
  intros (Hwf & Hp & _). destruct (stream_owned _ _ _ _ _ _ _ Hwf d p _ Hdm Hp) as (hd & _ & _ & Hr & _).
  by exists hd.
Qed.

(** The loop with fuel [m], from any state of the directory reader. *)
Definition enum_ok (hd : handle) (m : nat) : Prop := ∀ x er lf own h n nodes L Q,
  (length (dir_left x hd) < m)%nat -> Forall short_name (dir_left x hd) ->
  holding own h x n nodes L -> h !! dm_dir_reader e = Some (OHandle hd) ->
  enum_post x er h n nodes L (dir_left x hd) Q ->
  wp (enumerate_loop t m (dm_dir_reader e) p) (World x er (mutex_of t (S k)) mg h n lc dc fc lf) Q.

(** The end of a round: the node gets its inode and its name, and the loop
    goes on. *)
Definition append_node (m : nat) (node : loc) (de : sqfs_dir_entry) (i : sqfs_inode) : prog world unit :=
  do inode <- heap_alloc t (OInode i);
  do nd <- load t as_dir_node node;
  match make_dirent i de (d_name (dn_dirent nd)) with
  | None => fault
  | Some dt =>
      store t node (ODirNode (MkDirNode (Some inode) dt)) ;;
      do en <- load t as_dir_entry p;
      store t p (ODirEntry (set_entry_list (dm_entry_list en ++ [node]) en)) ;;
      enumerate_loop t m (dm_dir_reader e) p
  end.

Lemma wp_append_node hd m x0 er0 x er lf own h n nodes L de i rest Q :
  enum_ok hd m -> (length rest < m)%nat -> short_name (de, i) -> Forall short_name rest ->
  dir_left x hd = rest -> same_dirs x0 x -> errno_frame t er0 er ->
  holding own h x n nodes L -> h !! dm_dir_reader e = Some (OHandle hd) ->
  enum_post x0 er0 h n nodes L ((de, i) :: rest) Q ->
  wp (append_node m (Pos.succ n) de i) (World x er (mutex_of t (S k)) mg
        (<[Pos.succ n := ODirNode uninit_node]> (<[n := OSqfsDirEntry de]> h)) (Pos.succ (Pos.succ n))
        lc dc fc lf) Q.
Proof.
  intros IH Hm Hde Hshort Hl Hx Her Hh Hr HQ. unfold append_node.
  apply wp_bind, wp_heap_alloc. apply wp_bind.
  eapply wp_load; [by rewrite lookup_insert_ne, lookup_insert_eq by lia|reflexivity|].
  destruct (image_dirent_name (de, i) Hde) as (dt & Hdt & _). unfold image_dirent in Hdt. cbn [fst snd] in Hdt.
  cbn [dn_dirent uninit_node d_name]. rewrite Hdt.
  apply wp_bind. eapply wp_store; [by rewrite lookup_insert_ne, lookup_insert_eq by lia|].
  destruct (holding_round _ _ _ _ _ _ de (ODirNode uninit_node) i dt Hh) as ((own' & Hh') & Hsize & Hdn & Hdo).
  assert (Hf : ∀ q, (n <= q)%positive -> h !! q = None) by (intros; by eapply holding_fresh).
  pose proof Hh as (_ & Hp & _).
  assert (Hpn : ∀ q, (n <= q)%positive -> q ≠ p) by (intros q Hq ->; by rewrite Hf in Hp).
  assert (Hrn : ∀ q, (n <= q)%positive -> q ≠ dm_dir_reader e) by (intros q Hq ->; by rewrite Hf in Hr).
  apply wp_bind. eapply wp_load; [by rewrite !lookup_insert_ne by (apply Hpn; lia)|reflexivity|].
  cbn [dm_entry_list set_entry_list]. apply wp_bind. eapply wp_store.
  { by rewrite !lookup_insert_ne by (apply Hpn; lia). }
  eapply IH; rewrite ?Hl; [done|done|exact Hh'| |].
  { rewrite lookup_insert_ne by (intros E; rewrite E in Hp; congruence).
    by rewrite !lookup_insert_ne by (apply Hrn; lia). }
  intros x' er' lf' own2 h2 n2 nodes2 L2 Hx' Her' Hh2 Hn2 Hsz Hfin.
  eapply HQ; [by eapply same_dirs_trans|by eapply errno_frame_trans|exact Hh2|lia|cbn [length]; lia|].
  destruct Hfin as [[? ?]|[Hsz' Hds]]; [left; split; [done|by apply read_fails_cons]|].
  right. split; [cbn [length]; lia|].
  intros ds Hnodes. destruct (Hds (ds ++ [dt])) as (dl & Hdl & Hfinal).
  { apply mapM_app_Some; [|apply mapM_Some, Forall2_cons; split; [exact Hdn|constructor]].
    rewrite (Forall_mapM_ext _ (node_dirent h) nodes); [done|]. apply Forall_forall. exact Hdo. }
  exists (dt :: dl). split; [|by rewrite <- app_assoc in Hfinal].
  apply mapM_Some, Forall2_cons. split; [exact Hdt|]. by apply mapM_Some.
Qed.

(** A round after the entry was read. *)
Definition enum_round (m : nat) (dir_entry : loc) (de : sqfs_dir_entry) : prog world unit :=
  do node <- malloc t (ODirNode uninit_node);
  match node with
  | None =>
      log_msg t (line (lit "  malloc failed for dir entry")) ;;
      sqfs_free t (Some dir_entry) ;;
      free_sqfs_dir_entry_list t p
  | Some node =>
      do h <- load t as_handle (dm_dir_reader e);
      do '(ret, i) <- call t (sqfs_dir_reader_get_inode h);
      if negb (ret =? 0) then
        log_msg t (line (lit "  " ++ take (Z.to_nat (de_size de + 1)) (de_name de)
                         ++ lit " size=? head16=<inode error " ++ dec ret ++ lit ">")) ;;
        sqfs_free t (Some dir_entry) ;;
        free_sqfs_dir_entry_list t p
      else append_node m node de i
  end.

Lemma wp_enum_round hd m x0 er0 x er lf own h n nodes L de i rest Q :
  enum_ok hd m -> (length rest < m)%nat -> short_name (de, i) -> Forall short_name rest ->
  dir_left x hd = rest -> dir_current x hd = Some i -> same_dirs x0 x -> errno_frame t er0 er ->
  holding own h x n nodes L -> h !! dm_dir_reader e = Some (OHandle hd) ->
  enum_post x0 er0 h n nodes L ((de, i) :: rest) Q ->
  wp (enum_round m n de) (World x er (mutex_of t (S k)) mg (<[n := OSqfsDirEntry de]> h) (Pos.succ n)
        lc dc fc lf) Q.
Proof.
  intros IH Hm Hde Hshort Hl Hcurr Hx Her Hh Hr HQ. unfold enum_round.
  assert (Hf : ∀ q, (n <= q)%positive -> h !! q = None) by (intros; by eapply holding_fresh).
  assert (Hrn : ∀ q, (n <= q)%positive -> q ≠ dm_dir_reader e) by (intros q Hq ->; by rewrite Hf in Hr).
  apply wp_bind, wp_malloc; intros e2 x2 E2; destruct (malloc_eq hd _ _ _ _ _ E2) as (Hx2 & Hl2 & Hc2);
    cbn [w_ext] in Hx2, Hl2, Hc2; cbn beta iota;
    apply (holding_ext _ _ _ _ _ _ _ (same_dirs_grows _ _ Hx2)) in Hh;
    apply (same_dirs_trans _ _ _ Hx) in Hx2.
  2:{ (* no memory for the node *)
    wp_step. intros x3 er3 lf3 Hx3%log_ext_dirs Her3. apply wp_bind.
    eapply wp_sqfs_free; [apply lookup_insert_eq|]. rewrite delete_insert_id by (apply Hf; lia).
    eapply enum_post_clear with (L' := L); [by eapply rf_memory|exact HQ|by eapply same_dirs_trans| |
      |apply Pos.lt_le_incl, Pos.lt_succ_diag_r|cbn [length]; lia].
    - eapply errno_frame_trans; [exact Her|]. by eapply errno_frame_insert_l.
    - eapply holding_next; [|apply Pos.lt_le_incl, Pos.lt_succ_diag_r].
      eapply holding_ext; [by apply same_dirs_grows|exact Hh]. }
  apply wp_bind. eapply wp_load; [by rewrite !lookup_insert_ne by (apply Hrn; lia)|reflexivity|].
  wp_step. intros [ret3 i3] e3 x3 E3. destruct (get_inode_eq _ _ _ _ _ _ _ E3) as (Hx3 & Hi3 & Hl3).
  cbn [w_ext w_errno] in *. cbn beta iota.
  apply (holding_ext _ _ _ _ _ _ _ (same_dirs_grows _ _ Hx3)) in Hh.
  apply (same_dirs_trans _ _ _ Hx2) in Hx3.
  destruct (Z.eqb_spec ret3 0) as [->|Hret3]; cbn [negb].
  - specialize (Hi3 eq_refl). assert (i3 = i) as -> by congruence.
    eapply (wp_append_node hd m x0 er0); try done; [congruence|].
    eapply errno_frame_trans; [exact Her|]. by do 2 apply errno_frame_insert.
  - (* no inode: the node stays behind *)
    wp_step. intros x4 er4 lf4 Hx4%log_ext_dirs Her4. apply wp_bind.
    eapply wp_sqfs_free; [by rewrite lookup_insert_ne, lookup_insert_eq by lia|].
    rewrite delete_insert_ne by lia. rewrite delete_insert_id by (apply Hf; lia).
    apply (holding_ext _ _ _ _ _ _ _ (same_dirs_grows _ _ Hx4)) in Hh.
    destruct (holding_leak _ _ _ _ (Pos.succ (Pos.succ n)) _ _ (Pos.succ n) (ODirNode uninit_node) Hh)
      as [Hh' Hsize]; [apply Hf; lia|lia|lia|].
    assert (read_fails ((de, i) :: rest)).
    { eapply rf_inode; [|eexists; by rewrite Hc2|exact E3|exact Hret3]. rewrite Hl2, Hl. by apply suffix_cons_r. }
    eapply enum_post_clear; [done|exact HQ|by eapply same_dirs_trans| |exact Hh'|lia|cbn [length]; rewrite Hsize; lia].
    eapply errno_frame_trans; [exact Her|]. by do 2 eapply errno_frame_insert_l.
Qed.

Lemma wp_enumerate_loop hd m : enum_ok hd m.
Proof.
  induction m as [|m IH]; intros x er lf own h n nodes L Q Hm Hshort Hh Hr HQ; [lia|].
  cbn [enumerate_loop]. do 2 wp_step. intros [ret de] e1 x1 E1.
  destruct (dir_read_eq _ _ _ _ _ _ _ E1) as [Hx1 Hread]. cbn [w_ext w_errno] in *. cbn beta iota.
  apply (holding_ext _ _ _ _ _ _ _ (same_dirs_grows _ _ Hx1)) in Hh.
  destruct (Z.ltb_spec 0 ret).
  { wp_step. eapply HQ; try done; [by apply errno_frame_insert|lia|].
    destruct Hread as [?|[[_ ->]|[? _]]]; [lia| |lia]. right. split; [done|].
    intros ds Hds. exists []. by rewrite app_nil_r. }
  destruct (Z.ltb_spec ret 0).
  { unfold sqfs_util_log_failure. wp_step. intros x2 er2 lf2 Hx2%log_ext_dirs Her2.
    eapply enum_post_clear with (L' := L);
      [by eapply (rf_read _ hd)|exact HQ|by eapply same_dirs_trans|by eapply errno_frame_insert_l| |done|lia].
    eapply holding_ext; [by apply same_dirs_grows|exact Hh]. }
  destruct Hread as [?|[[? _]|(_ & i & rest & Hleft & Hrest & Hcurr)]]; [lia|lia|].
  rewrite Hleft in Hm, Hshort, HQ. cbn [length] in Hm. apply Forall_cons in Hshort as [Hde Hshort].
  apply wp_bind, wp_heap_alloc.
  eapply (wp_enum_round hd m x er); try done; [lia|by apply errno_frame_insert].
Qed.

End loop.
End facts.
