(* ===== verification/OpendirSteps.v ===== *)
(** * opendir: outcomes and steps

    The possible outcomes of [sqfs_opendir] on a path of the image, and each
    part of the function executed on an explicit state: every path ends in one
    of them. *)

From S2P Require Import Prelude CString Posix Path Prog Foreign State Logging Kernel Backing Inode.
From S2P Require Import Image FdOps DirOps StateFacts Seek Invariant ImageFacts MountFacts.
From S2P Require Import Demo BackingProps DirFacts OpendirFacts EnumFacts.

Section props.
Context `{HP : Platform} `{HU : UtHash} `{HS : !UtHashSpec} `{HE : Ext} `{HK : !KernelSpec}
  `{HF : Fuel} `{HW : !WriteSpec} `{HD : !DirSpec}.

(** Stream [u] was opened, or none when it is null. *)
Definition opened (x x' : ext) (u : Z) : Prop :=
  open_fds x ⊆ open_fds x' ∧
  if u =? 0 then open_dirs x' = open_dirs x else u ∉ open_dirs x ∧ open_dirs x' = {[u]} ∪ open_dirs x.

Lemma opened_r x y z u : opened x y u -> same_dirs y z -> opened x z u.
Proof. unfold opened, same_dirs. intros [? Hu] [? ->]. split; [set_solver|done]. Qed.

Lemma new_dir_opened x y u : new_dir x y u -> opened x y u.
Proof. intros [Hf Hd]. split; [by rewrite Hf|done]. Qed.

Lemma opened_null x y z d : opened x y 0 -> new_dir y z d -> opened x z d.
Proof. unfold opened, new_dir. intros [Hf Hd] [Hf' Hd']. rewrite Hd in Hd'. split; [set_solver|done]. Qed.

Lemma opened_grows x y u : opened x y u -> grows x y.
Proof. intros [Hf Hd]. split; [done|]. case_match; [by rewrite Hd|]. destruct Hd as [_ ->]. set_solver. Qed.

Lemma opened_closed x y u a e b e' z : opened x y u -> u ≠ 0 ->
  call_closedir a u e y = (b, e', z) -> same_dirs x z.
Proof.
  intros [Hf Hd] Hu E. rewrite (proj2 (Z.eqb_neq u 0)) in Hd by done. destruct Hd as [Hni Hd].
  pose proof (closes_dir a u e y) as [Hcf Hcd]. rewrite E in Hcf, Hcd. cbn [snd] in Hcf, Hcd.
  split; [by rewrite Hcf|]. rewrite Hcd, Hd. apply leibniz_equiv. set_solver.
Qed.

(** ** Outcomes *)

Definition is_dir_inode (i : sqfs_inode) : bool :=
  (ino_type i =? SQFS_INODE_DIR) || (ino_type i =? SQFS_INODE_EXT_DIR).

(** Why no stream was returned, by the error number. *)
Inductive opendir_error (real : bool) (loaded : Prop) (rel : cstr) : Z -> Prop :=
| oe_memory : loaded -> opendir_error real loaded rel ENOMEM
| oe_find e : real = false -> find_error loaded rel e -> opendir_error real loaded rel e
| oe_not_dir i : found rel i -> is_dir_inode i = false -> opendir_error real loaded rel ENOTDIR
| oe_open i ret h e x e' x' : found rel i -> is_dir_inode i = true ->
    sqfs_dir_reader_open_dir h i 0 e x = (ret, e', x') -> ret ≠ 0 ->
    opendir_error real loaded rel (errno_from_sqfs ret)
| oe_backing i e : real = false -> found rel i -> is_dir_inode i = true -> opendir_error real loaded rel e.

(** The outcome of [opendir] on a path of the image; [u] is the real stream,
    or null, and [w] the world before the call. *)
Inductive opendir_outcome (t u : Z) (rel : cstr) (w : world) : Z -> world -> Prop :=
| od_upper e w' : u ≠ 0 -> find_error (image_loaded w) rel e -> errno_of t w' = 0 ->
    touches none none t w w' -> live w' = live w -> opened (w_ext w) (w_ext w') u ->
    opendir_outcome t u rel w u w'
| od_fail w' : opendir_error (negb (u =? 0)) (image_loaded w) rel (errno_of t w') ->
    touches none none t w w' -> live w' = live w -> same_dirs (w_ext w) (w_ext w') ->
    opendir_outcome t u rel w 0 w'
| od_ok d i ds (L : gset loc) w' : found rel i -> is_dir_inode i = true ->
    d ≠ 0 -> (u ≠ 0 -> d = u) -> opened (w_ext w) (w_ext w') d ->
    dir_view w d = None -> dir_view w' d = Some (negb (u =? 0), ds) ->
    (size L <= length (dir_entries i))%nat ->
    (ds = [] ∧ read_fails (dir_entries i)) ∨ (mapM image_dirent (dir_entries i) = Some ds ∧ size L = length (dir_entries i)) ->
    touches none (eq d) t w w' ->
    live w' = live w ∪ dir_cells w' d ∪ L -> L ## live w ∪ dir_cells w' d -> dir_cells w' d ## live w ->
    opendir_outcome t u rel w d w'.

(** ** The failing paths *)

Section paths.
Context (t u : Z) (rel : cstr) (own : gmap loc owner) (fm dm : gmap Z loc) (k : nat).
Context (xb : ext) (erb : gmap Z Z) (mg : sqfs_mgr) (h : gmap loc obj) (n : loc).
Context (lc : LibcFunctions) (dc fc : Z) (lf : option Z).
Context (Hwf : wf_with own fm dm xb mg h n) (Hlc : lf_closedir lc ≠ 0) (Hlo : lf_opendir lc ≠ 0).

Abbreviation before := (World xb erb (mutex_of t k) mg h n lc dc fc lf).
Abbreviation outcome := (opendir_outcome t u rel before).
Abbreviation failure := (opendir_error (negb (u =? 0)) (image_loaded before) rel).

Lemma fail_outcome x' er' n' dc' fc' lf' :
  same_dirs xb x' -> errno_frame t erb er' -> (n <= n')%positive -> failure (default 0 (er' !! t)) ->
  outcome 0 (World x' er' (mutex_of t k) mg h n' lc dc' fc' lf').
Proof.
  intros Hx Her Hn He. apply od_fail; [done| |done|done].
  eapply touches_same; [done|done|by apply same_dirs_grows|done].
Qed.

(** [out_unlock_only] without a result; [v] is the stream to close. *)
Lemma wp_fail_unlock v x er n' dc' fc' lf' :
  opened xb x v -> errno_frame t erb er -> (n <= n')%positive -> failure (default 0 (er !! t)) ->
  wp (opendir_unlock t v 0) (World x er (mutex_of t (S k)) mg h n' lc dc' fc' lf') outcome.
Proof.
  intros Hx Her Hn He. unfold opendir_unlock, sqfs_unlock. do 2 wp_step.
  rewrite Z.eqb_refl, andb_true_r. destruct (Z.eqb_spec v 0) as [->|Hv]; cbn [negb].
  - do 2 wp_step. by apply fail_outcome.
  - apply wp_bind, wp_bind, wp_libc_call; [done|]. intros b e x' E.
    do 2 wp_step. apply fail_outcome; [by eapply opened_closed|by do 2 apply errno_frame_insert|done|].
    by rewrite lookup_insert_eq.
Qed.

Context (rd : loc) (hd : handle) (Hrd : h !! rd = None).

(** [out] after the inode was found. *)
Lemma wp_fail_out v ip i x er n' dc' fc' lf' :
  h !! ip = None -> ip ≠ rd ->
  opened xb x v -> errno_frame t erb er -> (n <= n')%positive -> failure (default 0 (er !! t)) ->
  wp (opendir_out t v (Some ip) rd)
    (World x er (mutex_of t (S k)) mg (<[ip := OInode i]> (<[rd := OHandle hd]> h)) n' lc dc' fc' lf') outcome.
Proof.
  intros Hip Hne Hx Her Hn He. unfold opendir_out. wp_step.
  apply wp_bind. eapply wp_sqfs_free; [apply lookup_insert_eq|].
  rewrite delete_insert_id by by rewrite lookup_insert_ne.
  apply wp_bind. eapply wp_sqfs_destroy; [apply lookup_insert_eq|]. intros e x' Hx'.
  rewrite delete_insert_id by done. wp_step.
  apply wp_fail_unlock; [eapply opened_r; [done|by apply same_open_dirs]|by do 2 apply errno_frame_insert|done|].
  by rewrite lookup_insert_eq.
Qed.

(** [out] when no inode was found. *)
Lemma wp_fail_out_none v x er n' dc' fc' lf' :
  opened xb x v -> errno_frame t erb er -> (n <= n')%positive -> failure (default 0 (er !! t)) ->
  wp (opendir_out t v None rd)
    (World x er (mutex_of t (S k)) mg (<[rd := OHandle hd]> h) n' lc dc' fc' lf') outcome.
Proof.
  intros Hx Her Hn He. unfold opendir_out. wp_step. unfold sqfs_free at 1. wp_step.
  apply wp_bind. eapply wp_sqfs_destroy; [apply lookup_insert_eq|]. intros e x' Hx'.
  rewrite delete_insert_id by done. wp_step.
  apply wp_fail_unlock; [eapply opened_r; [done|by apply same_open_dirs]|by do 2 apply errno_frame_insert|done|].
  by rewrite lookup_insert_eq.
Qed.

(** ** The stream is registered and filled *)

Context (ip : loc) (i : sqfs_inode) (Hip : h !! ip = None) (Hipn : ip ≠ rd).
Context (Hfound : found rel i) (Hdir : is_dir_inode i = true).

Section filling.
Context (d : Z) (p : loc) (Hp : h !! p = None) (Hpr : p ≠ rd) (Hpi : p ≠ ip) (Hd0 : d ≠ 0).
Context (Hud : u ≠ 0 -> d = u).

Abbreviation entry := (MkDirMapEntry d rd (negb (u =? 0)) [] [] false).
Abbreviation h2 := (<[p := ODirEntry entry]> (<[ip := OInode i]> (<[rd := OHandle hd]> h))).
Abbreviation own1 := (<[p := OwnLeaked]> (<[ip := OwnLeaked]> (<[rd := OwnLeaked]> own))).
Abbreviation own2 := (<[p := OwnDir d]> (<[rd := OwnDir d]> own1)).
Abbreviation mg2 := (set_dir_map (hash_add d p (m_dir_map mg)) mg).

(** A stream that was just opened is in no table. *)
Lemma opened_unmapped x : opened xb x d -> dm !! d = None.
Proof.
  intros [_ Hd]. rewrite (proj2 (Z.eqb_neq d 0)) in Hd by done.
  destruct (dm !! d) as [q|] eqn:E; [|done].
  destruct (wf_open_dirs _ _ _ _ _ _ _ Hwf _ _ E) as [_ Hin]. by destruct Hd.
Qed.

Lemma registered x n2 :
  opened xb x d -> (rd < n2)%positive -> (ip < n2)%positive -> (p < n2)%positive -> (n <= n2)%positive ->
  holding p fm (<[d := p]> dm) mg2 own2 h2 entry own2 h2 x n2 [] ∅ ∧
  cells_kept (λ o, o ≠ OwnLeaked) own own2 h h2.
Proof.
  intros Hx Hr Hi Hpn Hn. pose proof (opened_unmapped _ Hx) as Hdm.
  destruct (wf_alloc _ _ _ _ _ _ _ rd n2 (OHandle hd) OwnLeaked Hwf) as [Hwf1 Hk1]; [done..|].
  destruct (wf_alloc _ _ _ _ _ _ _ ip n2 (OInode i) OwnLeaked Hwf1) as [Hwf2 Hk2];
    [by rewrite lookup_insert_ne|done|lia|].
  destruct (wf_alloc _ _ _ _ _ _ _ p n2 (ODirEntry entry) OwnLeaked Hwf2) as [Hwf3 Hk3];
    [by rewrite !lookup_insert_ne|done|lia|].
  apply (wf_grows _ _ _ _ _ _ _ _ (opened_grows _ _ _ Hx)) in Hwf3.
  destruct (wf_add_dir _ _ _ _ _ _ _ Hwf3 d p rd (negb (u =? 0)) hd) as [Hwf4 Hk4]; [done|done|..].
  - destruct Hx as [_ Hx]. rewrite (proj2 (Z.eqb_neq d 0)) in Hx by done. set_solver.
  - apply lookup_insert_eq.
  - apply lookup_insert_eq.
  - rewrite !lookup_insert_ne by done. apply lookup_insert_eq.
  - rewrite !lookup_insert_ne by done. apply lookup_insert_eq.
  - split; [split; [done|split; [apply lookup_insert_eq|apply filled_start]]|].
    intros l o Hl Ho. destruct (Hk1 (λ _, True) _ _ Hl) as [Hl1 E1]; [done|].
    destruct (Hk2 (λ _, True) _ _ Hl1) as [Hl2 E2]; [done|].
    destruct (Hk3 (λ _, True) _ _ Hl2) as [Hl3 E3]; [done|].
    destruct (Hk4 _ _ Hl3 Ho) as [Hl4 _]. split; [done|congruence].
Qed.

(** The stream at the end: the inode is released. *)
Section final.
Context (x4 : ext) (own4 : gmap loc owner) (h4 : gmap loc obj) (n4 : loc) (nodes : list loc) (L : gset loc).
Context (Hkept : cells_kept (λ o, o ≠ OwnLeaked) own own2 h h2).
Context (Hh : holding p fm (<[d := p]> dm) mg2 own2 h2 entry own4 h4 x4 n4 nodes L).

Lemma kept_cell l : l ∈ dom h2 -> l ≠ p -> own4 !! l = own2 !! l ∧ h4 !! l = h2 !! l ∧ l ∉ node_cells h4 nodes.
Proof.
  destruct Hh as (_ & _ & [Hdom Hnew Hleak Hk]). intros Hl Hne. destruct (Hk l Hl Hne) as [? ?].
  split; [done|]. split; [done|]. set_solver.
Qed.

Lemma final_ip : own4 !! ip = Some OwnLeaked ∧ ip ∉ node_cells h4 nodes.
Proof.
  destruct (kept_cell ip) as (Ho & _ & Hn); [|done|].
  - rewrite !dom_insert_L. set_solver.
  - split; [|done]. rewrite Ho. by simplify_map_eq.
Qed.

Lemma final_inode : h4 !! ip = Some (OInode i).
Proof.
  destruct (kept_cell ip) as (_ & -> & _); [|done|by simplify_map_eq].
  rewrite !dom_insert_L. set_solver.
Qed.

Lemma final_nodes : node_cells (delete ip h4) nodes = node_cells h4 nodes ∧
  mapM (node_dirent (delete ip h4)) nodes = mapM (node_dirent h4) nodes.
Proof.
  destruct final_ip as [_ Hn].
  assert (Hq : ∀ q, q ∈ nodes -> delete ip h4 !! q = h4 !! q).
  { intros q Hq. rewrite lookup_delete_ne; [done|]. intros ->. apply Hn, elem_node_cells. by left. }
  split; [by apply node_cells_ext|]. apply Forall_mapM_ext, Forall_forall. intros q Hin.
  unfold node_dirent. by rewrite Hq.
Qed.

Lemma final_wf : wf_with (delete ip own4) fm (<[d := p]> dm) x4 mg2 (delete ip h4) n4.
Proof. apply wf_drop; [apply Hh|apply final_ip]. Qed.

Lemma final_entry : delete ip h4 !! p = Some (ODirEntry (set_entry_list nodes entry)).
Proof. rewrite lookup_delete_ne by congruence. apply Hh. Qed.

Lemma final_kept : cells_kept (λ o, o ≠ OwnLeaked ∧ o ≠ OwnDir d) own (delete ip own4) h (delete ip h4).
Proof.
  intros l o Hl [Ho1 Ho2]. destruct (Hkept _ _ Hl Ho1) as [Hl2 E2].
  assert (Hlp : l ≠ p) by (intros ->; rewrite lookup_insert_eq in Hl2; congruence).
  assert (is_Some (h !! l)) as Hlh by (apply (wf_dom _ _ _ _ _ _ _ Hwf); by eexists).
  destruct (kept_cell l) as (Ho & E & _); [by apply elem_of_dom; rewrite E2|done|].
  assert (l ≠ ip) by (intros ->; rewrite Hip in Hlh; by destruct Hlh).
  rewrite !lookup_delete_ne by congruence. split; congruence.
Qed.

Abbreviation final er4 dc' fc' lf' := (World x4 er4 (mutex_of t k) mg2 (delete ip h4) n4 lc dc' fc' lf').

Lemma final_cells er4 dc' fc' lf' :
  dir_cells (final er4 dc' fc' lf') d = {[p; rd]} ∪ node_cells h4 nodes.
Proof.
  unfold dir_cells. cbn [w_mgr w_heap].
  rewrite (hash_find_spec _ _ _ (wf_dm _ _ _ _ _ _ _ final_wf)), lookup_insert_eq.
  rewrite final_entry. cbn [mbind option_bind as_dir_entry dm_entry_list dm_dir_reader set_entry_list].
  rewrite (proj1 final_nodes). apply leibniz_equiv. set_solver.
Qed.

Lemma final_view er4 dc' fc' lf' ds : mapM (node_dirent h4) nodes = Some ds ->
  dir_view (final er4 dc' fc' lf') d = Some (negb (u =? 0), ds).
Proof.
  intros Hds. rewrite (dir_view_map _ _ _ _ _ _ _ final_wf) by done.
  unfold dir_view_m, dir_entry_view. rewrite lookup_insert_eq. cbn [mbind option_bind].
  rewrite final_entry. cbn [mbind option_bind as_dir_entry]. unfold dm_pending.
  cbn [set_entry_list dm_reached_end dm_entry_current dm_entry_list dm_is_real_dir].
  by rewrite (proj2 final_nodes), Hds.
Qed.

Lemma final_live : dom (delete ip h4) = dom h ∪ ({[p; rd]} ∪ node_cells h4 nodes) ∪ L.
Proof.
  pose proof final_ip as [_ Hn]. destruct Hh as (_ & _ & [Hdom Hnew Hleak _]).
  apply not_elem_of_dom in Hip. rewrite dom_delete_L, Hdom, !dom_insert_L.
  rewrite !dom_insert_L in Hleak, Hnew. apply leibniz_equiv. set_solver.
Qed.

Lemma filled_outcome er4 dc' fc' lf' :
  opened xb x4 d -> errno_frame t erb er4 -> (size L <= length (dir_entries i))%nat ->
  (nodes = [] ∧ read_fails (dir_entries i)) ∨ (size L = length (dir_entries i) ∧
    ∃ dl, mapM image_dirent (dir_entries i) = Some dl ∧ mapM (node_dirent h4) nodes = Some dl) ->
  outcome d (final er4 dc' fc' lf').
Proof.
  intros Hx Her Hsz Hfin.
  assert (∃ ds, mapM (node_dirent h4) nodes = Some ds ∧ ((ds = [] ∧ read_fails (dir_entries i)) ∨
            (mapM image_dirent (dir_entries i) = Some ds ∧ size L = length (dir_entries i)))) as (ds & Hds & Hlist).
  { destruct Hfin as [[-> ?]|[Hsz' (dl & Hdl & Hds)]]; [by exists []; split; [|left]|].
    exists dl. split; [done|]. by right. }
  pose proof (final_cells er4 dc' fc' lf') as Hcells.
  assert (Hdisj : L ## dom h ∪ ({[p; rd]} ∪ node_cells h4 nodes) ∧ {[p; rd]} ∪ node_cells h4 nodes ## dom h).
  { destruct Hh as (_ & _ & [_ Hnew Hleak _]). apply not_elem_of_dom in Hp, Hrd.
    rewrite !dom_insert_L in Hleak, Hnew. set_solver. }
  apply (od_ok _ _ _ _ d i ds L); try done; rewrite ?Hcells.
  - rewrite (dir_view_map _ _ _ _ _ _ _ Hwf) by done. unfold dir_view_m. by rewrite (opened_unmapped _ Hx).
  - by apply final_view.
  - eapply (touches_intro (λ o, o ≠ OwnLeaked ∧ o ≠ OwnDir d)); [exact Hwf|exact final_wf|exact final_kept|..].
    + unfold is_image_owner. intros o [->|[->| ->]]; done.
    + done.
    + intros d' Hne. split; [split; congruence|]. by apply lookup_insert_ne.
    + done.
    + done.
  - apply final_live.
  - apply Hdisj.
  - apply Hdisj.
Qed.

End final.

End filling.

(** From the entry on; [d] is the stream the caller will get. *)
Definition register_new (d : Z) : prog world Z :=
  do dir_entry <- malloc t (ODirEntry (MkDirMapEntry d rd (negb (u =? 0)) [] [] false));
  match dir_entry with
  | None => set_errno t ENOMEM ;; opendir_out t d (Some ip) rd
  | Some dir_entry =>
      mgr_set t (λ m, set_dir_map (hash_add d dir_entry (m_dir_map m)) m) ;;
      enumerate_dir t rd dir_entry ;;
      sqfs_free t (Some ip) ;;
      opendir_unlock t d d
  end.

Lemma wp_register_new d x er n1 dc' fc' lf' :
  mgr_loaded mg = true -> opened xb x d -> d ≠ 0 -> (u ≠ 0 -> d = u) -> dir_left x hd = dir_entries i ->
  errno_frame t erb er -> (rd < n1)%positive -> (ip < n1)%positive -> (n <= n1)%positive ->
  wp (register_new d)
    (World x er (mutex_of t (S k)) mg (<[ip := OInode i]> (<[rd := OHandle hd]> h)) n1 lc dc' fc' lf') outcome.
Proof.
  intros Hl Hx Hd0 Hud Hleft Her Hr Hi Hn. unfold register_new.
  assert (Hl' : image_loaded before) by by rewrite <- mgr_loaded_spec.
  apply wp_bind, wp_malloc; intros e1 x1 (Hx1 & Hl1 & _)%(malloc_eq hd); cbn [w_ext] in Hx1, Hl1; cbn beta iota;
    pose proof (opened_r _ _ _ _ Hx Hx1) as Hx01.
  2:{ wp_step. apply wp_fail_out; try done; [by do 2 apply errno_frame_insert|].
      rewrite lookup_insert_eq. by apply oe_memory. }
  assert (Hp : h !! n1 = None).
  { apply (wf_own_fresh _ _ _ _ _ _ _ (wf_next _ _ _ _ _ _ _ _ Hwf Hn)). }
  destruct (registered d n1 Hp ltac:(lia) ltac:(lia) Hd0 Hud x1 (Pos.succ n1)) as [Hh Hk]; [done|lia..|].
  wp_step. apply wp_bind. unfold enumerate_dir.
  eapply (wp_enumerate_loop t d n1 k fm (<[d := n1]> dm) _ lc dc' fc' _ _ (MkDirMapEntry d rd (negb (u =? 0)) [] [] false)).
  7: exact Hh.
  - apply lookup_insert_eq.
  - rewrite !dom_insert_L. set_solver.
  - done.
  - done.
  - rewrite Hl1, Hleft. apply dir_fuel.
  - rewrite Hl1, Hleft. apply dir_names.
  - cbn [dm_dir_reader]. rewrite !lookup_insert_ne by lia. apply lookup_insert_eq.
  - intros x2 er2 lf2 own2' h2' n2 nodes L Hx2 Her2 Hh2 Hn2 Hsz Hfin. rewrite size_empty, Hl1, Hleft in Hsz, Hfin.
    apply wp_bind. eapply wp_sqfs_free.
    { refine (final_inode d n1 Hp _ _ Hd0 Hud _ _ _ _ _ _ Hk Hh2); lia. }
    unfold opendir_unlock, sqfs_unlock. do 2 wp_step.
    rewrite (proj2 (Z.eqb_neq d 0)) by done. cbn [negb andb]. do 2 wp_step.
    eapply (filled_outcome d n1); [done|lia|lia|done|done|exact Hk|exact Hh2| | |done|].
    + by eapply opened_r.
    + eapply errno_frame_trans; [exact Her|]. by eapply errno_frame_insert_l.
    + destruct Hfin as [?|[? Hds]]; [by left|]. right. split; [done|].
      destruct (Hds []) as (dl & Hdl & Hnodes); [done|]. by exists dl.
Qed.

Lemma backing_keeps_left l : backing_keeps (λ y, dir_left y hd = l).
Proof.
  split; [|split; [|split]].
  - intros e x <-. apply dir_keeps_getpid.
  - intros path m e x <-. apply dir_keeps_mkdir.
  - intros path e x <-. apply dir_keeps_rmdir.
  - intros a path e x <-. apply dir_keeps_opendir.
Qed.

Lemma wp_opendir_register x er n1 dc' fc' lf' :
  mgr_loaded mg = true -> opened xb x u -> dir_left x hd = dir_entries i ->
  errno_frame t erb er -> (rd < n1)%positive -> (ip < n1)%positive -> (n <= n1)%positive ->
  wp (opendir_register t (negb (u =? 0)) u ip rd)
    (World x er (mutex_of t (S k)) mg (<[ip := OInode i]> (<[rd := OHandle hd]> h)) n1 lc dc' fc' lf') outcome.
Proof.
  intros Hl Hx Hleft Her Hr Hi Hn. unfold opendir_register. apply wp_bind.
  destruct (Z.eqb_spec u 0) as [Hu|Hu]; cbn [negb].
  - apply (wp_backing_dir_loop t _ (backing_keeps_left (dir_entries i))); [done|done|].
    intros d x1 er1 dc1 Hd Her1 Hleft1. rewrite Hu in Hx.
    pose proof (opened_null _ _ _ _ Hx Hd) as Hx1.
    assert (Her01 : errno_frame t erb er1) by by eapply errno_frame_trans.
    destruct (Z.eqb_spec d 0) as [->|Hd0].
    + apply wp_fail_out; try done. rewrite Hu. by eapply oe_backing.
    + assert (E : negb (u =? 0) = false) by by rewrite Hu.
      pose proof (wp_register_new d x1 er1 n1 dc1 fc' lf' Hl Hx1 Hd0 ltac:(done) Hleft1 Her01 Hr Hi Hn) as Hreg.
      unfold register_new in Hreg. by rewrite E in Hreg.
  - apply wp_ret. rewrite (proj2 (Z.eqb_neq u 0) Hu).
    assert (E : negb (u =? 0) = true) by by rewrite (proj2 (Z.eqb_neq u 0)).
    pose proof (wp_register_new u x er n1 dc' fc' lf' Hl Hx Hu ltac:(done) Hleft Her Hr Hi Hn) as Hreg.
    unfold register_new in Hreg. by rewrite E in Hreg.
Qed.

End paths.

(** ** The part under the lock *)

(** The real stream is returned as it is. *)
Lemma wp_upper_unlock t u rel own fm dm k xb erb mg h n lc dc fc lf x er n' dc' fc' lf' e :
  wf_with own fm dm xb mg h n -> u ≠ 0 ->
  find_error (image_loaded (World xb erb (mutex_of t k) mg h n lc dc fc lf)) rel e ->
  opened xb x u -> errno_frame t erb er -> (n <= n')%positive -> er !! t = Some 0 ->
  wp (opendir_unlock t u u) (World x er (mutex_of t (S k)) mg h n' lc dc' fc' lf')
    (opendir_outcome t u rel (World xb erb (mutex_of t k) mg h n lc dc fc lf)).
Proof.
  intros Hwf Hu Hfe Hx Her Hn He. unfold opendir_unlock, sqfs_unlock. do 2 wp_step.
  rewrite (proj2 (Z.eqb_neq u 0)) by done. cbn [negb andb]. do 2 wp_step.
  apply (od_upper _ _ _ _ e); try done.
  - unfold errno_of. cbn. by rewrite He.
  - eapply touches_same; [done|done|by eapply opened_grows|done].
Qed.

(** [sqfs_dir_reader_open_dir] succeeded or failed. *)
Lemma open_dir_eq h i f e x ret e' x' :
  sqfs_dir_reader_open_dir h i f e x = (ret, e', x') ->
  same_dirs x x' ∧ (ret = 0 -> dir_left x' h = dir_entries i).
Proof.
  intros E. split; [by eapply keeps_same_dirs; [apply keeps_open_dir|]|].
  pose proof (open_dir_spec h i f e x) as Hs. by rewrite E in Hs.
Qed.

Lemma mgr_loaded_find rel mg xb erb mu h n lc dc fc lf e :
  find_error (mgr_loaded mg = true) rel e ->
  find_error (image_loaded (World xb erb mu mg h n lc dc fc lf)) rel e.
Proof.
  intros [Hnl|?|?]; [apply find_unloaded; by rewrite <- mgr_loaded_spec|by eapply find_no_reader|by eapply find_lookup].
Qed.

(** The part that has found the inode. *)
Definition opendir_found (t : Z) (is_real_dir : bool) (u : Z) (inode dir_reader : loc) : prog world Z :=
  do i <- load t as_inode inode;
  if negb (ino_type i =? SQFS_INODE_DIR) && negb (ino_type i =? SQFS_INODE_EXT_DIR) then
    set_errno t ENOTDIR ;; opendir_out t u (Some inode) dir_reader
  else
    do h <- load t as_handle dir_reader;
    do ret <- call t (sqfs_dir_reader_open_dir h i 0);
    if negb (ret =? 0) then
      sqfs_util_log_failure t (lit "sqfs_dir_reader_open_dir") ret ;;
      set_errno t (errno_from_sqfs ret) ;;
      opendir_out t u (Some inode) dir_reader
    else opendir_register t is_real_dir u inode dir_reader.

Lemma wp_opendir_found t u rel own fm dm k xb erb mg h n lc dc fc lf rd hd ip i x er n' dc' fc' lf' :
  wf_with own fm dm xb mg h n -> lf_closedir lc ≠ 0 -> lf_opendir lc ≠ 0 -> mgr_loaded mg = true ->
  h !! rd = None -> h !! ip = None -> ip ≠ rd -> found rel i ->
  opened xb x u -> errno_frame t erb er -> (rd < n')%positive -> (ip < n')%positive -> (n <= n')%positive ->
  wp (opendir_found t (negb (u =? 0)) u ip rd)
    (World x er (mutex_of t (S k)) mg (<[ip := OInode i]> (<[rd := OHandle hd]> h)) n' lc dc' fc' lf')
    (opendir_outcome t u rel (World xb erb (mutex_of t k) mg h n lc dc fc lf)).
Proof.
  intros Hwf Hlc Hlo Hl Hrd Hip Hne Hfound Hx Her Hrdn Hipn Hn. unfold opendir_found.
  apply wp_bind. eapply wp_load; [apply lookup_insert_eq|reflexivity|]. rewrite <- negb_orb.
  change (_ || _) with (is_dir_inode i). destruct (is_dir_inode i) eqn:Ei; cbn [negb].
  2:{ wp_step. eapply wp_fail_out; [exact Hwf|..]; try done; [by apply errno_frame_insert|].
      rewrite lookup_insert_eq. by eapply oe_not_dir. }
  apply wp_bind. eapply wp_load; [by rewrite lookup_insert_ne, lookup_insert_eq|reflexivity|].
  wp_step. intros ret e1 x1 E. pose proof (open_dir_eq _ _ _ _ _ _ _ _ E) as [Hx1 Hleft].
  cbn [w_ext w_errno] in Hx1. pose proof (opened_r _ _ _ _ Hx Hx1) as Hx01.
  destruct (Z.eqb_spec ret 0) as [->|Hret]; cbn [negb].
  - eapply wp_opendir_register; [exact Hwf|..]; try done; [by apply Hleft|by apply errno_frame_insert].
  - unfold sqfs_util_log_failure. wp_step. intros x2 er2 lf2 Hx2%log_ext_dirs Her2. wp_step.
    eapply wp_fail_out; [exact Hwf|..]; try done; [by eapply opened_r|..].
    + apply errno_frame_insert. eapply errno_frame_trans; [exact Her|]. by eapply errno_frame_insert_l.
    + rewrite lookup_insert_eq. by eapply oe_open.
Qed.

(** The branch for a path the image has no inode for. *)
Definition opendir_missing (t : Z) (relative : cstr) (is_real_dir : bool) (u : Z) (dir_reader : loc)
    : prog world Z :=
  do saved_errno <- get_errno t;
  if is_real_dir then
    log_hook t (Some (lit "sqfs_opendir"))
      (line (quoted relative ++ lit " belong to the upper layer")) ;;
    sqfs_destroy t dir_reader ;;
    set_errno t 0 ;;
    opendir_unlock t u u
  else
    do e <- get_errno t;
    log_hook t (Some (lit "sqfs_opendir"))
      (line (lit "sqfs_find_inode(" ++ quoted relative ++ lit ") failed: " ++ dec e)) ;;
    set_errno t saved_errno ;;
    opendir_out t u None dir_reader.

Lemma wp_opendir_missing t u rel own fm dm k xb erb mg h n n2 hd e lc dc fc lf lf' x er :
  wf_with own fm dm xb mg h n -> lf_closedir lc ≠ 0 -> lf_opendir lc ≠ 0 -> h !! n = None ->
  find_error (mgr_loaded mg = true) rel e -> opened xb x u -> errno_frame t erb er -> er !! t = Some e ->
  (n <= n2)%positive ->
  wp (opendir_missing t rel (negb (u =? 0)) u n)
    (World x er (mutex_of t (S k)) mg (<[n := OHandle hd]> h) n2 lc dc fc lf')
    (opendir_outcome t u rel (World xb erb (mutex_of t k) mg h n lc dc fc lf)).
Proof.
  intros Hwf Hlc Hlo Hn Hfe Hx Her He Hle. unfold opendir_missing.
  apply (mgr_loaded_find rel mg xb erb (mutex_of t k) h n lc dc fc lf) in Hfe.
  wp_step. rewrite He. cbn [from_option id]. destruct (Z.eqb_spec u 0) as [Hu|Hu]; cbn [negb].
  - do 2 wp_step. intros x3 er3 lf3 Hx3%log_ext_dirs Her3 _. wp_step.
    eapply wp_fail_out_none; [exact Hwf|..]; try done; [by eapply opened_r| |].
    + apply errno_frame_insert. by eapply errno_frame_trans.
    + rewrite lookup_insert_eq. apply oe_find; [by rewrite Hu|done].
  - wp_step. intros x3 er3 lf3 Hx3%log_ext_dirs Her3 _.
    apply wp_bind. eapply wp_sqfs_destroy; [apply lookup_insert_eq|]. intros e4 x4 Hx4%same_open_dirs.
    rewrite delete_insert_id by done. wp_step.
    eapply wp_upper_unlock; try done; [| |apply lookup_insert_eq].
    + eapply opened_r; [exact Hx|]. by eapply same_dirs_trans.
    + do 2 apply errno_frame_insert. by eapply errno_frame_trans.
Qed.

Lemma wp_opendir_locked t u rel own fm dm k xb erb mg h n lc dc fc lf x er lf' :
  wf_with own fm dm xb mg h n -> lf_closedir lc ≠ 0 -> lf_opendir lc ≠ 0 ->
  opened xb x u -> errno_frame t erb er ->
  wp (opendir_locked t rel (negb (u =? 0)) u)
    (World x er (mutex_of t (S k)) mg h n lc dc fc lf')
    (opendir_outcome t u rel (World xb erb (mutex_of t k) mg h n lc dc fc lf)).
Proof.
  intros Hwf Hlc Hlo Hx Her. unfold opendir_locked. apply wp_bind, wp_loaded.
  pose proof (wf_grows _ _ _ _ _ _ _ _ (opened_grows _ _ _ Hx) Hwf) as Hwfx.
  destruct (wf_own_fresh _ _ _ _ _ _ _ Hwf) as [Hn _].
  destruct (mgr_loaded mg) eqn:El; cbn [negb].
  2:{ assert (Hfe : find_error (mgr_loaded mg = true) rel ENOENT) by (apply find_unloaded; by rewrite El).
      apply (mgr_loaded_find rel mg xb erb (mutex_of t k) h n lc dc fc lf) in Hfe.
      destruct (Z.eqb_spec u 0) as [Hu|Hu]; cbn [negb]; wp_step.
      - eapply wp_fail_unlock; [exact Hwf|..]; try done; [by apply errno_frame_insert|].
        rewrite lookup_insert_eq. apply oe_find; [by rewrite Hu|done].
      - eapply wp_upper_unlock; try done; [by apply errno_frame_insert|apply lookup_insert_eq]. }
  apply wp_bind. eapply wp_new_dir_reader; [exact Hwfx|done|..].
  2:{ intros super c f e0 e x1 Hcall Hx1. wp_step.
      eapply wp_fail_unlock; [exact Hwf|..]; try done; [|by do 2 apply errno_frame_insert|].
      - eapply opened_r; [done|by apply same_open_dirs].
      - rewrite lookup_insert_eq. apply oe_memory. by rewrite <- mgr_loaded_spec. }
  intros e1 x1 hd Hx1%same_open_dirs. pose proof (opened_r _ _ _ _ Hx Hx1) as Hx01.
  destruct (wf_alloc _ _ _ _ _ _ _ n (Pos.succ n) (OHandle hd) OwnLeaked Hwfx) as [Hwf1 _]; [done|lia..|].
  apply (wf_grows _ _ _ _ _ _ _ _ (same_dirs_grows _ _ Hx1)) in Hwf1.
  apply wp_bind. eapply wp_find_inode; [exact Hwf1|..].
  - intros ip n2 i x2 er2 Hfound _ Hx2%same_open_dirs Her2 Hip Hlt Hle.
    apply lookup_insert_None in Hip as [Hip Hne].
    change (wp (opendir_found t (negb (u =? 0)) u ip n) (World x2 er2 (mutex_of t (S k)) mg
      (<[ip := OInode i]> (<[n := OHandle hd]> h)) n2 lc dc fc lf')
      (opendir_outcome t u rel (World xb erb (mutex_of t k) mg h n lc dc fc lf))).
    eapply wp_opendir_found; try done; [by eapply opened_r| |lia|lia].
    eapply errno_frame_trans; [exact Her|]. by eapply errno_frame_insert_l.
  - intros n2 x2 e er2 Hfe Hx2%same_open_dirs Her2 He Hle.
    change (wp (opendir_missing t rel (negb (u =? 0)) u n) (World x2 er2 (mutex_of t (S k)) mg
      (<[n := OHandle hd]> h) n2 lc dc fc lf')
      (opendir_outcome t u rel (World xb erb (mutex_of t k) mg h n lc dc fc lf))).
    eapply wp_opendir_missing; try done; [by eapply opened_r| |lia].
    eapply errno_frame_trans; [exact Her|]. by eapply errno_frame_insert_l.
Qed.

End props.
