(* ===== verification/OpendirProps.v ===== *)
(** * Properties of opendir

    What [sqfs_opendir] does on every path, and the life of a stream of the
    image from [opendir] through [readdir] to [closedir]. *)

From S2P Require Import Prelude CString Posix Path Prog Foreign State Logging Kernel Backing Inode InodeProps.
From S2P Require Import Image FdOps DirOps StateFacts Seek Invariant ImageFacts MountFacts.
From S2P Require Import Demo BackingProps DirFacts OpendirFacts EnumFacts DirProps OpendirSteps.

Section props.
Context `{HP : Platform} `{HU : UtHash} `{HS : !UtHashSpec} `{HE : Ext} `{HK : !KernelSpec}
  `{HF : Fuel} `{HW : !WriteSpec} `{HD : !DirSpec} `{HV : !EnvSpec}.

(** The call of the real [opendir], and the world after it. *)
Definition real_opendir (w : world) (name : option cstr) : foreign ext Z :=
  call_opendir (lf_opendir (w_libc w)) name.

(** What a path outside the image gets: the stream of the real call, and an
    error number that does not depend on it. *)
Definition outside_result (t : Z) (name : option cstr) (w : world) : Z * world :=
  let u := result t (real_opendir w name) w in
  let w0 := after t (real_opendir w name) w in
  (u, set_errnos (<[t := if u =? 0 then ENOENT else 0]> (w_errno w0)) w0).

Definition opendir_post (t : Z) (name : option cstr) (w : world) : Prop :=
  if (mount_path name).1 =? 0
  then ∃ r w', run (sqfs_opendir t name) w = Done (r, w') ∧
         opendir_outcome t (result t (real_opendir w name) w) (mount_path name).2 w r w'
  else run (sqfs_opendir t name) w = Done (outside_result t name w).

Lemma opendir_ok t k w name :
  wf w -> w_mutex w = mutex_of t k -> libc_ready (w_libc w) -> path_arg name -> opendir_post t name w.
Proof.
  intros Hwf Hmu Hlc Hpath. open_world Hwf Hmu.
  destruct Hlc as (_ & _ & _ & _ & _ & _ & _ & _ & Hlo & _ & Hlcl & _).
  unfold opendir_post, outside_result, real_opendir, result, after, errno_of. cbn [w_libc w_errno w_ext].
  destruct (call_opendir (lf_opendir lc) name (default 0 (er !! t)) x) as [[u e1] x1] eqn:Ec.
  cbn [fst snd]. pose proof (opendir_new_dir _ _ _ _ _ _ _ Ec) as Hx1%new_dir_opened.
  assert (Hstart : ∀ Q,
    wp (do '(ret, relative) <- convert_local name;
        if negb (ret =? 0) then
          if negb (u =? 0) then set_errno t 0 ;; Ret u else set_errno t ENOENT ;; Ret 0
        else
          log_hook t (Some (lit "sqfs_opendir")) (line (str_or_null name ++ lit " -> " ++ relative)) ;;
          sqfs_lock t ;;
          opendir_locked t relative (negb (u =? 0)) u)
      (World x1 (<[t := e1]> er) (mutex_of t k) mg h n lc dc fc lf) Q ->
    wp (sqfs_opendir t name) (World x er (mutex_of t k) mg h n lc dc fc lf) Q).
  { intros Q HQ. unfold sqfs_opendir. apply wp_bind, wp_libc_call; [done|].
    intros u' e' x' E. cbn [w_errno w_ext] in E. rewrite Ec in E. by injection E as <- <- <-. }
  destruct (Z.eqb_spec (mount_path name).1 0) as [Hm|Hm].
  - apply run_ex, Hstart. apply wp_bind, wp_convert_local; [done|].
    destruct (mount_path name) as [ret rel]. cbn [fst snd] in *. rewrite Hm. cbn [Z.eqb negb].
    wp_step. intros x2 er2 lf2 Hx2%log_ext_dirs Her2 _. unfold sqfs_lock. wp_step.
    eapply wp_opendir_locked; [exact Hwf|done|done|by eapply opened_r|by eapply errno_frame_insert_l].
  - apply run_eq_wp, Hstart. apply wp_bind, wp_convert_local; [done|].
    destruct (mount_path name) as [ret rel]. cbn [fst] in Hm. rewrite (proj2 (Z.eqb_neq ret 0)) by done.
    cbn [negb]. destruct (Z.eqb_spec u 0) as [->|Hu]; cbn [negb]; do 2 wp_step; done.
Qed.

(** C9: [sqfs_opendir] always ends.  A path outside the image gets the result of
    the real call.  For a path of the image: when it finds no inode, the
    result is the real stream if there is one, and an error otherwise; when
    the inode is no directory, or resources run out, the real stream is closed
    again and nothing has changed; otherwise the stream (the real one, or a
    new empty one) is registered with the listing of the directory of the
    image, complete, or empty when a call that reads it fails.  The error
    number of the real call is not kept: outside the prefix it becomes 0 with a
    stream and [ENOENT] without. *)
Theorem sqfs_opendir_correct t k w name :
  wf w -> w_mutex w = mutex_of t k -> libc_ready (w_libc w) -> path_arg name -> opendir_post t name w.
Proof. apply opendir_ok. Qed.

(** ** The life of a stream *)

(** A stream in the table after [opendir] is one that call registered. *)
Lemma opendir_registered t k w name d w1 real ds :
  wf w -> w_mutex w = mutex_of t k -> libc_ready (w_libc w) -> path_arg name ->
  run (sqfs_opendir t name) w = Done (d, w1) -> dir_view w1 d = Some (real, ds) -> ds ≠ [] ->
  ∃ i, found (mount_path name).2 i ∧ mapM image_dirent (dir_entries i) = Some ds ∧
    touches none (eq d) t w w1 ∧ dir_view w d = None ∧
    ∃ L : gset loc, size L = length ds ∧ live w1 = live w ∪ dir_cells w1 d ∪ L ∧
      L ## live w ∪ dir_cells w1 d ∧ dir_cells w1 d ## live w.
Proof.
  intros Hwf Hmu Hlc Hpath Hrun Hv Hds. pose proof (opendir_ok t k w name Hwf Hmu Hlc Hpath) as H.
  unfold opendir_post in H.
  assert (Hnone : ∀ d, d = 0 ∨ d ∉ open_dirs (w_ext w) -> dir_view w d = None).
  { intros d' Hd'. destruct (dir_view w d') as [[]|] eqn:E; [|done].
    destruct Hwf as (own & fm & dm & Hwf). destruct w. eapply dir_view_Some in E as (p & e & Hdm & _); [|exact Hwf].
    destruct (wf_open_dirs _ _ _ _ _ _ _ Hwf _ _ Hdm). cbn in *. naive_solver. }
  assert (Hopened : ∀ u y, opened (w_ext w) y u -> dir_view w u = None).
  { intros u y [_ Hu]. apply Hnone. destruct (Z.eqb_spec u 0); [by left|right; by destruct Hu]. }
  destruct ((mount_path name).1 =? 0).
  - destruct H as (r & w' & Hrun' & Ho). rewrite Hrun in Hrun'. injection Hrun' as <- <-.
    destruct Ho as [e w1 Hu _ _ Ht _ Hop|w1 _ Ht _ _|d i ds' L w1 Hfound Hdir Hd0 _ Hop Hn Hs Hsz Hlist Ht Hl Hdisj Hc].
    + rewrite (to_dirs _ _ _ _ _ Ht), (Hopened _ _ Hop) in Hv by by intros []. done.
    + rewrite (to_dirs _ _ _ _ _ Ht), (Hnone 0) in Hv by ((by intros []) || by left). done.
    + rewrite Hv in Hs. injection Hs as -> ->. destruct Hlist as [[? _]|[Hlist Hsz']]; [done|].
      exists i. do 4 (split; [done|]). exists L. split; [|done].
      rewrite Hsz'. apply mapM_Some in Hlist. by eapply Forall2_length.
  - rewrite Hrun in H. unfold outside_result in H. injection H as -> ->.
    unfold real_opendir, result, after in Hv. pose proof (opendir_new_dir (lf_opendir (w_libc w)) name (errno_of t w) (w_ext w)) as Hn.
    destruct (call_opendir _ name _ _) as [[u e] x]. specialize (Hn _ _ _ eq_refl).
    apply new_dir_opened, Hopened in Hn. cbn [fst] in Hv. unfold dir_view in Hv, Hn. cbn in Hv.
    rewrite Hn in Hv. done.
Qed.

(** C38: closing a stream of the image gives back everything [opendir] took
    except one object for every entry of the directory: the entries
    [enumerate_dir] reads are never freed. *)
Theorem opendir_closedir_leak t k w name d w1 real ds r w2 :
  wf w -> w_mutex w = mutex_of t k -> libc_ready (w_libc w) -> path_arg name ->
  run (sqfs_opendir t name) w = Done (d, w1) -> dir_view w1 d = Some (real, ds) -> ds ≠ [] ->
  run (sqfs_closedir t d) w1 = Done (r, w2) ->
  live w ⊆ live w2 ∧ size (live w2) = (size (live w) + length ds)%nat ∧
  ∀ d', dir_view w2 d' = dir_view w d'.
Proof.
  intros Hwf Hmu Hlc Hpath Hopen Hv Hds Hclose.
  destruct (opendir_registered t k w name d w1 real ds) as (i & _ & _ & Ht & Hn & L & HL & Hlive & HdL & Hdc);
    try done.
  pose proof Ht as [Hwf1 [Hm1 Hl1 _] _ Hdirs _].
  destruct (closedir_ok t k d w1 real ds) as (r' & w' & Hrun & _ & Ht2 & Hn2 & Hlive2);
    [done|congruence|rewrite Hl1; apply Hlc|done|].
  rewrite Hclose in Hrun. injection Hrun as <- <-.
  assert (E : live w2 = live w ∪ L) by (rewrite Hlive2, Hlive; apply leibniz_equiv; set_solver).
  split; [set_solver|]. split.
  - rewrite E, size_union, HL by set_solver. done.
  - intros d'. destruct (decide (d = d')) as [<-|Hne]; [congruence|].
    by rewrite (to_dirs _ _ _ _ _ Ht2), (to_dirs _ _ _ _ _ Ht).
Qed.

(** C24: a directory that only the image has is listed whole, empty or not,
    when no call that reads it fails: [opendir] either reports why it returns no
    stream, or finds a directory, and the calls of [readdir] after it return the
    entries the code makes of those of the image, in the order of the image, and
    then null. *)
Theorem opendir_readdir_image `{HR : !ReaddirSpec} t k w name m :
  wf w -> w_mutex w = mutex_of t k -> libc_ready (w_libc w) -> path_arg name -> readdir_quiet ->
  result t (real_opendir w name) w = 0 -> (mount_path name).1 = 0 ->
  (∀ i, found (mount_path name).2 i -> ¬ read_fails (dir_entries i)) ->
  ∃ d w1, run (sqfs_opendir t name) w = Done (d, w1) ∧
    (d = 0 ∧ opendir_error false (image_loaded w) (mount_path name).2 (errno_of t w1) ∨
     d ≠ 0 ∧ ∃ i ds w2, found (mount_path name).2 i ∧ is_dir_inode i = true ∧
       mapM image_dirent (dir_entries i) = Some ds ∧ dir_view w1 d = Some (false, ds) ∧
       run (readdir_seq t d m) w1 = Done ((λ j, ds !! j) <$> seq 0 m, w2)).
Proof.
  intros Hwf Hmu Hlc Hpath Hq Hu Hm Hnf. pose proof (opendir_ok t k w name Hwf Hmu Hlc Hpath) as H.
  unfold opendir_post in H. rewrite Hu, Hm in H. destruct H as (d & w1 & Hrun & Ho). exists d, w1.
  split; [done|]. destruct Ho as [e w1 Hne|w1 He _ _ _|d i ds L w1 Hf Hdir Hd _ _ _ Hv _ Hlist Ht _ _ _];
    [done|by left|right]. split; [done|].
  destruct Hlist as [[_ Hrf]|[Hlist _]]; [by destruct (Hnf i Hf)|]. destruct Ht as [Hwf1 [Hm1 Hl1 _] _ _ _].
  destruct (readdir_seq_ok t k d m w1 false ds) as (w2 & Hrun2 & _);
    [done|congruence|rewrite Hl1; apply Hlc|done|done|].
  by exists i, ds, w2.
Qed.

(** [IFTODT]: the value of [d_type] that belongs to a mode. *)
Definition mode_dtype (mode : Z) : Z := Z.shiftr (Z.land mode S_IFMT) 12.

(** The kinds whose [d_type] is right. *)
Definition plain_kind (i : sqfs_inode) : Prop :=
  kind_of (ino_type i) = Some KDir ∨ kind_of (ino_type i) = Some KFile.

Lemma dtype_kind i :
  is_dir_inode i = bool_decide (kind_of (ino_type i) = Some KDir).
Proof.
  unfold is_dir_inode. destruct (decide (1 <= ino_type i <= 14)) as [Hty|Hty].
  - generalize dependent (ino_type i). intros ty Hty.
    assert (∃ n : nat, ty = Z.of_nat n ∧ (1 <= n <= 14)%nat) as (n & -> & Hn)
      by (exists (Z.to_nat ty); lia).
    do 15 (destruct n as [|n]; [first [lia|by vm_compute]|]). lia.
  - rewrite (kind_of_outside _ Hty). unfold SQFS_INODE_DIR, SQFS_INODE_EXT_DIR.
    rewrite !(proj2 (Z.eqb_neq (ino_type i) _)) by lia. done.
Qed.

(** C25: an entry of the image whose name has at most 255 bytes becomes a
    [dirent] with that name, terminated, and the inode number.  [d_type] is the
    one of the mode for directories and regular files, basic or extended; every
    other kind (symbolic links, devices, fifos, sockets) is reported as a
    regular file, which is not its kind. *)
Theorem image_dirent_correct de i :
  short_name (de, i) -> nul_free (de_name de) ->
  ∃ d, make_dirent i de (uninit D_NAME_SIZE) = Some d ∧ c_string (d_name d) = Some (de_name de) ∧
    length (d_name d) = 256%nat ∧ d_ino d = ino_number i ∧
    (plain_kind i -> d_type d = mode_dtype (sqfs_inode_mode i)) ∧
    (¬ plain_kind i -> d_type d = DT_REG ∧ d_type d ≠ mode_dtype (sqfs_inode_mode i)).
Proof.
  intros Hs Hnul. destruct (image_dirent_name _ Hs) as (d & Hd & Hino & Hname & Hlen). exists d.
  unfold image_dirent in Hd. cbn [fst snd] in *.
  assert (Hty : d_type d = if is_dir_inode i then DT_DIR else DT_REG).
  { unfold make_dirent in Hd. case_decide; [|done].
    destruct (buf_write _ _ _) as [b1|]; [|done]. cbn [mbind option_bind] in Hd.
    destruct (buf_write b1 _ _) as [b2|]; [|done]. cbn [mbind option_bind] in Hd. by injection Hd as <-. }
  assert (Hmode : mode_dtype (sqfs_inode_mode i) = Z.shiftr (type_format (ino_type i)) 12)
    by (unfold mode_dtype; by rewrite (proj1 (mode_bits i))).
  rewrite Hty, Hmode, dtype_kind. unfold type_format, plain_kind.
  split; [done|]. split; [|split; [done|split; [done|]]].
  - rewrite <- (take_drop (S (length (de_name de))) (d_name d)), Hname, <- app_assoc.
    by apply c_string_app.
  - destruct (kind_of (ino_type i)) as [[]|]; (split; [intros [?|?]; by try done|]);
      intros Hk; try (by destruct Hk; (left + right)); done.
Qed.

End props.

(** ** Witnesses *)

Section witnesses.
#[local] Existing Instances demo64 demo_hash demo_hash_spec demo_ext demo_kernel demo_fuel demo_write
  demo_dir demo_env_spec demo_readdir.

Abbreviation sub := (Some (lit "/hook/sub")).

Definition sub_listing : list dirent :=
  [demo_dirent a_inode DT_REG "a.txt"; demo_dirent sub_inode DT_DIR "sub"; demo_dirent tool_inode DT_REG "tool"].

Lemma sub_arg : path_arg sub.
Proof. apply demo_path_arg. by vm_compute. Defined.

(** [/hook/sub] is only in the image. *)
Lemma sqfs_opendir_correct_witness :
  ∃ r w', run (sqfs_opendir 1 sub) demo_world = Done (r, w') ∧
    opendir_outcome 1 0 (lit "sub") demo_world r w' ∧ r = 101.
Proof.
  pose proof (sqfs_opendir_correct 1 0 demo_world sub demo_wf eq_refl demo_libc_ready sub_arg) as H.
  unfold opendir_post in H.
  assert (E1 : result 1 (real_opendir demo_world sub) demo_world = 0) by (vm_compute; reflexivity).
  assert (E2 : mount_path sub = (0, lit "sub")) by (vm_compute; reflexivity).
  rewrite E1 in H. rewrite E2 in H. cbn [fst snd Z.eqb] in H. destruct H as (r & w' & Hrun & Ho).
  exists r, w'. split; [exact Hrun|]. split; [exact Ho|].
  assert (match run (sqfs_opendir 1 sub) demo_world with Done (r, _) => r = 101 | _ => False end) as H
    by by vm_compute.
  by rewrite Hrun in H.
Defined.

Lemma opendir_closedir_leak_witness :
  match run (sqfs_opendir 1 sub) demo_world with
  | Done (d, w1) =>
      match run (sqfs_closedir 1 d) w1 with
      | Done (_, w2) => size (live w2) = (size (live demo_world) + 3)%nat
      | _ => False
      end
  | _ => False
  end.
Proof.
  assert (match run (sqfs_opendir 1 sub) demo_world with
          | Done (d, w1) =>
              d = 101 ∧ dir_view w1 d = Some (false, sub_listing) ∧
              match run (sqfs_closedir 1 d) w1 with Done _ => True | _ => False end
          | _ => False
          end) as H by by vm_compute.
  destruct (run (sqfs_opendir 1 sub) demo_world) as [[d w1]| | |] eqn:E1; [|exact H..].
  destruct H as (-> & Hv & H). destruct (run (sqfs_closedir 1 101) w1) as [[r w2]| | |] eqn:E2; [|exact H..].
  exact (proj1 (proj2 (opendir_closedir_leak 1 0 demo_world sub 101 w1 false sub_listing r w2
    demo_wf eq_refl demo_libc_ready sub_arg E1 Hv ltac:(discriminate) E2))).
Defined.

(** No call that reads a directory of the demonstration fails. *)
Lemma demo_reads_work i : ¬ read_fails (dir_entries i).
Proof.
  intros [h e x ret de e' x' _ E Hr|h e x ret j e' x' _ [j' Hc] E Hr|e x e' x' E]; cbn -[demo_entries] in *.
  - destruct (demo_entries !! k_pos x) as [[]|]; injection E as <- _ _ _; lia.
  - destruct (demo_entries !! Nat.pred (k_pos x)) as [[]|]; [|done]. by injection E as <- _ _ _.
  - done.
Qed.

Lemma opendir_readdir_image_witness :
  ∃ w1, run (sqfs_opendir 1 sub) demo_world = Done (101, w1) ∧
    ∃ i w2, found (mount_path sub).2 i ∧ mapM image_dirent (dir_entries i) = Some sub_listing ∧
      run (readdir_seq 1 101 4) w1 = Done ((λ j, sub_listing !! j) <$> seq 0 4, w2).
Proof.
  assert (match run (sqfs_opendir 1 sub) demo_world with
          | Done (d, w1) => d = 101 ∧ dir_view w1 d = Some (false, sub_listing)
          | _ => False
          end) as H by by vm_compute.
  assert (Hu : result 1 (real_opendir demo_world sub) demo_world = 0) by (vm_compute; reflexivity).
  assert (Hm : (mount_path sub).1 = 0) by (vm_compute; reflexivity).
  pose proof (opendir_readdir_image 1 0 demo_world sub 4 demo_wf eq_refl demo_libc_ready sub_arg eq_refl
    Hu Hm (λ i _, demo_reads_work i)) as Hall.
  destruct Hall as (d & w1 & Hrun & Hcase).
  rewrite Hrun in H. destruct H as [Hd Hv']. subst d.
  destruct Hcase as [[Hd _]|(_ & i & ds & w2 & Hf & _ & Hl & Hv & Hr)]; [discriminate Hd|].
  exists w1. split; [exact Hrun|]. exists i, w2. rewrite Hv' in Hv. injection Hv as Hv. subst ds.
  split; [exact Hf|]. split; [exact Hl|exact Hr].
Defined.

Lemma image_dirent_correct_witness :
  (∃ d, make_dirent tool_inode (SqfsDirEntry SQFS_INODE_FILE 3 (lit "tool")) (uninit D_NAME_SIZE) = Some d ∧
     c_string (d_name d) = Some (lit "tool") ∧ d_type d = mode_dtype (sqfs_inode_mode tool_inode)) ∧
  ∃ d, make_dirent (demo_inode SQFS_INODE_SLINK 0x1ff 9) (SqfsDirEntry SQFS_INODE_SLINK 3 (lit "link"))
         (uninit D_NAME_SIZE) = Some d ∧ d_type d = DT_REG ∧
       d_type d ≠ mode_dtype (sqfs_inode_mode (demo_inode SQFS_INODE_SLINK 0x1ff 9)).
Proof.
  split.
  - destruct (image_dirent_correct (SqfsDirEntry SQFS_INODE_FILE 3 (lit "tool")) tool_inode)
      as (d & Hd & Hname & _ & _ & Hty & _).
    + unfold short_name. cbn. lia.
    + by apply (bool_decide_unpack _).
    + exists d. split; [exact Hd|]. split; [exact Hname|]. apply Hty. right. reflexivity.
  - destruct (image_dirent_correct (SqfsDirEntry SQFS_INODE_SLINK 3 (lit "link")) (demo_inode SQFS_INODE_SLINK 0x1ff 9))
      as (d & Hd & _ & _ & _ & _ & Hty).
    + unfold short_name. cbn. lia.
    + by apply (bool_decide_unpack _).
    + exists d. split; [exact Hd|]. apply Hty. intros [?|?]; discriminate.
Defined.

End witnesses.
