(* ===== verification/HookTable.v ===== *)
(** * The hook table

    [hooksqfs.c]: looking the real functions up, installing and removing the
    hooks, and the constructor and destructor of the library;
    [sqfs_mutex_init_once] of [sqfs_mgr.c], which the constructor calls. *)

From S2P Require Import Prelude CString Posix Prog Foreign State Logging Backing Inode Image FdOps.

(** ** Code outside *)

(** [dlsym(RTLD_NEXT, name)], funchook and the mutex attributes of pthread.
    [funchook_prepare] takes the address in the slot and returns what it
    leaves there.  [hook_entries] holds the addresses of the functions of
    [sqfs_mgr.c]. *)
Class Funchook `{Ext} := {
  funchook : Type;
  hook_entries : LibcFunctions;
  dlsym_next : cstr -> Z;
  funchook_create : foreign ext (option funchook);
  funchook_prepare : funchook -> Z -> Z -> foreign ext (Z * Z);
  funchook_install : funchook -> foreign ext Z;
  funchook_uninstall : funchook -> foreign ext Z;
  funchook_destroy : funchook -> foreign ext Z;
  funchook_error_message : funchook -> foreign ext cstr;
  pthread_mutexattr_init : foreign ext Z;
  pthread_mutexattr_settype_recursive : foreign ext Z;
}.

(** The kind of mutex [pthread_mutex_init] makes. *)
Inductive mutex_kind := MutexRecursive | MutexDefault.

(** ** The slots of the table *)

Definition set_open (a : Z) (f : LibcFunctions) : LibcFunctions :=
  MkLibcFunctions a (lf_read f) (lf_pread f) (lf_pread64 f) (lf_lseek f) (lf_lseek64 f) (lf_close f)
    (lf_close_nocancel f) (lf_opendir f) (lf_readdir f) (lf_closedir f) (lf_access f) (lf_xstat f).
Definition set_read (a : Z) (f : LibcFunctions) : LibcFunctions :=
  MkLibcFunctions (lf_open f) a (lf_pread f) (lf_pread64 f) (lf_lseek f) (lf_lseek64 f) (lf_close f)
    (lf_close_nocancel f) (lf_opendir f) (lf_readdir f) (lf_closedir f) (lf_access f) (lf_xstat f).
Definition set_pread (a : Z) (f : LibcFunctions) : LibcFunctions :=
  MkLibcFunctions (lf_open f) (lf_read f) a (lf_pread64 f) (lf_lseek f) (lf_lseek64 f) (lf_close f)
    (lf_close_nocancel f) (lf_opendir f) (lf_readdir f) (lf_closedir f) (lf_access f) (lf_xstat f).
Definition set_pread64 (a : Z) (f : LibcFunctions) : LibcFunctions :=
  MkLibcFunctions (lf_open f) (lf_read f) (lf_pread f) a (lf_lseek f) (lf_lseek64 f) (lf_close f)
    (lf_close_nocancel f) (lf_opendir f) (lf_readdir f) (lf_closedir f) (lf_access f) (lf_xstat f).
Definition set_lseek (a : Z) (f : LibcFunctions) : LibcFunctions :=
  MkLibcFunctions (lf_open f) (lf_read f) (lf_pread f) (lf_pread64 f) a (lf_lseek64 f) (lf_close f)
    (lf_close_nocancel f) (lf_opendir f) (lf_readdir f) (lf_closedir f) (lf_access f) (lf_xstat f).
Definition set_lseek64 (a : Z) (f : LibcFunctions) : LibcFunctions :=
  MkLibcFunctions (lf_open f) (lf_read f) (lf_pread f) (lf_pread64 f) (lf_lseek f) a (lf_close f)
    (lf_close_nocancel f) (lf_opendir f) (lf_readdir f) (lf_closedir f) (lf_access f) (lf_xstat f).
Definition set_close (a : Z) (f : LibcFunctions) : LibcFunctions :=
  MkLibcFunctions (lf_open f) (lf_read f) (lf_pread f) (lf_pread64 f) (lf_lseek f) (lf_lseek64 f) a
    (lf_close_nocancel f) (lf_opendir f) (lf_readdir f) (lf_closedir f) (lf_access f) (lf_xstat f).
Definition set_close_nocancel (a : Z) (f : LibcFunctions) : LibcFunctions :=
  MkLibcFunctions (lf_open f) (lf_read f) (lf_pread f) (lf_pread64 f) (lf_lseek f) (lf_lseek64 f)
    (lf_close f) a (lf_opendir f) (lf_readdir f) (lf_closedir f) (lf_access f) (lf_xstat f).
Definition set_opendir (a : Z) (f : LibcFunctions) : LibcFunctions :=
  MkLibcFunctions (lf_open f) (lf_read f) (lf_pread f) (lf_pread64 f) (lf_lseek f) (lf_lseek64 f)
    (lf_close f) (lf_close_nocancel f) a (lf_readdir f) (lf_closedir f) (lf_access f) (lf_xstat f).
Definition set_readdir (a : Z) (f : LibcFunctions) : LibcFunctions :=
  MkLibcFunctions (lf_open f) (lf_read f) (lf_pread f) (lf_pread64 f) (lf_lseek f) (lf_lseek64 f)
    (lf_close f) (lf_close_nocancel f) (lf_opendir f) a (lf_closedir f) (lf_access f) (lf_xstat f).
Definition set_closedir (a : Z) (f : LibcFunctions) : LibcFunctions :=
  MkLibcFunctions (lf_open f) (lf_read f) (lf_pread f) (lf_pread64 f) (lf_lseek f) (lf_lseek64 f)
    (lf_close f) (lf_close_nocancel f) (lf_opendir f) (lf_readdir f) a (lf_access f) (lf_xstat f).
Definition set_access (a : Z) (f : LibcFunctions) : LibcFunctions :=
  MkLibcFunctions (lf_open f) (lf_read f) (lf_pread f) (lf_pread64 f) (lf_lseek f) (lf_lseek64 f)
    (lf_close f) (lf_close_nocancel f) (lf_opendir f) (lf_readdir f) (lf_closedir f) a (lf_xstat f).
Definition set_xstat (a : Z) (f : LibcFunctions) : LibcFunctions :=
  MkLibcFunctions (lf_open f) (lf_read f) (lf_pread f) (lf_pread64 f) (lf_lseek f) (lf_lseek64 f)
    (lf_close f) (lf_close_nocancel f) (lf_opendir f) (lf_readdir f) (lf_closedir f) (lf_access f) a.

(** The structure seen as an array of pointers. *)
Definition libc_words (f : LibcFunctions) : list Z :=
  [lf_open f; lf_read f; lf_pread f; lf_pread64 f; lf_lseek f; lf_lseek64 f; lf_close f;
   lf_close_nocancel f; lf_opendir f; lf_readdir f; lf_closedir f; lf_access f; lf_xstat f].

(** The loop from index [i] on, [n] words being left. *)
Fixpoint funcs_loaded_loop (words : list Z) (i n : nat) : bool :=
  match n with
  | O => true
  | S n =>
      match words !! i with
      | Some func => if func =? 0 then false else funcs_loaded_loop words (S i) n
      | None => false
      end
  end.

Definition bLibcFuncPtrsLoaded (funcs : LibcFunctions) : bool :=
  funcs_loaded_loop (libc_words funcs) 0 (length (libc_words funcs)).

Section hooktable.
Context `{Platform} `{UtHash} `{HE : Ext} `{!Funchook} `{Fuel}.
Context (t : Z).

(** The process with the variables of [hooksqfs.c]: the state of the hooks
    ([g_xLibcFuncs] is in it), [g_xTrampoline], [hooks_funchook],
    [g_bLibcFuncsPopulated] and the kind of the mutex once it is made. *)
Record process := Process {
  pr_world : world;
  pr_trampoline : LibcFunctions;
  pr_funchook : option funchook;
  pr_populated : bool;
  pr_mutex : option mutex_kind;
}.

Definition set_world (w : world) (s : process) : process :=
  Process w (pr_trampoline s) (pr_funchook s) (pr_populated s) (pr_mutex s).
Definition set_libc (f : LibcFunctions) (w : world) : world :=
  World (w_ext w) (w_errno w) (w_mutex w) (w_mgr w) (w_heap w) (w_next w) f
    (w_dir_counter w) (w_fd_counter w) (w_log_fd w).
Definition set_trampoline (f : LibcFunctions) (s : process) : process :=
  Process (pr_world s) f (pr_funchook s) (pr_populated s) (pr_mutex s).
Definition set_funchook (h : option funchook) (s : process) : process :=
  Process (pr_world s) (pr_trampoline s) h (pr_populated s) (pr_mutex s).
Definition set_populated (b : bool) (s : process) : process :=
  Process (pr_world s) (pr_trampoline s) (pr_funchook s) b (pr_mutex s).
Definition set_mutex_kind (k : mutex_kind) (s : process) : process :=
  Process (pr_world s) (pr_trampoline s) (pr_funchook s) (pr_populated s) (Some k).

(** A program on the state of the hooks, in the process. *)
Fixpoint on_world {A} (p : prog world A) : prog process A :=
  match p with
  | Ret a => Ret a
  | Act f k =>
      Act (λ s, outcome_bind (f (pr_world s)) (λ r, Done (r.1, set_world r.2 s))) (λ b, on_world (k b))
  end.

Definition log (text : cstr) : prog process unit := on_world (log_msg t (line text)).
Definition ext_call {B} (c : foreign ext B) : prog process B := on_world (call t c).
Definition funcs : prog process LibcFunctions := gets (λ s, w_libc (pr_world s)).
Definition set_funcs (f : LibcFunctions -> LibcFunctions) : prog process unit :=
  modify (λ s, set_world (set_libc (f (w_libc (pr_world s))) (pr_world s)) s).

(** ** Looking the functions up *)

Definition vPopulateLibcFuncPtrs : prog process unit :=
  do populated <- gets pr_populated;
  if (populated : bool) then Ret tt
  else
    set_funcs (set_open (dlsym_next (lit "open"))) ;;
    set_funcs (set_read (dlsym_next (lit "read"))) ;;
    set_funcs (set_pread (dlsym_next (lit "pread"))) ;;
    set_funcs (set_pread64 (dlsym_next (lit "pread64"))) ;;
    set_funcs (set_lseek (dlsym_next (lit "lseek"))) ;;
    set_funcs (set_lseek64 (dlsym_next (lit "lseek64"))) ;;
    set_funcs (set_close (dlsym_next (lit "close"))) ;;
    set_funcs (set_close_nocancel (dlsym_next (lit "__close_nocancel"))) ;;
    do f <- funcs;
    (if lf_close_nocancel f =? 0 then
       log (lit "__close_nocancel not found; falling back to close") ;;
       do f <- funcs;
       set_funcs (set_close_nocancel (lf_close f))
     else Ret tt) ;;
    set_funcs (set_opendir (dlsym_next (lit "opendir"))) ;;
    set_funcs (set_readdir (dlsym_next (lit "readdir"))) ;;
    set_funcs (set_closedir (dlsym_next (lit "closedir"))) ;;
    set_funcs (set_access (dlsym_next (lit "access"))) ;;
    set_funcs (set_xstat (dlsym_next (lit "__xstat"))) ;;
    modify (set_populated true).

(** ** Installing and removing *)

(** [funchook_error_message(hooks_funchook)] in a log line. *)
Definition log_error (h : funchook) (before : cstr) : prog process unit :=
  do msg <- ext_call (funchook_error_message h);
  log (before ++ msg).

(** The slot [target] of the table is read by [get] and written by [set];
    true when it failed. *)
Definition prepare_hook (name : cstr) (get : LibcFunctions -> Z)
    (set : Z -> LibcFunctions -> LibcFunctions) (hook : Z) : prog process bool :=
  do h <- gets pr_funchook;
  match h with
  | None => fault
  | Some h =>
      do f <- funcs;
      do '(rv, a) <- ext_call (funchook_prepare h (get f) hook);
      set_funcs (set a) ;;
      if negb (rv =? 0) then
        log_error h (lit "funchook_prepare(" ++ name ++ lit ") failed: ") ;; Ret true
      else Ret false
  end.

Definition uninstall_hooks : prog process unit :=
  do h <- gets pr_funchook;
  match h with
  | None => Ret tt
  | Some h =>
      do rv <- ext_call (funchook_uninstall h);
      (if negb (rv =? 0) then log_error h (lit "funchook_uninstall failed: ") else Ret tt) ;;
      do rv <- ext_call (funchook_destroy h);
      (if negb (rv =? 0) then log (lit "funchook_destroy failed") else Ret tt) ;;
      modify (set_funchook None) ;;
      do tr <- gets pr_trampoline;
      set_funcs (λ _, tr)
  end.

(** C's [p || q] on conditions with effects. *)
Definition or_else (p q : prog process bool) : prog process bool :=
  do b <- p; if (b : bool) then Ret true else q.

(** The condition of the [if] of [install_hooks]. *)
Definition prepare_all : prog process bool :=
  or_else (prepare_hook (lit "open") lf_open set_open (lf_open hook_entries))
  (or_else (prepare_hook (lit "read") lf_read set_read (lf_read hook_entries))
  (or_else (prepare_hook (lit "pread") lf_pread set_pread (lf_pread hook_entries))
  (or_else (prepare_hook (lit "lseek") lf_lseek set_lseek (lf_lseek hook_entries))
  (or_else (do f <- funcs;
            if lf_pread64 f =? lf_pread f then Ret false
            else prepare_hook (lit "pread64") lf_pread64 set_pread64 (lf_pread64 hook_entries))
  (or_else (do f <- funcs;
            if lf_lseek64 f =? lf_lseek f then Ret false
            else prepare_hook (lit "lseek64") lf_lseek64 set_lseek64 (lf_lseek64 hook_entries))
  (or_else (prepare_hook (lit "close") lf_close set_close (lf_close hook_entries))
  (or_else (do tr <- gets pr_trampoline;
            if (lf_close_nocancel tr =? 0) || (lf_close_nocancel tr =? lf_close tr) then Ret false
            else prepare_hook (lit "__close_nocancel") lf_close_nocancel set_close_nocancel
                   (lf_close_nocancel hook_entries))
  (or_else (prepare_hook (lit "opendir") lf_opendir set_opendir (lf_opendir hook_entries))
  (or_else (prepare_hook (lit "readdir") lf_readdir set_readdir (lf_readdir hook_entries))
  (or_else (prepare_hook (lit "closedir") lf_closedir set_closedir (lf_closedir hook_entries))
  (or_else (prepare_hook (lit "access") lf_access set_access (lf_access hook_entries))
           (prepare_hook (lit "__xstat") lf_xstat set_xstat (lf_xstat hook_entries))))))))))))).

(** One of the lines [  name=%p]. *)
Definition log_slot (name : string) (get : LibcFunctions -> Z) : prog process unit :=
  do f <- funcs; log (lit "  " ++ lit name ++ lit "=" ++ ptr_str (get f)).

Definition log_installed : prog process unit :=
  log (lit "hooks installed:") ;;
  log_slot "open" lf_open ;; log_slot "read" lf_read ;; log_slot "pread" lf_pread ;;
  log_slot "pread64" lf_pread64 ;; log_slot "lseek" lf_lseek ;; log_slot "lseek64" lf_lseek64 ;;
  log_slot "close" lf_close ;; log_slot "__close_nocancel" lf_close_nocancel ;;
  log_slot "opendir" lf_opendir ;; log_slot "readdir" lf_readdir ;; log_slot "closedir" lf_closedir ;;
  log_slot "access" lf_access ;; log_slot "__xstat" lf_xstat.

Definition install_hooks : prog process unit :=
  do f <- funcs;
  if negb (bLibcFuncPtrsLoaded f) then log (lit "hook install failed: missing real function")
  else
    modify (set_trampoline f) ;;
    do h <- ext_call funchook_create;
    modify (set_funchook h) ;;
    match h with
    | None => log (lit "funchook_create failed")
    | Some h =>
        do failed <- prepare_all;
        if (failed : bool) then uninstall_hooks
        else
          do rv <- ext_call (funchook_install h);
          if negb (rv =? 0) then
            log_error h (lit "funchook_install failed: ") ;; uninstall_hooks
          else log_installed
    end.

(** ** Constructor and destructor *)

Definition sqfs_mutex_init_once : prog process unit :=
  do rv <- ext_call pthread_mutexattr_init;
  if negb (rv =? 0) then modify (set_mutex_kind MutexDefault)
  else
    do rv <- ext_call pthread_mutexattr_settype_recursive;
    if rv =? 0 then modify (set_mutex_kind MutexRecursive) else modify (set_mutex_kind MutexDefault).

Definition hooksqfs_init : prog process unit :=
  sqfs_mutex_init_once ;;
  vPopulateLibcFuncPtrs ;;
  do _r <- on_world (sqfs_mgr_load_image t);
  install_hooks.

Definition hooksqfs_fini : prog process unit := uninstall_hooks.

End hooktable.
