(* ===== verification/HookFacts.v ===== *)
(** * The hook table: laws and steps

    What is assumed of funchook, and the parts of [install_hooks] and
    [uninstall_hooks] executed on an explicit process. *)

From S2P Require Import Prelude CString Posix Prog Foreign State Logging Kernel Backing Inode Image FdOps.
From S2P Require Import HookTable StateFacts Seek Invariant ImageFacts.

(** A call that leaves what funchook has done alone. *)
Definition fh_keeps `{Ext} {F P A B} (prepared : ext -> F -> A) (patched : ext -> P)
    (active : ext -> F -> B) {C} (c : foreign ext C) : Prop :=
  ∀ e x, patched (c e x).2 = patched x ∧
    ∀ h, prepared (c e x).2 h = prepared x h ∧ active (c e x).2 h = active x h.

(** Functions patched one after the other. *)
Definition patch_all (l : list (Z * Z)) (m : gmap Z Z) : gmap Z Z :=
  foldl (λ m p, <[p.1 := p.2]> m) m l.
Definition unpatch_all (l : list (Z * Z)) (m : gmap Z Z) : gmap Z Z :=
  foldl (λ m p, delete p.1 m) m l.

(** funchook: a handle collects the functions to patch; the slot of a prepared
    function gets a new address through which the original can be called;
    [install] patches them all in the order of preparation, [uninstall]
    restores the code of a handle that is installed. *)
Class FunchookSpec `{HE : Ext, HK : !KernelSpec, HH : !Funchook} := {
  prepared : ext -> funchook -> list (Z * Z);
  patched : ext -> gmap Z Z;
  active : ext -> funchook -> bool;
  fh_create e x :
    let '(o, _, x') := funchook_create e x in
    patched x' = patched x ∧ ∀ h, o = Some h -> prepared x' h = [] ∧ active x' h = false;
  fh_prepare h a hook e x : active x h = false ->
    let '((rv, a'), _, x') := funchook_prepare h a hook e x in
    patched x' = patched x ∧ active x' h = false ∧
    (rv = 0 -> a' ≠ 0 ∧ a' ≠ a ∧ prepared x' h = prepared x h ++ [(a, hook)]);
  fh_install h e x : active x h = false ->
    let '(rv, _, x') := funchook_install h e x in
    if rv =? 0 then active x' h = true ∧ prepared x' h = prepared x h ∧
                    patched x' = patch_all (prepared x h) (patched x)
    else active x' h = false;
  fh_uninstall h e x :
    let '(rv, _, x') := funchook_uninstall h e x in
    if active x h then rv = 0 -> patched x' = unpatch_all (prepared x h) (patched x)
    else patched x' = patched x;
  fh_destroy h e x : patched (funchook_destroy h e x).2 = patched x;
  fh_keeps_message h : fh_keeps prepared patched active (funchook_error_message h);
  fh_keeps_write fd b : fh_keeps prepared patched active (sys_write fd b);
  fh_keeps_openat path flags mode : fh_keeps prepared patched active (sys_openat path flags mode);
  keeps_fh_create : keeps open_fds open_dirs funchook_create;
  keeps_fh_prepare h a hook : keeps open_fds open_dirs (funchook_prepare h a hook);
  keeps_fh_install h : keeps open_fds open_dirs (funchook_install h);
  keeps_fh_uninstall h : keeps open_fds open_dirs (funchook_uninstall h);
  keeps_fh_destroy h : keeps open_fds open_dirs (funchook_destroy h);
  keeps_fh_message h : keeps open_fds open_dirs (funchook_error_message h);
  keeps_attr_init : keeps open_fds open_dirs pthread_mutexattr_init;
  keeps_attr_settype : keeps open_fds open_dirs pthread_mutexattr_settype_recursive;
}.

(** ** The table *)

Section table.

(** [bLibcFuncPtrsLoaded] says whether no word is null. *)
Lemma funcs_loaded_loop_spec words n : ∀ i, (i + n = length words)%nat ->
  funcs_loaded_loop words i n = true <-> Forall (λ a, a ≠ 0) (drop i words).
Proof.
  induction n as [|n IH]; intros i Hi; cbn [funcs_loaded_loop].
  { rewrite drop_ge by lia. split; [constructor|done]. }
  destruct (words !! i) as [a|] eqn:E; [|apply lookup_ge_None in E; lia].
  rewrite (drop_S _ _ _ E), Forall_cons. destruct (Z.eqb_spec a 0); [naive_solver|].
  rewrite IH by lia. naive_solver.
Qed.

Lemma libc_loaded_spec f : bLibcFuncPtrsLoaded f = true <-> libc_ready f.
Proof.
  unfold bLibcFuncPtrsLoaded. rewrite funcs_loaded_loop_spec by done. rewrite drop_0.
  unfold libc_words, libc_ready. rewrite !Forall_cons, Forall_nil. tauto.
Qed.

Lemma unpatch_patch l m : (∀ a, a ∈ l.*1 -> m !! a = None) -> unpatch_all l (patch_all l m) = m.
Proof.
  intros Hm. apply map_eq. intros a.
  assert (Hu : ∀ l m, unpatch_all l m !! a = if decide (a ∈ l.*1) then None else m !! a).
  { clear. induction l as [|[b v] l IH]; intros m; [by rewrite decide_False by (cbn; set_solver)|].
    change (unpatch_all ((b, v) :: l) m) with (unpatch_all l (delete b m)).
    rewrite IH. cbn [fmap list_fmap fst]. rewrite lookup_delete.
    repeat case_decide; try done; exfalso; set_solver. }
  assert (Hp : ∀ l m, a ∉ l.*1 -> patch_all l m !! a = m !! a).
  { clear. induction l as [|[b v] l IH]; intros m Ha; [done|].
    change (patch_all ((b, v) :: l) m) with (patch_all l (<[b := v]> m)).
    cbn in Ha. rewrite IH, lookup_insert_ne by set_solver. done. }
  rewrite Hu. case_decide; [by rewrite Hm|by rewrite Hp].
Qed.

End table.

(** ** Steps *)

Section steps.
Context `{HP : Platform} `{HU : UtHash} `{HE : Ext} `{HK : !KernelSpec} `{HH : !Funchook}
  `{HF : Fuel} `{HW : !WriteSpec} `{HS : !FunchookSpec}.
Context (t : Z).

(** What installing and removing hooks leaves alone in the state of the
    hooks. *)
Record wframe (w w' : world) : Prop := WFrame {
  wf_mutex : w_mutex w' = w_mutex w;
  wf_mgr : w_mgr w' = w_mgr w;
  wf_heap : w_heap w' = w_heap w ∧ w_next w' = w_next w;
  wf_counters : w_dir_counter w' = w_dir_counter w ∧ w_fd_counter w' = w_fd_counter w;
  wf_errno : errno_frame t (w_errno w) (w_errno w');
  wf_ext_grows : grows (w_ext w) (w_ext w');
}.

Lemma wframe_refl w : wframe w w.
Proof. by constructor. Qed.

Lemma wframe_trans w1 w2 w3 : wframe w1 w2 -> wframe w2 w3 -> wframe w1 w3.
Proof.
  intros [? ? [? ?] [? ?] ? ?] [? ? [? ?] [? ?] ? ?].
  constructor; [congruence..|split; congruence|split; congruence|by eapply errno_frame_trans|by eapply grows_trans].
Qed.

(** The funchook state of two outside states is the same. *)
Definition fh_same (x x' : ext) : Prop :=
  patched x' = patched x ∧ ∀ h, prepared x' h = prepared x h ∧ active x' h = active x h.

Lemma fh_same_trans x y z : fh_same x y -> fh_same y z -> fh_same x z.
Proof.
  intros [Hp Hh] [Hp' Hh']. split; [congruence|]. intros h. destruct (Hh h), (Hh' h). split; congruence.
Qed.

Lemma fh_keeps_same {B} (c : foreign ext B) e x b e' x' :
  fh_keeps prepared patched active c -> c e x = (b, e', x') -> fh_same x x'.
Proof. intros Hc E. specialize (Hc e x). by rewrite E in Hc. Qed.

Lemma log_ext_fh x x' : log_ext x x' -> fh_same x x'.
Proof.
  induction 1 as [|fd bytes e x y _ IH|path flags mode e x y _ IH]; [done|..];
    (eapply fh_same_trans; [|exact IH]); [apply fh_keeps_write|apply fh_keeps_openat].
Qed.

(** A program on the hooks' state, in the process. *)
Lemma wp_on_world {A} (p : prog world A) : ∀ s (Q : A -> process -> Prop),
  wp p (pr_world s) (λ a w', Q a (set_world w' s)) -> wp (on_world p) s Q.
Proof.
  induction p as [a|B f k IH]; intros s Q (b & w' & Hr & HQ).
  - injection Hr as <- <-. exists a, s. split; [done|]. by destruct s.
  - cbn [run] in Hr. destruct (f (pr_world s)) as [[c w1]| | |] eqn:E; try done. cbn in Hr.
    destruct (IH c (set_world w1 s) Q) as (b' & s' & Hr' & HQ').
    { by exists b, w'. }
    exists b', s'. split; [|done]. cbn [on_world run]. rewrite E. exact Hr'.
Qed.

(** The process, apart from its funchook variables. *)
Record pframe (s s' : process) : Prop := PFrame {
  pf_world : wframe (pr_world s) (pr_world s');
  pf_trampoline : pr_trampoline s' = pr_trampoline s;
  pf_funchook : pr_funchook s' = pr_funchook s;
  pf_populated : pr_populated s' = pr_populated s;
  pf_mutex : pr_mutex s' = pr_mutex s;
}.

Lemma pframe_refl s : pframe s s.
Proof. constructor; [apply wframe_refl|done..]. Qed.

Lemma pframe_trans s1 s2 s3 : pframe s1 s2 -> pframe s2 s3 -> pframe s1 s3.
Proof. intros [] []. constructor; [by eapply wframe_trans|congruence..]. Qed.

Definition libc_of (s : process) : LibcFunctions := w_libc (pr_world s).
Definition ext_of (s : process) : ext := w_ext (pr_world s).

Lemma wp_ext_call {B} (c : foreign ext B) s (Q : B -> process -> Prop) :
  keeps open_fds open_dirs c ->
  (∀ b e x' s', c (errno_of t (pr_world s)) (ext_of s) = (b, e, x') -> ext_of s' = x' ->
     pframe s s' -> libc_of s' = libc_of s -> Q b s') ->
  wp (ext_call t c) s Q.
Proof.
  intros Hc HQ. destruct s as [w tr fh po mk]. unfold ext_call. apply wp_on_world. cbn [pr_world].
  destruct w as [x er mu mg h n lc dc fc lf]. apply wp_call. intros b e x' E.
  eapply HQ; [exact E|done| |done]. constructor; try done. constructor; try done; cbn.
  - by apply errno_frame_insert.
  - by eapply keeps_grows.
Qed.

Lemma wp_log text s (Q : unit -> process -> Prop) :
  (∀ s', pframe s s' -> libc_of s' = libc_of s -> fh_same (ext_of s) (ext_of s') -> Q tt s') ->
  wp (log t text) s Q.
Proof.
  intros HQ. destruct s as [w tr fh po mk]. unfold log. apply wp_on_world. cbn [pr_world].
  destruct w as [x er mu mg h n lc dc fc lf]. apply wp_log_msg. intros x' er' lf' Hx Her.
  apply HQ; [|done|by apply log_ext_fh]. constructor; try done. constructor; try done.
  by apply log_ext_grows.
Qed.

Lemma wp_log_error h before s (Q : unit -> process -> Prop) :
  (∀ s', pframe s s' -> libc_of s' = libc_of s -> fh_same (ext_of s) (ext_of s') -> Q tt s') ->
  wp (log_error t h before) s Q.
Proof.
  intros HQ. unfold log_error. apply wp_bind, wp_ext_call; [apply keeps_fh_message|].
  intros msg e x' s1 E Hx Hs1 Hl1. apply wp_log. intros s2 Hs2 Hl2 Hf2.
  apply HQ; [by eapply pframe_trans|congruence|]. eapply fh_same_trans; [|exact Hf2]. rewrite Hx.
  by eapply fh_keeps_same; [apply fh_keeps_message|].
Qed.

Lemma wp_set_funcs f s (Q : unit -> process -> Prop) :
  (∀ s', pframe s s' -> libc_of s' = f (libc_of s) -> ext_of s' = ext_of s -> Q tt s') ->
  wp (set_funcs f) s Q.
Proof. intros HQ. apply wp_modify, HQ; [|done|done]. by destruct s as [[] ? ? ? ?]. Qed.

Lemma wp_funcs s (Q : LibcFunctions -> process -> Prop) : Q (libc_of s) s -> wp funcs s Q.
Proof. apply wp_gets. Qed.

(** ** Preparing *)

Section prepare.
Context (s0 : process) (h : funchook) (Hh : pr_funchook s0 = Some h).

(** The table is [g] and the functions in [l] are prepared. *)
Record at_step (s : process) (g : LibcFunctions) (l : list (Z * Z)) : Prop := AtStep {
  as_frame : pframe s0 s;
  as_libc : libc_of s = g;
  as_prepared : prepared (ext_of s) h = l;
  as_active : active (ext_of s) h = false;
  as_patched : patched (ext_of s) = patched (ext_of s0);
}.

(** A preparation failed: nothing is patched, the table is not to be used. *)
Definition prepare_failed (s : process) : Prop :=
  pframe s0 s ∧ active (ext_of s) h = false ∧ patched (ext_of s) = patched (ext_of s0).

Lemma wp_prepare_hook name get set hook s g l (Q : bool -> process -> Prop) :
  at_step s g l ->
  (∀ s', prepare_failed s' -> Q true s') ->
  (∀ s' a, a ≠ 0 -> a ≠ get g -> at_step s' (set a g) (l ++ [(get g, hook)]) -> Q false s') ->
  wp (prepare_hook t name get set hook) s Q.
Proof.
  intros [Hf Hl Hp Ha Hpa] Hfail Hok. unfold prepare_hook. apply wp_bind, wp_gets.
  rewrite (pf_funchook _ _ Hf), Hh. apply wp_bind, wp_funcs, wp_bind, wp_ext_call; [apply keeps_fh_prepare|].
  intros [rv a] e x' s1 E Hx1 Hs1 Hl1.
  pose proof (fh_prepare h (get (libc_of s)) hook (errno_of t (pr_world s)) (ext_of s) Ha) as Hspec.
  rewrite E in Hspec. destruct Hspec as (Hpa' & Ha' & Hok').
  apply wp_bind, wp_set_funcs. intros s2 Hs2 Hl2 Hx2.
  assert (Hf2 : pframe s0 s2) by (do 2 (eapply pframe_trans; [eassumption|]); done).
  destruct (Z.eqb_spec rv 0) as [->|Hrv]; cbn [negb].
  - destruct (Hok' eq_refl) as (Ha0 & Hne & Hprep). apply wp_ret, (Hok s2 a); [done|congruence|].
    constructor; [done|congruence|..]; rewrite Hx2, Hx1; congruence.
  - apply wp_bind, wp_log_error. intros s3 Hs3 Hl3 [Hpa3 Hh3]. destruct (Hh3 h) as [_ Ha3].
    apply wp_ret, Hfail. split; [by eapply pframe_trans|]. rewrite Ha3, Hpa3, Hx2, Hx1. split; congruence.
Qed.

Lemma wp_or_else (p q : prog process bool) s (Q : bool -> process -> Prop) :
  wp p s (λ b s', if (b : bool) then Q true s' else wp q s' Q) -> wp (or_else p q) s Q.
Proof. intros Hp. apply wp_bind. eapply wp_mono; [exact Hp|]. intros [] s' HQ; [by apply wp_ret|done]. Qed.

(** A function the code takes for an alias of another one is skipped, and its
    slot keeps its value. *)
Lemma wp_prepare_unless (b : bool) name get set hook s g l (Q : bool -> process -> Prop) :
  at_step s g l -> get g ≠ 0 -> set (get g) g = g ->
  (∀ s', prepare_failed s' -> Q true s') ->
  (∀ s' a, a ≠ 0 -> at_step s' (set a g) (l ++ if b then [] else [(get g, hook)]) -> Q false s') ->
  wp (if b then Ret false else prepare_hook t name get set hook) s Q.
Proof.
  intros Hs Hne Hset Hfail Hok. destruct b.
  - apply wp_ret, (Hok s (get g)); [done|]. by rewrite Hset, app_nil_r.
  - eapply wp_prepare_hook; [exact Hs|done|]. eauto.
Qed.

End prepare.

(** The functions that get prepared, given the table before and after: the
    code compares [pread64] and [lseek64] with slots it has rewritten. *)
Definition hook_list (f g : LibcFunctions) : list (Z * Z) :=
  let unless (b : bool) (p : Z * Z) := if b then [] else [p] in
  [(lf_open f, lf_open hook_entries); (lf_read f, lf_read hook_entries);
   (lf_pread f, lf_pread hook_entries); (lf_lseek f, lf_lseek hook_entries)] ++
  unless (lf_pread64 f =? lf_pread g) (lf_pread64 f, lf_pread64 hook_entries) ++
  unless (lf_lseek64 f =? lf_lseek g) (lf_lseek64 f, lf_lseek64 hook_entries) ++
  [(lf_close f, lf_close hook_entries)] ++
  unless (lf_close_nocancel f =? lf_close f) (lf_close_nocancel f, lf_close_nocancel hook_entries) ++
  [(lf_opendir f, lf_opendir hook_entries); (lf_readdir f, lf_readdir hook_entries);
   (lf_closedir f, lf_closedir hook_entries); (lf_access f, lf_access hook_entries);
   (lf_xstat f, lf_xstat hook_entries)].

(** The table after installing: no null pointer, and the slots of the two
    functions that may have an alias were rewritten. *)
Definition rewritten (f g : LibcFunctions) : Prop :=
  libc_ready g ∧ lf_pread g ≠ lf_pread f ∧ lf_lseek g ≠ lf_lseek f.

Lemma wp_prepare_all s0 h f (Q : bool -> process -> Prop) :
  pr_funchook s0 = Some h -> pr_trampoline s0 = f -> libc_of s0 = f -> libc_ready f ->
  prepared (ext_of s0) h = [] -> active (ext_of s0) h = false ->
  (∀ s', prepare_failed s0 h s' -> Q true s') ->
  (∀ s' g, rewritten f g -> at_step s0 h s' g (hook_list f g) -> Q false s') ->
  wp (prepare_all t) s0 Q.
Proof.
  intros Hh Htr Hl Hready Hp Ha Hfail Hok.
  assert (H0 : at_step s0 h s0 f []) by by constructor; [apply pframe_refl|..].
  unfold libc_ready in Hready. unfold prepare_all.
  destruct f as [f1 f2 f3 f4 f5 f6 f7 f8 f9 f10 f11 f12 f13]. cbn in Hready.
  apply wp_or_else. eapply wp_prepare_hook; [done|exact H0|done|]. clear H0. intros s1 a1 N1 _ H1.
  apply wp_or_else. eapply wp_prepare_hook; [done|exact H1|done|]. clear H1. intros s2 a2 N2 _ H2.
  apply wp_or_else. eapply wp_prepare_hook; [done|exact H2|done|]. clear H2. intros s3 a3 N3 A3 H3.
  apply wp_or_else. eapply wp_prepare_hook; [done|exact H3|done|]. clear H3. intros s4 a4 N4 A4 H4.
  apply wp_or_else, wp_bind, wp_funcs. rewrite (as_libc _ _ _ _ _ H4).
  eapply wp_prepare_unless; [done|exact H4|cbn; tauto|done|done|]. clear H4. intros s5 a5 N5 H5.
  apply wp_or_else, wp_bind, wp_funcs. rewrite (as_libc _ _ _ _ _ H5).
  eapply wp_prepare_unless; [done|exact H5|cbn; tauto|done|done|]. clear H5. intros s6 a6 N6 H6.
  apply wp_or_else. eapply wp_prepare_hook; [done|exact H6|done|]. clear H6. intros s7 a7 N7 _ H7.
  apply wp_or_else, wp_bind, wp_gets.
  rewrite (pf_trampoline _ _ (as_frame _ _ _ _ _ H7)), Htr. cbn [lf_close_nocancel lf_close].
  rewrite (proj2 (Z.eqb_neq f8 0)) by tauto. cbn [orb].
  eapply wp_prepare_unless; [done|exact H7|cbn; tauto|done|done|]. clear H7. intros s8 a8 N8 H8.
  apply wp_or_else. eapply wp_prepare_hook; [done|exact H8|done|]. clear H8. intros s9 a9 N9 _ H9.
  apply wp_or_else. eapply wp_prepare_hook; [done|exact H9|done|]. clear H9. intros s10 a10 N10 _ H10.
  apply wp_or_else. eapply wp_prepare_hook; [done|exact H10|done|]. clear H10. intros s11 a11 N11 _ H11.
  apply wp_or_else. eapply wp_prepare_hook; [done|exact H11|done|]. clear H11. intros s12 a12 N12 _ H12.
  eapply wp_prepare_hook; [done|exact H12|done|]. clear H12. intros s13 a13 N13 _ H13.
  cbn in H13, A3, A4. eapply Hok; [|].
  2:{ eapply eq_ind; [exact H13|]. unfold hook_list. cbn. by rewrite <- !app_assoc. }
  unfold rewritten, libc_ready. cbn. tauto.
Qed.

(** ** Removing *)

Lemma wp_log_if (b : bool) (p : prog process unit) s (Q : unit -> process -> Prop) :
  (b = true -> wp p s Q) -> (b = false -> Q tt s) -> wp (if b then p else Ret tt) s Q.
Proof. intros Hp HQ. destruct b; [by apply Hp|by apply wp_ret, HQ]. Qed.

(** What [uninstall_hooks] leaves: the saved table, and no handle. *)
Record uninstalled (h : funchook) (s s' : process) : Prop := Uninstalled {
  un_world : wframe (pr_world s) (pr_world s');
  un_libc : libc_of s' = pr_trampoline s;
  un_trampoline : pr_trampoline s' = pr_trampoline s;
  un_funchook : pr_funchook s' = None;
  un_rest : pr_populated s' = pr_populated s ∧ pr_mutex s' = pr_mutex s;
  un_patched :
    let '(rv, _, _) := funchook_uninstall h (errno_of t (pr_world s)) (ext_of s) in
    if active (ext_of s) h
    then rv = 0 -> patched (ext_of s') = unpatch_all (prepared (ext_of s) h) (patched (ext_of s))
    else patched (ext_of s') = patched (ext_of s);
}.

Lemma wp_uninstall_hooks h s (Q : unit -> process -> Prop) :
  pr_funchook s = Some h -> (∀ s', uninstalled h s s' -> Q tt s') -> wp (uninstall_hooks t) s Q.
Proof.
  intros Hh HQ. unfold uninstall_hooks. apply wp_bind, wp_gets. rewrite Hh.
  apply wp_bind, wp_ext_call; [apply keeps_fh_uninstall|]. intros rv e1 x1 s1 E1 Hx1 Hs1 Hl1.
  pose proof (fh_uninstall h (errno_of t (pr_world s)) (ext_of s)) as Hun. rewrite E1 in Hun.
  assert (Hrest : ∀ s2, pframe s1 s2 -> patched (ext_of s2) = patched (ext_of s1) ->
    wp (do rv <- ext_call t (funchook_destroy h);
        (if negb (rv =? 0) then log t (lit "funchook_destroy failed") else Ret tt) ;;
        modify (set_funchook None) ;;
        do tr <- gets pr_trampoline;
        set_funcs (λ _, tr)) s2 Q).
  { intros s2 Hs2 Hp2. apply wp_bind, wp_ext_call; [apply keeps_fh_destroy|]. intros rv3 e3 x3 s3 E3 Hx3 Hs3 Hl3.
    pose proof (fh_destroy h (errno_of t (pr_world s2)) (ext_of s2)) as Hde. rewrite E3 in Hde. cbn [snd] in Hde.
    assert (Hend : ∀ s4, pframe s3 s4 -> patched (ext_of s4) = patched (ext_of s3) ->
      wp (modify (set_funchook None) ;; do tr <- gets pr_trampoline; set_funcs (λ _, tr)) s4 Q).
    { intros s4 Hs4 Hp4. apply wp_bind, wp_modify, wp_bind, wp_gets, wp_set_funcs. intros s5 Hs5 Hl5 Hx5.
      pose proof (pframe_trans _ _ _ Hs1 (pframe_trans _ _ _ Hs2 (pframe_trans _ _ _ Hs3 Hs4))) as [Hw Ht Hfh Hpo Hmk].
      destruct Hs5 as [Hw5 Ht5 Hfh5 Hpo5 Hmk5]. cbn in *.
      apply HQ. constructor; [by eapply wframe_trans|congruence..|split; congruence|].
      rewrite E1. change (ext_of (set_funchook None s4)) with (ext_of s4) in Hx5.
      rewrite Hx5, Hp4, Hx3, Hde, Hp2, Hx1. destruct (active (ext_of s) h); [exact Hun|done]. }
    apply wp_bind, wp_log_if; intros _.
    - apply wp_log. intros s4 Hs4 _ [Hp4 _]. by apply Hend.
    - by apply Hend; [apply pframe_refl|]. }
  apply wp_bind, wp_log_if; intros _.
  - apply wp_log_error. intros s2 Hs2 _ [Hp2 _]. by apply Hrest.
  - by apply Hrest; [apply pframe_refl|].
Qed.

End steps.
