(* ===== verification/HookProps.v ===== *)
(** * Properties of the hook table

    Installing and removing the hooks, and the state the constructor of the
    library leaves to the hooks. *)

From S2P Require Import Prelude CString Posix Prog Foreign State Logging Kernel Backing Inode Image FdOps.
From S2P Require Import HookTable StateFacts Seek Invariant ImageFacts LoadProps HookFacts Demo.

Section props.
Context `{HP : Platform} `{HU : UtHash} `{HUS : !UtHashSpec} `{HE : Ext} `{HK : !KernelSpec} `{HH : !Funchook}
  `{HF : Fuel} `{HW : !WriteSpec} `{HS : !FunchookSpec}.
Context (t : Z).

(** ** Installing *)

(** The outcomes of [install_hooks]. *)
Inductive install_outcome (s s' : process) : Prop :=
| io_missing : ¬ libc_ready (libc_of s) -> pframe t s s' -> libc_of s' = libc_of s ->
    patched (ext_of s') = patched (ext_of s) -> install_outcome s s'
| io_refused : libc_ready (libc_of s) -> wframe t (pr_world s) (pr_world s') ->
    libc_of s' = libc_of s -> pr_funchook s' = None -> pr_trampoline s' = libc_of s ->
    patched (ext_of s') = patched (ext_of s) -> install_outcome s s'
| io_failed : libc_ready (libc_of s) -> wframe t (pr_world s) (pr_world s') ->
    libc_of s' = libc_of s -> pr_funchook s' = None -> pr_trampoline s' = libc_of s -> install_outcome s s'
| io_installed h : libc_ready (libc_of s) -> wframe t (pr_world s) (pr_world s') ->
    rewritten (libc_of s) (libc_of s') -> pr_funchook s' = Some h -> pr_trampoline s' = libc_of s ->
    active (ext_of s') h = true ->
    prepared (ext_of s') h = hook_list (libc_of s) (libc_of s') ->
    patched (ext_of s') = patch_all (hook_list (libc_of s) (libc_of s')) (patched (ext_of s)) ->
    install_outcome s s'.

(** Only log lines were written. *)
Definition logged (s s' : process) : Prop :=
  pframe t s s' ∧ libc_of s' = libc_of s ∧ fh_same (ext_of s) (ext_of s').

Lemma logged_trans s1 s2 s3 : logged s1 s2 -> logged s2 s3 -> logged s1 s3.
Proof.
  intros (Hf & Hl & Hx) (Hf' & Hl' & Hx').
  split; [by eapply pframe_trans|]. split; [congruence|by eapply fh_same_trans].
Qed.

Lemma wp_log_slot s0 name get s (Q : unit -> process -> Prop) :
  logged s0 s -> (∀ s', logged s0 s' -> Q tt s') -> wp (log_slot t name get) s Q.
Proof.
  intros Hs HQ. unfold log_slot. apply wp_bind, wp_funcs, wp_log. intros s1 Hs1 Hl1 Hf1.
  apply HQ. by eapply logged_trans.
Qed.

Lemma wp_log_installed s (Q : unit -> process -> Prop) :
  (∀ s', logged s s' -> Q tt s') -> wp (log_installed t) s Q.
Proof.
  intros HQ. unfold log_installed. apply wp_bind, wp_log. intros s1 Hs1 Hl1 Hf1.
  assert (logged s s1) by done. clear Hs1 Hl1 Hf1.
  do 12 (apply wp_bind; eapply wp_log_slot; [eassumption|]; intros ? ?).
  eapply wp_log_slot; [eassumption|done].
Qed.

Section prepared.
Context (s s1 s2 : process) (h : funchook).
Context (Hready : libc_ready (libc_of s)) (Hw1 : wframe t (pr_world s) (pr_world s1))
  (Hl1 : libc_of s1 = libc_of s) (Ht1 : pr_trampoline s1 = libc_of s) (Hf1 : pr_funchook s1 = Some h)
  (Hp1 : patched (ext_of s1) = patched (ext_of s)).

(** A function could not be prepared. *)
Lemma wp_prepare_gave_up :
  prepare_failed t s1 h s2 -> wp (uninstall_hooks t) s2 (λ _ s', install_outcome s s').
Proof.
  intros ([Hw2 Ht2 Hf2 Hpo2 Hm2] & Ha2 & Hp2). apply (wp_uninstall_hooks t h); [congruence|].
  intros s3 [Hw3 Hl3 Ht3 Hf3 _ Hun]. rewrite Ha2 in Hun.
  apply io_refused; [done|by do 2 (eapply wframe_trans; [eassumption|])|congruence|done|congruence|].
  destruct (funchook_uninstall _ _ _) as [[? ?] ?]. by rewrite Hun, Hp2.
Qed.

(** Every function is prepared. *)
Lemma wp_install_prepared g :
  rewritten (libc_of s) g -> at_step t s1 h s2 g (hook_list (libc_of s) g) ->
  wp (do rv <- ext_call t (funchook_install h);
      if negb (rv =? 0) then log_error t h (lit "funchook_install failed: ") ;; uninstall_hooks t
      else log_installed t) s2 (λ _ s', install_outcome s s').
Proof.
  intros Hg [[Hw2 Ht2 Hf2 Hpo2 Hm2] Hl2 Hpr2 Ha2 Hp2].
  apply wp_bind, wp_ext_call; [apply keeps_fh_install|]. intros rv e3 x3 s3 E3 Hx3 [Hw3 Ht3 Hf3 Hpo3 Hm3] Hl3.
  pose proof (fh_install h (errno_of t (pr_world s2)) (ext_of s2) Ha2) as Hin. rewrite E3 in Hin.
  assert (Hw03 : wframe t (pr_world s) (pr_world s3)) by by do 2 (eapply wframe_trans; [eassumption|]).
  destruct (Z.eqb_spec rv 0) as [->|Hrv]; cbn [negb].
  - apply wp_log_installed. intros s4 ([Hw4 Ht4 Hf4 Hpo4 Hm4] & Hl4 & Hp4 & Hh4). destruct (Hh4 h) as [Hpr4 Ha4].
    destruct Hin as (Ha3 & Hpr3 & Hp3). assert (Hlg : libc_of s4 = g) by congruence.
    apply (io_installed _ _ h); rewrite ?Hlg; [done|by eapply wframe_trans|done|congruence..| | |].
    + by rewrite Ha4, Hx3.
    + rewrite Hpr4, Hx3, Hpr3. exact Hpr2.
    + by rewrite Hp4, Hx3, Hp3, Hpr2, Hp2, Hp1.
  - apply wp_bind, wp_log_error. intros s4 [Hw4 Ht4 Hf4 Hpo4 Hm4] _ _.
    apply (wp_uninstall_hooks t h); [congruence|]. intros s5 [Hw5 Hl5 Ht5 Hf5 _ _].
    apply io_failed; [done|by do 2 (eapply wframe_trans; [eassumption|])|congruence|done|congruence].
Qed.

End prepared.

Lemma install_hooks_ok s : wp (install_hooks t) s (λ _ s', install_outcome s s').
Proof.
  unfold install_hooks. apply wp_bind, wp_funcs.
  destruct (bLibcFuncPtrsLoaded (libc_of s)) eqn:El; cbn [negb].
  2:{ apply wp_log. intros s1 Hs1 Hl1 [Hp1 _]. apply io_missing; try done.
      rewrite <- libc_loaded_spec. congruence. }
  apply libc_loaded_spec in El. apply wp_bind, wp_modify, wp_bind, wp_ext_call; [apply keeps_fh_create|].
  intros o e x1 s1 E Hx1 [Hw1 Ht1 Hf1 Hpo1 Hm1] Hl1. apply wp_bind, wp_modify.
  pose proof (fh_create (errno_of t (pr_world s)) (ext_of s)) as Hc.
  change (pr_world (set_trampoline (libc_of s) s)) with (pr_world s) in *.
  change (ext_of (set_trampoline (libc_of s) s)) with (ext_of s) in E. rewrite E in Hc.
  destruct Hc as [Hp1 Hh1]. cbn [pr_trampoline set_trampoline] in Ht1.
  destruct o as [h|].
  2:{ apply wp_log. intros s2 [Hw2 Ht2 Hf2 Hpo2 Hm2] Hl2 [Hp2 _]. apply io_refused; try done.
      - by eapply wframe_trans.
      - rewrite Hl2; exact Hl1.
      - rewrite Ht2. exact Ht1.
      - rewrite Hp2. change (patched (ext_of s1) = patched (ext_of s)). by rewrite Hx1. }
  destruct (Hh1 h eq_refl) as [Hprep Hact]. set (s1' := set_funchook (Some h) s1).
  assert (Hx1' : ext_of s1' = x1) by done.
  apply wp_bind, (wp_prepare_all t s1' h (libc_of s)); try done; rewrite ?Hx1'; try done.
  - intros s2 Hs2. eapply (wp_prepare_gave_up s s1' s2 h); try done. by rewrite Hx1'.
  - intros s2 g Hg Hs2. eapply (wp_install_prepared s s1' s2 h); try done. by rewrite Hx1'.
Qed.

(** C14: [install_hooks] always ends.  With a null pointer in the table it does
    nothing; when funchook fails the table is the original one again and no
    handle is left, and unless the failure is that of [funchook_install] no
    function is patched; otherwise every function of [hook_list] is patched,
    the originals are saved in [g_xTrampoline], and no pointer of the table is
    null. *)
Theorem install_hooks_correct s :
  ∃ s', run (install_hooks t) s = Done (tt, s') ∧ install_outcome s s'.
Proof. destruct (install_hooks_ok s) as ([] & s' & Hr & Ho). by exists s'. Qed.

(** C39: where the C library gives [pread] and [pread64] (or [lseek] and
    [lseek64]) one address, installing prepares that address twice, first for
    one hook and then for the other: the test for the alias compares with a
    slot that was already rewritten. *)
Theorem install_prepares_alias_twice s s' h :
  libc_ready (libc_of s) -> run (install_hooks t) s = Done (tt, s') -> pr_funchook s' = Some h ->
  (lf_pread64 (libc_of s) = lf_pread (libc_of s) ->
     prepared (ext_of s') h !! 2%nat = Some (lf_pread (libc_of s), lf_pread hook_entries) ∧
     prepared (ext_of s') h !! 4%nat = Some (lf_pread (libc_of s), lf_pread64 hook_entries)) ∧
  (lf_lseek64 (libc_of s) = lf_lseek (libc_of s) ->
     ∃ i, (3 < i)%nat ∧
     prepared (ext_of s') h !! 3%nat = Some (lf_lseek (libc_of s), lf_lseek hook_entries) ∧
     prepared (ext_of s') h !! i = Some (lf_lseek (libc_of s), lf_lseek64 hook_entries)).
Proof.
  intros Hready Hrun Hh. destruct (install_hooks_ok s) as ([] & s1 & Hr & Ho).
  rewrite Hrun in Hr. injection Hr as <-. destruct Ho as [? ?|? ? ? ?|? ? ? ?|h' _ _ (_ & Hp & Hl) Hh' _ _ Hprep _];
    [done|congruence|congruence|].
  rewrite Hh in Hh'. injection Hh' as <-. rewrite Hprep. unfold hook_list. split; intros E; rewrite E.
  - by rewrite (proj2 (Z.eqb_neq _ _)) by congruence.
  - destruct (lf_pread64 (libc_of s) =? lf_pread (libc_of s')); [exists 4%nat|exists 5%nat];
      rewrite (proj2 (Z.eqb_neq (lf_lseek _) _)) by congruence; (split; [lia|done]).
Qed.

(** C29: removing the hooks brings the table back to what it was before they
    were installed, whatever fails; and when funchook restores the code,
    nothing is patched any more. *)
Theorem install_uninstall_roundtrip s s1 :
  libc_ready (libc_of s) -> run (install_hooks t) s = Done (tt, s1) ->
  ∃ s2, run (uninstall_hooks t) s1 = Done (tt, s2) ∧
    libc_of s2 = libc_of s ∧ pr_funchook s2 = None ∧ wframe t (pr_world s) (pr_world s2) ∧
    ∀ h, pr_funchook s1 = Some h ->
      (funchook_uninstall h (errno_of t (pr_world s1)) (ext_of s1)).1.1 = 0 ->
      (∀ p, p ∈ hook_list (libc_of s) (libc_of s1) -> patched (ext_of s) !! p.1 = None) ->
      patched (ext_of s2) = patched (ext_of s).
Proof.
  intros Hready Hrun. destruct (install_hooks_ok s) as ([] & s1' & Hr & Ho).
  rewrite Hrun in Hr. injection Hr as <-.
  assert (Hnone : pr_funchook s1 = None -> wframe t (pr_world s) (pr_world s1) -> libc_of s1 = libc_of s ->
    ∃ s2, run (uninstall_hooks t) s1 = Done (tt, s2) ∧ libc_of s2 = libc_of s ∧ pr_funchook s2 = None ∧
      wframe t (pr_world s) (pr_world s2) ∧ ∀ h, pr_funchook s1 = Some h ->
      (funchook_uninstall h (errno_of t (pr_world s1)) (ext_of s1)).1.1 = 0 ->
      (∀ p, p ∈ hook_list (libc_of s) (libc_of s1) -> patched (ext_of s) !! p.1 = None) ->
      patched (ext_of s2) = patched (ext_of s)).
  { intros Hn Hw Hl. exists s1. split.
    { unfold uninstall_hooks. rewrite run_bind. cbn [run gets act outcome_bind fst snd]. by rewrite Hn. }
    split; [done|]. split; [done|]. split; [done|]. congruence. }
  destruct Ho as [? ?|_ Hw Hl Hn _ _|_ Hw Hl Hn _|h _ Hw (_ & _) Hh Htr Hact Hprep Hpat];
    [done|by apply Hnone|by apply Hnone|].
  destruct (wp_uninstall_hooks t h s1 (λ _ s2, uninstalled t h s1 s2) Hh (λ _ H, H)) as ([] & s2 & Hr2 & Hun).
  exists s2. split; [done|]. destruct Hun as [Hw2 Hl2 _ Hf2 _ Hp2].
  split; [congruence|]. split; [done|]. split; [by eapply wframe_trans|].
  intros h' Hh' Hrv Hfresh. rewrite Hh in Hh'. injection Hh' as <-. rewrite Hact in Hp2.
  destruct (funchook_uninstall _ _ _) as [[rv e] x]. cbn in Hrv. rewrite (Hp2 Hrv), Hprep, Hpat.
  apply unpatch_patch. intros a. rewrite list_elem_of_fmap. intros (p & -> & Hin). by apply Hfresh.
Qed.

(** ** The constructor *)

(** The table [vPopulateLibcFuncPtrs] makes. *)
Definition real_table : LibcFunctions :=
  let nocancel := dlsym_next (lit "__close_nocancel") in
  MkLibcFunctions (dlsym_next (lit "open")) (dlsym_next (lit "read")) (dlsym_next (lit "pread"))
    (dlsym_next (lit "pread64")) (dlsym_next (lit "lseek")) (dlsym_next (lit "lseek64"))
    (dlsym_next (lit "close")) (if nocancel =? 0 then dlsym_next (lit "close") else nocancel)
    (dlsym_next (lit "opendir")) (dlsym_next (lit "readdir")) (dlsym_next (lit "closedir"))
    (dlsym_next (lit "access")) (dlsym_next (lit "__xstat")).

(** Only the table and what logging touches changed. *)
Definition populated_from (s s' : process) : Prop :=
  wframe t (pr_world s) (pr_world s') ∧ pr_funchook s' = pr_funchook s.

Lemma wp_set_funcs_step f s0 s g (Q : unit -> process -> Prop) :
  pframe t s0 s -> libc_of s = g ->
  (∀ s', pframe t s0 s' -> libc_of s' = f g -> Q tt s') -> wp (set_funcs f) s Q.
Proof.
  intros Hs <- HQ. apply (wp_set_funcs t). intros s' Hs' Hl _. apply HQ; [by eapply pframe_trans|done].
Qed.

Lemma populate_ok s : pr_populated s = false ->
  wp (vPopulateLibcFuncPtrs t) s (λ _ s',
    wframe t (pr_world s) (pr_world s') ∧ pr_funchook s' = pr_funchook s ∧ libc_of s' = real_table ∧
    pr_populated s' = true).
Proof.
  intros Hpop. unfold vPopulateLibcFuncPtrs. apply wp_bind, wp_gets. rewrite Hpop.
  destruct (libc_of s) as [f1 f2 f3 f4 f5 f6 f7 f8 f9 f10 f11 f12 f13] eqn:Hl.
  pose proof (pframe_refl t s) as Hs.
  assert (Hend : ∀ s1 g, pframe t s s1 -> libc_of s1 = g ->
    set_xstat (dlsym_next (lit "__xstat")) (set_access (dlsym_next (lit "access"))
      (set_closedir (dlsym_next (lit "closedir")) (set_readdir (dlsym_next (lit "readdir"))
        (set_opendir (dlsym_next (lit "opendir")) g)))) = real_table ->
    wp (set_funcs (set_opendir (dlsym_next (lit "opendir"))) ;;
        set_funcs (set_readdir (dlsym_next (lit "readdir"))) ;;
        set_funcs (set_closedir (dlsym_next (lit "closedir"))) ;;
        set_funcs (set_access (dlsym_next (lit "access"))) ;;
        set_funcs (set_xstat (dlsym_next (lit "__xstat"))) ;;
        modify (set_populated true)) s1 (λ _ s', wframe t (pr_world s) (pr_world s') ∧
          pr_funchook s' = pr_funchook s ∧ libc_of s' = real_table ∧ pr_populated s' = true)).
  { intros s1 g Hs1 Hl1 Hg. clear Hs Hl.
    do 5 (apply wp_bind; eapply wp_set_funcs_step; [exact Hs1|exact Hl1|]; clear dependent s1; intros s1 Hs1 Hl1).
    apply wp_modify. destruct Hs1 as [Hw _ Hf _ _]. split; [done|]. split; [done|]. split; [|done].
    rewrite <- Hg. exact Hl1. }
  clear Hpop. pose proof Hs as Hs1. pose proof Hl as Hl1.
  do 8 (apply wp_bind; eapply wp_set_funcs_step; [exact Hs1|exact Hl1|];
        clear Hs1 Hl1; intros ? Hs1 Hl1).
  apply wp_bind, wp_funcs. rewrite Hl1. cbn [set_close_nocancel lf_close_nocancel].
  apply wp_bind. destruct (Z.eqb_spec (dlsym_next (lit "__close_nocancel")) 0).
  - apply wp_bind, wp_log. intros s2 Hs2 Hl2 _. apply wp_bind, wp_funcs. rewrite Hl2, Hl1.
    eapply wp_set_funcs_step; [eapply pframe_trans; [exact Hs1|exact Hs2]|rewrite Hl2; exact Hl1|].
    intros s3 Hs3 Hl3. eapply Hend; [exact Hs3|exact Hl3|]. unfold real_table. by rewrite e.
  - apply wp_ret. eapply Hend; [exact Hs1|exact Hl1|]. unfold real_table.
    by rewrite (proj2 (Z.eqb_neq _ 0)).
Qed.

(** What the hooks rely on survives a change of the process that only logs and
    rewrites the table. *)
Lemma wframe_state w w' : wframe t w w' -> wf w ->
  wf w' ∧ w_mutex w' = w_mutex w ∧ w_mgr w' = w_mgr w ∧
  (∀ fd, fd_view w' fd = fd_view w fd) ∧ (∀ d, dir_view w' d = dir_view w d).
Proof.
  intros [Hmu Hmg [Hh Hn] _ _ Hg] (own & fm & dm & Hwf). split.
  - exists own, fm, dm. rewrite Hmg, Hh, Hn. by eapply wf_grows.
  - split; [done|]. split; [done|]. unfold fd_view, dir_view. rewrite Hmg, Hh. done.
Qed.

Lemma mutex_init_ok s :
  wp (sqfs_mutex_init_once t) s (λ _ s', wframe t (pr_world s) (pr_world s') ∧
    pr_funchook s' = pr_funchook s ∧ pr_populated s' = pr_populated s).
Proof.
  unfold sqfs_mutex_init_once. apply wp_bind, wp_ext_call; [apply keeps_attr_init|].
  intros r e x s1 _ _ Hs1 _.
  assert (Hend : ∀ kind s2, pframe t s1 s2 -> wp (modify (set_mutex_kind kind)) s2 (λ _ s',
    wframe t (pr_world s) (pr_world s') ∧ pr_funchook s' = pr_funchook s ∧ pr_populated s' = pr_populated s)).
  { intros kind s2 Hs2. apply wp_modify. by destruct (pframe_trans _ _ _ _ Hs1 Hs2). }
  destruct (r =? 0); cbn [negb]; [|by apply Hend, pframe_refl].
  apply wp_bind, wp_ext_call; [apply keeps_attr_settype|]. intros r2 e2 x2 s2 _ _ Hs2 _.
  destruct (r2 =? 0); by apply Hend.
Qed.

(** The state after the constructor: what the hooks rely on holds, and either
    the hooks are installed on the real functions, or the table is that of the
    real functions. *)
Definition initialized (w0 : world) (s' : process) : Prop :=
  wf (pr_world s') ∧ w_mutex (pr_world s') = None ∧ image_whole (pr_world s') ∧
  (∀ fd, fd_view (pr_world s') fd = fd_view w0 fd) ∧ (∀ d, dir_view (pr_world s') d = dir_view w0 d) ∧
  ((pr_funchook s' = None ∧ libc_of s' = real_table) ∨
   (∃ h, pr_funchook s' = Some h ∧ pr_trampoline s' = real_table ∧ libc_ready real_table ∧
      libc_ready (libc_of s') ∧ prepared (ext_of s') h = hook_list real_table (libc_of s') ∧
      active (ext_of s') h = true)).

Lemma init_ok s :
  wf (pr_world s) -> w_mutex (pr_world s) = None -> image_empty (w_mgr (pr_world s)) ->
  pr_populated s = false -> pr_funchook s = None ->
  ∃ s', run (hooksqfs_init t) s = Done (tt, s') ∧ initialized (pr_world s) s'.
Proof.
  intros Hwf Hmu Him Hpop Hfh. cut (wp (hooksqfs_init t) s (λ _ s', initialized (pr_world s) s')).
  { intros ([] & s' & Hr & Hi). by exists s'. }
  unfold hooksqfs_init. apply wp_bind. eapply wp_mono; [apply mutex_init_ok|].
  intros [] s1 (Hw1 & Hf1 & Hp1). apply wp_bind. eapply wp_mono; [apply populate_ok; congruence|].
  intros [] s2 (Hw2 & Hf2 & Hl2 & _). pose proof (wframe_trans _ _ _ _ Hw1 Hw2) as Hw.
  destruct (wframe_state _ _ Hw Hwf) as (Hwf2 & Hmu2 & Hmg2 & Hfd2 & Hd2).
  destruct (load_ok t 0 (pr_world s2)) as (ok & w3 & Hrun & _ & Hwf3 & [Hm3 Hl3 _] & Hfd3 & Hd3 & _ & Hok);
    [done|by rewrite Hmu2, Hmu|right; by rewrite Hmg2|].
  apply wp_bind, wp_on_world. exists ok, w3. split; [done|]. set (s3 := set_world w3 s2).
  eapply wp_mono; [apply install_hooks_ok|]. intros [] s4 Ho.
  assert (Hl : libc_of s3 = real_table) by (unfold libc_of; cbn; by rewrite Hl3).
  assert (Hwhole : image_whole w3) by (destruct ok; [by left|right; apply Hok]).
  assert (Hstate : wframe t w3 (pr_world s4) -> wf (pr_world s4) ∧ w_mutex (pr_world s4) = None ∧
    image_whole (pr_world s4) ∧ (∀ fd, fd_view (pr_world s4) fd = fd_view (pr_world s) fd) ∧
    (∀ d, dir_view (pr_world s4) d = dir_view (pr_world s) d)).
  { intros Hw4. destruct (wframe_state _ _ Hw4 Hwf3) as (Hwf4 & Hmu4 & Hmg4 & Hfd4 & Hd4).
    split; [done|]. split; [by rewrite Hmu4, Hm3, Hmu2|]. split.
    - unfold image_whole, image_loaded in *. by rewrite Hmg4.
    - split; intros z; [by rewrite Hfd4, Hfd3|by rewrite Hd4, Hd3]. }
  unfold initialized. destruct Ho as [_ [Hw4 _ Hf4 _ _] Hl4 _|_ Hw4 Hl4 Hf4 _ _|_ Hw4 Hl4 Hf4 _
    |h Hr Hw4 (Hr' & _) Hf4 Ht4 Ha4 Hp4 _]; destruct (Hstate Hw4) as (? & ? & ? & ? & ?);
    do 5 (split; [done|]).
  - left. split; [|congruence]. rewrite Hf4. cbn. congruence.
  - left. split; congruence.
  - left. split; congruence.
  - right. exists h. rewrite Hl in *. done.
Qed.

(** C28: the constructor of the library always ends, and establishes what every
    hook relies on: the invariant, a free mutex, an image that is loaded
    completely or not at all, and, when the hooks are installed, a table
    without null pointers. *)
Theorem hooksqfs_init_establishes s :
  wf (pr_world s) -> w_mutex (pr_world s) = None -> image_empty (w_mgr (pr_world s)) ->
  pr_populated s = false -> pr_funchook s = None ->
  ∃ s', run (hooksqfs_init t) s = Done (tt, s') ∧ initialized (pr_world s) s'.
Proof. apply init_ok. Qed.

End props.

(** ** Witnesses *)

Section witnesses.
#[local] Existing Instances demo64 demo_hash demo_hash_spec demo_ext demo_kernel demo_fuel demo_write.

(** A C library without [__close_nocancel], in which [pread64] and [lseek64]
    are other names of [pread] and [lseek]. *)
Definition demo_symbol (name : cstr) : Z :=
  if decide (name = lit "__close_nocancel") then 0
  else if decide (name = lit "pread64") then 3000
  else if decide (name = lit "pread") then 3000
  else if decide (name = lit "lseek64") then 5000
  else if decide (name = lit "lseek") then 5000
  else 1 + foldr (λ c n, n + Z.of_N (Ascii.N_of_ascii c)) 0 name.

Definition demo_funchook : @Funchook demo_ext :=
  {| funchook := unit;
     hook_entries := MkLibcFunctions 101 102 103 104 105 106 107 108 109 110 111 112 113;
     dlsym_next := demo_symbol;
     funchook_create e x :=
       (Some tt, e, set_k_hook (HookState [] (hs_patched (k_hook x)) false) x);
     funchook_prepare _ a hook e x :=
       ((0, Z.abs a + 10000), e, set_k_hook (HookState (hs_prepared (k_hook x) ++ [(a, hook)])
                                         (hs_patched (k_hook x)) (hs_active (k_hook x))) x);
     funchook_install _ e x :=
       (0, e, set_k_hook (HookState (hs_prepared (k_hook x))
                            (patch_all (hs_prepared (k_hook x)) (hs_patched (k_hook x))) true) x);
     funchook_uninstall _ e x :=
       if hs_active (k_hook x)
       then (0, e, set_k_hook (HookState (hs_prepared (k_hook x))
                  (unpatch_all (hs_prepared (k_hook x)) (hs_patched (k_hook x))) false) x)
       else (1, e, x);
     funchook_destroy _ e x := (0, e, x);
     funchook_error_message _ e x := (lit "error", e, x);
     pthread_mutexattr_init e x := (0, e, x);
     pthread_mutexattr_settype_recursive e x := (0, e, x) |}.

#[local] Existing Instance demo_funchook.

Definition demo_funchook_spec : @FunchookSpec demo_ext demo_kernel demo_funchook.
Proof.
  refine (@Build_FunchookSpec demo_ext demo_kernel demo_funchook
    (λ x _, hs_prepared (k_hook x)) (λ x, hs_patched (k_hook x)) (λ x _, hs_active (k_hook x))
    _ _ _ _ _ _ _ _ _ _ _ _ _ _ _ _); intros;
    try (intros ? ?; cbn -[demo_opens]; unfold demo_opens; repeat case_match; done).
  - cbn. split; [done|]. intros ? _. done.
  - cbn -[Z.add Z.abs]. split; [done|]. split; [done|]. intros _. split; [lia|]. split; [lia|done].
  - cbn. done.
  - cbn. destruct (hs_active (k_hook x)); done.
  - done.
Defined.

#[local] Existing Instance demo_funchook_spec.

(** The process when the library is loaded, and after its constructor. *)
Definition null_table : LibcFunctions := MkLibcFunctions 0 0 0 0 0 0 0 0 0 0 0 0 0.
Definition booted : process := Process (set_libc null_table fresh_world) null_table None false None.
Definition demo_ready : process :=
  Process (set_libc real_table fresh_world) null_table None true (Some MutexRecursive).

Lemma demo_table_ready : libc_ready real_table.
Proof. apply libc_loaded_spec. by vm_compute. Defined.

Lemma booted_wf : wf (pr_world booted).
Proof. exact fresh_wf. Defined.

Lemma install_hooks_correct_witness :
  ∃ s', run (install_hooks 1) demo_ready = Done (tt, s') ∧ install_outcome 1 demo_ready s'.
Proof. exact (install_hooks_correct 1 demo_ready). Defined.

(** [pread] (address 3000) is prepared for both hooks. *)
Lemma install_prepares_alias_twice_witness :
  match run (install_hooks 1) demo_ready with
  | Done (_, s') =>
      match pr_funchook s' with
      | Some h => prepared (ext_of s') h !! 2%nat = Some (3000, 103) ∧
                  prepared (ext_of s') h !! 4%nat = Some (3000, 104)
      | None => False
      end
  | _ => False
  end.
Proof.
  assert (match run (install_hooks 1) demo_ready with
          | Done (_, s') => pr_funchook s' = Some tt | _ => False end) as H by by vm_compute.
  destruct (run (install_hooks 1) demo_ready) as [[[] s']| | |] eqn:E; [|exact H..]. rewrite H.
  exact (proj1 (install_prepares_alias_twice 1 demo_ready s' tt demo_table_ready E H) eq_refl).
Defined.

Lemma install_uninstall_roundtrip_witness :
  match run (install_hooks 1) demo_ready with
  | Done (_, s1) => ∃ s2, run (uninstall_hooks 1) s1 = Done (tt, s2) ∧ libc_of s2 = real_table ∧
      patched (ext_of s2) = ∅
  | _ => False
  end.
Proof.
  assert (match run (install_hooks 1) demo_ready with
          | Done (_, s1) => pr_funchook s1 = Some tt ∧
              (funchook_uninstall tt (errno_of 1 (pr_world s1)) (ext_of s1)).1.1 = 0
          | _ => False end) as H by by vm_compute.
  destruct (run (install_hooks 1) demo_ready) as [[[] s1]| | |] eqn:E; [|exact H..].
  destruct H as [Hh Hrv].
  destruct (install_uninstall_roundtrip 1 demo_ready s1 demo_table_ready E)
    as (s2 & Hr & Hl & _ & _ & Hp).
  exists s2. split; [exact Hr|]. split; [exact Hl|]. rewrite (Hp tt Hh Hrv); [reflexivity|].
  intros p _. apply lookup_empty.
Defined.

Lemma hooksqfs_init_establishes_witness :
  ∃ s', run (hooksqfs_init 1) booted = Done (tt, s') ∧ initialized (pr_world booted) s' ∧
    pr_funchook s' = Some tt ∧ pr_mutex s' = Some MutexRecursive.
Proof.
  destruct (hooksqfs_init_establishes 1 booted booted_wf eq_refl (conj eq_refl (conj eq_refl eq_refl))
    eq_refl eq_refl) as (s' & Hr & Hi).
  exists s'. split; [exact Hr|]. split; [exact Hi|].
  assert (match run (hooksqfs_init 1) booted with
          | Done (_, s') => pr_funchook s' = Some tt ∧ pr_mutex s' = Some MutexRecursive | _ => False end) as H
    by (vm_compute; split; reflexivity).
  rewrite Hr in H. exact H.
Defined.

End witnesses.
