(* ===== verification/Listing.v ===== *)
(** * The listing of the root directory

    [sqfs_mgr.c]: [bytes_to_hex] and [test_sqfs_listing], which loads the
    image, prints every regular file of its root directory with the first 16
    bytes in hexadecimal, and unloads the image. *)

From S2P Require Import Prelude CString Posix Path Prog Foreign State Logging Backing Inode Image.

(** [hex]: the digits. *)
Definition hex_digits : list ascii := lit "0123456789abcdef".

(** The two digits of a byte; [in[i] >> 4] and [in[i] & 0x0F]. *)
Definition hex_high (b : ascii) : option ascii := hex_digits !! Z.to_nat (Z.shiftr (Z.of_N (N_of_ascii b)) 4).
Definition hex_low (b : ascii) : option ascii :=
  hex_digits !! Z.to_nat (Z.land (Z.of_N (N_of_ascii b)) 0x0f).

(** The loop from index [i] on, [n] bytes being left; [None] is an access out
    of bounds. *)
Fixpoint hex_loop (n i : nat) (inp : list ascii) (out : buf) : option buf :=
  match n with
  | O => Some out
  | S n =>
      b ← inp !! i;
      high ← hex_high b;
      out ← buf_write out (i * 2) [high];
      low ← hex_low b;
      out ← buf_write out (i * 2 + 1) [low];
      hex_loop n (S i) inp out
  end.

Definition bytes_to_hex (inp : list ascii) (count : nat) (out : buf) : option buf :=
  out ← hex_loop count 0 inp out;
  buf_write out (count * 2) [NUL].

Definition HEAD_SIZE : Z := 16.

Section listing.
Context `{Platform} `{UtHash} `{Ext} `{Fuel}.

(** Whether [sqfs_destroy] of libsquashfs accepts a null pointer. *)
Context (destroy_null : bool).
Context (t : Z).

Definition sqfs_destroy_opt (p : option loc) : prog world unit :=
  match p with
  | Some p => sqfs_destroy t p
  | None => if destroy_null then Ret tt else fault
  end.

(** [%.*s] of the name of an entry. *)
Definition entry_name (de : sqfs_dir_entry) : cstr := take (Z.to_nat (de_size de + 1)) (de_name de).

Definition list_line (de : sqfs_dir_entry) (size head : cstr) : cstr :=
  line (lit "  " ++ entry_name de ++ lit " size=" ++ size ++ lit " head16=" ++ head).

(** The two objects of an entry are released. *)
Definition free_both (inode entry : loc) : prog world unit :=
  sqfs_free t (Some inode) ;; sqfs_free t (Some entry).

(** The regular file [inode] of size [size]. *)
Definition list_file (de : sqfs_dir_entry) (entry : loc) (i : sqfs_inode) (inode : loc) (size : Z)
    : prog world unit :=
  let want := if size <? HEAD_SIZE then wrap_u 32 size else HEAD_SIZE in
  do '(got, bytes) <- (if 0 <? want then
                         do reader <- mgr_handle t m_data_reader;
                         call t (sqfs_data_reader_read reader i 0 want)
                       else Ret (0, []));
  if got <? 0 then
    log_msg t (list_line de (dec size) (lit "<read error " ++ dec got ++ lit ">")) ;;
    free_both inode entry
  else
    match (head ← buf_write (uninit HEAD_SIZE) 0 bytes;
           out ← bytes_to_hex head (Z.to_nat got) (uninit (HEAD_SIZE * 2 + 1));
           c_string out) with
    | None => fault
    | Some hex => log_msg t (list_line de (dec size) hex) ;; free_both inode entry
    end.

(** One entry. *)
Definition list_entry (dir : loc) (de : sqfs_dir_entry) (entry : loc) : prog world unit :=
  if negb (de_type de =? SQFS_INODE_FILE) && negb (de_type de =? SQFS_INODE_EXT_FILE) then
    sqfs_free t (Some entry)
  else
    do h <- load t as_handle dir;
    do '(ret, i) <- call t (sqfs_dir_reader_get_inode h);
    if negb (ret =? 0) then
      log_msg t (list_line de (lit "?") (lit "<inode error " ++ dec ret ++ lit ">")) ;;
      sqfs_free t (Some entry)
    else
      do inode <- heap_alloc t (OInode i);
      let '(ret, size) := sqfs_inode_get_file_size i in
      if negb (ret =? 0) then
        log_msg t (list_line de (lit "?") (lit "<size error " ++ dec ret ++ lit ">")) ;;
        free_both inode entry
      else list_file de entry i inode size.

Fixpoint listing_loop (n : nat) (dir : loc) : prog world unit :=
  match n with
  | O => spin
  | S n =>
      do h <- load t as_handle dir;
      do '(ret, de) <- call t (sqfs_dir_reader_read h);
      if 0 <? ret then Ret tt
      else if ret <? 0 then log_msg t (line (lit "sqfs_dir_reader_read failed: " ++ dec ret))
      else
        do entry <- heap_alloc t (OSqfsDirEntry de);
        list_entry dir de entry ;;
        listing_loop n dir
  end.

(** [out]: the root inode and the reader may be null. *)
Definition listing_out (dir root : option loc) : prog world unit :=
  sqfs_free t root ;;
  sqfs_destroy_opt dir ;;
  sqfs_mgr_unload_image t ;;
  sqfs_unlock t.

(** The part after the directory reader was created. *)
Definition listing_dir (dir : loc) : prog world unit :=
  do h <- load t as_handle dir;
  do '(ret, i) <- call t (sqfs_dir_reader_get_root_inode h);
  if negb (ret =? 0) then
    log_msg t (line (lit "sqfs_dir_reader_get_root_inode failed: " ++ dec ret)) ;;
    listing_out (Some dir) None
  else
    do root <- heap_alloc t (OInode i);
    do h <- load t as_handle dir;
    do ret <- call t (sqfs_dir_reader_open_dir h i 0);
    if negb (ret =? 0) then
      log_msg t (line (lit "sqfs_dir_reader_open_dir failed: " ++ dec ret)) ;;
      listing_out (Some dir) (Some root)
    else
      log_msg t (line (lit "/ files:")) ;;
      listing_loop fuel dir ;;
      listing_out (Some dir) (Some root).

(** The part before: the directory reader, or null. *)
Definition listing_open : prog world (option loc) :=
  do _r <- sqfs_mgr_load_image t;
  sqfs_lock t ;;
  do loaded <- sqfs_mgr_loaded_locked t;
  if negb loaded then Ret None
  else
    do dir <- new_dir_reader t;
    match dir with
    | None => log_msg t (line (lit "sqfs_dir_reader_create failed")) ;; Ret None
    | Some dir => Ret (Some dir)
    end.

Definition test_sqfs_listing : prog world unit :=
  do dir <- listing_open;
  match dir with
  | None => listing_out None None
  | Some dir => listing_dir dir
  end.

End listing.
