(* ===== verification/ListingProps.v ===== *)
(** * Properties of the listing of the root directory

    The hexadecimal text stays inside its buffer and stands for the bytes;
    the listing ends, releases everything it took, and leaves the image
    unloaded. *)

From S2P Require Import Prelude CString Posix Path Prog Foreign State Logging Kernel Backing Inode.
From S2P Require Import Image StateFacts Seek Invariant ImageFacts OpendirFacts EnumFacts LoadProps Listing Demo.

(** ** Hexadecimal *)

(** The two digits of a byte. *)
Definition hex_byte (b : ascii) : list ascii :=
  let n := N.to_nat (N_of_ascii b) in
  [nth (n / 16) hex_digits NUL; nth (n mod 16) hex_digits NUL].

Definition hex_text (l : list ascii) : list ascii := l ≫= hex_byte.

(** The value of a digit, and the bytes a text stands for. *)
Definition digit_value (c : ascii) : option nat := fst <$> list_find (eq c) hex_digits.

Fixpoint unhex (s : list ascii) : option (list ascii) :=
  match s with
  | [] => Some []
  | [_] => None
  | h :: l :: s =>
      vh ← digit_value h; vl ← digit_value l; rest ← unhex s;
      Some (ascii_of_nat (vh * 16 + vl) :: rest)
  end.

Lemma hex_digits_of_byte b :
  hex_high b = Some (nth (N.to_nat (N_of_ascii b) / 16) hex_digits NUL) ∧
  hex_low b = Some (nth (N.to_nat (N_of_ascii b) mod 16) hex_digits NUL).
Proof. destruct b as [[] [] [] [] [] [] [] []]; by split. Qed.

Lemma hex_byte_value b :
  ∃ vh vl, digit_value (nth (N.to_nat (N_of_ascii b) / 16) hex_digits NUL) = Some vh ∧
    digit_value (nth (N.to_nat (N_of_ascii b) mod 16) hex_digits NUL) = Some vl ∧
    ascii_of_nat (vh * 16 + vl) = b.
Proof. destruct b as [[] [] [] [] [] [] [] []]; by eexists _, _. Qed.

Lemma unhex_hex_text l : unhex (hex_text l) = Some l.
Proof.
  induction l as [|b l IH]; [done|]. destruct (hex_byte_value b) as (vh & vl & Eh & El & Eb).
  cbn [hex_text mbind list_bind hex_byte app unhex]. rewrite Eh. cbn [mbind option_bind]. rewrite El.
  cbn [mbind option_bind]. unfold hex_text in IH. cbn [mbind] in IH. rewrite IH. cbn [mbind option_bind].
  by rewrite Eb.
Qed.

Lemma hex_text_length l : length (hex_text l) = (2 * length l)%nat.
Proof. induction l as [|b l IH]; [done|]. unfold hex_text in *. cbn [mbind list_bind]. rewrite length_app, IH. cbn. lia. Qed.

Lemma hex_text_nul_free l : nul_free (hex_text l).
Proof.
  unfold nul_free, hex_text. rewrite list_elem_of_bind. intros (b & Hb & _).
  assert (bool_decide (NUL ∈ hex_byte b) = false) as H%bool_decide_eq_false
    by by destruct b as [[] [] [] [] [] [] [] []]. done.
Qed.

Lemma buf_write_at (x y : buf) c a i : i = length x -> buf_write (x ++ c :: y) i [a] = Some (x ++ a :: y).
Proof.
  intros ->. rewrite buf_write_Some by (rewrite length_app; cbn; lia).
  rewrite take_app_length, drop_app_ge by (cbn; lia). cbn [length].
  by replace (length x + 1 - length x)%nat with 1%nat by lia.
Qed.

(** The loop writes the text of the bytes in place. *)
Lemma hex_loop_ok n : ∀ i inp x y,
  (i + n <= length inp)%nat -> length x = (2 * i)%nat -> (2 * n <= length y)%nat ->
  hex_loop n i inp (x ++ y) = Some (x ++ hex_text (take n (drop i inp)) ++ drop (2 * n) y).
Proof.
  induction n as [|n IH]; intros i inp x y Hi Hx Hy; cbn [hex_loop]; [by rewrite take_0|].
  destruct y as [|c1 [|c2 y]]; cbn [length] in Hy; [lia..|].
  destruct (lookup_lt_is_Some_2 inp i) as [b Hb]; [lia|]. rewrite Hb. cbn [mbind option_bind].
  destruct (hex_digits_of_byte b) as [-> ->]. cbn [mbind option_bind].
  rewrite buf_write_at by lia. cbn [mbind option_bind]. rewrite cons_middle, app_assoc.
  rewrite buf_write_at by (rewrite length_app; cbn; lia). cbn [mbind option_bind].
  rewrite cons_middle, app_assoc, IH by (rewrite ?length_app; cbn; lia).
  rewrite (drop_S _ _ _ Hb). replace (2 * S n)%nat with (S (S (2 * n))) by lia.
  cbn [take drop hex_text mbind list_bind hex_byte]. by rewrite <- !app_assoc.
Qed.

(** [bytes_to_hex] never leaves its buffers, and the string it makes stands
    for the bytes. *)
Lemma bytes_to_hex_ok inp count out :
  (count <= length inp)%nat -> (2 * count < length out)%nat ->
  ∃ out', bytes_to_hex inp count out = Some out' ∧ c_string out' = Some (hex_text (take count inp)).
Proof.
  intros Hi Ho. unfold bytes_to_hex. change out with ([] ++ out).
  rewrite hex_loop_ok by (done || lia). cbn [mbind option_bind app drop].
  assert (Hl : length (hex_text (take count inp)) = (count * 2)%nat) by (rewrite hex_text_length, length_take; lia).
  destruct (drop (2 * count) out) as [|c rest] eqn:E.
  { apply (f_equal length) in E. rewrite length_drop in E. cbn in E. lia. }
  rewrite buf_write_at by done. eexists. split; [done|]. apply c_string_app, hex_text_nul_free.
Qed.

(** ** The loop *)

(** The calls between two entries leave the position of the directory reader
    alone; file sizes are 64-bit values. *)
Class ListingSpec `{Ext} `{Fuel} `{!DirSpec} := {
  dir_keeps_write fd bytes : dir_keeps dir_left dir_current (sys_write fd bytes);
  dir_keeps_openat path flags mode : dir_keeps dir_left dir_current (sys_openat path flags mode);
  dir_keeps_data_read h i pos n : dir_keeps dir_left dir_current (sqfs_data_reader_read h i pos n);
  file_size_u64 i : is_uint64 (sqfs_inode_get_file_size i).2;
}.

Section props.
Context `{HP : Platform} `{HU : UtHash} `{HS : !UtHashSpec} `{HE : Ext} `{HK : !KernelSpec}
  `{HF : Fuel} `{HW : !WriteSpec} `{HC : !ContentSpec} `{HD : !DirSpec} `{HL : !ListingSpec}.

Section loop.
Context (t : Z) (k : nat) (mg : sqfs_mgr) (lc : LibcFunctions) (dc fc : Z).
Context (h : gmap loc obj) (rd : loc) (hd : handle) (rp : loc) (hr : handle).
Context (Hrd : h !! rd = Some (OHandle hd)) (Hrp : m_data_reader mg = Some rp) (Hhr : h !! rp = Some (OHandle hr)).

(** The outside after some calls: nothing is closed, and the reader is where
    it was. *)
Definition listed (x x' : ext) : Prop := grows x x' ∧ dir_left x' hd = dir_left x hd.

Lemma listed_trans x y z : listed x y -> listed y z -> listed x z.
Proof. intros [Hg Hl] [Hg' Hl']. split; [by eapply grows_trans|congruence]. Qed.

Lemma listed_log x x' : log_ext x x' -> listed x x'.
Proof.
  intros Hx. split; [by apply log_ext_grows|].
  induction Hx as [|fd bytes e x y _ IH|path flags mode e x y _ IH]; [done|..]; rewrite IH.
  - apply (dir_keeps_write fd bytes e x hd).
  - apply (dir_keeps_openat path flags mode e x hd).
Qed.

Definition fresh (n : loc) : Prop := ∀ q, (n <= q)%positive -> h !! q = None.

(** What an entry leaves: the heap as it was. *)
Definition entry_post (x : ext) (er : gmap Z Z) (n : loc) (Q : unit -> world -> Prop) : Prop :=
  ∀ x' er' n' lf', listed x x' -> errno_frame t er er' -> (n <= n')%positive ->
    Q tt (World x' er' (mutex_of t (S k)) mg h n' lc dc fc lf').

Lemma wp_free_both o i x er n lf Q :
  fresh n -> (∀ n', (n <= n')%positive -> Q tt (World x er (mutex_of t (S k)) mg h n' lc dc fc lf)) ->
  wp (free_both t (Pos.succ n) n)
    (World x er (mutex_of t (S k)) mg (<[Pos.succ n := OInode i]> (<[n := o]> h)) (Pos.succ (Pos.succ n)) lc dc fc lf) Q.
Proof.
  intros Hn HQ. unfold free_both. apply wp_bind. eapply wp_sqfs_free; [apply lookup_insert_eq|].
  rewrite delete_insert_id by (rewrite lookup_insert_ne by lia; apply Hn; lia).
  eapply wp_sqfs_free; [apply lookup_insert_eq|]. rewrite delete_insert_id by (apply Hn; lia).
  apply HQ. lia.
Qed.

Lemma fresh_ne n q : fresh n -> is_Some (h !! q) -> (q < n)%positive.
Proof.
  intros Hn [o Ho]. destruct (Pos.ltb_spec q n) as [|Hle]; [done|]. by rewrite (Hn q Hle) in Ho.
Qed.

(** The head that fits: at most 16 bytes were read. *)
Lemma head_hex bytes got :
  0 <= got <= HEAD_SIZE -> Z.of_nat (length bytes) = got ->
  (head ← buf_write (uninit HEAD_SIZE) 0 bytes;
   out ← bytes_to_hex head (Z.to_nat got) (uninit (HEAD_SIZE * 2 + 1));
   c_string out) = Some (hex_text bytes).
Proof.
  unfold HEAD_SIZE. intros Hg Hl. rewrite buf_write_Some by (rewrite uninit_length; lia).
  rewrite take_0, app_nil_l. set (inp := bytes ++ _). set (out := uninit _). cbn [mbind option_bind].
  destruct (bytes_to_hex_ok inp (Z.to_nat got) out) as (out' & Hb & Hs);
    [unfold inp; rewrite length_app; lia|unfold out; rewrite uninit_length; lia|].
  rewrite Hb. cbn [mbind option_bind]. unfold inp in Hs. rewrite Hs, take_app_le, take_ge by lia. done.
Qed.

Lemma wp_list_file de i x er n lf Q :
  fresh n -> (sqfs_inode_get_file_size i).1 = 0 -> entry_post x er n Q ->
  wp (list_file t de n i (Pos.succ n) (sqfs_inode_get_file_size i).2)
    (World x er (mutex_of t (S k)) mg (<[Pos.succ n := OInode i]> (<[n := OSqfsDirEntry de]> h))
       (Pos.succ (Pos.succ n)) lc dc fc lf) Q.
Proof.
  intros Hn Hok HQ. unfold list_file. set (size := (sqfs_inode_get_file_size i).2).
  set (want := if size <? HEAD_SIZE then wrap_u 32 size else HEAD_SIZE).
  assert (Hwant : 0 <= want <= HEAD_SIZE).
  { pose proof (file_size_u64 i) as Hs. unfold is_uint64 in Hs. fold size in Hs. unfold want, HEAD_SIZE in *.
    destruct (Z.ltb_spec size 16); [rewrite wrap_u_id by lia|]; lia. }
  assert (Hlog : ∀ text x1 er1 lf1, listed x x1 -> errno_frame t er er1 ->
    wp (log_msg t text ;; free_both t (Pos.succ n) n)
      (World x1 er1 (mutex_of t (S k)) mg (<[Pos.succ n := OInode i]> (<[n := OSqfsDirEntry de]> h))
         (Pos.succ (Pos.succ n)) lc dc fc lf1) Q).
  { intros text x1 er1 lf1 Hx1 Her1. apply wp_bind, wp_log_msg. intros x2 er2 lf2 Hx2%listed_log Her2.
    apply wp_free_both; [done|]. intros n' Hn'. apply HQ; [by eapply listed_trans|by eapply errno_frame_trans|done]. }
  assert (Hrest : ∀ got bytes x1 er1, listed x x1 -> errno_frame t er er1 ->
    got < 0 ∨ (0 <= got <= HEAD_SIZE ∧ Z.of_nat (length bytes) = got) ->
    wp (if got <? 0 then
          log_msg t (list_line de (dec size) (lit "<read error " ++ dec got ++ lit ">")) ;;
          free_both t (Pos.succ n) n
        else match (head ← buf_write (uninit HEAD_SIZE) 0 bytes;
                    out ← bytes_to_hex head (Z.to_nat got) (uninit (HEAD_SIZE * 2 + 1));
                    c_string out) with
             | None => fault
             | Some hex => log_msg t (list_line de (dec size) hex) ;; free_both t (Pos.succ n) n
             end)
      (World x1 er1 (mutex_of t (S k)) mg (<[Pos.succ n := OInode i]> (<[n := OSqfsDirEntry de]> h))
         (Pos.succ (Pos.succ n)) lc dc fc lf) Q).
  { intros got bytes x1 er1 Hx1 Her1 Hgot. destruct (Z.ltb_spec got 0); [by apply Hlog|].
    destruct Hgot as [?|[Hg Hl]]; [lia|]. rewrite head_hex by done. by apply Hlog. }
  apply wp_bind. destruct (0 <? want).
  - apply wp_bind. eapply wp_mgr_handle; [exact Hrp| |].
    { pose proof (fresh_ne n rp Hn ltac:(by rewrite Hhr)). by rewrite !lookup_insert_ne by lia. }
    apply wp_call. intros [got bytes] e1 x1 E. cbn beta iota. cbn [w_errno w_ext] in E.
    pose proof (data_read_spec hr i 0 want (default 0 (er !! t)) x ltac:(lia) ltac:(lia)) as Hd.
    rewrite E in Hd. apply Hrest; [|by apply errno_frame_insert|destruct Hd as [?|(? & _ & ? & _)]; [by left|right; lia]].
    split; [eapply keeps_grows; [apply keeps_data_read|exact E]|].
    pose proof (dir_keeps_data_read hr i 0 want (default 0 (er !! t)) x hd) as [Hk _]. by rewrite E in Hk.
  - apply wp_ret. apply Hrest; [split; [apply grows_refl|done]|done|right]. unfold HEAD_SIZE. by split.
Qed.

Lemma wp_list_entry de x er n lf Q :
  fresh n -> entry_post x er n Q ->
  wp (list_entry t rd de n)
    (World x er (mutex_of t (S k)) mg (<[n := OSqfsDirEntry de]> h) (Pos.succ n) lc dc fc lf) Q.
Proof.
  intros Hn HQ. unfold list_entry.
  assert (Hfree : ∀ x1 er1 lf1, listed x x1 -> errno_frame t er er1 ->
    wp (sqfs_free t (Some n))
      (World x1 er1 (mutex_of t (S k)) mg (<[n := OSqfsDirEntry de]> h) (Pos.succ n) lc dc fc lf1) Q).
  { intros x1 er1 lf1 Hx1 Her1. eapply wp_sqfs_free; [apply lookup_insert_eq|].
    rewrite delete_insert_id by (apply Hn; lia). apply HQ; [done|done|lia]. }
  destruct (_ && _); [apply Hfree; [split; [apply grows_refl|done]|done]|].
  pose proof (fresh_ne n rd Hn ltac:(by rewrite Hrd)) as Hne.
  apply wp_bind. eapply wp_load; [by rewrite lookup_insert_ne by lia|done|].
  apply wp_bind, wp_call. intros [ret i] e1 x1 E. cbn beta iota. cbn [w_errno w_ext] in E.
  assert (Hx1 : listed x x1).
  { split; [eapply keeps_grows; [apply keeps_get_inode|exact E]|].
    pose proof (get_inode_spec hd (default 0 (er !! t)) x) as Hs. rewrite E in Hs. apply Hs. }
  destruct (negb (ret =? 0)).
  { apply wp_bind, wp_log_msg. intros x2 er2 lf2 Hx2%listed_log Her2.
    apply Hfree; [by eapply listed_trans|by eapply errno_frame_insert_l]. }
  apply wp_bind, wp_heap_alloc. destruct (sqfs_inode_get_file_size i) as [r size] eqn:Es.
  destruct (Z.eqb_spec r 0) as [->|Hr]; cbn [negb].
  - replace size with (sqfs_inode_get_file_size i).2 by by rewrite Es.
    apply wp_list_file; [done|by rewrite Es|]. intros x2 er2 n2 lf2 Hx2 Her2 Hn2.
    apply HQ; [by eapply listed_trans|by eapply errno_frame_insert_l|done].
  - apply wp_bind, wp_log_msg. intros x2 er2 lf2 Hx2%listed_log Her2. apply wp_free_both; [done|].
    intros n' Hn'. apply HQ; [by eapply listed_trans|by eapply errno_frame_insert_l|done].
Qed.

Lemma wp_listing_loop m : ∀ x er n lf Q,
  (length (dir_left x hd) < m)%nat -> fresh n ->
  (∀ x' er' n' lf', grows x x' -> errno_frame t er er' -> (n <= n')%positive ->
     Q tt (World x' er' (mutex_of t (S k)) mg h n' lc dc fc lf')) ->
  wp (listing_loop t m rd) (World x er (mutex_of t (S k)) mg h n lc dc fc lf) Q.
Proof.
  induction m as [|m IH]; intros x er n lf Q Hm Hn HQ; [lia|]. cbn [listing_loop].
  apply wp_bind. eapply wp_load; [exact Hrd|done|]. apply wp_bind, wp_call.
  intros [ret de] e1 x1 E. cbn beta iota. cbn [w_errno w_ext] in E.
  assert (Hg : grows x x1) by (eapply keeps_grows; [apply keeps_dir_read|exact E]).
  pose proof (dir_read_spec hd (default 0 (er !! t)) x) as Hr. rewrite E in Hr.
  destruct (Z.ltb_spec 0 ret); [apply wp_ret, HQ; [done|by apply errno_frame_insert|done]|].
  destruct (Z.ltb_spec ret 0).
  { apply wp_log_msg. intros x2 er2 lf2 Hx2%log_ext_grows Her2.
    apply HQ; [by eapply grows_trans|by eapply errno_frame_insert_l|done]. }
  destruct Hr as [?|[[? _]|(_ & i & rest & Hleft & Hrest & _)]]; [lia..|].
  rewrite Hleft in Hm. cbn [length] in Hm.
  apply wp_bind, wp_heap_alloc, wp_bind, wp_list_entry; [done|].
  intros x2 er2 n2 lf2 [Hx2 Hl2] Her2 Hn2. apply IH.
  - rewrite Hl2, Hrest. lia.
  - intros q Hq. apply Hn. lia.
  - intros x3 er3 n3 lf3 Hx3 Her3 Hn3. apply HQ; [|by eapply errno_frame_trans; [by eapply errno_frame_insert_l|]|lia].
    by do 2 (eapply grows_trans; [eassumption|]).
Qed.

End loop.
(** ** Unloading *)

(** The image is gone, and nothing else has changed. *)
Record unloaded (t : Z) (w w' : world) : Prop := {
  ul_wf : wf w';
  ul_frame : frame t w w';
  ul_image : image_empty (w_mgr w');
  ul_live : live w' = live w ∖ image_cells (w_mgr w);
  ul_fds fd : fd_view w' fd = fd_view w fd;
  ul_dirs d : dir_view w' d = dir_view w d;
}.

Lemma wp_unload_unlock t k own fm dm x0 er0 lf0 n0 x er mg h n lc dc fc lf :
  wf_with own fm dm x0 mg h n0 -> grows x0 x -> errno_frame t er0 er -> (n0 <= n)%positive ->
  wp (sqfs_mgr_unload_image t ;; sqfs_unlock t) (World x er (mutex_of t (S k)) mg h n lc dc fc lf)
    (λ _, unloaded t (World x0 er0 (mutex_of t k) mg h n0 lc dc fc lf0)).
Proof.
  intros Hwf Hx Her Hn. assert (Hwf1 : wf_with own fm dm x mg h n) by (eapply wf_grows; [done|by eapply wf_next]).
  apply wp_bind. eapply (wp_unload _ fm dm _ t k er0 lc dc fc); [by apply loading_loaded|done|].
  intros w' (own' & x' & er' & mg' & h' & n' & lf' & -> & [Hwf' Hk Hd Hj] & Her' & Him).
  apply wp_unlock. assert (Hcells : image_cells mg' = ∅).
  { destruct Him as (E1 & E2 & E3). unfold image_cells. cbn. rewrite E1, E2, E3. set_solver. }
  assert (Hk' : cells_kept not_image own own' h h').
  { intros l o Hl Hni. destruct (decide (l ∈ image_cells mg)) as [Hin|Hout].
    - exfalso. apply Hni. apply elem_image_cells in Hin as [f Hf].
      destruct (wf_field _ _ _ _ _ _ _ _ _ Hwf Hf) as [Ho _]. rewrite Hl in Ho. injection Ho as ->.
      unfold is_image_owner. destruct f; auto.
    - destruct (Hk l o) as [? E]; [by apply map_lookup_filter_Some|done|]. split; [done|]. rewrite E.
      destruct (h !! l) eqn:El; [by apply map_lookup_filter_Some|]. apply map_lookup_filter_None. by left. }
  destruct (views_kept not_image own own' fm dm (World x0 er0 (mutex_of t k) mg h n0 lc dc fc lf0)
    (World x' er' (mutex_of t k) mg' h' n' lc dc fc lf')) as [Hfds Hdirs]; try done.
  { intros z; unfold not_image, is_image_owner; split; intros [|[|]]; done. }
  constructor; [by exists own', fm, dm|by constructor|done| |done|done].
  unfold live. cbn [w_heap w_mgr]. rewrite Hd, Hcells. apply leibniz_equiv. intros l.
  rewrite elem_of_union, elem_of_difference, !elem_of_dom. unfold is_Some. setoid_rewrite map_lookup_filter_Some.
  set_solver.
Qed.

(** ** The whole listing *)

Section whole.
Context (t : Z) (k : nat) (own : gmap loc owner) (fm dm : gmap Z loc).
Context (x0 : ext) (er0 : gmap Z Z) (mg : sqfs_mgr) (h : gmap loc obj) (n0 : loc).
Context (lc : LibcFunctions) (dc fc : Z) (lf0 : option Z) (Hwf : wf_with own fm dm x0 mg h n0).
Context (destroy_null : bool).

Abbreviation before := (World x0 er0 (mutex_of t k) mg h n0 lc dc fc lf0).

Lemma listing_fresh n : (n0 <= n)%positive -> fresh h n.
Proof.
  intros Hn q Hq. destruct (h !! q) as [o|] eqn:E; [|done].
  pose proof (wf_fresh _ _ _ _ _ _ _ Hwf q ltac:(rewrite E; eauto)). lia.
Qed.

(** [out], without objects, with the reader, and with the reader and the root. *)
Lemma wp_out_none x er n lf :
  grows x0 x -> errno_frame t er0 er -> (n0 <= n)%positive ->
  wp (listing_out true t None None) (World x er (mutex_of t (S k)) mg h n lc dc fc lf) (λ _, unloaded t before).
Proof.
  intros Hx Her Hn. unfold listing_out. apply wp_bind, wp_ret, wp_bind, wp_ret. by eapply wp_unload_unlock.
Qed.

Lemma wp_out_reader hd x er n lf :
  grows x0 x -> errno_frame t er0 er -> (n0 <= n)%positive ->
  wp (listing_out destroy_null t (Some n0) None)
    (World x er (mutex_of t (S k)) mg (<[n0 := OHandle hd]> h) n lc dc fc lf) (λ _, unloaded t before).
Proof.
  intros Hx Her Hn. unfold listing_out. apply wp_bind, wp_ret, wp_bind.
  eapply wp_sqfs_destroy; [apply lookup_insert_eq|]. intros e x' Hx'%same_open_grows.
  rewrite delete_insert_id by (by apply (listing_fresh n0)).
  eapply wp_unload_unlock; [exact Hwf|by eapply grows_trans|by apply errno_frame_insert|done].
Qed.

Lemma wp_out_root hd i x er n lf :
  grows x0 x -> errno_frame t er0 er -> (n0 <= n)%positive ->
  wp (listing_out destroy_null t (Some n0) (Some (Pos.succ n0)))
    (World x er (mutex_of t (S k)) mg (<[Pos.succ n0 := OInode i]> (<[n0 := OHandle hd]> h)) n lc dc fc lf)
    (λ _, unloaded t before).
Proof.
  intros Hx Her Hn. unfold listing_out. apply wp_bind. eapply wp_sqfs_free; [apply lookup_insert_eq|].
  rewrite delete_insert_id by (rewrite lookup_insert_ne by lia; apply (listing_fresh n0); lia).
  apply wp_bind. eapply wp_sqfs_destroy; [apply lookup_insert_eq|]. intros e x' Hx'%same_open_grows.
  rewrite delete_insert_id by (by apply (listing_fresh n0)).
  eapply wp_unload_unlock; [exact Hwf|by eapply grows_trans|by apply errno_frame_insert|done].
Qed.

(** The loop over the entries, and [out]. *)
Lemma wp_listing_entries hd i x er n lf :
  mgr_loaded mg = true -> dir_left x hd = dir_entries i ->
  grows x0 x -> errno_frame t er0 er -> (Pos.succ n0 < n)%positive ->
  wp (listing_loop t fuel n0 ;; listing_out destroy_null t (Some n0) (Some (Pos.succ n0)))
    (World x er (mutex_of t (S k)) mg (<[Pos.succ n0 := OInode i]> (<[n0 := OHandle hd]> h)) n lc dc fc lf)
    (λ _, unloaded t before).
Proof.
  intros Hld Hleft Hx Her Hn. unfold mgr_loaded in Hld.
  destruct (m_file mg), (m_compressor mg); [|done..]. destruct (m_data_reader mg) as [rp|] eqn:Erp; [|done].
  destruct (wf_data_reader _ _ _ _ _ _ _ Hwf rp Erp) as [_ [hr Hhr]].
  assert (rp < n0)%positive by (eapply fresh_ne; [by apply listing_fresh|by rewrite Hhr]).
  apply wp_bind. eapply (wp_listing_loop t k mg lc dc fc _ n0 hd rp hr).
  - rewrite lookup_insert_ne by lia. apply lookup_insert_eq.
  - exact Erp.
  - by rewrite !lookup_insert_ne by lia.
  - rewrite Hleft. apply dir_fuel.
  - intros q Hq. rewrite !lookup_insert_ne by lia. apply (listing_fresh n0); lia.
  - intros x' er' n' lf' Hx' Her' Hn'.
    apply wp_out_root; [by eapply grows_trans|by eapply errno_frame_trans|lia].
Qed.

Lemma wp_listing_dir hd x er lf :
  mgr_loaded mg = true -> grows x0 x -> errno_frame t er0 er ->
  wp (listing_dir destroy_null t n0)
    (World x er (mutex_of t (S k)) mg (<[n0 := OHandle hd]> h) (Pos.succ n0) lc dc fc lf) (λ _, unloaded t before).
Proof.
  intros Hld Hx Her. unfold listing_dir. apply wp_bind. eapply wp_load; [apply lookup_insert_eq|done|].
  apply wp_bind, wp_call. intros [ret i] e1 x1 E1%(keeps_grows _ _ _ _ _ _ (keeps_get_root hd)). cbn beta iota.
  pose proof (grows_trans _ _ _ Hx E1) as Hx1.
  destruct (negb (ret =? 0)).
  { apply wp_bind, wp_log_msg. intros x2 er2 lf2 Hx2%log_ext_grows Her2.
    apply wp_out_reader; [by eapply grows_trans| |lia].
    eapply errno_frame_trans; [exact Her|]. by eapply errno_frame_insert_l. }
  apply wp_bind, wp_heap_alloc, wp_bind. eapply wp_load;
    [rewrite lookup_insert_ne by lia; apply lookup_insert_eq|reflexivity|].
  apply wp_bind, wp_call. intros ret2 e2 x2 E2. cbn [w_errno w_ext] in E2.
  pose proof (open_dir_spec hd i 0 (default 0 (<[t:=e1]> er !! t)) x1) as Hod. rewrite E2 in Hod.
  apply (keeps_grows _ _ _ _ _ _ (keeps_open_dir hd i 0)) in E2. pose proof (grows_trans _ _ _ Hx1 E2) as Hx2.
  assert (Her2 : errno_frame t er0 (<[t := e2]> (<[t := e1]> er))) by (by do 2 apply errno_frame_insert).
  destruct (Z.eqb_spec ret2 0) as [->|Hret]; cbn [negb]; apply wp_bind, wp_log_msg;
    intros x3 er3 lf3 Hx3 Her3; pose proof (log_ext_grows _ _ Hx3) as Hg3.
  - apply wp_listing_entries; [done| |by eapply grows_trans|by eapply errno_frame_trans|lia].
    destruct (listed_log hd _ _ Hx3) as [_ ->]. by apply Hod.
  - apply wp_out_root; [by eapply grows_trans|by eapply errno_frame_trans|lia].
Qed.

(** What [listing_open] leaves after the image was loaded, or not. *)
Definition reader_made (o : option loc) (w : world) : Prop :=
  match o with
  | Some p =>
      p = n0 ∧ mgr_loaded mg = true ∧ ∃ hd x er lf, grows x0 x ∧ errno_frame t er0 er ∧
        w = World x er (mutex_of t (S k)) mg (<[n0 := OHandle hd]> h) (Pos.succ n0) lc dc fc lf
  | None =>
      ∃ x er lf, grows x0 x ∧ errno_frame t er0 er ∧ w = World x er (mutex_of t (S k)) mg h n0 lc dc fc lf
  end.

Lemma wp_listing_opened :
  wp (sqfs_lock t ;;
      do loaded <- sqfs_mgr_loaded_locked t;
      if negb loaded then Ret None
      else do dir <- new_dir_reader t;
           match dir with
           | None => log_msg t (line (lit "sqfs_dir_reader_create failed")) ;; Ret None
           | Some dir => Ret (Some dir)
           end) before reader_made.
Proof.
  unfold sqfs_lock. wp_step. apply wp_bind, wp_loaded. destruct (mgr_loaded mg) eqn:El; cbn [negb].
  - apply wp_bind. eapply wp_new_dir_reader; [exact Hwf|done|..].
    + intros e x' hd Hx. cbn beta iota. apply wp_ret. split; [done|]. split; [done|].
      exists hd. do 3 eexists. split; [by apply same_open_grows|]. split; [by apply errno_frame_insert|done].
    + intros super c f e0 e x' _ Hx. cbn beta iota. apply wp_bind, wp_log_msg. intros x2 er2 lf2 Hx2 Her2.
      apply wp_ret. do 3 eexists. split; [|split; [|reflexivity]].
      * eapply grows_trans; [by apply same_open_grows|by apply log_ext_grows].
      * by eapply errno_frame_insert_l.
  - apply wp_ret. do 3 eexists. by split; [|split; [|reflexivity]].
Qed.

(** The rest of the function, from there. *)
Definition listing_rest (dn : bool) (o : option loc) : prog world unit :=
  match o with None => listing_out dn t None None | Some dir => listing_dir dn t dir end.

Lemma wp_listing_rest o w :
  reader_made o w -> is_some o || destroy_null = true ->
  wp (listing_rest destroy_null o) w (λ _, unloaded t before).
Proof.
  destruct o as [p|]; cbn [is_some orb].
  - intros (-> & Hld & hd & x & er & lf & Hx & Her & ->) _. by apply wp_listing_dir.
  - intros (x & er & lf & Hx & Her & ->) ->. by apply wp_out_none.
Qed.

End whole.

(** Whether the image could be loaded and a directory reader be made. *)
Definition gets_reader (t : Z) (w : world) : bool :=
  match run (listing_open t) w with Done (o, _) => is_some o | _ => false end.

(** C35: [test_sqfs_listing] when the image loads and a directory reader can be
    made, or when [sqfs_destroy] accepts a null pointer: it ends, whatever
    libsquashfs reports and whatever the names and sizes of the files are; the
    16 bytes of a file and their text stay inside their arrays, every object it
    takes is released, and the image is unloaded, with the descriptors and
    streams of the hooks left in the tables.  In the remaining case it does not
    end normally: it calls [sqfs_destroy] on the null pointer. *)
Theorem test_sqfs_listing_correct destroy_null t d w :
  wf w -> w_mutex w = mutex_of t d -> image_whole w ->
  if gets_reader t w || destroy_null
  then ∃ w', run (test_sqfs_listing destroy_null t) w = Done (tt, w') ∧
    wf w' ∧ frame t w w' ∧ image_empty (w_mgr w') ∧ live w' = live w ∖ image_cells (w_mgr w) ∧
    (∀ fd, fd_view w' fd = fd_view w fd) ∧ (∀ dir, dir_view w' dir = dir_view w dir)
  else run (test_sqfs_listing destroy_null t) w = Fault.
Proof.
  intros Hwf Hmu Hwh. destruct (load_ok t d w Hwf Hmu Hwh)
    as (ok & w1 & Hrun & Hsame & Hwf1 & Hfr1 & Hfd1 & Hd1 & Hlive & Hok).
  assert (Hmu1 : w_mutex w1 = mutex_of t d) by exact (eq_trans (fr_mutex _ _ _ Hfr1) Hmu).
  assert (Hend : ∀ w2, unloaded t w1 w2 ->
    wf w2 ∧ frame t w w2 ∧ image_empty (w_mgr w2) ∧ live w2 = live w ∖ image_cells (w_mgr w) ∧
    (∀ fd, fd_view w2 fd = fd_view w fd) ∧ (∀ dir, dir_view w2 dir = dir_view w dir)).
  { intros w2 []. split; [done|]. split; [by eapply frame_trans|]. split; [done|]. split; [congruence|].
    split; intros z; congruence. }
  clear Hsame Hok Hlive Hfd1 Hd1 Hfr1. open_world Hwf1 Hmu1.
  destruct (wp_listing_opened t d own fm dm x er mg h n lc dc fc lf Hwf1) as (o & w2 & Hopen & Hmade).
  assert (Ho : run (listing_open t) w = Done (o, w2)).
  { unfold listing_open. rewrite run_bind, Hrun. exact Hopen. }
  unfold gets_reader, test_sqfs_listing. rewrite run_bind, Ho. cbn [outcome_bind fst snd].
  fold (listing_rest t destroy_null o). destruct (is_some o || destroy_null) eqn:E.
  - destruct (wp_listing_rest t d own fm dm x er mg h n lc dc fc lf Hwf1 destroy_null o w2 Hmade E)
      as ([] & w3 & Hr & Hu). exists w3. split; [exact Hr|by apply Hend].
  - apply orb_false_iff in E as [E ->]. by destruct o.
Qed.

End props.

(** C36: [bytes_to_hex] stays inside both arrays and writes a string of two
    digits per byte, from which the bytes can be read back. *)
Theorem bytes_to_hex_correct inp count out :
  (count <= length inp)%nat -> (2 * count < length out)%nat ->
  ∃ out' s, bytes_to_hex inp count out = Some out' ∧ c_string out' = Some s ∧
    length s = (2 * count)%nat ∧ unhex s = Some (take count inp).
Proof.
  intros Hi Ho. destruct (bytes_to_hex_ok inp count out Hi Ho) as (out' & Hb & Hs).
  exists out', (hex_text (take count inp)). split; [done|]. split; [done|].
  split; [rewrite hex_text_length, length_take; lia|apply unhex_hex_text].
Qed.

(** ** Witnesses *)

Section witnesses.
#[local] Existing Instances demo64 demo_hash demo_hash_spec demo_ext demo_kernel demo_fuel demo_write
  demo_content demo_dir.

Definition demo_listing : ListingSpec.
Proof.
  constructor.
  - intros fd bytes e x hd. done.
  - intros path flags mode e x hd. cbn. unfold demo_opens.
    destruct (flag_set flags O_EXCL); cbn; [destruct (decide _)|]; done.
  - intros hd i pos n e x h'. cbn. by destruct (ino_type i =? SQFS_INODE_FILE).
  - intros i. cbn. destruct (ino_number i =? 2); by split.
Defined.
#[local] Existing Instance demo_listing.

(** The image of the demonstration is unloaded afterwards, its descriptor
    stays, and no null pointer is destroyed. *)
Lemma test_sqfs_listing_correct_witness :
  ∃ w', run (test_sqfs_listing false 1) demo_world = Done (tt, w') ∧ image_empty (w_mgr w') ∧
    is_Some (fd_view w' 3).
Proof.
  assert (Hr : gets_reader 1 demo_world || false = true) by (vm_compute; reflexivity).
  pose proof (test_sqfs_listing_correct false 1 0 demo_world demo_wf eq_refl) as H.
  rewrite Hr in H. destruct H as (w' & Hrun & _ & _ & He & _ & Hf & _).
  - left. split; [|split]; by eexists.
  - exists w'. split; [exact Hrun|]. split; [exact He|]. rewrite Hf. by eexists.
Defined.

Lemma bytes_to_hex_correct_witness :
  ∃ out' s, bytes_to_hex (lit "hook") 3 (uninit 9) = Some out' ∧ c_string out' = Some s ∧
    s = lit "686f6f" ∧ unhex s = Some (lit "hoo").
Proof.
  destruct (bytes_to_hex_correct (lit "hook") 3 (uninit 9)) as (out' & s & Hb & Hs & _ & Hu);
    [cbn; lia|vm_compute; lia|].
  exists out', s. split; [exact Hb|]. split; [exact Hs|]. split; [|exact Hu].
  vm_compute in Hb. injection Hb as <-. vm_compute in Hs. by injection Hs as <-.
Defined.

End witnesses.
