(* ===== verification/System.v ===== *)
(** * The hooks as a system

    The calls an application makes ([hook_call]), the program each one runs,
    and what the library promises, seen from outside: an abstract machine whose
    state is the descriptors and the streams of the image ([vfs]) and whose
    steps ([spec_step]) say which results are allowed and what becomes of that
    state.  The concrete machine ([sys_step]) runs the hooks one after another
    and lets the world outside move in between. *)

From S2P Require Import Prelude CString Posix Prog Foreign State Logging Kernel Inode.
From S2P Require Import FdOps StatOps DirOps StateFacts Seek Invariant ImageFacts FdFacts MountFacts.
From S2P Require Import OpendirFacts EnumFacts OpendirSteps SeekProps FdProps StatProps OpendirProps.

(** ** Calls *)

Inductive hook_call :=
| COpen (pathname : option cstr) (flags mode : Z)
| CRead (fd count : Z)
| CPread (fd count offset : Z)
| CPread64 (fd count offset : Z)
| CLseek (fd offset whence : Z)
| CLseek64 (fd offset whence : Z)
| CClose (fd : Z)
| CCloseNocancel (fd : Z)
| CXstat (ver : Z) (pathname : option cstr) (buf : bool)
| CAccess (pathname : option cstr) (mode : Z)
| COpendir (name : option cstr)
| CReaddir (dirp : Z)
| CClosedir (dirp : Z).

Inductive hook_result :=
| RInt (r : Z)
| RData (r : Z) (bytes : list ascii)
| RStat (r : Z) (st : option stat)
| RDirent (o : option dirent).

Section system.
Context `{HP : Platform} `{HU : UtHash} `{HE : Ext} `{HF : Fuel}.

Definition ret_int (p : prog world Z) : prog world hook_result := do r <- p; Ret (RInt r).
Definition ret_data (p : prog world (Z * list ascii)) : prog world hook_result :=
  do r <- p; Ret (RData r.1 r.2).

(** The hook a call runs in thread [t]. *)
Definition hook_prog (t : Z) (c : hook_call) : prog world hook_result :=
  match c with
  | COpen pathname flags mode => ret_int (sqfs_open t pathname flags mode)
  | CRead fd count => ret_data (sqfs_read t fd count)
  | CPread fd count offset => ret_data (sqfs_pread t fd count offset)
  | CPread64 fd count offset => ret_data (sqfs_pread64 t fd count offset)
  | CLseek fd offset whence => ret_int (sqfs_lseek t fd offset whence)
  | CLseek64 fd offset whence => ret_int (sqfs_lseek64 t fd offset whence)
  | CClose fd => ret_int (sqfs_close t fd)
  | CCloseNocancel fd => ret_int (sqfs_close_nocancel t fd)
  | CXstat ver pathname buf => do r <- sqfs_xstat t ver pathname buf; Ret (RStat r.1 r.2)
  | CAccess pathname mode => ret_int (sqfs_access t pathname mode)
  | COpendir name => ret_int (sqfs_opendir t name)
  | CReaddir dirp => do o <- sqfs_readdir t dirp; Ret (RDirent o)
  | CClosedir dirp => ret_int (sqfs_closedir t dirp)
  end.

(** Arguments that are values of their C types. *)
Definition call_ok (c : hook_call) : Prop :=
  match c with
  | COpen p _ _ | CXstat _ p _ | CAccess p _ | COpendir p => path_arg p
  | CRead _ count => 0 <= count
  | CPread _ count offset | CPread64 _ count offset => 0 <= count ∧ is_int64 offset
  | CLseek _ offset _ => - OFF_T_MAX - 1 <= offset <= OFF_T_MAX
  | CLseek64 _ offset _ => is_int64 offset
  | CClose _ | CCloseNocancel _ | CReaddir _ | CClosedir _ => True
  end.

(** What the libc function behind a hook would return to thread [t] now. *)
Definition real_answer (t : Z) (w : world) (c : hook_call) : hook_result :=
  let lf := w_libc w in
  let data (p : Z * list ascii) := RData p.1 p.2 in
  match c with
  | COpen p fl m => RInt (result t (real_open w p fl m) w)
  | CRead fd count => data (result t (call_read (lf_read lf) fd count) w)
  | CPread fd count offset => data (result t (call_pread (lf_pread lf) fd count offset) w)
  | CPread64 fd count offset => data (result t (call_pread (lf_pread64 lf) fd count offset) w)
  | CLseek fd offset whence => RInt (result t (call_lseek (lf_lseek lf) fd offset whence) w)
  | CLseek64 fd offset whence => RInt (result t (call_lseek (lf_lseek64 lf) fd offset whence) w)
  | CClose fd => RInt (result t (call_close (lf_close lf) fd) w)
  | CCloseNocancel fd => RInt (result t (call_close (lf_close_nocancel lf) fd) w)
  | CXstat ver p buf => let r := result t (call_xstat (lf_xstat lf) ver p buf) w in RStat r.1 r.2
  | CAccess p m => RInt (result t (call_access (lf_access lf) p m) w)
  | COpendir p => RInt (result t (real_opendir w p) w)
  | CReaddir d => RDirent (result t (call_readdir (lf_readdir lf) d) w)
  | CClosedir d => RInt (result t (call_closedir (lf_closedir lf) d) w)
  end.

(** ** The abstract machine *)

(** A descriptor of the image is an inode and an offset; a stream is whether a
    real directory is under it and the entries of the image still to come; the
    image is loaded or not, with its block size; and the real functions answer
    what they do at the moment. *)
Record vfs := Vfs {
  v_fds : Z -> option (sqfs_inode * Z);
  v_dirs : Z -> option (bool * list dirent);
  v_loaded : Prop;
  v_block_size : Z;
  v_real : Z -> hook_call -> hook_result;
}.

Definition abs (w : world) : vfs :=
  Vfs (fd_view w) (dir_view w) (image_loaded w) (block_size (m_super (w_mgr w))) (λ t c, real_answer t w c).

(** Only what [F] and [D] name may differ, and what lies outside. *)
Definition same_but (F D : Z -> Prop) (v v' : vfs) : Prop :=
  (∀ fd, ¬ F fd -> v_fds v' fd = v_fds v fd) ∧ (∀ d, ¬ D d -> v_dirs v' d = v_dirs v d) ∧
  (v_loaded v' <-> v_loaded v) ∧ v_block_size v' = v_block_size v.

Definition same (v v' : vfs) : Prop := same_but none none v v'.

Context `{HC : !ContentSpec} `{HD : !DirSpec}.

(** What reading [count] bytes at [pos] may return: an error, or the bytes of
    the file there, at least one while there are any.  The hooks hand the low 32
    bits of [count] to the data reader. *)
Inductive data_at (i : sqfs_inode) (pos count : Z) : Z -> list ascii -> Prop :=
| data_error : data_at i pos count (-1) []
| data_bytes bytes :
    bytes = take (length bytes) (drop (Z.to_nat pos) (content i)) ->
    Z.of_nat (length bytes) <= count ->
    (0 < wrap_u 32 count -> pos < Z.of_nat (length (content i)) -> bytes ≠ []) ->
    data_at i pos count (Z.of_nat (length bytes)) bytes.

(** The calls, by what they are about. *)
Definition seek_args (c : hook_call) : option (Z * Z * Z * Z) :=
  match c with
  | CLseek fd offset whence => Some (fd, offset, whence, OFF_T_MAX)
  | CLseek64 fd offset whence => Some (fd, offset, whence, INT64_MAX)
  | _ => None
  end.
Definition pread_args (c : hook_call) : option (Z * Z * Z) :=
  match c with CPread fd count offset | CPread64 fd count offset => Some (fd, count, offset) | _ => None end.
Definition close_arg (c : hook_call) : option Z :=
  match c with CClose fd | CCloseNocancel fd => Some fd | _ => None end.

(** The descriptor or stream a call is about. *)
Definition fd_arg (c : hook_call) : option Z :=
  match c with
  | CRead fd _ | CPread fd _ _ | CPread64 fd _ _ | CLseek fd _ _ | CLseek64 fd _ _
  | CClose fd | CCloseNocancel fd => Some fd
  | _ => None
  end.
Definition dir_arg (c : hook_call) : option Z :=
  match c with CReaddir d | CClosedir d => Some d | _ => None end.

(** The path names the inode [i] of the image, or nothing of it: it lies
    outside, the image is not loaded, or the lookup failed. *)
Definition found_at (p : option cstr) (i : sqfs_inode) : Prop :=
  (mount_path p).1 = 0 ∧ found (mount_path p).2 i.
Definition unavailable (v : vfs) (p : option cstr) : Prop :=
  (mount_path p).1 ≠ 0 ∨ ∃ e, find_error (v_loaded v) (mount_path p).2 e.

(** The steps of thread [t]. *)
Inductive spec_step (t : Z) (v : vfs) : hook_call -> hook_result -> vfs -> Prop :=
(** Nothing of the image is concerned: the real answer. *)
| spec_fd_real c fd v' :
    fd_arg c = Some fd -> v_fds v fd = None -> same v v' -> spec_step t v c (v_real v t c) v'
| spec_dir_real c d v' :
    dir_arg c = Some d -> v_dirs v d = None -> same v v' -> spec_step t v c (v_real v t c) v'
(** Descriptors: the real file system comes first. *)
| spec_open_real p fl m fd v' :
    v_real v t (COpen p fl m) = RInt fd -> 0 <= fd -> v_fds v fd = None -> same v v' ->
    spec_step t v (COpen p fl m) (RInt fd) v'
| spec_open_fail p fl m n v' :
    v_real v t (COpen p fl m) = RInt n -> n < 0 -> unavailable v p ∨ (∃ i, found_at p i) -> same v v' ->
    spec_step t v (COpen p fl m) (RInt (-1)) v'
| spec_open p fl m n fd i v' :
    v_real v t (COpen p fl m) = RInt n -> n < 0 -> v_loaded v -> found_at p i ->
    0 <= fd -> v_fds v fd = None -> v_fds v' fd = Some (i, 0) -> same_but (eq fd) none v v' ->
    spec_step t v (COpen p fl m) (RInt fd) v'
| spec_read fd count i off r bytes v' :
    v_fds v fd = Some (i, off) -> data_at i off count r bytes ->
    v_fds v' fd = Some (i, off + Z.of_nat (length bytes)) -> same_but (eq fd) none v v' ->
    spec_step t v (CRead fd count) (RData r bytes) v'
| spec_pread c fd count offset i off r bytes v' :
    pread_args c = Some (fd, count, offset) -> v_fds v fd = Some (i, off) ->
    (if offset <? 0 then r = -1 ∧ bytes = [] else data_at i offset count r bytes) -> same v v' ->
    spec_step t v c (RData r bytes) v'
| spec_seek c fd offset whence mx i off ret off' err v' :
    seek_args c = Some (fd, offset, whence, mx) -> v_fds v fd = Some (i, off) ->
    lseek_result mx (sqfs_inode_size i) off offset whence = (ret, off', err) ->
    v_fds v' fd = Some (i, off') -> same_but (eq fd) none v v' ->
    spec_step t v c (RInt ret) v'
| spec_close c fd i off v' :
    close_arg c = Some fd -> v_fds v fd = Some (i, off) ->
    v_fds v' fd = None -> same_but (eq fd) none v v' -> spec_step t v c (v_real v t c) v'
(** Attributes. *)
| spec_xstat_real ver p buf st v' :
    v_real v t (CXstat ver p buf) = RStat 0 st -> same v v' -> spec_step t v (CXstat ver p buf) (RStat 0 st) v'
| spec_xstat_fail ver p buf n st v' :
    v_real v t (CXstat ver p buf) = RStat n st -> n ≠ 0 -> unavailable v p ∨ buf = false ∨ ver ≠ 3 ->
    same v v' -> spec_step t v (CXstat ver p buf) (RStat (-1) st) v'
| spec_xstat p n st i v' :
    v_real v t (CXstat 3 p true) = RStat n st -> n ≠ 0 -> found_at p i -> same v v' ->
    spec_step t v (CXstat 3 p true) (RStat 0 (Some (sqfs_fill_stat i (v_block_size v)))) v'
| spec_access_real p m v' :
    v_real v t (CAccess p m) = RInt 0 -> same v v' -> spec_step t v (CAccess p m) (RInt 0) v'
| spec_access_granted p m n i v' :
    v_real v t (CAccess p m) = RInt n -> n ≠ 0 -> found_at p i -> granted (sqfs_inode_mode i) m ->
    same v v' -> spec_step t v (CAccess p m) (RInt 0) v'
| spec_access_refused p m n v' :
    v_real v t (CAccess p m) = RInt n -> n ≠ 0 ->
    unavailable v p ∨ (∃ i, found_at p i ∧ ¬ granted (sqfs_inode_mode i) m) ->
    same v v' -> spec_step t v (CAccess p m) (RInt (-1)) v'
(** Streams. *)
| spec_opendir_real p u v' :
    v_real v t (COpendir p) = RInt u -> unavailable v p -> u = 0 ∨ v_dirs v u = None -> same v v' ->
    spec_step t v (COpendir p) (RInt u) v'
| spec_opendir_fail p u e v' :
    v_real v t (COpendir p) = RInt u -> (mount_path p).1 = 0 ->
    opendir_error (negb (u =? 0)) (v_loaded v) (mount_path p).2 e -> same v v' ->
    spec_step t v (COpendir p) (RInt 0) v'
| spec_opendir p u d i ds v' :
    v_real v t (COpendir p) = RInt u -> found_at p i -> is_dir_inode i = true ->
    d ≠ 0 -> (u ≠ 0 -> d = u) ->
    (ds = [] ∧ read_fails (dir_entries i)) ∨ mapM image_dirent (dir_entries i) = Some ds ->
    v_dirs v d = None -> v_dirs v' d = Some (negb (u =? 0), ds) -> same_but none (eq d) v v' ->
    spec_step t v (COpendir p) (RInt d) v'
| spec_readdir_upper d ds e v' :
    v_dirs v d = Some (true, ds) -> v_real v t (CReaddir d) = RDirent (Some e) -> same v v' ->
    spec_step t v (CReaddir d) (RDirent (Some e)) v'
| spec_readdir d real ds v' :
    v_dirs v d = Some (real, ds) -> (real = true -> v_real v t (CReaddir d) = RDirent None) ->
    v_dirs v' d = Some (real, tail ds) -> same_but none (eq d) v v' ->
    spec_step t v (CReaddir d) (RDirent (head ds)) v'
| spec_closedir d real ds r v' :
    v_dirs v d = Some (real, ds) -> v_dirs v' d = None -> same_but none (eq d) v v' ->
    spec_step t v (CClosedir d) (RInt r) v'.

(** ** Runs of both machines *)

(** What happens: thread [t] makes a call and gets a result, or the world
    outside moves. *)
Inductive label :=
| LCall (t : Z) (c : hook_call) (r : hook_result)
| LEnv.

Inductive spec_trace : vfs -> list label -> vfs -> Prop :=
| spec_nil v : spec_trace v [] v
| spec_call v t c r v1 ls v' :
    spec_step t v c r v1 -> spec_trace v1 ls v' -> spec_trace v (LCall t c r :: ls) v'
| spec_env v v1 ls v' : same v v1 -> spec_trace v1 ls v' -> spec_trace v (LEnv :: ls) v'.

Context `{HK : !KernelSpec}.

(** The world outside moves: any part of its state and any [errno] may change,
    except that the descriptors and streams of the image stay open. *)
Record env_step (w w' : world) : Prop := EnvStep {
  es_inside : w' = set_errnos (w_errno w') (set_ext (w_ext w') w);
  es_fds fd : is_Some (fd_view w fd) -> fd ∈ open_fds (w_ext w) -> fd ∈ open_fds (w_ext w');
  es_dirs d : is_Some (dir_view w d) -> d ∈ open_dirs (w_ext w) -> d ∈ open_dirs (w_ext w');
}.

Inductive sys_step (w : world) : label -> world -> Prop :=
| sys_call t c r w' : call_ok c -> run (hook_prog t c) w = Done (r, w') -> sys_step w (LCall t c r) w'
| sys_env w' : env_step w w' -> sys_step w LEnv w'.

Inductive sys_trace : world -> list label -> world -> Prop :=
| sys_nil w : sys_trace w [] w
| sys_cons w l w1 ls w' : sys_step w l w1 -> sys_trace w1 ls w' -> sys_trace w (l :: ls) w'.

Context `{HS : !UtHashSpec}.

(** The invariant between calls: the manager is well formed, the mutex is
    free, the real functions are known, and a descriptor of the image refers
    to a file the image found while it was loaded. *)
Record hook_inv (w : world) : Prop := HookInv {
  hi_wf : wf w;
  hi_mutex : w_mutex w = None;
  hi_libc : libc_ready (w_libc w);
  hi_files fd i off : fd_view w fd = Some (i, off) -> image_loaded w ∧ ∃ rel, found rel i;
}.

End system.

(** The sizes in the inodes the image returns are 64-bit values. *)
Class ImageSpec `{Ext} := {
  found_size rel i : found rel i -> is_uint64 (sqfs_inode_size i);
}.
