(* ===== verification/SystemFacts.v ===== *)
(** * Every call is a step of the abstract machine

    For each hook: from a state that satisfies the invariant it ends, its
    result and its effect are a step of the abstract machine, and the
    invariant holds again. *)

From S2P Require Import Prelude CString Posix Prog Foreign State Logging Kernel Inode.
From S2P Require Import FdOps StatOps DirOps StateFacts Seek Invariant ImageFacts FdFacts MountFacts.
From S2P Require Import BackingProps DirFacts OpendirFacts EnumFacts OpendirSteps SeekProps ReadProps FdProps StatProps DirProps.
From S2P Require Import OpendirProps System.

Section facts.
Context `{HP : Platform} `{HU : UtHash} `{HS : !UtHashSpec} `{HE : Ext} `{HK : !KernelSpec}
  `{HF : Fuel} `{HW : !WriteSpec} `{HC : !ContentSpec} `{HD : !DirSpec} `{HV : !EnvSpec} `{HI : !ImageSpec}.
Context (t : Z).

(** ** The invariant *)

Lemma hi_mutex_of w : hook_inv w -> w_mutex w = mutex_of t 0.
Proof. apply hi_mutex. Qed.

Lemma image_loaded_iff w w' : image_same w w' -> image_loaded w' <-> image_loaded w.
Proof. intros [[Hf _] [Hc _] [Hr _] _]. unfold image_loaded. by rewrite Hf, Hc, Hr. Qed.

(** A change of one descriptor and of some streams. *)
Lemma inv_touches fd D w w' :
  hook_inv w -> touches (eq fd) D t w w' ->
  (∀ i off, fd_view w' fd = Some (i, off) -> image_loaded w ∧ ∃ rel, found rel i) ->
  hook_inv w'.
Proof.
  intros [Hwf Hmu Hlc Hfi] [Hwf' [Hmu' Hlc' _] Hf _ Him] Hfd. constructor; [done|congruence|by rewrite Hlc'|].
  intros fd' i off Hv. destruct (decide (fd = fd')) as [<-|Hne].
  - destruct (Hfd _ _ Hv) as [Hl ?]. split; [by eapply image_loaded_iff|done].
  - rewrite Hf in Hv by done. destruct (Hfi _ _ _ Hv) as [Hl ?]. split; [by eapply image_loaded_iff|done].
Qed.

(** A change of an entry that was there, with the same inode. *)
Lemma inv_offset fd i off off' w w' :
  hook_inv w -> touches (eq fd) none t w w' -> fd_view w fd = Some (i, off) -> fd_view w' fd = Some (i, off') ->
  hook_inv w'.
Proof.
  intros Hi Ht Hv Hv'. eapply inv_touches; [done..|]. intros j o. rewrite Hv'. intros [= <- _].
  by eapply hi_files.
Qed.

Lemma inv_dirs D w w' : hook_inv w -> touches none D t w w' -> hook_inv w'.
Proof.
  intros Hi Ht. pose proof (to_fds _ _ _ _ _ Ht 0 ltac:(by intros [])) as Hsame.
  eapply (inv_touches 0); [done|eapply touches_weaken; [| |exact Ht]; by try intros ? []|].
  intros i off. rewrite Hsame. by apply hi_files.
Qed.

Lemma inv_after {B} (c : foreign ext B) w : hook_inv w -> wf (after t c w) -> hook_inv (after t c w).
Proof.
  intros [Hwf Hmu Hlc Hfi] Hwf'. destruct (after_frame t c w) as [Hmu' Hlc' _].
  destruct (after_mgr t c w) as (Hm & _). constructor; [done|congruence|by rewrite Hlc'|].
  intros fd i off. rewrite after_view. intros Hv. unfold image_loaded. rewrite Hm. by eapply Hfi.
Qed.

Lemma inv_errno er w : hook_inv w -> hook_inv (set_errnos er w).
Proof. intros [Hwf Hmu Hlc Hfi]. by constructor. Qed.

(** ** The abstract state *)

Lemma image_loaded_after {B} (c : foreign ext B) w : image_loaded (after t c w) <-> image_loaded w.
Proof. destruct (after_mgr t c w) as (Hm & _). unfold image_loaded. by rewrite Hm. Qed.

Lemma same_after {B} (c : foreign ext B) w : same (abs w) (abs (after t c w)).
Proof.
  split; [|split; [|split]]; [intros z _..| |]; cbn.
  - apply after_view.
  - apply after_dir_view.
  - apply image_loaded_after.
  - by destruct (after_mgr t c w) as (-> & _).
Qed.

Lemma same_touches F D w w' : touches F D t w w' -> same_but F D (abs w) (abs w').
Proof.
  intros [_ _ Hf Hd Him]. split; [|split; [|split]]; [done|done|by apply image_loaded_iff|].
  cbn. by rewrite (is_super _ _ Him).
Qed.

Lemma same_but_trans F D v1 v2 v3 : same_but F D v1 v2 -> same_but F D v2 v3 -> same_but F D v1 v3.
Proof.
  intros (Hf & Hd & Hl & Hb) (Hf' & Hd' & Hl' & Hb').
  split; [|split; [|split]]; [intros z Hz..|by rewrite Hl'|congruence];
    [by rewrite Hf', Hf|by rewrite Hd', Hd].
Qed.

Lemma same_but_same F D v1 v2 v3 : same v1 v2 -> same_but F D v2 v3 -> same_but F D v1 v3.
Proof.
  intros (Hf & Hd & Hl & Hb). apply same_but_trans.
  split; [|split]; [intros z _; apply Hf; by intros []|intros z _; apply Hd; by intros []|done].
Qed.

(** The real call ran first: what it leaves looks the same. *)
Lemma after_touches {B} (c : foreign ext B) F D w w' :
  touches F D t (after t c w) w' -> same_but F D (abs w) (abs w').
Proof. intros Ht. eapply same_but_same; [apply (same_after c)|by apply same_touches]. Qed.

Lemma find_error_after {B} (c : foreign ext B) w rel e :
  find_error (image_loaded (after t c w)) rel e -> find_error (image_loaded w) rel e.
Proof.
  destruct 1 as [Hn| |]; [apply find_unloaded; by rewrite <- (image_loaded_after c)|by eapply find_no_reader
    |by eapply find_lookup].
Qed.

(** ** Calls on descriptors *)

(** The call ends in a step of the abstract machine. *)
Definition step_ok (c : hook_call) (w : world) : Prop :=
  ∃ r w', run (hook_prog t c) w = Done (r, w') ∧ spec_step t (abs w) c r (abs w') ∧ hook_inv w'.

(** A hook that is the foreign call [cl] in this state. *)
Lemma passes_step {B} c (p : prog world B) (cl : foreign ext B) (conv : B -> hook_result) w :
  hook_prog t c = prog_bind p (λ b, Ret (conv b)) -> hook_inv w -> passes t p cl w ->
  real_answer t w c = conv (result t cl w) ->
  wf (after t cl w) -> (∀ v', same (abs w) v' -> spec_step t (abs w) c (real_answer t w c) v') -> step_ok c w.
Proof.
  intros Hc Hi Hp Hr Hwf Hspec. exists (real_answer t w c), (after t cl w). split; [|split].
  - rewrite Hc, run_bind, Hp, Hr. done.
  - apply Hspec, same_after.
  - by apply inv_after.
Qed.

Lemma wf_after_close p fd w : wf w -> fd_view w fd = None -> wf (after t (call_close p fd) w).
Proof.
  intros (own & fm & dm & Hwf) Hv. exists own, fm, dm. unfold after.
  eapply fd_view_None in Hv as [Hfm _]; [|exact Hwf|done..].
  pose proof (closes_fd p fd (errno_of t w) (w_ext w)) as [Hf Hd].
  destruct (call_close _ _ _ _) as [[b e] x]. cbn in *.
  eapply wf_ext; [exact Hwf|..]; [|by rewrite Hd]. intros fd' q Hq Hin. rewrite Hf.
  assert (fd' ≠ fd) by congruence. set_solver.
Qed.

Lemma wf_after_closedir p d w : wf w -> dir_view w d = None -> wf (after t (call_closedir p d) w).
Proof.
  intros (own & fm & dm & Hwf) Hv. exists own, fm, dm. unfold after.
  assert (Hdm : dm !! d = None).
  { destruct w. by eapply dir_view_None in Hv as [Hdm _]. }
  pose proof (closes_dir p d (errno_of t w) (w_ext w)) as [Hf Hd].
  destruct (call_closedir _ _ _ _) as [[b e] x]. cbn in *.
  eapply wf_ext; [exact Hwf|..]; [by rewrite Hf|]. intros d' q Hq Hin. rewrite Hd.
  assert (d' ≠ d) by congruence. set_solver.
Qed.

Lemma wf_after_keeps {B} (c : foreign ext B) w : keeps open_fds open_dirs c -> wf w -> wf (after t c w).
Proof. intros Hk. apply after_wf. intros. by eapply keeps_grows. Qed.

(** A descriptor the image does not own. *)
Lemma fd_real_ok c fd w :
  hook_inv w -> fd_arg c = Some fd -> fd_view w fd = None -> step_ok c w.
Proof.
  intros Hi Hc Hv. pose proof (hi_wf _ Hi) as Hwf.
  pose proof (λ n o wh, unmapped_ok t 0 w fd n o wh Hwf (hi_mutex _ Hi) (hi_libc _ Hi) Hv) as Hp.
  assert (Hspec : ∀ v', same (abs w) v' -> spec_step t (abs w) c (real_answer t w c) v')
    by (intros; by eapply (spec_fd_real t (abs w))).
  destruct c; simplify_eq/=; eapply passes_step; try exact Hspec; try reflexivity; try done.
  all: try first [apply (Hp count 0 0)|apply (Hp count offset 0)|apply (Hp 0 offset whence)|apply (Hp 0 0 0)].
  all: first [by apply wf_after_close|by apply wf_after_keeps; [auto with keeps|]].
Qed.

Lemma run_ret_int p w r w' : run p w = Done (r, w') -> run (ret_int p) w = Done (RInt r, w').
Proof. intros Hp. unfold ret_int. by rewrite run_bind, Hp. Qed.

Lemma run_ret_data p w r bytes w' :
  run p w = Done ((r, bytes), w') -> run (ret_data p) w = Done (RData r bytes, w').
Proof. intros Hp. unfold ret_data. by rewrite run_bind, Hp. Qed.

(** A read at [pos], in terms of the content of the file. *)
Lemma read_post_data fd i hd pos count next w p :
  read_post t fd i hd pos count next w p -> 0 <= pos -> 0 <= count ->
  ∃ r bytes raw w', run p w = Done ((r, bytes), w') ∧ touches (eq fd) none t w w' ∧
    fd_view w' fd = Some (i, next raw) ∧ data_at i pos count r bytes ∧
    (raw < 0 ∧ bytes = [] ∨ raw = Z.of_nat (length bytes) ∧
     (raw = 0 ∨ pos + raw <= UINT64_MAX)).
Proof.
  intros (raw & bytes & e0 & x1 & Hread & w' & Hrun & Ht & Hv & _) Hpos Hcount.
  assert (Hmod : 0 <= wrap_u 32 count <= count).
  { unfold wrap_u. pose proof (Z.mod_pos_bound count (2 ^ 32)). pose proof (Z.mod_le count (2 ^ 32)). lia. }
  pose proof (data_read_spec hd i pos (wrap_u 32 count) (errno_of t w) (w_ext w) Hpos ltac:(lia)) as Hd.
  rewrite Hread in Hd. unfold read_result in *. cbn [fst snd] in *.
  destruct Hd as [Hneg|(Hr & Hb & Hlen & Hprog)].
  - rewrite (proj2 (Z.leb_gt 0 raw)) in Hrun by lia. exists (-1), [], raw, w'.
    split; [done|]. split; [done|]. split; [done|]. split; [constructor|by left].
  - rewrite (proj2 (Z.leb_le 0 raw)) in Hrun by lia. exists raw, bytes, raw, w'.
    split; [done|]. split; [done|]. split; [done|]. split.
    + rewrite <- Hlen. constructor; [|lia|].
      * by rewrite <- Hlen, Nat2Z.id in Hb.
      * intros Hc Hp ->. cbn in Hlen. lia.
    + right. split; [done|]. destruct (decide (raw = 0)); [by left|right].
      pose proof (content_size i). rewrite Hb, length_take, length_drop in Hlen. lia.
Qed.

Lemma hi_reader fd i off w : hook_inv w -> fd_view w fd = Some (i, off) ->
  is_uint64 off ∧ is_uint64 (sqfs_inode_size i) ∧ ∃ hd, image_reader w = Some hd.
Proof.
  intros Hi Hv. destruct (hi_files _ Hi _ _ _ Hv) as [(_ & _ & l & Hl) (rel & Hf)].
  destruct (hi_wf _ Hi) as (own & fm & dm & Hwf). split; [|split].
  - by eapply fd_view_Some in Hv as (? & ? & _ & _ & _ & Hu & _); [|exact Hwf|done..].
  - by eapply found_size.
  - destruct (wf_data_reader _ _ _ _ _ _ _ Hwf l Hl) as [_ [hd Hhd]]. exists hd.
    unfold image_reader, mgr_obj. rewrite Hl. cbn [mbind option_bind]. by rewrite Hhd.
Qed.

Lemma read_step fd count w : hook_inv w -> 0 <= count -> step_ok (CRead fd count) w.
Proof.
  intros Hi Hc. destruct (fd_view w fd) as [[i off]|] eqn:Hv; [|by eapply fd_real_ok].
  destruct (hi_reader _ _ _ _ Hi Hv) as ([Ho Ho'] & _ & hd & Hhd).
  destruct (read_post_data fd i hd off count (read_next off) w (sqfs_read t fd count))
    as (r & bytes & raw & w' & Hrun & Ht & Hv' & Hd & Hraw);
    [by apply (read_ok t 0); [apply hi_wf|apply hi_mutex|..]|done..|].
  assert (Hnext : read_next off raw = off + Z.of_nat (length bytes)).
  { unfold read_next, UINT64_MAX in *. destruct Hraw as [[Hn ->]|[-> Hr]].
    - rewrite (proj2 (Z.leb_gt _ _)) by done. cbn. lia.
    - rewrite (proj2 (Z.leb_le _ _)) by lia. apply wrap_u_id. lia. }
  rewrite Hnext in Hv'. exists (RData r bytes), w'. split; [by apply run_ret_data|]. split.
  - by eapply spec_read, same_touches.
  - by eapply inv_offset.
Qed.

(** A descriptor that looks as before. *)
Lemma same_fd fd v v' : same_but (eq fd) none v v' -> v_fds v' fd = v_fds v fd -> same v v'.
Proof.
  intros [Hf Hd] Hfd. split; [|done]. intros fd' _. destruct (decide (fd = fd')) as [<-|]; [done|by apply Hf].
Qed.

Lemma pread_mapped_step c p fd count offset i off hd w :
  hook_inv w -> hook_prog t c = ret_data p -> pread_args c = Some (fd, count, offset) -> 0 <= count ->
  fd_view w fd = Some (i, off) -> pread_post t fd i hd offset count off w p -> step_ok c w.
Proof.
  intros Hi Hc Ha Hn Hv Hp. unfold pread_post in Hp. unfold step_ok. rewrite Hc.
  destruct (offset <? 0) eqn:Eo.
  - exists (RData (-1) []), (set_errnos (<[t:=EINVAL]> (w_errno w)) w). split; [by apply run_ret_data|].
    split; [|by apply inv_errno]. eapply spec_pread; [exact Ha|exact Hv|by rewrite Eo|done].
  - apply Z.ltb_ge in Eo. destruct (read_post_data _ _ _ _ _ _ _ _ Hp Eo Hn)
      as (r & bytes & raw & w' & Hrun & Ht & Hv' & Hd & _).
    exists (RData r bytes), w'. split; [by apply run_ret_data|]. split; [|by eapply inv_offset].
    eapply spec_pread; [exact Ha|exact Hv|by rewrite (proj2 (Z.ltb_ge _ _))|].
    eapply same_fd; [by eapply same_touches|]. cbn. congruence.
Qed.

Lemma pread_step c fd count offset w :
  hook_inv w -> pread_args c = Some (fd, count, offset) -> call_ok c -> step_ok c w.
Proof.
  intros Hi Ha Hok. assert (Hargs : 0 <= count ∧ is_int64 offset) by (destruct c; simplify_eq/=; done).
  assert (Hfd : fd_arg c = Some fd) by (destruct c; simplify_eq/=; done). destruct Hargs as [Hc Ho].
  destruct (fd_view w fd) as [[i off]|] eqn:Hv; [|by eapply fd_real_ok].
  destruct (hi_reader _ _ _ _ Hi Hv) as (_ & _ & hd & Hhd).
  destruct (pread_ok t 0 w fd count offset i off hd) as [Hp Hp64]; [apply hi_wf|apply hi_mutex|..]; try done.
  destruct c; simplify_eq/=; [eapply (pread_mapped_step _ _ _ _ _ _ _ hd); [done| | |done|done|exact Hp]; done
    |eapply (pread_mapped_step _ _ _ _ _ _ _ hd); [done| | |done|done|exact Hp64]; done].
Qed.

(** A seek on a descriptor of the image. *)
Lemma seek_mapped_step c p fd offset whence mx func i off w :
  hook_inv w -> hook_prog t c = ret_int p -> seek_args c = Some (fd, offset, whence, mx) ->
  fd_view w fd = Some (i, off) ->
  seek_post t fd func i (lseek_result mx (sqfs_inode_size i) off offset whence) w p -> step_ok c w.
Proof.
  intros Hi Hc Ha Hv Hp. unfold seek_post in Hp. unfold step_ok. rewrite Hc.
  destruct (lseek_result mx (sqfs_inode_size i) off offset whence) as [[ret off'] err] eqn:Hl.
  destruct Hp as (w' & Hrun & Ht & Hv' & _). exists (RInt ret), w'. split; [by apply run_ret_int|].
  split; [|by eapply inv_offset]. eapply spec_seek; [exact Ha|exact Hv|exact Hl|exact Hv'|by eapply same_touches].
Qed.

Lemma seek_step c fd offset whence mx w :
  hook_inv w -> seek_args c = Some (fd, offset, whence, mx) -> call_ok c -> step_ok c w.
Proof.
  intros Hi Ha Hok. assert (Hfd : fd_arg c = Some fd) by (destruct c; simplify_eq/=; done).
  destruct (fd_view w fd) as [[i off]|] eqn:Hv; [|by eapply fd_real_ok].
  destruct (hi_reader _ _ _ _ Hi Hv) as (_ & Hs & _).
  destruct c; simplify_eq/=; eapply seek_mapped_step; try done.
  - by apply (lseek_ok t 0); [apply hi_wf|apply hi_mutex|..].
  - by apply (lseek64_ok t 0); [apply hi_wf|apply hi_mutex|..].
Qed.

(** Closing a descriptor of the image. *)
Lemma close_mapped_step c p fd addr func i off w :
  hook_inv w -> hook_prog t c = ret_int p -> close_arg c = Some fd -> fd_view w fd = Some (i, off) ->
  real_answer t w c = RInt (result t (call_close addr fd) w) ->
  close_post t fd addr func w p -> step_ok c w.
Proof.
  intros Hi Hc Ha Hv Hr Hp. unfold close_post in Hp. unfold step_ok. rewrite Hc. unfold result in Hr.
  destruct (call_close _ _ _ _) as [[r e] x1]. destruct Hp as (w' & Hrun & Ht & Hv' & _).
  exists (RInt r), w'. split; [by apply run_ret_int|]. split.
  - cbn [fst] in Hr. rewrite <- Hr. eapply (spec_close t (abs w)); [exact Ha|exact Hv|exact Hv'|by eapply same_touches].
  - eapply inv_touches; [done|done|]. intros j o. by rewrite Hv'.
Qed.

Lemma close_step c fd w : hook_inv w -> close_arg c = Some fd -> step_ok c w.
Proof.
  intros Hi Ha. assert (Hfd : fd_arg c = Some fd) by (destruct c; simplify_eq/=; done).
  destruct (fd_view w fd) as [[i off]|] eqn:Hv; [|by eapply fd_real_ok].
  destruct (both_close_ok t 0 w fd i off) as [H7 H8]; [by apply hi_wf|by apply hi_mutex|done|by apply hi_libc|].
  destruct c; simplify_eq/=; (eapply close_mapped_step; [done..| |eassumption]); [done|]. cbn.
  destruct (hi_libc _ Hi) as (_ & _ & _ & _ & _ & _ & _ & Hn & _). rewrite (proj2 (Z.eqb_neq _ 0)); done.
Qed.

(** ** open *)

(** A descriptor the real [open] returns is none of the image. *)
Lemma opened_real p fl m w :
  wf w -> 0 <= result t (real_open w p fl m) w -> fd_view w (result t (real_open w p fl m) w) = None.
Proof.
  intros (own & fm & dm & Hw) Hr. destruct (fd_view w _) as [[i off]|] eqn:E; [|done].
  eapply fd_view_Some in E as (q & ip & Hfm & _); [|exact Hw|done..].
  destruct (wf_open_fds _ _ _ _ _ _ _ Hw _ _ Hfm) as [_ Hin].
  pose proof (opens_open (lf_open (w_libc w)) p fl (if open_flags_need_mode fl then Some (wrap_u 32 m) else None)
    (errno_of t w) (w_ext w)) as Ho. unfold result, real_open in *.
  destruct (call_open _ _ _ _ _ _) as [[r e] x']. cbn in *. rewrite (proj2 (Z.ltb_ge _ _)) in Ho by done.
  set_solver.
Qed.

Lemma open_step p fl m w : hook_inv w -> path_arg p -> step_ok (COpen p fl m) w.
Proof.
  intros Hi Hp. pose proof (sqfs_open_run t 0 w p fl m (hi_wf _ Hi) (hi_mutex _ Hi) (hi_libc _ Hi) Hp) as H.
  cbv zeta in H. set (c := real_open w p fl m) in *. pose proof (opened_real p fl m w (hi_wf _ Hi)) as Hn.
  assert (Hwf : wf (after t c w)).
  { apply after_wf; [|apply Hi]. intros. eapply opens_grows; [apply opens_open|done]. }
  pose proof (inv_after c w Hi Hwf) as Hi'. pose proof (same_after c w) as Hs.
  assert (Hfail : ∀ w', run (sqfs_open t p fl m) w = Done (-1, w') -> result t c w < 0 ->
    unavailable (abs w) p ∨ (∃ i, found_at p i) -> same (abs w) (abs w') -> hook_inv w' -> step_ok (COpen p fl m) w).
  { intros w' Hrun Hr Hu Hs' Hi2. exists (RInt (-1)), w'. split; [by apply run_ret_int|]. split; [|done].
    by eapply (spec_open_fail t (abs w)). }
  destruct (Z.leb_spec 0 (result t c w)) as [Hr|Hr]; [|destruct (Z.eqb_spec (mount_path p).1 0) as [Hm|Hm]].
  - exists (RInt (result t c w)), (after t c w). split; [by apply run_ret_int|]. split; [|done].
    apply (spec_open_real t (abs w)); [done|done|by apply Hn|done].
  - destruct H as (r & w' & Hrun & Ho).
    destruct Ho as [e w' Hfe _ (Ht & _)|i w' Hfound (Ht & _)|fd i w' Hfound Hl Hfd Hn' Hv Ht _ _ _].
    + eapply Hfail; [exact Hrun|done| |by eapply after_touches|by eapply inv_dirs].
      left. right. exists e. by eapply find_error_after.
    + eapply Hfail; [exact Hrun|done| |by eapply after_touches|by eapply inv_dirs]. right. by exists i.
    + exists (RInt fd), w'. split; [by apply run_ret_int|]. split.
      * eapply (spec_open t (abs w)); [reflexivity|done|by apply (image_loaded_after c)|by split|done|
          |exact Hv|by eapply after_touches]. cbn. by rewrite <- (after_view t c w).
      * eapply inv_touches; [exact Hi'|exact Ht|]. intros j o. rewrite Hv. intros [= <- _].
        split; [done|by exists (mount_path p).2].
  - eapply Hfail; [exact H|done| |done|done]. left. by left.
Qed.

(** ** Attributes *)

Lemma xstat_step ver p buf w : hook_inv w -> path_arg p -> step_ok (CXstat ver p buf) w.
Proof.
  intros Hi Hp. destruct (hi_libc _ Hi) as (_ & _ & _ & _ & _ & _ & _ & _ & _ & _ & _ & _ & Hx).
  pose proof (xstat_ok t 0 w ver p buf (hi_wf _ Hi) (hi_mutex _ Hi) Hx Hp) as H.
  unfold xstat_post in H. set (c := call_xstat (lf_xstat (w_libc w)) ver p buf) in *.
  assert (Hwf : wf (after t c w)) by (apply wf_after_keeps; [apply keeps_xstat|apply Hi]).
  pose proof (inv_after c w Hi Hwf) as Hi'. pose proof (same_after c w) as Hs.
  assert (Ha : v_real (abs w) t (CXstat ver p buf) = RStat (result t c w).1 (result t c w).2)
    by done.
  assert (Hfail : ∀ w', run (sqfs_xstat t ver p buf) w = Done ((-1, (result t c w).2), w') ->
    (result t c w).1 ≠ 0 -> unavailable (abs w) p ∨ buf = false ∨ ver ≠ 3 -> same (abs w) (abs w') ->
    hook_inv w' -> step_ok (CXstat ver p buf) w).
  { intros w' Hrun Hn Hu Hs' Hi''. eexists (RStat _ _), w'. split; [cbn [hook_prog]; by rewrite run_bind, Hrun|].
    split; [|done]. by eapply (spec_xstat_fail t (abs w)). }
  destruct (Z.eqb_spec (result t c w).1 0) as [H0|H0].
  { eexists (RStat _ _), _. split; [cbn [hook_prog]; rewrite run_bind, H; reflexivity|]. split; [|done].
    apply spec_xstat_real; [by rewrite Ha, H0|done]. }
  destruct (Z.eqb_spec (mount_path p).1 0) as [Hm|Hm]; cbn [negb] in H;
    [|by eapply Hfail; [exact H|done|left; left|..|apply inv_errno]].
  destruct buf; cbn [negb] in H; [|by eapply Hfail; [exact H|done|right; left|..|apply inv_errno]].
  destruct (Z.eqb_spec ver 3) as [->|Hv]; cbn [negb] in H.
  2:{ destruct H as (w' & Hrun & Ht & _).
      eapply Hfail; [exact Hrun|done|by right; right|by eapply after_touches|by eapply inv_dirs]. }
  destruct H as (o & w' & Hrun & Ho). destruct Ho as [i st w' Hf -> Ht _ _|e w' Hfe _ Ht _ _].
  - eexists (RStat _ _), w'. split; [cbn [hook_prog]; by rewrite run_bind, Hrun|]. split; [|by eapply inv_dirs].
    destruct (after_mgr t c w) as (-> & _).
    eapply (spec_xstat t (abs w)); [exact Ha|done|by split|by eapply after_touches].
  - eapply Hfail; [exact Hrun|done| |by eapply after_touches|by eapply inv_dirs].
    left. right. exists e. by eapply find_error_after.
Qed.

Lemma access_step p m w : hook_inv w -> path_arg p -> step_ok (CAccess p m) w.
Proof.
  intros Hi Hp. destruct (hi_libc _ Hi) as (_ & _ & _ & _ & _ & _ & _ & _ & _ & _ & _ & Ha & _).
  pose proof (access_ok t 0 w p m (hi_wf _ Hi) (hi_mutex _ Hi) Ha Hp) as H.
  unfold access_post in H. set (c := call_access (lf_access (w_libc w)) p m) in *.
  assert (Hwf : wf (after t c w)) by (apply wf_after_keeps; [apply keeps_access|apply Hi]).
  pose proof (inv_after c w Hi Hwf) as Hi'. pose proof (same_after c w) as Hs.
  assert (Hany : ∀ r w', run (sqfs_access t p m) w = Done (r, w') ->
    spec_step t (abs w) (CAccess p m) (RInt r) (abs w') -> hook_inv w' -> step_ok (CAccess p m) w).
  { intros r w' Hrun Hspec Hi''. exists (RInt r), w'. split; [by apply run_ret_int|done]. }
  assert (Htouch : ∀ w', access_frame t (after t c w) w' -> same (abs w) (abs w') ∧ hook_inv w').
  { intros w' (Ht & _). split; [by eapply after_touches|by eapply inv_dirs]. }
  destruct (Z.eqb_spec (result t c w) 0) as [H0|H0].
  { destruct H as (w' & Hrun & Hfr). destruct (Htouch _ Hfr).
    eapply Hany; [exact Hrun|apply spec_access_real|]; try done. cbn. by rewrite <- H0. }
  destruct (Z.eqb_spec (mount_path p).1 0) as [Hm|Hm]; cbn [negb] in H.
  - destruct H as (r & w' & Hrun & Ho & Hfr). destruct (Htouch _ Hfr) as [Hs' Hi''].
    eapply Hany; [exact Hrun| |done]. destruct Ho as [i w' Hf Hg|i w' Hf Hg _|e w' Hfe _].
    + by eapply (spec_access_granted t (abs w)).
    + eapply (spec_access_refused t (abs w)); [done|done|right; by exists i|done].
    + eapply (spec_access_refused t (abs w)); [done|done| |done].
      left. right. exists e. by eapply find_error_after.
  - eapply Hany; [exact H| |by apply inv_errno].
    eapply (spec_access_refused t (abs w)); [done|done|by left; left|done].
Qed.

(** ** Streams *)

Lemma readdir_step d w : hook_inv w -> step_ok (CReaddir d) w.
Proof.
  intros Hi. pose proof (hi_libc _ Hi) as Hl. destruct Hl as (_ & _ & _ & _ & _ & _ & _ & _ & _ & Hr & _).
  destruct (dir_view w d) as [[real ds]|] eqn:Hv.
  2:{ destruct (unmapped_dir_ok t 0 d w (hi_wf _ Hi) (hi_mutex _ Hi) (hi_libc _ Hi) Hv) as [Hp _].
      eapply passes_step; [reflexivity|exact Hi|exact Hp|done|apply wf_after_keeps; [apply keeps_readdir|apply Hi]|].
      intros. by eapply (spec_dir_real t (abs w)). }
  pose proof (readdir_ok t 0 d w real ds (hi_wf _ Hi) (hi_mutex _ Hi) Hr Hv) as H.
  unfold readdir_post, real_first in H.
  set (first := if real then _ else _) in H.
  destruct first as [o w1] eqn:E. unfold first in E. clear first.
  destruct H as (w' & Hrun & Ht & Hv' & _). eexists (RDirent _), w'.
  split; [cbn [hook_prog]; by rewrite run_bind, Hrun|]. split; [|by eapply inv_dirs].
  pose proof (same_touches _ _ _ _ Ht) as Hs. destruct o as [e|].
  - destruct real; [|done]. injection E as E _. eapply (spec_readdir_upper t (abs w)); [exact Hv|cbn; by rewrite E|].
    destruct Hs as (Hf & Hd & Hb). split; [done|]. split; [|done]. intros d' _.
    destruct (decide (d = d')) as [<-|]; [|by apply Hd]. cbn. congruence.
  - eapply (spec_readdir t (abs w)); [exact Hv| |exact Hv'|done]. intros ->. injection E as E _. cbn. by rewrite E.
Qed.

Lemma closedir_step d w : hook_inv w -> step_ok (CClosedir d) w.
Proof.
  intros Hi. pose proof (hi_libc _ Hi) as Hl. destruct Hl as (_ & _ & _ & _ & _ & _ & _ & _ & _ & _ & Hc & _).
  destruct (dir_view w d) as [[real ds]|] eqn:Hv.
  2:{ destruct (unmapped_dir_ok t 0 d w (hi_wf _ Hi) (hi_mutex _ Hi) (hi_libc _ Hi) Hv) as [_ Hp].
      eapply passes_step; [reflexivity|exact Hi|exact Hp|done|apply wf_after_closedir; [apply Hi|done]|].
      intros. by eapply (spec_dir_real t (abs w)). }
  destruct (closedir_ok t 0 d w real ds (hi_wf _ Hi) (hi_mutex _ Hi) Hc Hv)
    as (r & w' & Hrun & _ & Ht & Hv' & _).
  exists (RInt r), w'. split; [by apply run_ret_int|]. split; [|by eapply inv_dirs].
  eapply spec_closedir; [exact Hv|exact Hv'|by eapply same_touches].
Qed.

(** The real [opendir] returns no stream of the image. *)
Lemma real_stream_new p w :
  wf w -> let u := result t (real_opendir w p) w in
  (u = 0 ∨ dir_view w u = None) ∧ wf (after t (real_opendir w p) w).
Proof.
  intros Hwf u. split.
  - destruct (decide (u = 0)) as [|Hne]; [by left|right]. destruct (dir_view w u) as [[real ds]|] eqn:E; [|done].
    destruct Hwf as (own & fm & dm & Hw). destruct w as [x er mu mg h n lc dc fc lf].
    eapply dir_view_Some in E as (q & e & Hdm & _); [|exact Hw].
    destruct (wf_open_dirs _ _ _ _ _ _ _ Hw _ _ Hdm) as [_ Hin].
    pose proof (opens_dir (lf_opendir lc) p (default 0 (er !! t)) x) as Ho.
    unfold u, result, real_opendir, errno_of in *. cbn [w_libc w_errno w_ext] in *.
    destruct (call_opendir _ _ _ _) as [[r e'] x']. cbn [fst] in *.
    rewrite (proj2 (Z.eqb_neq _ _)) in Ho by done. set_solver.
  - apply after_wf; [|done]. intros e x b e' x' E. unfold real_opendir in E.
    by apply opened_grows with (u := b), new_dir_opened, (opendir_new_dir _ _ _ _ _ _ _ E).
Qed.

Lemma opendir_step p w : hook_inv w -> path_arg p -> step_ok (COpendir p) w.
Proof.
  intros Hi Hp. pose proof (opendir_ok t 0 w p (hi_wf _ Hi) (hi_mutex _ Hi) (hi_libc _ Hi) Hp) as H.
  destruct (real_stream_new p w (hi_wf _ Hi)) as [Hu Hwf]. unfold opendir_post in H.
  unfold step_ok. cbn [hook_prog]. destruct (Z.eqb_spec (mount_path p).1 0) as [Hm|Hm].
  - destruct H as (r & w' & Hrun & Ho). exists (RInt r), w'. split; [by apply run_ret_int|].
    destruct Ho as [e w' _ Hfe _ Ht _ _|w' He Ht _ _|d i ds L w' Hf Hdir Hd Hdu _ Hn Hv _ Hds Ht _ _ _];
      (split; [|by eapply inv_dirs]).
    + apply (spec_opendir_real t (abs w)); [done|by right; exists e|done|by eapply same_touches].
    + eapply (spec_opendir_fail t (abs w)); [done|done|exact He|by eapply same_touches].
    + eapply (spec_opendir t (abs w)); [reflexivity|by split|done|done|done| |exact Hn|exact Hv|by eapply same_touches].
      destruct Hds as [?|[? _]]; [by left|by right].
  - eexists (RInt _), _. split; [apply run_ret_int, H|]. split.
    + apply (spec_opendir_real t (abs w)); [done|by left|exact Hu|apply same_after].
    + by apply inv_errno, inv_after.
Qed.

(** ** All calls *)

Lemma hook_step_ok c w : hook_inv w -> call_ok c -> step_ok c w.
Proof.
  intros Hi Hc. destruct c; cbn [call_ok] in Hc.
  - by apply open_step.
  - by apply read_step.
  - by eapply pread_step.
  - by eapply pread_step.
  - by eapply seek_step.
  - by eapply seek_step.
  - by eapply close_step.
  - by eapply close_step.
  - by apply xstat_step.
  - by apply access_step.
  - by apply opendir_step.
  - by apply readdir_step.
  - by apply closedir_step.
Qed.

End facts.

(** ** The world outside moves *)

Section env.
Context `{HU : UtHash} `{HS : !UtHashSpec} `{HE : Ext} `{HK : !KernelSpec}.

Lemma env_step_ok w w' : hook_inv w -> env_step w w' -> hook_inv w' ∧ same (abs w) (abs w').
Proof.
  intros [Hwf Hmu Hlc Hfi] [Hin Hf Hd]. rewrite Hin. split; [|done]. constructor; [|done..].
  destruct Hwf as (own & fm & dm & Hwf). exists own, fm, dm. cbn.
  eapply wf_ext; [exact Hwf|..].
  - intros fd p Hfm Ho. apply Hf; [|done]. rewrite (fd_view_map _ _ _ _ _ _ _ Hwf) by done.
    destruct (fd_view_m fm (w_heap w) fd) eqn:E; [done|exfalso].
    assert (Hn : fd_view w fd = None) by by rewrite (fd_view_map _ _ _ _ _ _ _ Hwf).
    eapply fd_view_None in Hn as [Hn _]; [|exact Hwf|done..]. congruence.
  - intros d p Hdm Ho. apply Hd; [|done]. destruct (dir_view w d) eqn:E; [done|exfalso].
    destruct w. eapply dir_view_None in E as [Hn _]; [|exact Hwf]. congruence.
Qed.

End env.
