(* ===== verification/SystemProps.v ===== *)
(** * Properties of the library as a whole

    Whatever the application calls, in whatever order and from whatever
    threads, one call after the other: every hook ends normally, the results
    are those of the abstract machine, and a descriptor keeps its file and its
    offset until a call names it. *)

From S2P Require Import Prelude CString Posix Prog Foreign State Logging Kernel Inode.
From S2P Require Import StateFacts Seek Invariant ImageFacts MountFacts EnumFacts.
From S2P Require Import HookTable HookFacts LoadProps HookProps System SystemFacts Demo.

Section props.
Context `{HP : Platform} `{HU : UtHash} `{HS : !UtHashSpec} `{HE : Ext} `{HK : !KernelSpec}
  `{HF : Fuel} `{HW : !WriteSpec} `{HC : !ContentSpec} `{HD : !DirSpec} `{HV : !EnvSpec} `{HI : !ImageSpec}.

(** ** Traces *)

Lemma trace_ok w ls w' : sys_trace w ls w' -> hook_inv w -> spec_trace (abs w) ls (abs w') ∧ hook_inv w'.
Proof.
  induction 1 as [w|w l w1 ls w' Hstep _ IH]; intros Hi; [split; [by constructor|done]|].
  destruct Hstep as [t c r w1 Hc Hrun|w1 Henv].
  - destruct (hook_step_ok t c w Hi Hc) as (r' & w1' & Hrun' & Hspec & Hi1).
    rewrite Hrun in Hrun'. injection Hrun' as <- <-. destruct (IH Hi1) as [Htr Hi']. split; [|done].
    by econstructor.
  - destruct (env_step_ok w w1 Hi Henv) as [Hi1 Hs]. destruct (IH Hi1) as [Htr Hi']. split; [|done].
    by eapply spec_env.
Qed.

(** C1: refinement.  Every run of the library, any sequence of calls of any
    threads with the world outside moving in between, is a run of the abstract
    machine with the same results, and keeps the invariant.  The machine asks
    the real file system first; where that fails, a path of the image opens,
    reports and lists the inode found there, and a descriptor or a stream of the
    image is read, moved, listed and closed by its own state only. *)
Theorem system_refines w ls w' :
  hook_inv w -> sys_trace w ls w' -> spec_trace (abs w) ls (abs w') ∧ hook_inv w'.
Proof. intros Hi Htr. by apply trace_ok. Qed.

(** ** Isolation *)

(** The calls that use or move the offset of a descriptor. *)
Definition moves (c : hook_call) : option Z :=
  match c with
  | CRead fd _ | CLseek fd _ _ | CLseek64 fd _ _ | CClose fd | CCloseNocancel fd => Some fd
  | _ => None
  end.

Lemma spec_step_stable t v c r v' fd i :
  spec_step t v c r v' -> v_fds v fd = Some i -> moves c ≠ Some fd -> v_fds v' fd = Some i.
Proof.
  intros Hstep Hv Hm.
  assert (Hother : ∀ fd' D, same_but (eq fd') D v v' -> fd' ≠ fd -> v_fds v' fd = Some i).
  { intros fd' D [Hf _] Hne. by rewrite Hf. }
  assert (Hsame : ∀ D, same_but none D v v' -> v_fds v' fd = Some i).
  { intros D [Hf _]. rewrite Hf; [done|by intros []]. }
  destruct Hstep; try (by eapply Hsame); (eapply Hother; [eassumption|]); try congruence.
  - intros ->. by apply Hm.
  - intros ->. destruct c; simplify_eq/=; by apply Hm.
  - intros ->. destruct c; simplify_eq/=; by apply Hm.
Qed.

(** C15: a descriptor of the image keeps its file and its offset through any run
    in which no call reads from it, seeks or closes it: positioned reads, calls
    on other descriptors and streams, opening further files and anything that
    happens outside leave it alone. *)
Theorem descriptor_stable w ls w' fd i off :
  hook_inv w -> sys_trace w ls w' -> fd_view w fd = Some (i, off) ->
  Forall (λ l, match l with LCall _ c _ => moves c ≠ Some fd | LEnv => True end) ls ->
  fd_view w' fd = Some (i, off).
Proof.
  intros Hi Htr Hv Hl. destruct (trace_ok _ _ _ Htr Hi) as [Hspec _].
  change (v_fds (abs w') fd = Some (i, off)). change (v_fds (abs w) fd = Some (i, off)) in Hv.
  clear Htr Hi. induction Hspec as [v|v t c r v1 ls v' Hstep _ IH|v v1 ls v' [Hs _] _ IH].
  - done.
  - apply Forall_cons in Hl as [Hc Hl]. apply IH; [|done]. by eapply spec_step_stable.
  - apply Forall_cons in Hl as [_ Hl]. apply IH; [|done]. rewrite Hs; [done|by intros []].
Qed.

(** ** From the start of the process *)

Section start.
Context `{HH : !Funchook} `{HFS : !FunchookSpec}.

(** The process before the constructor of the library runs. *)
Record unstarted (s : process) : Prop := {
  us_wf : wf (pr_world s);
  us_mutex : w_mutex (pr_world s) = None;
  us_image : image_empty (w_mgr (pr_world s));
  us_populated : pr_populated s = false;
  us_funchook : pr_funchook s = None;
  us_fds fd : fd_view (pr_world s) fd = None;
}.

Lemma init_hook_inv t0 s s' h :
  unstarted s -> run (hooksqfs_init t0) s = Done (tt, s') -> pr_funchook s' = Some h ->
  hook_inv (pr_world s').
Proof.
  intros [Hwf Hmu Him Hpo Hfh Hfd] Hrun Hh.
  destruct (init_ok t0 s Hwf Hmu Him Hpo Hfh) as (s1 & Hrun1 & Hwf1 & Hmu1 & _ & Hfd1 & _ & Hinst).
  rewrite Hrun in Hrun1. injection Hrun1 as <-. destruct Hinst as [[Hn _]|(h' & _ & _ & _ & Hlc & _)]; [congruence|].
  constructor; [done..|]. intros fd i off. by rewrite Hfd1, Hfd.
Qed.

(** C5: safety.  Once the constructor has installed the hooks, every call made
    at any time ends normally: no null or dangling pointer is used, the mutex
    is never found locked, and no loop runs out of fuel. *)
Theorem hooks_always_end t0 s s' h ls w' t c :
  unstarted s -> run (hooksqfs_init t0) s = Done (tt, s') -> pr_funchook s' = Some h ->
  sys_trace (pr_world s') ls w' -> call_ok c ->
  ∃ r w'', run (hook_prog t c) w' = Done (r, w'') ∧ w_mutex w'' = None.
Proof.
  intros Hs Hrun Hh Htr Hc. destruct (trace_ok _ _ _ Htr (init_hook_inv _ _ _ _ Hs Hrun Hh)) as [_ Hi].
  destruct (hook_step_ok t c w' Hi Hc) as (r & w'' & Hr & _ & Hi''). exists r, w''. split; [done|apply Hi''].
Qed.

End start.

End props.

(** ** Witnesses *)

Section witnesses.
#[local] Existing Instances demo64 demo_hash demo_hash_spec demo_ext demo_kernel demo_fuel demo_write
  demo_content demo_dir demo_env_spec demo_funchook demo_funchook_spec.

Lemma demo_found_size rel i : found rel i -> is_uint64 (sqfs_inode_size i).
Proof.
  intros (h & e & x & e' & x' & H). unfold lookup_call in H. cbn in H.
  destruct rel; [injection H as <- _ _; by split|].
  destruct (demo_lookup _) as [j|] eqn:E; [|discriminate]. injection H as <- _ _.
  unfold demo_lookup in E. repeat case_decide; simplify_eq; by split.
Qed.

#[local] Instance demo_image : ImageSpec := {| found_size := demo_found_size |}.

Lemma demo_hook_inv : hook_inv demo_world.
Proof.
  constructor; [apply demo_wf|done|apply demo_libc_ready|].
  intros fd i off H. split; [split; [|split]; by eexists|].
  assert (fd = 3) as ->.
  { destruct (decide (fd = 3)) as [|Hne]; [done|exfalso]. revert H. unfold fd_view.
    change (hash_find fd (m_fd_map (w_mgr demo_world))) with (({[3 := 5%positive]} : gmap Z loc) !! fd).
    by rewrite lookup_singleton_ne. }
  vm_compute in H. injection H as <- _. exists (lit "a.txt"), 4%nat, 0, demo_x, 0, demo_x. reflexivity.
Qed.

(** Thread 1 reads, the world outside does something, thread 2 moves the offset. *)
Lemma demo_trace :
  ∃ r1 r2 w', sys_trace demo_world [LCall 1 (CRead 3 4) r1; LEnv; LCall 2 (CLseek 3 1 SEEK_SET) r2] w'.
Proof.
  assert (match run (hook_prog 1 (CRead 3 4)) demo_world with
          | Done (_, w1) => match run (hook_prog 2 (CLseek 3 1 SEEK_SET)) w1 with
                            | Done _ => True | _ => False end
          | _ => False end) as H by by vm_compute.
  destruct (run (hook_prog 1 (CRead 3 4)) demo_world) as [[r1 w1]| | |] eqn:E1; [|destruct H..].
  destruct (run (hook_prog 2 (CLseek 3 1 SEEK_SET)) w1) as [[r2 w2]| | |] eqn:E2; [|destruct H..].
  exists r1, r2, w2. eapply sys_cons; [apply sys_call; [by vm_compute|exact E1]|].
  eapply sys_cons; [apply sys_env, (EnvStep w1 w1); [by destruct w1|done|done]|].
  eapply sys_cons; [apply sys_call; [by vm_compute|exact E2]|constructor].
Qed.

Lemma system_refines_witness :
  ∃ ls w', length ls = 3%nat ∧ spec_trace (abs demo_world) ls (abs w') ∧ hook_inv w'.
Proof.
  destruct demo_trace as (r1 & r2 & w' & H). eexists _, w'.
  split; [|exact (system_refines demo_world _ w' demo_hook_inv H)]. reflexivity.
Defined.

(** Positioned reads leave the offset of descriptor 3 at 6. *)
Lemma descriptor_stable_witness :
  ∃ r w', run (hook_prog 1 (CPread 3 2 0)) demo_world = Done (r, w') ∧ fd_view w' 3 = Some (a_inode, 6).
Proof.
  assert (match run (hook_prog 1 (CPread 3 2 0)) demo_world with Done _ => True | _ => False end) as H
    by by vm_compute.
  destruct (run (hook_prog 1 (CPread 3 2 0)) demo_world) as [[r w']| | |] eqn:E; [|destruct H..].
  exists r, w'. split; [reflexivity|].
  apply (descriptor_stable demo_world [LCall 1 (CPread 3 2 0) r] w' 3 a_inode 6).
  - apply demo_hook_inv.
  - eapply sys_cons; [apply sys_call; [by vm_compute|exact E]|constructor].
  - vm_compute. reflexivity.
  - repeat constructor. discriminate.
Defined.

Lemma booted_unstarted : unstarted booted.
Proof.
  constructor; [apply booted_wf|reflexivity|exact (conj eq_refl (conj eq_refl eq_refl))|reflexivity..|].
  intros fd. unfold fd_view.
  change (hash_find fd (m_fd_map (w_mgr (pr_world booted)))) with ((∅ : gmap Z loc) !! fd).
  by rewrite lookup_empty.
Qed.

(** The first call after the constructor. *)
Lemma hooks_always_end_witness :
  ∃ s', run (hooksqfs_init 1) booted = Done (tt, s') ∧
    ∃ r w'', run (hook_prog 2 (CXstat 3 (Some (lit "/hook/a.txt")) true)) (pr_world s') = Done (r, w'') ∧
      w_mutex w'' = None.
Proof.
  assert (match run (hooksqfs_init 1) booted with
          | Done (_, s') => pr_funchook s' = Some tt | _ => False end) as H by by vm_compute.
  destruct (run (hooksqfs_init 1) booted) as [[[] s']| | |] eqn:E; [|destruct H..].
  exists s'. split; [reflexivity|].
  apply (hooks_always_end 1 booted s' tt [] (pr_world s') 2); [|exact E|exact H|constructor|].
  - apply booted_unstarted.
  - apply (demo_path_arg (lit "/hook/a.txt")). vm_compute. reflexivity.
Defined.

End witnesses.
