(* ===== verification/Lock.v ===== *)
(** * Lock discipline

    Threads that run hooks at the same time, action by action.  The manager
    and the heap ([g_xSqfsMgr] and what it points to) are shared and protected
    by the recursive mutex.  [disc] is the discipline of one program: what it
    does outside the lock neither reads nor writes the shared state, what it
    does inside does not touch the mutex, and lock and unlock are balanced. *)

From S2P Require Import Prelude Posix Prog Foreign State Logging System.

Section lock.
Context `{HU : UtHash} `{HE : Ext}.

(** ** Actions *)

(** The same world with other contents of the mutex, the manager and the heap. *)
Definition with_shared (mu : option (Z * nat)) (mg : sqfs_mgr) (h : gmap loc obj) (n : loc)
    (w : world) : world :=
  World (w_ext w) (w_errno w) mu mg h n (w_libc w) (w_dir_counter w) (w_fd_counter w) (w_log_fd w).

Definition outcome_map {A B} (f : A -> B) (o : outcome A) : outcome B :=
  match o with
  | Done a => Done (f a)
  | Blocked => Blocked
  | Fault => Fault
  | Spin => Spin
  end.

(** The action neither reads nor writes the shared state, and does not wait. *)
Definition oblivious {B} (f : world -> outcome (B * world)) : Prop :=
  ∀ w, f w ≠ Blocked ∧
  ∀ mu mg h n, f (with_shared mu mg h n w) = outcome_map (λ r, (r.1, with_shared mu mg h n r.2)) (f w).

(** The action may read and write the shared state, but not the mutex, and
    does not wait. *)
Definition guarded {B} (f : world -> outcome (B * world)) : Prop :=
  ∀ w, f w ≠ Blocked ∧ ∀ b w', f w = Done (b, w') -> w_mutex w' = w_mutex w.

Section thread.
Context (t : Z).

Definition locks {B} (f : world -> outcome (B * world)) : Prop :=
  ∀ w, match w_mutex w with
       | None => ∃ b, f w = Done (b, set_mutex (Some (t, 1%nat)) w)
       | Some (o, n) => if o =? t then ∃ b, f w = Done (b, set_mutex (Some (t, S n)) w)
                        else f w = Blocked
       end.

Definition unlocks {B} (f : world -> outcome (B * world)) : Prop :=
  ∀ w n, w_mutex w = Some (t, S n) ->
    ∃ b, f w = Done (b, set_mutex (match n with O => None | _ => Some (t, n) end) w).

(** [disc p d d']: a thread that holds the mutex [d] times runs [p] and holds
    it [d'] times at the end. *)
Fixpoint disc {A} (p : prog world A) (d d' : nat) : Prop :=
  match p with
  | Ret _ => d = d'
  | Act f k =>
      (oblivious f ∧ ∀ b, disc (k b) d d') ∨
      ((0 < d)%nat ∧ guarded f ∧ ∀ b, disc (k b) d d') ∨
      (locks f ∧ ∀ b, disc (k b) (S d) d') ∨
      (∃ d1, d = S d1 ∧ unlocks f ∧ ∀ b, disc (k b) d1 d')
  end.

(** ** Composition *)

Lemma disc_ret {A} (a : A) d : disc (Ret a) d d.
Proof. done. Qed.

Lemma disc_bind {A B} (p : prog world A) (q : A -> prog world B) d d1 d' :
  disc p d d1 -> (∀ a, disc (q a) d1 d') -> disc (prog_bind p q) d d'.
Proof.
  intros Hp Hq. revert d Hp. induction p as [a|C f k IH]; intros d Hp; cbn in *; [subst; apply Hq|].
  destruct Hp as [[Hf Hk]|[(Hd & Hf & Hk)|[[Hf Hk]|(d2 & -> & Hf & Hk)]]].
  - left. split; [done|]. intros b. by apply IH.
  - right; left. split; [done|]. split; [done|]. intros b. by apply IH.
  - right; right; left. split; [done|]. intros b. by apply IH.
  - right; right; right. exists d2. split; [done|]. split; [done|]. intros b. by apply IH.
Qed.

Lemma disc_oblivious {B} (f : world -> outcome (B * world)) d : oblivious f -> disc (act f) d d.
Proof. intros Hf. left. split; [done|]. by intros b. Qed.

Lemma disc_guarded {B} (f : world -> outcome (B * world)) d : guarded f -> disc (act f) (S d) (S d).
Proof. intros Hf. right; left. split; [lia|]. split; [done|]. by intros b. Qed.

(** ** The primitive actions *)

Lemma disc_fault {A} d : disc (fault : prog world A) d d.
Proof. by apply disc_oblivious. Qed.

Lemma disc_spin {A} d : disc (spin : prog world A) d d.
Proof. by apply disc_oblivious. Qed.

Lemma disc_gets {B} (f : world -> B) d :
  (∀ w mu mg h n, f (with_shared mu mg h n w) = f w) -> disc (gets f) d d.
Proof. intros Hf. apply disc_oblivious. intros w. split; [done|]. intros. cbn. by rewrite Hf. Qed.

Lemma disc_modify (f : world -> world) d :
  (∀ w mu mg h n, f (with_shared mu mg h n w) = with_shared mu mg h n (f w)) -> disc (modify f) d d.
Proof. intros Hf. apply disc_oblivious. intros w. split; [done|]. intros. cbn. by rewrite Hf. Qed.

Lemma disc_get_errno d : disc (get_errno t) d d.
Proof. by apply disc_gets. Qed.

Lemma disc_set_errno e d : disc (set_errno t e) d d.
Proof. by apply disc_modify. Qed.

Lemma disc_call {B} (c : foreign ext B) d : disc (call t c) d d.
Proof.
  apply disc_oblivious. intros w. split.
  - by destruct (c _ _) as [[b e] x].
  - intros mu mg h n. cbn. unfold errno_of. by destruct (c _ _) as [[b e] x].
Qed.

Lemma disc_call_at {B} p (c : Z -> foreign ext B) d : disc (call_at t p c) d d.
Proof. unfold call_at. destruct (p =? 0); [apply disc_fault|apply disc_call]. Qed.

Lemma disc_libc_call {B} sel (c : Z -> foreign ext B) d : disc (libc_call t sel c) d d.
Proof. eapply disc_bind; [by apply disc_gets|]. intros p. apply disc_call_at. Qed.

Lemma disc_lock d : disc (mutex_lock t) d (S d).
Proof.
  right; right; left. split; [|done]. intros w. destruct (w_mutex w) as [[o n]|]; [|by eexists].
  destruct (o =? t); [by eexists|done].
Qed.

Lemma disc_unlock d : disc (mutex_unlock t) (S d) d.
Proof.
  right; right; right. exists d. split; [done|]. split; [|done]. intros w n E. rewrite E, Z.eqb_refl. by eexists.
Qed.

(** What [locked] wraps only has to leave the mutex alone. *)
Lemma disc_locked {B} (f : world -> outcome (B * world)) d :
  guarded f -> disc (locked t f) (S d) (S d).
Proof.
  intros Hf. apply disc_guarded. intros w. destruct (holds_lock t w); [apply Hf|]. by split.
Qed.

Lemma disc_mgr_get {B} (f : sqfs_mgr -> B) d : disc (mgr_get t f) (S d) (S d).
Proof. apply disc_locked. intros w. split; [done|]. by intros b w' [= _ <-]. Qed.

Lemma disc_mgr_set f d : disc (mgr_set t f) (S d) (S d).
Proof. apply disc_locked. intros w. split; [done|]. by intros b w' [= _ <-]. Qed.

Lemma disc_heap_alloc o d : disc (heap_alloc t o) (S d) (S d).
Proof. apply disc_locked. intros w. split; [done|]. by intros b w' [= _ <-]. Qed.

Lemma disc_heap_free p d : disc (heap_free t p) (S d) (S d).
Proof.
  apply disc_locked. intros w. destruct (w_heap w !! p); [|done]. split; [done|]. by intros b w' [= _ <-].
Qed.

Lemma disc_load {B} (f : obj -> option B) p d : disc (load t f p) (S d) (S d).
Proof.
  apply disc_locked. intros w. destruct (w_heap w !! p ≫= f); [|done]. split; [done|]. by intros b' w' [= _ <-].
Qed.

Lemma disc_store p o d : disc (store t p o) (S d) (S d).
Proof.
  apply disc_locked. intros w. destruct (w_heap w !! p); [|done]. split; [done|]. by intros b w' [= _ <-].
Qed.

Lemma disc_malloc o d : disc (malloc t o) (S d) (S d).
Proof.
  eapply disc_bind; [apply disc_call|]. intros [].
  - eapply disc_bind; [apply disc_heap_alloc|]. intros p. apply disc_ret.
  - apply disc_ret.
Qed.

End thread.
End lock.

(** ** Automation

    [disc_tac] follows the structure of a program; the hint database [disc]
    holds the facts about the functions it calls. *)

Create HintDb disc discriminated.
#[export] Hint Constants Opaque : disc.
#[export] Hint Resolve disc_ret disc_fault disc_spin disc_get_errno disc_set_errno disc_call disc_call_at
  disc_libc_call disc_lock disc_unlock disc_mgr_get disc_mgr_set disc_heap_alloc disc_heap_free disc_load
  disc_store disc_malloc : disc.
#[export] Hint Extern 1 (disc _ (gets _) _ _) => by apply disc_gets : disc.
#[export] Hint Extern 1 (disc _ (modify _) _ _) => by apply disc_modify : disc.

Ltac disc_tac :=
  repeat (intros; cbv zeta;
    lazymatch goal with
    | |- disc _ (prog_bind _ _) _ _ => eapply disc_bind
    | |- disc _ (match ?x with _ => _ end) _ _ => destruct x
    | |- disc _ _ _ _ => solve [eauto with disc]
    end).
