(* ===== verification/LockFacts.v ===== *)
(** * Every hook follows the lock discipline *)

From S2P Require Import Prelude CString Posix Path Prog Foreign State Logging Backing Inode Seek Image.
From S2P Require Import FdOps StatOps DirOps System Lock.

Section facts.
Context `{HP : Platform} `{HU : UtHash} `{HE : Ext} `{HF : Fuel}.
Context (t : Z).

(** ** Logging *)

Lemma disc_log_write_loop n : ∀ fd p d, disc t (log_write_loop n t fd p) d d.
Proof. induction n as [|n IH]; intros fd p d; destruct p; cbn [log_write_loop]; disc_tac; apply IH. Qed.

Lemma disc_log_write p d : disc t (log_write t p) d d.
Proof. unfold log_write, log_output_init_once. disc_tac. apply disc_log_write_loop. Qed.
#[local] Hint Resolve disc_log_write : disc.

Lemma disc_log_hook f text d : disc t (log_hook t f text) d d.
Proof. unfold log_hook. disc_tac. Qed.

Lemma disc_log_msg text d : disc t (log_msg t text) d d.
Proof. unfold log_msg. disc_tac. Qed.
#[local] Hint Resolve disc_log_hook disc_log_msg : disc.

(** ** Backing objects *)

Lemma disc_next_dir_id d : disc t next_dir_id d d.
Proof. by apply disc_oblivious. Qed.

Lemma disc_next_fd_id d : disc t next_fd_id d d.
Proof. by apply disc_oblivious. Qed.
#[local] Hint Resolve disc_next_dir_id disc_next_fd_id : disc.

Lemma disc_backing_dir_loop n d : disc t (backing_dir_loop t n) d d.
Proof. induction n as [|n IH]; cbn [backing_dir_loop]; disc_tac; apply IH. Qed.

Lemma disc_unlinked_tmp_loop n flags d : disc t (unlinked_tmp_loop t n flags) d d.
Proof. induction n as [|n IH]; cbn [unlinked_tmp_loop]; disc_tac; apply IH. Qed.
#[local] Hint Resolve disc_backing_dir_loop disc_unlinked_tmp_loop : disc.

Lemma disc_create_backing_dir d : disc t (create_backing_dir t) d d.
Proof. apply disc_backing_dir_loop. Qed.

Lemma disc_create_backing_fd flags d : disc t (create_backing_fd t flags) d d.
Proof. unfold create_backing_fd, create_memfd, create_unlinked_tmp_fd. disc_tac. Qed.
#[local] Hint Resolve disc_create_backing_dir disc_create_backing_fd : disc.

(** ** The image *)

Lemma disc_convert_local p d : disc t (convert_local p) d d.
Proof. unfold convert_local. disc_tac. Qed.

Lemma disc_check_local p d : disc t (check_local p) d d.
Proof. unfold check_local. disc_tac. Qed.

Lemma disc_loaded d : disc t (sqfs_mgr_loaded_locked t) (S d) (S d).
Proof. unfold sqfs_mgr_loaded_locked. disc_tac. Qed.

Lemma disc_sqfs_destroy p d : disc t (sqfs_destroy t p) (S d) (S d).
Proof. unfold sqfs_destroy. disc_tac. Qed.

Lemma disc_sqfs_free p d : disc t (sqfs_free t p) (S d) (S d).
Proof. unfold sqfs_free. disc_tac. Qed.

Lemma disc_mgr_handle f d : disc t (mgr_handle t f) (S d) (S d).
Proof. unfold mgr_handle. disc_tac. Qed.

Lemma disc_new_handle h d : disc t (new_handle t h) (S d) (S d).
Proof. unfold new_handle. disc_tac. Qed.
#[local] Hint Resolve disc_convert_local disc_check_local disc_loaded disc_sqfs_destroy disc_sqfs_free
  disc_mgr_handle disc_new_handle : disc.

Lemma disc_new_dir_reader d : disc t (new_dir_reader t) (S d) (S d).
Proof. unfold new_dir_reader. disc_tac. Qed.
#[local] Hint Resolve disc_new_dir_reader : disc.

Lemma disc_find_inode rel d : disc t (sqfs_find_inode t rel) (S d) (S d).
Proof. unfold sqfs_find_inode. disc_tac. Qed.
#[local] Hint Resolve disc_find_inode : disc.

Lemma disc_unload_image d : disc t (sqfs_mgr_unload_image t) (S d) (S d).
Proof. unfold sqfs_mgr_unload_image. disc_tac. Qed.
#[local] Hint Resolve disc_unload_image : disc.

Lemma disc_log_failure f e d : disc t (sqfs_util_log_failure t f e) d d.
Proof. apply disc_log_msg. Qed.

Lemma disc_super_info super d : disc t (sqfs_util_super_info t super) d d.
Proof. unfold sqfs_util_super_info. disc_tac. Qed.
#[local] Hint Resolve disc_log_failure disc_super_info : disc.

Lemma disc_load_data_reader d : disc t (load_data_reader t) (S d) (S d).
Proof. unfold load_data_reader, load_failed. disc_tac. Qed.
#[local] Hint Resolve disc_load_data_reader : disc.

Lemma disc_load_compressor d : disc t (load_compressor t) (S d) (S d).
Proof. unfold load_compressor, load_failed. disc_tac. Qed.
#[local] Hint Resolve disc_load_compressor : disc.

Lemma disc_load_image d : disc t (sqfs_mgr_load_image t) d d.
Proof. unfold sqfs_mgr_load_image, load_image_locked, load_failed, sqfs_lock, sqfs_unlock. disc_tac. Qed.

(** ** Descriptors *)

Lemma disc_find_fd fd d : disc t (find_fd t fd) (S d) (S d).
Proof. apply disc_mgr_get. Qed.
#[local] Hint Resolve disc_find_fd : disc.

Lemma disc_open_error_inode ip rel flags d :
  disc t (open_error_and_free_inode t ip rel flags) (S d) d.
Proof. unfold open_error_and_free_inode, sqfs_unlock. disc_tac. Qed.
#[local] Hint Resolve disc_open_error_inode : disc.

Lemma disc_open_error_fd fd ip rel flags d :
  disc t (open_error_and_free_fd t fd ip rel flags) (S d) d.
Proof. unfold open_error_and_free_fd. disc_tac. Qed.
#[local] Hint Resolve disc_open_error_fd : disc.

Lemma disc_sqfs_open p flags mode d : disc t (sqfs_open t p flags mode) d d.
Proof. unfold sqfs_open, open_in_image, sqfs_lock, sqfs_unlock. disc_tac. Qed.

Lemma disc_sqfs_read fd count d : disc t (sqfs_read t fd count) d d.
Proof. unfold sqfs_read, read_mapped, sqfs_lock, sqfs_unlock. disc_tac. Qed.

Lemma disc_pread_mapped func p count offset d : disc t (sqfs_pread_mapped t func p count offset) (S d) (S d).
Proof. unfold sqfs_pread_mapped. disc_tac. Qed.

Lemma disc_seek_log func what p offset whence old new err d :
  disc t (seek_log t func what p offset whence old new err) (S d) (S d).
Proof. unfold seek_log. disc_tac. Qed.
#[local] Hint Resolve disc_pread_mapped disc_seek_log : disc.

Lemma disc_lseek_mapped func p offset whence mx d :
  disc t (sqfs_lseek_mapped t func p offset whence mx) (S d) (S d).
Proof. unfold sqfs_lseek_mapped. disc_tac. Qed.
#[local] Hint Resolve disc_lseek_mapped : disc.

Lemma disc_sqfs_pread fd count offset d : disc t (sqfs_pread t fd count offset) d d.
Proof. unfold sqfs_pread, sqfs_lock, sqfs_unlock. disc_tac. Qed.

Lemma disc_sqfs_pread64 fd count offset d : disc t (sqfs_pread64 t fd count offset) d d.
Proof. unfold sqfs_pread64, sqfs_lock, sqfs_unlock. disc_tac. Qed.

Lemma disc_sqfs_lseek fd offset whence d : disc t (sqfs_lseek t fd offset whence) d d.
Proof. unfold sqfs_lseek, sqfs_lock, sqfs_unlock. disc_tac. Qed.

Lemma disc_sqfs_lseek64 fd offset whence d : disc t (sqfs_lseek64 t fd offset whence) d d.
Proof. unfold sqfs_lseek64, sqfs_lock, sqfs_unlock. disc_tac. Qed.

Lemma disc_close_impl func fd addr d : disc t (sqfs_close_impl t func fd addr) d d.
Proof. unfold sqfs_close_impl, close_unmap, entry_inode_number, sqfs_lock, sqfs_unlock. disc_tac. Qed.
#[local] Hint Resolve disc_close_impl : disc.

Lemma disc_sqfs_close fd d : disc t (sqfs_close t fd) d d.
Proof. unfold sqfs_close. disc_tac. Qed.

Lemma disc_sqfs_close_nocancel fd d : disc t (sqfs_close_nocancel t fd) d d.
Proof. unfold sqfs_close_nocancel. disc_tac. Qed.

(** ** Attributes *)

Lemma disc_stat_impl rel d : disc t (sqfs_stat_impl t rel) (S d) (S d).
Proof. unfold sqfs_stat_impl. disc_tac. Qed.

Lemma disc_access_denied p mode m d : disc t (access_denied t p mode m) d d.
Proof. unfold access_denied. disc_tac. Qed.
#[local] Hint Resolve disc_stat_impl disc_access_denied : disc.

Lemma disc_sqfs_xstat ver p buf d : disc t (sqfs_xstat t ver p buf) d d.
Proof. unfold sqfs_xstat, sqfs_lock, sqfs_unlock. disc_tac. Qed.

Lemma disc_sqfs_access p mode d : disc t (sqfs_access t p mode) d d.
Proof. unfold sqfs_access, sqfs_lock, sqfs_unlock. disc_tac. Qed.

(** ** Streams *)

Lemma disc_free_nodes nodes d : disc t (free_nodes t nodes) (S d) (S d).
Proof. induction nodes as [|p nodes IH]; cbn [free_nodes]; disc_tac; apply IH. Qed.

Lemma disc_update_entry p f d : disc t (update_entry t p f) (S d) (S d).
Proof. unfold update_entry. disc_tac. Qed.
#[local] Hint Resolve disc_free_nodes disc_update_entry : disc.

Lemma disc_free_list p d : disc t (free_sqfs_dir_entry_list t p) (S d) (S d).
Proof. unfold free_sqfs_dir_entry_list. disc_tac. Qed.
#[local] Hint Resolve disc_free_list : disc.

Lemma disc_enumerate_loop n rd p d : disc t (enumerate_loop t n rd p) (S d) (S d).
Proof. induction n as [|n IH]; cbn [enumerate_loop]; disc_tac; apply IH. Qed.

Lemma disc_enumerate_dir rd p d : disc t (enumerate_dir t rd p) (S d) (S d).
Proof. apply disc_enumerate_loop. Qed.

Lemma disc_opendir_unlock u r d : disc t (opendir_unlock t u r) (S d) d.
Proof. unfold opendir_unlock, sqfs_unlock. disc_tac. Qed.
#[local] Hint Resolve disc_enumerate_dir disc_opendir_unlock : disc.

Lemma disc_opendir_out u ip rd d : disc t (opendir_out t u ip rd) (S d) d.
Proof. unfold opendir_out. disc_tac. Qed.
#[local] Hint Resolve disc_opendir_out : disc.

Lemma disc_opendir_register b u ip rd d : disc t (opendir_register t b u ip rd) (S d) d.
Proof. unfold opendir_register. disc_tac. Qed.
#[local] Hint Resolve disc_opendir_register : disc.

Lemma disc_opendir_locked rel b u d : disc t (opendir_locked t rel b u) (S d) d.
Proof. unfold opendir_locked. disc_tac. Qed.
#[local] Hint Resolve disc_opendir_locked : disc.

Lemma disc_sqfs_opendir p d : disc t (sqfs_opendir t p) d d.
Proof. unfold sqfs_opendir, sqfs_lock. disc_tac. Qed.

Lemma disc_dump_if b prefix e d : disc t (dump_if t b prefix e) d d.
Proof. unfold dump_if, dump_dirent. disc_tac. Qed.
#[local] Hint Resolve disc_dump_if : disc.

Lemma disc_readdir_image p b d : disc t (readdir_image t p b) (S d) d.
Proof. unfold readdir_image, sqfs_unlock. disc_tac. Qed.
#[local] Hint Resolve disc_readdir_image : disc.

Lemma disc_sqfs_readdir dirp d : disc t (sqfs_readdir t dirp) d d.
Proof. unfold sqfs_readdir, sqfs_lock, sqfs_unlock. disc_tac. Qed.

Lemma disc_sqfs_closedir dirp d : disc t (sqfs_closedir t dirp) d d.
Proof. unfold sqfs_closedir, sqfs_lock, sqfs_unlock. disc_tac. Qed.

(** ** All hooks *)

#[local] Hint Resolve disc_sqfs_open disc_sqfs_read disc_sqfs_pread disc_sqfs_pread64 disc_sqfs_lseek
  disc_sqfs_lseek64 disc_sqfs_close disc_sqfs_close_nocancel disc_sqfs_xstat disc_sqfs_access
  disc_sqfs_opendir disc_sqfs_readdir disc_sqfs_closedir : disc.

Lemma disc_hook_prog c d : disc t (hook_prog t c) d d.
Proof. destruct c; unfold hook_prog, ret_int, ret_data; disc_tac. Qed.

End facts.
