(* ===== verification/LockProps.v ===== *)
(** * Threads that run hooks at the same time

    The interleavings of any number of threads, each making any sequence of
    calls, action by action: only the thread that holds the mutex touches the
    manager or the heap, some thread can always go on, and the mutex is free
    at the end. *)

From S2P Require Import Prelude CString Posix Prog Foreign State Logging Demo.
From S2P Require Import MountFacts System Lock LockFacts.

Section props.
Context `{HP : Platform} `{HU : UtHash} `{HE : Ext} `{HF : Fuel}.

(** ** Pools of threads *)

(** A thread that makes the calls one after the other. *)
Fixpoint calls_prog (t : Z) (calls : list hook_call) : prog world (list hook_result) :=
  match calls with
  | [] => Ret []
  | c :: calls => do r <- hook_prog t c; do rs <- calls_prog t calls; Ret (r :: rs)
  end.

(** The process and what is left to do of every thread. *)
Record pool := Pool {
  p_world : world;
  p_threads : gmap Z (prog world (list hook_result));
}.

(** One action of one thread, or a move of the world outside. *)
Inductive pool_step : pool -> pool -> Prop :=
| ps_thread w tp t B (f : world -> outcome (B * world)) k b w' :
    tp !! t = Some (Act f k) -> f w = Done (b, w') -> pool_step (Pool w tp) (Pool w' (<[t := k b]> tp))
| ps_env w tp er x : pool_step (Pool w tp) (Pool (set_errnos er (set_ext x w)) tp).

Definition start_pool (w : world) (calls : gmap Z (list hook_call)) : pool :=
  Pool w (map_imap (λ t cs, Some (calls_prog t cs)) calls).

(** ** The invariant of the lock *)

(** [dep t] is how often thread [t] holds the mutex. *)
Definition lock_inv (dep : Z -> nat) (c : pool) : Prop :=
  (∀ t p, p_threads c !! t = Some p -> disc t p (dep t) 0) ∧
  (∀ t, p_threads c !! t = None -> dep t = O) ∧
  match w_mutex (p_world c) with
  | None => ∀ t, dep t = O
  | Some (o, n) => (0 < n)%nat ∧ dep o = n ∧ ∀ t, t ≠ o -> dep t = O
  end.

Lemma disc_calls_prog t calls d : disc t (calls_prog t calls) d d.
Proof.
  induction calls as [|c calls IH]; cbn [calls_prog]; [apply disc_ret|].
  eapply disc_bind; [apply disc_hook_prog|]. intros r. eapply disc_bind; [apply IH|].
  intros rs. apply disc_ret.
Qed.

Lemma start_inv w calls : w_mutex w = None -> lock_inv (λ _, O) (start_pool w calls).
Proof.
  intros Hmu. split; [|split; [done|]].
  - intros t p. cbn [p_threads start_pool]. rewrite map_lookup_imap.
    destruct (calls !! t) as [cs|]; [|done]. cbn. intros [= <-]. apply disc_calls_prog.
  - cbn [p_world start_pool]. by rewrite Hmu.
Qed.

(** An oblivious action leaves the mutex alone: the state it would find with
    another mutex is the same but for that. *)
Lemma oblivious_mutex {B} (f : world -> outcome (B * world)) w b w' :
  oblivious f -> f w = Done (b, w') -> w_mutex w' = w_mutex w.
Proof.
  intros Hf Hw. destruct (Hf w) as [_ Hs]. specialize (Hs (w_mutex w) (w_mgr w) (w_heap w) (w_next w)).
  replace (with_shared (w_mutex w) (w_mgr w) (w_heap w) (w_next w) w) with w in Hs by by destruct w.
  rewrite Hw in Hs. cbn in Hs. injection Hs as Hs. by rewrite Hs.
Qed.

(** What is left of a thread follows the discipline from its new depth. *)
Lemma lock_inv_thread dep w tp t w' p d :
  lock_inv dep (Pool w tp) -> is_Some (tp !! t) -> disc t p d 0 ->
  match w_mutex w' with
  | None => d = O ∧ ∀ t', t' ≠ t -> dep t' = O
  | Some (o, n) => (0 < n)%nat ∧ (if decide (o = t) then d else dep o) = n ∧
                   ∀ t', t' ≠ o -> (if decide (t' = t) then d else dep t') = O
  end ->
  lock_inv (λ t', if decide (t' = t) then d else dep t') (Pool w' (<[t := p]> tp)).
Proof.
  intros (Hd & Hn & _) [q Hq] Hp Hm. cbn [p_world p_threads] in *. split; [|split].
  - intros t' p'. cbn [p_threads]. rewrite lookup_insert. case_decide.
    + subst t'. intros [= <-]. by rewrite decide_True.
    + intros Hp'. rewrite decide_False by done. by apply Hd.
  - intros t'. cbn [p_threads]. rewrite lookup_insert. case_decide; [done|]. intros Hn'.
    rewrite decide_False by done. by apply Hn.
  - cbn [p_world]. destruct (w_mutex w') as [[o n]|]; [done|]. destruct Hm as [-> Hm].
    intros t'. case_decide; [done|by apply Hm].
Qed.

(** A thread that is not inside leaves the others where they are. *)
Lemma lock_inv_same dep w w' tp t p :
  lock_inv dep (Pool w tp) -> is_Some (tp !! t) -> disc t p (dep t) 0 -> w_mutex w' = w_mutex w ->
  lock_inv (λ t', if decide (t' = t) then dep t else dep t') (Pool w' (<[t := p]> tp)).
Proof.
  intros Hi Ht Hp Hm. eapply lock_inv_thread; [exact Hi|done|done|]. rewrite Hm.
  destruct Hi as (_ & _ & Hi). cbn [p_world] in Hi. destruct (w_mutex w) as [[o n]|].
  - destruct Hi as (Hpos & Hn & Ho). split; [done|]. split; [by case_decide; subst|].
    intros t' Hne. case_decide; subst; by apply Ho.
  - split; [apply Hi|]. intros; apply Hi.
Qed.

Lemma lock_inv_step dep c c' : lock_inv dep c -> pool_step c c' -> ∃ dep', lock_inv dep' c'.
Proof.
  intros Hi Hs. destruct Hs as [w tp t B f k b w' Htp Hf|w tp er x]; [|exists dep; exact Hi].
  assert (Hsome : is_Some (tp !! t)) by by rewrite Htp.
  pose proof Hi as (Hd & Hn & Hm). pose proof (Hd t _ Htp) as Hp. cbn [p_world p_threads disc] in *.
  destruct Hp as [[Hob Hk]|[(Hpos & Hgu & Hk)|[[Hlk Hk]|(d1 & Hdep & Hun & Hk)]]].
  - eexists. eapply lock_inv_same; [done..|apply Hk|by eapply oblivious_mutex].
  - eexists. eapply lock_inv_same; [done..|apply Hk|]. destruct (Hgu w) as [_ Hg]. by eapply Hg.
  - eexists. eapply lock_inv_thread; [done..|apply Hk|]. specialize (Hlk w).
    destruct (w_mutex w) as [[o n]|].
    + destruct (Z.eqb_spec o t) as [->|]; [|congruence]. destruct Hlk as [b' E]. rewrite Hf in E.
      injection E as _ ->. cbn [w_mutex set_mutex]. destruct Hm as (_ & Hdt & Ho).
      rewrite decide_True by done. split; [lia|]. split; [by f_equal|].
      intros t' Hne. rewrite decide_False by done. by apply Ho.
    + destruct Hlk as [b' E]. rewrite Hf in E. injection E as _ ->. cbn [w_mutex set_mutex].
      rewrite decide_True by done. split; [lia|]. split; [by rewrite Hm|].
      intros t' Hne. rewrite decide_False by done. apply Hm.
  - eexists. eapply lock_inv_thread; [done..|apply Hk|].
    assert (Hmu : w_mutex w = Some (t, S d1)).
    { destruct (w_mutex w) as [[o n]|]; [|by rewrite Hm in Hdep]. destruct Hm as (_ & Hdo & Ho).
      destruct (decide (t = o)) as [->|Hne]; [by rewrite <- Hdo, Hdep|]. rewrite Ho in Hdep by done. done. }
    destruct (Hun w d1 Hmu) as [b' E]. rewrite Hf in E. injection E as _ ->. cbn [w_mutex set_mutex].
    rewrite Hmu in Hm. destruct Hm as (_ & _ & Ho). destruct d1 as [|d1]; [done|].
    rewrite decide_True by done. split; [lia|]. split; [done|].
    intros t' Hne. rewrite decide_False by done. by apply Ho.
Qed.

Lemma lock_inv_reachable w calls c :
  w_mutex w = None -> rtc pool_step (start_pool w calls) c -> ∃ dep, lock_inv dep c.
Proof.
  intros Hmu Hr. assert (Hi : ∃ dep, lock_inv dep (start_pool w calls)) by (eexists; by apply start_inv).
  induction Hr as [c|c1 c2 c3 Hs _ IH]; [done|]. destruct Hi as [dep Hi]. apply IH. by eapply lock_inv_step.
Qed.

(** ** Freedom from races and deadlocks *)

(** The next action of a thread. *)
Definition next_action (c : pool) (t : Z) {B} (f : world -> outcome (B * world)) : Prop :=
  ∃ k, p_threads c !! t = Some (Act f k).

(** An action on the shared state: it depends on the manager, the heap or the
    mutex, or changes them, and is not the acquisition of the mutex. *)
Definition on_shared {B} (t : Z) (f : world -> outcome (B * world)) : Prop := ¬ oblivious f ∧ ¬ locks t f.

Record race_free (c : pool) : Prop := {
  rf_owner t B (f : world -> outcome (B * world)) :
    next_action c t f -> on_shared t f -> ∃ n, w_mutex (p_world c) = Some (t, S n);
  rf_exclusive t1 t2 B1 B2 (f1 : world -> outcome (B1 * world)) (f2 : world -> outcome (B2 * world)) :
    next_action c t1 f1 -> next_action c t2 f2 -> on_shared t1 f1 -> on_shared t2 f2 -> t1 = t2;
  rf_progress t B (f : world -> outcome (B * world)) :
    next_action c t f ->
    ∃ t' B' (f' : world -> outcome (B' * world)), next_action c t' f' ∧ f' (p_world c) ≠ Blocked;
  rf_finished :
    (∀ t p, p_threads c !! t = Some p -> ∃ rs, p = Ret rs) -> w_mutex (p_world c) = None;
}.

Lemma inv_owner dep c t B (f : world -> outcome (B * world)) :
  lock_inv dep c -> next_action c t f -> on_shared t f -> ∃ n, w_mutex (p_world c) = Some (t, S n).
Proof.
  intros (Hd & _ & Hm) [k Htp] [Hno Hnl]. pose proof (Hd t _ Htp) as Hp. cbn [disc] in Hp.
  assert (Hpos : (0 < dep t)%nat).
  { destruct Hp as [[? _]|[(? & _)|[[? _]|(d1 & -> & _)]]]; [done|done|done|lia]. }
  destruct (w_mutex (p_world c)) as [[o n]|]; [|rewrite Hm in Hpos; lia]. destruct Hm as (_ & Hdo & Ho).
  destruct (decide (t = o)) as [->|Hne]; [|rewrite Ho in Hpos by done; lia].
  exists (Nat.pred n). do 2 f_equal. lia.
Qed.

(** What the holder of the mutex does next, or any thread when it is free, does
    not wait. *)
Lemma inv_runs dep c t B (f : world -> outcome (B * world)) :
  lock_inv dep c -> next_action c t f ->
  (∀ o n, w_mutex (p_world c) = Some (o, n) -> o = t) -> f (p_world c) ≠ Blocked.
Proof.
  intros (Hd & _ & Hm) [k Htp] Hown. pose proof (Hd t _ Htp) as Hp. cbn [disc] in Hp.
  destruct Hp as [[Hob _]|[(_ & Hgu & _)|[[Hlk _]|(d1 & Hdep & Hun & _)]]].
  - apply Hob.
  - apply Hgu.
  - specialize (Hlk (p_world c)). destruct (w_mutex (p_world c)) as [[o n]|].
    + rewrite (Hown o n eq_refl), Z.eqb_refl in Hlk. destruct Hlk as [? ->]. done.
    + destruct Hlk as [? ->]. done.
  - destruct (w_mutex (p_world c)) as [[o n]|] eqn:E; [|by rewrite Hm in Hdep].
    pose proof (Hown o n eq_refl) as ->. destruct Hm as (_ & Hdo & _).
    destruct (Hun (p_world c) d1) as [? ->]; [rewrite E; do 2 f_equal; congruence|done].
Qed.

Lemma inv_race_free dep c : lock_inv dep c -> race_free c.
Proof.
  intros Hi. pose proof Hi as (Hd & Hn & Hm). constructor.
  - intros t B f. by eapply inv_owner.
  - intros t1 t2 B1 B2 f1 f2 Ha1 Ha2 Hs1 Hs2. destruct (inv_owner _ _ _ _ _ Hi Ha1 Hs1) as [n1 E1].
    destruct (inv_owner _ _ _ _ _ Hi Ha2 Hs2) as [n2 E2]. congruence.
  - intros t B f Ha. destruct (w_mutex (p_world c)) as [[o n]|] eqn:E.
    + destruct Hm as (Hpos & Hdo & _). destruct (p_threads c !! o) as [p|] eqn:Eo; [|rewrite Hn in Hdo by done; lia].
      pose proof (Hd o p Eo) as Hp. destruct p as [rs|B' f' k']; [cbn in Hp; lia|].
      exists o, B', f'. split; [by exists k'|]. eapply inv_runs; [exact Hi|by exists k'|]. rewrite E. congruence.
    + exists t, B, f. split; [done|]. eapply inv_runs; [exact Hi|done|]. rewrite E. congruence.
  - intros Hfin. destruct (w_mutex (p_world c)) as [[o n]|]; [|done]. destruct Hm as (Hpos & Hdo & _).
    destruct (p_threads c !! o) as [p|] eqn:Eo; [|rewrite Hn in Hdo by done; lia].
    destruct (Hfin o p Eo) as [rs ->]. pose proof (Hd o _ Eo) as Hp. cbn in Hp. lia.
Qed.

(** C6: however the actions of the threads are interleaved, the next action of
    a thread concerns the shared manager and heap only while that thread holds
    the mutex, so no two threads ever race for them; while some thread is not
    done, some thread does not wait for the mutex; and when all are done the
    mutex is free. *)
Theorem hooks_race_free w calls c :
  w_mutex w = None -> rtc pool_step (start_pool w calls) c -> race_free c.
Proof.
  intros Hmu Hr. destruct (lock_inv_reachable w calls c Hmu Hr) as [dep Hi]. by eapply inv_race_free.
Qed.

End props.

(** ** Witness *)

Section witnesses.
#[local] Existing Instances demo64 demo_hash demo_ext demo_fuel.

(** Thread 1 reads from descriptor 3 while thread 2 closes it: after the first
    action thread 1 is inside, and thread 2 waits. *)
Lemma hooks_race_free_witness :
  ∃ c, rtc pool_step (start_pool demo_world {[1 := [CRead 3 4]; 2 := [CClose 3]]}) c ∧
    w_mutex (p_world c) = Some (1, 1%nat) ∧ race_free c.
Proof.
  assert (∃ c, rtc pool_step (start_pool demo_world {[1 := [CRead 3 4]; 2 := [CClose 3]]}) c ∧
    w_mutex (p_world c) = Some (1, 1%nat)) as (c & Hr & Hm).
  { eexists. split.
    - eapply rtc_l; [|apply rtc_refl]. unfold start_pool. eapply (ps_thread _ _ 1).
      + rewrite map_lookup_imap. cbn [mbind option_bind]. reflexivity.
      + reflexivity.
    - reflexivity. }
  exists c. split; [exact Hr|]. split; [exact Hm|].
  exact (hooks_race_free demo_world {[1 := [CRead 3 4]; 2 := [CClose 3]]} c eq_refl Hr).
Defined.

End witnesses.
